(** * Jig: schema normalisation, key restoration, backend clients, pairing store

    A shallow embedding of [jig/utils.py], [jig/client.py],
    [jig/ollama_client.py], [jig/repository.py] and [jig/factory.py]:
    the parts that carry the contracts of the specification with the
    theorems that settle them, and then further properties of the same
    code.

    Conventions of the embedding:
    - a JSON value is the tree [json]; a Python [dict] is an association
      list in insertion order whose keys are pairwise distinct
      ([wf_json]); [d[k] = v] is [dict_set] (overwrite in place, else
      append), [d.get(k)] is [dict_get];
    - Python [str] is [string]; [lower()] acts on ASCII letters;
    - JSON numbers are integers: the code only tests them for
      truthiness, and names their type in one message;
    - the store is read from a disk that can hold more than [save]
      writes: files that are no UTF-8, directories in the place of files,
      places that cannot be examined;
    - a Python exception is [Raise cls msg]; the recursion of [_norm] and
      [_fix_required] runs on a fuel bound that the entry point sets to
      the nesting depth of its argument, and [OutOfFuel] is shown never
      to surface there. *)

From Stdlib Require Import String Ascii List ZArith Bool Arith Lia DecimalString.
Import ListNotations.
Local Open Scope string_scope.
Local Open Scope list_scope.

(* ===================================================================== *)
(** ** JSON values and Python dictionaries *)
(* ===================================================================== *)

Unset Elimination Schemes.
Inductive json : Type :=
| JNull
| JBool (b : bool)
| JNum (n : Z)
| JStr (s : string)
| JArr (l : list json)
| JObj (d : list (string * json)).
Set Elimination Schemes.

(** A [dict] with string keys, in insertion order. *)
Definition dict (V : Type) : Type := list (string * V).

Section Dict.
Context {V : Type}.

(** [d.get(k)] *)
Fixpoint dict_get (k : string) (d : dict V) : option V :=
  match d with
  | [] => None
  | (k', v) :: d' => if String.eqb k k' then Some v else dict_get k d'
  end.

(** [k in d] *)
Definition dict_mem (k : string) (d : dict V) : bool :=
  match dict_get k d with Some _ => true | None => false end.

(** [d[k] = v]: an existing key keeps its position, a new one goes last. *)
Fixpoint dict_set (k : string) (v : V) (d : dict V) : dict V :=
  match d with
  | [] => [(k, v)]
  | (k', v') :: d' =>
      if String.eqb k k' then (k', v) :: d' else (k', v') :: dict_set k v d'
  end.

(** [list(d.keys())] and [d.values()] *)
Definition dict_keys (d : dict V) : list string := map fst d.
Definition dict_values (d : dict V) : list V := map snd d.
End Dict.

(** Python truthiness of a JSON value. *)
Definition truthy (j : json) : bool :=
  match j with
  | JNull => false
  | JBool b => b
  | JNum n => negb (Z.eqb n 0)
  | JStr s => negb (String.eqb s "")
  | JArr l => match l with [] => false | _ => true end
  | JObj d => match d with [] => false | _ => true end
  end.

Definition is_dict (j : json) : bool :=
  match j with JObj _ => true | _ => false end.

Definition is_str (j : json) : bool :=
  match j with JStr _ => true | _ => false end.

(** Nesting depth of dictionaries: the recursion bound of the walkers. *)
Fixpoint json_depth (j : json) : nat :=
  match j with
  | JArr l => fold_right (fun x n => Nat.max (json_depth x) n) 0 l
  | JObj d => S (fold_right (fun kv n => Nat.max (json_depth (snd kv)) n) 0 d)
  | _ => 0
  end.

(** Keys of every dictionary are pairwise distinct, at every depth. *)
Fixpoint nodupb (l : list string) : bool :=
  match l with
  | [] => true
  | x :: l' => negb (existsb (String.eqb x) l') && nodupb l'
  end.

Fixpoint wf_json (j : json) : bool :=
  match j with
  | JArr l => forallb wf_json l
  | JObj d => nodupb (map fst d) && forallb (fun kv => wf_json (snd kv)) d
  | _ => true
  end.

(* ===================================================================== *)
(** ** Exceptions and results *)
(* ===================================================================== *)

Inductive exn_class : Type :=
| AttributeError
| TypeError
| RequestException
| JSONDecodeError
| RuntimeError
| OSError
| KeyboardInterrupt.

Inductive Res (A : Type) : Type :=
| Ok (a : A)
| Raise (c : exn_class) (msg : string)
| OutOfFuel.
Arguments Ok {A} a.
Arguments Raise {A} c msg.
Arguments OutOfFuel {A}.

Definition rbind {A B} (c : Res A) (k : A -> Res B) : Res B :=
  match c with
  | Ok a => k a
  | Raise c m => Raise c m
  | OutOfFuel => OutOfFuel
  end.

Declare Scope res_scope.
Delimit Scope res_scope with res.
Notation "x <- c ;; k" := (rbind c (fun x => k))
  (at level 61, c at next level, right associativity) : res_scope.

Fixpoint rmapM {A B} (f : A -> Res B) (l : list A) : Res (list B) :=
  match l with
  | [] => Ok []
  | x :: l' => (y <- f x ;; ys <- rmapM f l' ;; Ok (y :: ys))%res
  end.

(* ===================================================================== *)
(** ** jig/utils.py: schema normalisation *)
(* ===================================================================== *)

Module Utils.

Definition _RESERVED_PROP_NAMES : list string :=
  ["required"; "properties"; "type"; "items"; "additionalProperties"].

Definition _RESERVED_RENAME_PREFIX : string := "_prop_".

(** [k in _RESERVED_PROP_NAMES] for a string [k] *)
Definition reserved (k : string) : bool :=
  existsb (String.eqb k) _RESERVED_PROP_NAMES.

(** The rename map under construction: the closure variable [rename_map]. *)
Definition rmap : Type := dict string.

(** State (the rename map) and exceptions. *)
Definition M (A : Type) : Type := rmap -> Res (A * rmap).

Definition ret {A} (a : A) : M A := fun rm => Ok (a, rm).
Definition bind {A B} (c : M A) (k : A -> M B) : M B :=
  fun rm => match c rm with
            | Ok (a, rm') => k a rm'
            | Raise c m => Raise c m
            | OutOfFuel => OutOfFuel
            end.
Definition raise {A} (c : exn_class) (msg : string) : M A := fun _ => Raise c msg.
Definition out_of_fuel {A} : M A := fun _ => OutOfFuel.
(** [rename_map[new_name] = k] *)
Definition record_rename (new_name k : string) : M unit :=
  fun rm => Ok (tt, dict_set new_name k rm).

Declare Scope m_scope.
Delimit Scope m_scope with M.
Notation "x <- c ;; k" := (bind c (fun x => k))
  (at level 61, c at next level, right associativity) : m_scope.
Notation "c ;;; k" := (bind c (fun _ => k))
  (at level 61, right associativity) : m_scope.

Fixpoint mapM {A B} (f : A -> M B) (l : list A) : M (list B) :=
  match l with
  | [] => ret []
  | x :: l' => (y <- f x ;; ys <- mapM f l' ;; ret (y :: ys))%M
  end.

Section Norm.
(** The recursive call [_norm]. *)
Variable self : json -> M json.

(** [_norm(x) if isinstance(x, dict) else x] *)
Definition norm_if_dict (x : json) : M json :=
  if is_dict x then self x else ret x.

(** The loop [for k, v in props.items()] filling [new_props]. *)
Fixpoint norm_props (props new_props : dict json) : M (dict json) :=
  match props with
  | [] => ret new_props
  | (k, v) :: props' =>
      if reserved k then
        let new_name := (_RESERVED_RENAME_PREFIX ++ k)%string in
        (record_rename new_name k ;;;
         v' <- self v ;;
         norm_props props' (dict_set new_name v' new_props))%M
      else
        (v' <- self v ;;
         norm_props props' (dict_set k v' new_props))%M
  end.

(** The comprehension [{k: _norm(v) if isinstance(v, dict) else v ...}]. *)
Fixpoint norm_defs (defs acc : dict json) : M (dict json) :=
  match defs with
  | [] => ret acc
  | (k, v) :: defs' =>
      (v' <- norm_if_dict v ;; norm_defs defs' (dict_set k v' acc))%M
  end.

(** [list(x.keys())] for an arbitrary value [x]. *)
Definition keys_of (x : json) : M (list json) :=
  match x with
  | JObj d => ret (map JStr (dict_keys d))
  | _ => raise AttributeError "object has no attribute 'keys'"
  end.

(** [isinstance(req, list) and all(isinstance(x, str) for x in req)] *)
Definition is_str_list (req : json) : bool :=
  match req with
  | JArr l => forallb is_str l
  | _ => false
  end.

(** [out.get("properties", {})] *)
Definition get_properties_or_empty (out : dict json) : json :=
  match dict_get "properties" out with
  | Some p => p
  | None => JObj []
  end.

(** [out.get("properties")], [None] when absent. *)
Definition get_or_none (k : string) (out : dict json) : json :=
  match dict_get k out with
  | Some p => p
  | None => JNull
  end.

Definition step_properties (out : dict json) : M (dict json) :=
  match get_or_none "properties" out with
  | JObj props =>
      (new_props <- norm_props props [] ;;
       ret (dict_set "properties" (JObj new_props) out))%M
  | _ => ret out
  end.

Definition step_items (out : dict json) : M (dict json) :=
  match get_or_none "items" out with
  | JObj _ as items =>
      (items' <- self items ;; ret (dict_set "items" items' out))%M
  | JArr items =>
      (items' <- mapM norm_if_dict items ;;
       ret (dict_set "items" (JArr items') out))%M
  | _ => ret out
  end.

Definition step_required (out : dict json) : M (dict json) :=
  match get_or_none "required" out with
  | JNull =>
      match get_or_none "properties" out with
      | JObj (_ :: _) => ret (dict_set "required" (JArr []) out)
      | _ => ret out
      end
  | req =>
      if is_str_list req then ret out
      else
        match req with
        | JBool true =>
            (ks <- keys_of (get_properties_or_empty out) ;;
             ret (dict_set "required" (JArr ks) out))%M
        | JBool false => ret (dict_set "required" (JArr []) out)
        | JObj r =>
            ret (dict_set "required"
                   (JArr (map JStr (dict_keys
                      (filter (fun kv => truthy (snd kv)) r)))) out)
        | _ =>
            if truthy (get_or_none "properties" out) then
              (ks <- keys_of (get_or_none "properties" out) ;;
               ret (dict_set "required" (JArr ks) out))%M
            else ret (dict_set "required" (JArr []) out)
        end
  end.

(** One turn of [for key in ("anyOf", "oneOf", "allOf")]. *)
Definition step_combinator (key : string) (out : dict json) : M (dict json) :=
  match dict_get key out with
  | Some (JArr l) =>
      (l' <- mapM norm_if_dict l ;; ret (dict_set key (JArr l') out))%M
  | _ => ret out
  end.

Definition step_defs (out : dict json) : M (dict json) :=
  match dict_get "$defs" out with
  | Some (JObj defs) =>
      (defs' <- norm_defs defs [] ;;
       ret (dict_set "$defs" (JObj defs') out))%M
  | _ => ret out
  end.

(** The body of [_norm] on a dictionary ([out] is its deep copy). *)
Definition norm_dict (d : dict json) : M json :=
  (let out := d in
   out <- step_properties out ;;
   out <- step_items out ;;
   out <- step_required out ;;
   out <- step_combinator "anyOf" out ;;
   out <- step_combinator "oneOf" out ;;
   out <- step_combinator "allOf" out ;;
   out <- step_defs out ;;
   ret (JObj out))%M.
End Norm.

Fixpoint _norm (fuel : nat) (obj : json) : M json :=
  match obj with
  | JObj d =>
      match fuel with
      | O => out_of_fuel
      | S fuel' => norm_dict (_norm fuel') d
      end
  | _ => ret obj
  end.

Section FixRequired.
(** The recursive call [_fix_required], returning the object it has
    updated in place. *)
Variable self : json -> Res json.

(** The loop building [new_req]; [r in _RESERVED_PROP_NAMES] hashes [r]. *)
Definition fix_entry (r : json) : Res json :=
  match r with
  | JStr s =>
      if reserved s then Ok (JStr (_RESERVED_RENAME_PREFIX ++ s)%string) else Ok r
  | JArr _ | JObj _ => Raise TypeError "unhashable type"
  | _ => Ok r
  end.

Definition fix_own_required (obj : dict json) : Res (dict json) :=
  match get_or_none "properties" obj with
  | JObj _ =>
      match get_or_none "required" obj with
      | JArr req =>
          (new_req <- rmapM fix_entry req ;;
           Ok (dict_set "required" (JArr new_req) obj))%res
      | _ => Ok obj
      end
  | _ => Ok obj
  end.

Fixpoint fix_values (props : dict json) : Res (dict json) :=
  match props with
  | [] => Ok []
  | (k, v) :: props' =>
      (v' <- self v ;; rest <- fix_values props' ;; Ok ((k, v') :: rest))%res
  end.

(** [for v in (obj.get("properties") or {}).values(): _fix_required(v)] *)
Definition fix_properties (obj : dict json) : Res (dict json) :=
  let props := get_or_none "properties" obj in
  if truthy props then
    match props with
    | JObj ps =>
        (ps' <- fix_values ps ;; Ok (dict_set "properties" (JObj ps') obj))%res
    | _ => Raise AttributeError "object has no attribute 'values'"
    end
  else Ok obj.

Definition fix_items (obj : dict json) : Res (dict json) :=
  match dict_get "items" obj with
  | Some (JObj _ as items) =>
      (items' <- self items ;; Ok (dict_set "items" items' obj))%res
  | _ => Ok obj
  end.

Definition fix_dict (d : dict json) : Res json :=
  (obj <- fix_own_required d ;;
   obj <- fix_properties obj ;;
   obj <- fix_items obj ;;
   Ok (JObj obj))%res.
End FixRequired.

Fixpoint _fix_required (fuel : nat) (obj : json) : Res json :=
  match obj with
  | JObj d =>
      match fuel with
      | O => OutOfFuel
      | S fuel' => fix_dict (_fix_required fuel') d
      end
  | _ => Ok obj
  end.

Definition normalize_schema_for_backend (schema : json) : Res (json * rmap) :=
  match schema with
  | JObj (_ :: _) =>
      match _norm (json_depth schema) schema [] with
      | Ok (normalized, rename_map) =>
          (fixed <- _fix_required (json_depth normalized) normalized ;;
           Ok (fixed, rename_map))%res
      | Raise c m => Raise c m
      | OutOfFuel => OutOfFuel
      end
  | _ => Ok (schema, [])
  end.

(** [rename_map.get(k, k)] *)
Definition rename_key (rename_map : rmap) (k : string) : string :=
  match dict_get k rename_map with
  | Some k' => k'
  | None => k
  end.

Fixpoint restore_walk (rename_map : rmap) (data : json) : json :=
  match data with
  | JObj d =>
      JObj ((fix loop (items out : dict json) : dict json :=
               match items with
               | [] => out
               | (k, v) :: items' =>
                   loop items'
                     (dict_set (rename_key rename_map k)
                        (restore_walk rename_map v) out)
               end) d [])
  | JArr l => JArr (map (restore_walk rename_map) l)
  | _ => data
  end.

Definition restore_response_keys (data : json) (rename_map : rmap) : json :=
  match rename_map with
  | [] => data
  | _ => restore_walk rename_map data
  end.

End Utils.

(* ===================================================================== *)
(** ** Python string operations used by the clients *)
(* ===================================================================== *)

Definition lower_ascii (c : ascii) : ascii :=
  let n := nat_of_ascii c in
  if ((65 <=? n) && (n <=? 90))%nat then ascii_of_nat (n + 32) else c.

(** [s.lower()] *)
Fixpoint lower (s : string) : string :=
  match s with
  | EmptyString => EmptyString
  | String c s' => String (lower_ascii c) (lower s')
  end.

(** [needle in hay] *)
Fixpoint contains (needle hay : string) : bool :=
  if String.prefix needle hay then true
  else match hay with
       | EmptyString => false
       | String _ hay' => contains needle hay'
       end.

(** [hay.startswith(p)] *)
Definition startswith (hay p : string) : bool := String.prefix p hay.

(** [s.split(":")[0]] *)
Fixpoint before_colon (s : string) : string :=
  match s with
  | EmptyString => EmptyString
  | String c s' => if Ascii.eqb c ":" then EmptyString else String c (before_colon s')
  end.

(** [sep.join(l)] *)
Definition join (sep : string) (l : list string) : string := String.concat sep l.

Definition is_space (c : ascii) : bool :=
  let n := nat_of_ascii c in
  (((9 <=? n) && (n <=? 13)) || ((28 <=? n) && (n <=? 32)))%nat.

(** Truthiness of [s.strip()]: some character is not white space. *)
Fixpoint nonblank (s : string) : bool :=
  match s with
  | EmptyString => false
  | String c s' => negb (is_space c) || nonblank s'
  end.

(** [except Exception] catches every class but those deriving from
    [BaseException] only. *)
Definition is_exception (c : exn_class) : bool :=
  match c with KeyboardInterrupt => false | _ => true end.

(** [try: body except RequestException as e: h1(e) except Exception as e: h2(e)] *)
Definition try_except {A} (body : Res A) (on_request on_other : string -> Res A) : Res A :=
  match body with
  | Raise RequestException msg => on_request msg
  | Raise c msg => if is_exception c then on_other msg else Raise c msg
  | r => r
  end.

(** What [requests.get(url)] followed by [raise_for_status()] and [json()]
    can come to: the connection fails, the status is an error, the body is
    not JSON, or the body is a JSON value. *)
Inductive http_response : Type :=
| ConnectionFailed (msg : string)
| BadStatus (msg : string)
| BodyNotJSON (msg : string)
| Body (data : json).

(** [data.get(key, [])] on the decoded body, then the [isinstance] filter:
    the common part of both [_get_models]. *)
Definition get_models_from (key : string) (http : http_response) : Res (list json) :=
  match http with
  | ConnectionFailed msg => Raise RequestException msg
  | BadStatus msg => Raise RequestException msg
  | BodyNotJSON msg => Raise RequestException msg
  | Body (JObj d) =>
      match dict_get key d with
      | Some (JArr models) => Ok models
      | _ => Ok []
      end
  | Body _ => Raise AttributeError "object has no attribute 'get'"
  end.

(** [', '.join(names[:3])]: every joined item must be a [str]. *)
Definition as_str (j : json) : Res string :=
  match j with
  | JStr s => Ok s
  | _ => Raise TypeError "sequence item: expected str instance"
  end.

Definition join_first3 (names : list json) : Res string :=
  (strs <- rmapM as_str (firstn 3 names) ;; Ok (join ", " strs))%res.

(** [m.get(key, default)] for an arbitrary [m]. *)
Definition get_default (key : string) (default : json) (m : json) : Res json :=
  match m with
  | JObj d => match dict_get key d with Some v => Ok v | None => Ok default end
  | _ => Raise AttributeError "object has no attribute 'get'"
  end.

(** A client object: the fields the modelled methods read and write. *)
Record client : Type := mkClient {
  base_url : string;
  model : option string
}.

Definition set_model (self : client) (m : string) : client :=
  {| base_url := base_url self; model := Some m |}.

(** [if self.model:] is true for a non-empty string. *)
Definition configured (self : client) : option string :=
  match model self with
  | Some EmptyString => None
  | o => o
  end.

(** The events of a generator run: what it yields, and how it ends. *)
Inductive ending : Type :=
| Returned
| Raised (c : exn_class) (msg : string)
| Unfinished.

Definition emission : Type := (string * option json)%type.
Definition run : Type := (list emission * ending)%type.

(** [yield e], then the rest of the run. *)
Definition emit (e : emission) (r : run) : run := (e :: fst r, snd r).

(** A step that may raise, then the rest of the run. *)
Definition after {A} (r : Res A) (k : A -> run) : run :=
  match r with
  | Ok a => k a
  | Raise c msg => ([], Raised c msg)
  | OutOfFuel => ([], Unfinished)
  end.

(** [json.loads(content) if content.strip() else {}], as a step. *)
Definition parse_or_empty (json_loads : string -> string + json) (content : string)
  : Res json :=
  if nonblank content then
    match json_loads content with
    | inr result => Ok result
    | inl e => Raise JSONDecodeError e
    end
  else Ok (JObj []).

(** [base_url.rstrip("/")] *)
Fixpoint rstrip_slash (s : string) : string :=
  match s with
  | EmptyString => EmptyString
  | String c s' =>
      match rstrip_slash s' with
      | EmptyString => if Ascii.eqb c "/" then EmptyString else String c EmptyString
      | r => String c r
      end
  end.

(** The fields that [__init__] of both clients sets. *)
Definition new_client (url : string) (m : option string) : client :=
  {| base_url := rstrip_slash url; model := m |}.

(** [type(x).__name__] of a decoded JSON value. *)
Definition type_name (x : json) : string :=
  match x with
  | JNull => "NoneType"
  | JBool _ => "bool"
  | JNum _ => "int"
  | JStr _ => "str"
  | JArr _ => "list"
  | JObj _ => "dict"
  end.

(** [mid.lower()] for an id of any type. *)
Definition lower_of (mid : json) : Res string :=
  match mid with
  | JStr s => Ok (lower s)
  | _ => Raise AttributeError "object has no attribute 'lower'"
  end.

(** [[x for x in l if p(x)]] with a condition that may raise. *)
Fixpoint rfilter {A} (p : A -> Res bool) (l : list A) : Res (list A) :=
  match l with
  | [] => Ok []
  | x :: l' =>
      (keep <- p x ;;
       rest <- rfilter p l' ;;
       Ok (if keep then x :: rest else rest))%res
  end.

(** [x == s] for a string literal [s]. *)
Definition is_the_str (s : string) (x : json) : bool :=
  match x with
  | JStr t => String.eqb t s
  | _ => false
  end.

(** [for i in range(len(messages) - 1, -1, -1)] with its [break]: the
    messages are met from the last one back, the first one whose [role]
    is ["user"] is replaced by [update] of it and the walk stops.  The
    messages are mappings, as their annotation says. *)
Fixpoint update_last_user (update : dict json -> Res (dict json))
    (reversed : list (dict json)) : Res (list (dict json)) :=
  match reversed with
  | [] => Ok []
  | m :: earlier =>
      if is_the_str "user" (Utils.get_or_none "role" m) then
        (m' <- update m ;; Ok (m' :: earlier))%res
      else
        (rest <- update_last_user update earlier ;; Ok (m :: rest))%res
  end.

(** [json.loads(content)], as a step. *)
Definition loads (json_loads : string -> string + json) (text : string) : Res json :=
  match json_loads text with
  | inr v => Ok v
  | inl e => Raise JSONDecodeError e
  end.

(* ===================================================================== *)
(** ** jig/client.py: the OpenAI-compatible client *)
(* ===================================================================== *)

Module LMStudioClient.
Local Open Scope string_scope.

Definition _get_models (self : client) (http : http_response) : Res (list json) :=
  get_models_from "data" http.

Definition preflight (self : client) (http : http_response) : Res (bool * string) :=
  try_except
    (models <- _get_models self http ;;
     match models with
     | [] => Ok (false, "Reached " ++ base_url self ++ " but no models loaded")
     | _ =>
         names <- rmapM (get_default "id" (JStr "unknown")) models ;;
         shown <- join_first3 names ;;
         Ok (true, "Connected | Models: " ++ shown)
     end)%res
    (fun e => Ok (false, "Connection failed: " ++ e))
    (fun e => Ok (false, "Error: " ++ e)).

(** [ensure_model] from line 63 on: [ids] is the list of identifiers read
    off [_get_models()], strings by the annotation of [list_models].  The
    result is the returned id and the client with its updated [model]. *)
Definition ensure_model (self : client) (ids : list string) : Res (string * client) :=
  match ids with
  | [] =>
      Raise RuntimeError
        ("No models found at " ++ base_url self
           ++ "/models. Load a model in LM Studio first.")
  | first :: _ =>
      match configured self with
      | Some m =>
          if existsb (String.eqb m) ids then Ok (m, self)
          else
            let partial :=
              filter (fun mid => contains (lower m) (lower mid)) ids in
            match partial with
            | [p] => Ok (p, set_model self p)
            | _ =>
                Raise RuntimeError
                  ("Model '" ++ m ++ "' not found. Available: " ++ join ", " ids)
            end
      | None => Ok (first, set_model self first)
      end
  end.

(** A streamed chunk: the [delta.content] of each of its [choices]. *)
Record chunk : Type := mkChunk { choices : list (option string) }.

(** [(chunk.choices[0].delta.content or "") if chunk.choices else ""] *)
Definition delta_of (c : chunk) : string :=
  match choices c with
  | Some s :: _ => s
  | _ => ""
  end.

Section Stream.
Variable json_loads : string -> string + json.

(** Any exception inside the [try] is re-raised as [RuntimeError]. *)
Definition wrap_errors {A} (r : Res A) : Res A :=
  match r with
  | Raise c msg =>
      if is_exception c then Raise RuntimeError ("Inference error: " ++ msg)
      else Raise c msg
  | _ => r
  end.

Definition finish (content : string) : run :=
  after (wrap_errors (parse_or_empty json_loads content))
    (fun result => ([(content, Some result)], Returned)).

Fixpoint stream_loop (stream : list chunk) (content : string) : run :=
  match stream with
  | [] => finish content
  | chunk :: stream' =>
      let delta := delta_of chunk in
      let content := content ++ delta in
      emit (content, None) (stream_loop stream' content)
  end.

(** [generate_structured_stream] from the iteration over [stream] on. *)
Definition generate_structured_stream (stream : list chunk) : run :=
  stream_loop stream "".
End Stream.

(** [m.get("id")] of a mapping [m]. *)
Definition id_of (m : json) : json :=
  match m with
  | JObj d => Utils.get_or_none "id" d
  | _ => JNull
  end.

(** [[m.get("id") for m in models if isinstance(m, dict) and m.get("id")]],
    the body of [list_models] and the [ids] of [ensure_model]. *)
Definition ids_of (models : list json) : list json :=
  map id_of (filter (fun m => is_dict m && truthy (id_of m)) models).

Definition list_models (self : client) (http : http_response) : Res (list json) :=
  (models <- _get_models self http ;; Ok (ids_of models))%res.

(** The whole of [ensure_model], from the answer to the models request.
    The collected ids are truthy values of any type, and the client is
    constructed with [model] a string or [None]: the result is the value
    returned and the value of [self.model] afterwards.  An id that is no
    string is never equal to the configured name, and has no [lower]. *)
Definition ensure_model_call (self : client) (http : http_response)
  : Res (json * json) :=
  (models <- _get_models self http ;;
   let ids := ids_of models in
   match ids with
   | [] =>
       Raise RuntimeError
         ("No models found at " ++ base_url self
            ++ "/models. Load a model in LM Studio first.")
   | first :: _ =>
       match configured self with
       | Some m =>
           if existsb (is_the_str m) ids then Ok (JStr m, JStr m)
           else
             partial <- rfilter
                          (fun mid =>
                             text <- lower_of (if truthy mid then mid else JStr "") ;;
                             Ok (contains (lower m) text)) ids ;;
             match partial with
             | [p] => Ok (p, p)
             | _ =>
                 names <- rmapM as_str ids ;;
                 Raise RuntimeError
                   ("Model '" ++ m ++ "' not found. Available: " ++ join ", " names)
             end
       | None => Ok (first, first)
       end
   end)%res.

(** [f"data:{mime};base64,{b64}"] *)
Definition data_url (mime b64 : string) : string :=
  "data:" ++ mime ++ ";base64," ++ b64.

(** [next((p.get("text", "") for p in text if p.get("type") == "text"), "")] *)
Fixpoint first_text (parts : list json) : Res json :=
  match parts with
  | [] => Ok (JStr "")
  | p :: parts' =>
      (ty <- get_default "type" JNull p ;;
       if is_the_str "text" ty then get_default "text" (JStr "") p
       else first_text parts')%res
  end.

Definition image_part (image : string * string) : json :=
  let (b64, mime) := image in
  JObj [("type", JStr "image_url");
        ("image_url", JObj [("url", JStr (data_url mime b64))])].

(** The new value of the last user message: its text, then one
    [image_url] part per image. *)
Definition with_images (images : list (string * string)) (m : dict json)
  : Res (dict json) :=
  let text := match dict_get "content" m with Some t => t | None => JStr "" end in
  (text <- match text with
           | JArr parts => first_text parts
           | _ => Ok text
           end ;;
   let parts :=
     JObj [("type", JStr "text"); ("text", if truthy text then text else JStr "")]
     :: map image_part images in
   Ok (dict_set "content" (JArr parts) m))%res.

(** The [if images:] block of [generate_structured] and of
    [generate_structured_stream]. *)
Definition attach_images (messages : list (dict json))
    (images : list (string * string)) : Res (list (dict json)) :=
  match images with
  | [] => Ok messages
  | _ =>
      (r <- update_last_user (with_images images) (rev messages) ;; Ok (rev r))%res
  end.

Section Generate.
Variable json_loads : string -> string + json.

(** [generate_structured] from the [content] of the response on
    (lines 149 to 159): [content] is [None] or a string. *)
Definition generate_structured (content : option string) : Res json :=
  match
    match content with
    | None => Raise RuntimeError "Empty response from model"
    | Some c => loads json_loads c
    end
  with
  | Raise JSONDecodeError e =>
      let raw := substring 0 500 (match content with Some c => c | None => "" end) in
      Raise RuntimeError
        ("Invalid JSON returned. Parse error: " ++ e
           ++ ". Content preview: " ++ raw ++ "...")
  | Raise c e =>
      if is_exception c then Raise RuntimeError ("Inference error: " ++ e)
      else Raise c e
  | r => r
  end.
End Generate.

End LMStudioClient.

(* ===================================================================== *)
(** ** jig/ollama_client.py: the native client *)
(* ===================================================================== *)

Module OllamaClient.
Local Open Scope string_scope.

Definition _get_models (self : client) (http : http_response) : Res (list json) :=
  get_models_from "models" http.

(** [m.get("name", m.get("model", "unknown"))] *)
Definition display_name (m : json) : Res json :=
  (fallback <- get_default "model" (JStr "unknown") m ;;
   get_default "name" fallback m)%res.

Definition preflight (self : client) (http : http_response) : Res (bool * string) :=
  try_except
    (models <- _get_models self http ;;
     match models with
     | [] => Ok (false, "Reached " ++ base_url self ++ " but no models found")
     | _ =>
         names <- rmapM display_name models ;;
         shown <- join_first3 names ;;
         Ok (true, "Connected | Models: " ++ shown)
     end)%res
    (fun e => Ok (false, "Connection failed: " ++ e))
    (fun e => Ok (false, "Error: " ++ e)).

(** [ensure_model] from line 66 on, over the collected [ids]. *)
Definition ensure_model (self : client) (ids : list string) : Res (string * client) :=
  match ids with
  | [] =>
      Raise RuntimeError
        ("No models found at " ++ base_url self
           ++ "/api/tags. Pull a model first: ollama pull zai-org/GLM-4.6")
  | first :: _ =>
      match configured self with
      | Some m =>
          if existsb (String.eqb m) ids then Ok (m, self)
          else
            let short := lower (before_colon m) in
            let partial :=
              filter (fun mid => contains short (lower mid)
                                 || startswith (lower mid) short) ids in
            match partial with
            | [p] => Ok (p, set_model self p)
            | _ =>
                Raise RuntimeError
                  ("Model '" ++ m ++ "' not found. Available: " ++ join ", " ids)
            end
      | None => Ok (first, set_model self first)
      end
  end.

(** [msg = data.get("message") or {}; part = msg.get("content") or ""],
    and the [str] that [content += part] needs. *)
Definition chunk_part (data : json) : Res string :=
  (msg <- get_default "message" JNull data ;;
   let msg := if truthy msg then msg else JObj [] in
   part <- get_default "content" JNull msg ;;
   if truthy part then
     match part with
     | JStr s => Ok s
     | _ => Raise TypeError "can only concatenate str to str"
     end
   else Ok "")%res.

(** [data.get("done")], as a truth value. *)
Definition chunk_done (data : json) : Res bool :=
  (d <- get_default "done" JNull data ;; Ok (truthy d))%res.

Section Stream.
Variable json_loads : string -> string + json.

Definition finish (content : string) : run :=
  after (parse_or_empty json_loads content)
    (fun result => ([(content, Some result)], Returned)).

Fixpoint stream_loop (lines : list string) (content : string) : run :=
  match lines with
  | [] => finish content
  | line :: lines' =>
      if String.eqb line "" then stream_loop lines' content
      else
        match json_loads line with
        | inl _ => stream_loop lines' content
        | inr data =>
            after (chunk_part data) (fun part =>
            let content := content ++ part in
            after (chunk_done data) (fun done =>
            if done then finish content
            else emit (content, None) (stream_loop lines' content)))
        end
  end.

(** [generate_structured_stream] from the iteration over the response
    lines on. *)
Definition generate_structured_stream (lines : list string) : run :=
  stream_loop lines "".
End Stream.

(** [m.get("name") or m.get("model")] *)
Definition name_of (m : json) : Res json :=
  (name <- get_default "name" JNull m ;;
   if truthy name then Ok name else get_default "model" JNull m)%res.

(** The loop collecting [ids], in [list_models] and in [ensure_model]. *)
Fixpoint ids_of (models : list json) : Res (list json) :=
  match models with
  | [] => Ok []
  | m :: models' =>
      (name <- name_of m ;;
       ids <- ids_of models' ;;
       Ok (if truthy name then name :: ids else ids))%res
  end.

Definition list_models (self : client) (http : http_response) : Res (list json) :=
  (models <- _get_models self http ;; ids_of models)%res.

(** The whole of [ensure_model], from the answer to the models request:
    the value returned and the value of [self.model] afterwards. *)
Definition ensure_model_call (self : client) (http : http_response)
  : Res (json * json) :=
  (models <- _get_models self http ;;
   ids <- ids_of models ;;
   match ids with
   | [] =>
       Raise RuntimeError
         ("No models found at " ++ base_url self
            ++ "/api/tags. Pull a model first: ollama pull zai-org/GLM-4.6")
   | first :: _ =>
       match configured self with
       | Some m =>
           if existsb (is_the_str m) ids then Ok (JStr m, JStr m)
           else
             let short := lower (before_colon m) in
             partial <- rfilter
                          (fun mid =>
                             text <- lower_of mid ;;
                             Ok (contains short text || startswith text short)) ids ;;
             match partial with
             | [p] => Ok (p, p)
             | _ =>
                 names <- rmapM as_str ids ;;
                 Raise RuntimeError
                   ("Model '" ++ m ++ "' not found. Available: " ++ join ", " names)
             end
       | None => Ok (first, first)
       end
   end)%res.

(** [messages[i]["images"] = [b64 for b64, _ in images]] *)
Definition with_images (images : list (string * string)) (m : dict json)
  : Res (dict json) :=
  Ok (dict_set "images" (JArr (map (fun image => JStr (fst image)) images)) m).

(** The [if images:] block of [generate_structured] and of
    [generate_structured_stream]. *)
Definition attach_images (messages : list (dict json))
    (images : list (string * string)) : Res (list (dict json)) :=
  match images with
  | [] => Ok messages
  | _ =>
      (r <- update_last_user (with_images images) (rev messages) ;; Ok (rev r))%res
  end.

Section Generate.
Variable json_loads : string -> string + json.

(** [generate_structured] from the decoded body [data] on (lines 141 to
    151).  The handler of [JSONDecodeError] reads [content], a non-empty
    string whenever [json.loads] has been reached with one; a [content]
    that is no string makes [json.loads] raise [TypeError], whose message
    names the type of the content. *)
Definition generate_structured (data : json) : Res json :=
  match
    (msg <- get_default "message" JNull data ;;
     let msg := if truthy msg then msg else JObj [] in
     content <- get_default "content" JNull msg ;;
     match content with
     | JNull | JStr EmptyString => Raise RuntimeError "Empty response from model"
     | JStr c =>
         match json_loads c with
         | inr v => Ok v
         | inl e =>
             Raise RuntimeError
               ("Invalid JSON returned. Parse error: " ++ e
                  ++ ". Content preview: " ++ substring 0 500 c ++ "...")
         end
     | _ =>
         Raise TypeError
           ("the JSON object must be str, bytes or bytearray, not "
              ++ type_name content)
     end)%res
  with
  | Raise RequestException e => Raise RuntimeError ("Inference error: " ++ e)
  | r => r
  end.
End Generate.

End OllamaClient.

(* ===================================================================== *)
(** ** jig/repository.py: the pairing store *)
(* ===================================================================== *)

Module PairingRepository.
Local Open Scope string_scope.

(** [\w] and [\s] on ASCII characters. *)
Definition is_word (c : ascii) : bool :=
  let n := nat_of_ascii c in
  (((48 <=? n) && (n <=? 57)) || ((65 <=? n) && (n <=? 90))
   || ((97 <=? n) && (n <=? 122)) || (n =? 95))%nat.

Definition is_hyphen (c : ascii) : bool := Ascii.eqb c "-".

Fixpoint keep (p : ascii -> bool) (s : string) : string :=
  match s with
  | EmptyString => EmptyString
  | String c s' => if p c then String c (keep p s') else keep p s'
  end.

Fixpoint lstrip (s : string) : string :=
  match s with
  | String c s' => if is_space c then lstrip s' else s
  | EmptyString => EmptyString
  end.

Fixpoint rstrip (s : string) : string :=
  match s with
  | EmptyString => EmptyString
  | String c s' =>
      match rstrip s' with
      | EmptyString => if is_space c then EmptyString else String c EmptyString
      | r => String c r
      end
  end.

(** [re.sub(r"[-\s]+", "_", s)]; [in_run] tells that the previous
    character already belongs to the run being replaced. *)
Fixpoint collapse (in_run : bool) (s : string) : string :=
  match s with
  | EmptyString => EmptyString
  | String c s' =>
      if is_hyphen c || is_space c then
        if in_run then collapse true s' else String "_" (collapse true s')
      else String c (collapse false s')
  end.

Definition sanitize_filename (name : string) : string :=
  let safe :=
    lower (rstrip (lstrip (keep (fun c => is_word c || is_space c || is_hyphen c) name))) in
  let safe := collapse false safe in
  match safe with
  | EmptyString => "untitled"
  | _ => safe
  end.

(** [PAIRINGS_DIR] of [jig/constants.py], and [__init__]: the root of
    the repository is [base_dir or PAIRINGS_DIR], a [Path] being always
    truthy. *)
Definition PAIRINGS_DIR : string := "pairings".

Definition init (base_dir : option string) : string :=
  match base_dir with
  | Some d => d
  | None => PAIRINGS_DIR
  end.

(** What lies under [base_dir], by name: a file, or a directory of files. *)
Inductive node : Type :=
| File (content : string)
| Dir (entries : dict string).

Definition fs : Type := string -> option node.

Definition fs_set (p : string) (n : option node) (s : fs) : fs :=
  fun q => if String.eqb q p then n else s q.

(** State (the file system) and exceptions; the state outlives a raise. *)
Definition FS (A : Type) : Type := fs -> Res A * fs.

Definition fret {A} (a : A) : FS A := fun s => (Ok a, s).
Definition fbind {A B} (c : FS A) (k : A -> FS B) : FS B :=
  fun s => match c s with
           | (Ok a, s') => k a s'
           | (Raise c m, s') => (Raise c m, s')
           | (OutOfFuel, s') => (OutOfFuel, s')
           end.
Definition fraise {A} (c : exn_class) (msg : string) : FS A :=
  fun s => (Raise c msg, s).

Declare Scope fs_scope.
Delimit Scope fs_scope with FS.
Notation "x <- c ;; k" := (fbind c (fun x => k))
  (at level 61, c at next level, right associativity) : fs_scope.
Notation "c ;;; k" := (fbind c (fun _ => k))
  (at level 61, right associativity) : fs_scope.

(** [target.exists() and any(target.iterdir())] *)
Definition exists_and_nonempty (target : string) : FS bool :=
  fun s => match s target with
           | None => (Ok false, s)
           | Some (Dir []) => (Ok false, s)
           | Some (Dir (_ :: _)) => (Ok true, s)
           | Some (File _) => (Raise OSError "Not a directory", s)
           end.

(** [src.rename(dst)] for a directory [src], as [os.rename] documents it
    on Unix: an absent or empty directory [dst] is replaced, anything
    else raises. *)
Definition rename (src dst : string) : FS unit :=
  fun s => match s src with
           | None => (Raise OSError "No such file or directory", s)
           | Some n =>
               match s dst with
               | None | Some (Dir []) =>
                   (Ok tt, fs_set dst (Some n) (fs_set src None s))
               | Some (Dir (_ :: _)) => (Raise OSError "Directory not empty", s)
               | Some (File _) => (Raise OSError "Not a directory", s)
               end
           end.

(** [target.mkdir(parents=True, exist_ok=True)] *)
Definition mkdir (target : string) : FS unit :=
  fun s => match s target with
           | None => (Ok tt, fs_set target (Some (Dir [])) s)
           | Some (Dir _) => (Ok tt, s)
           | Some (File _) => (Raise OSError "File exists", s)
           end.

(** [(target / file).write_text(text)] *)
Definition write_text (target file text : string) : FS unit :=
  fun s => match s target with
           | Some (Dir entries) =>
               (Ok tt, fs_set target (Some (Dir (dict_set file text entries))) s)
           | _ => (Raise OSError "No such file or directory", s)
           end.

(** [d.setdefault(k, v)] *)
Definition setdefault (k : string) (v : json) (d : dict json) : dict json :=
  if dict_mem k d then d else dict_set k v d.

Section Save.
(** [json.dumps(x, indent=2, ensure_ascii=flag)] *)
Variable json_dumps : bool -> json -> string.
(** [datetime.now().strftime('%Y%m%d_%H%M%S')] at the backup, and
    [datetime.now().isoformat()] at the metadata. *)
Variables now_stamp now_iso : string.

Definition backup_name_of (target : string) : string :=
  target ++ "_backup_" ++ now_stamp.

Definition save (name : string) (schema : json) (prompt : string)
    (meta : option (dict json)) : FS string :=
  (let target := sanitize_filename name in
   occupied <- exists_and_nonempty target ;;
   (if occupied then rename target (backup_name_of target) else fret tt) ;;;
   mkdir target ;;;
   write_text target "schema.json" (json_dumps false schema) ;;;
   write_text target "prompt.txt" prompt ;;;
   let meta_data := match meta with Some ((_ :: _) as m) => m | _ => [] end in
   let meta_data := setdefault "name" (JStr name) meta_data in
   let meta_data := setdefault "created" (JStr now_iso) meta_data in
   write_text target "meta.json" (json_dumps true (JObj meta_data)) ;;;
   fret target)%FS.
End Save.

(** *** Reading the store

    What reading meets on the disk is more than what [save] writes.  A
    name of a pairing directory holds a file of text, a file whose bytes
    are no UTF-8, or something that cannot be opened as a file (a
    directory, a file that may not be read).  Under a name of [base_dir]
    stands a regular file, a directory, a directory that may not be
    searched, or nothing that [stat] can answer for (a name too long). *)
Inductive item : Type :=
| Text (text : string)
| NotUTF8 (msg : string)
| Unreadable (msg : string).

Inductive place : Type :=
| PlainFile
| Directory (entries : dict item)
| NoSearch (msg : string)
| Refused (msg : string).

Definition disk : Type := string -> option place.

(** The disk as [save] and its helpers leave it: text files only. *)
Definition on_disk (s : fs) : disk :=
  fun p => match s p with
           | Some (File _) => Some PlainFile
           | Some (Dir entries) =>
               Some (Directory (map (fun kv => (fst kv, Text (snd kv))) entries))
           | None => None
           end.

(** The exceptions of the store that [exn_class] does not name: the two
    that [load] raises itself, and the one of a file that is no UTF-8,
    which is no [OSError] and no [JSONDecodeError]. *)
Inductive load_error : Type :=
| FileNotFoundError (msg : string)
| ValueError (msg : string)
| UnicodeDecodeError (msg : string).

(** A step after one that may have raised an exception of the store. *)
Definition and_then {A B} (c : Res (load_error + A))
    (k : A -> Res (load_error + B)) : Res (load_error + B) :=
  (r <- c ;;
   match r with
   | inl e => Ok (inl e)
   | inr a => k a
   end)%res.

(** Reading in text mode: [\r\n] and [\r] come back as [\n]. *)
Fixpoint universal_newlines (s : string) : string :=
  match s with
  | EmptyString => EmptyString
  | String c s' =>
      if Ascii.eqb c "013" then
        match s' with
        | String c' s'' =>
            if Ascii.eqb c' "010" then String "010" (universal_newlines s'')
            else String "010" (universal_newlines s')
        | EmptyString => String "010" EmptyString
        end
      else String c (universal_newlines s')
  end.

(** [(target / file).exists()]: [stat] answers, or raises an [OSError]
    that [exists] does not take for an absent file. *)
Definition file_exists (target file : string) (d : disk) : Res bool :=
  match d target with
  | Some (Directory entries) => Ok (dict_mem file entries)
  | Some (NoSearch msg) | Some (Refused msg) => Raise OSError msg
  | Some PlainFile | None => Ok false
  end.

(** [(target / file).read_text(encoding="utf-8")] *)
Definition read_text (target file : string) (d : disk) : Res (load_error + string) :=
  match d target with
  | Some (Directory entries) =>
      match dict_get file entries with
      | Some (Text text) => Ok (inr (universal_newlines text))
      | Some (NotUTF8 msg) => Ok (inl (UnicodeDecodeError msg))
      | Some (Unreadable msg) => Raise OSError msg
      | None => Raise OSError "No such file or directory"
      end
  | Some PlainFile => Raise OSError "Not a directory"
  | Some (NoSearch msg) | Some (Refused msg) => Raise OSError msg
  | None => Raise OSError "No such file or directory"
  end.

(** [meta.get("description", "")[:40]]: a string or a list is cut, a
    number, a boolean or [None] is not subscriptable (and a mapping
    cannot be sliced: [TypeError] up to Python 3.11). *)
Definition slice40 (v : json) : Res json :=
  match v with
  | JStr s => Ok (JStr (substring 0 40 s))
  | JArr l => Ok (JArr (firstn 40 l))
  | _ => Raise TypeError "object is not subscriptable"
  end.

Section Load.
Variable json_loads : string -> string + json.
(** [str(target / file)], for the messages. *)
Variable str_of_path : string -> string -> string.

(** [load_json_safe] of [jig/utils.py], on a file of a pairing directory. *)
Definition load_json_safe (target file : string) (d : disk) : Res (load_error + json) :=
  match
    and_then (read_text target file d)
      (fun text => v <- loads json_loads text ;; Ok (inr v))%res
  with
  | Raise OSError _ | Raise JSONDecodeError _ => Ok (inr (JObj []))
  | r => r
  end.

(** [path(name)], relative to [base_dir]. *)
Definition path (name : string) : string := sanitize_filename name.

(** [exists(name)] *)
Definition exists_ (name : string) (d : disk) : Res bool :=
  match d (path name) with
  | Some (Refused msg) => Raise OSError msg
  | Some _ => Ok true
  | None => Ok false
  end.

Definition is_complete (name : string) (d : disk) : Res bool :=
  let p := path name in
  (has_schema <- file_exists p "schema.json" d ;;
   if has_schema then file_exists p "prompt.txt" d else Ok false)%res.

(** [load]: [inl] is an exception of the store, [inr] the mapping that
    [load] returns. *)
Definition load (name : string) (d : disk) : Res (load_error + dict json) :=
  let p := path name in
  (has_schema <- file_exists p "schema.json" d ;;
   if negb has_schema then
     Ok (inl (FileNotFoundError ("Schema not found: " ++ str_of_path p "schema.json")))
   else
     has_prompt <- file_exists p "prompt.txt" d ;;
     if negb has_prompt then
       Ok (inl (FileNotFoundError
                  ("Prompt not found: " ++ str_of_path p "prompt.txt")))
     else
       and_then (load_json_safe p "schema.json" d) (fun schema =>
       if negb (truthy schema) then
         Ok (inl (ValueError
                    ("Invalid or empty schema: " ++ str_of_path p "schema.json")))
       else
         and_then (read_text p "prompt.txt" d) (fun prompt =>
         and_then (load_json_safe p "meta.json" d) (fun meta =>
         Ok (inr [("schema", schema); ("prompt", JStr prompt); ("meta", meta)])))))%res.

(** [d.is_dir()] *)
Definition is_dir (name : string) (d : disk) : Res bool :=
  match d name with
  | Some (Directory _) | Some (NoSearch _) => Ok true
  | Some (Refused msg) => Raise OSError msg
  | Some PlainFile | None => Ok false
  end.

(** How a run of [list_all] ends: as a generator does, or with an
    exception of the store. *)
Definition listing_end : Type := (load_error + ending)%type.

(** [list_all] over [listing], the names of [sorted(self.base_dir.iterdir())]:
    what it yields, and how it ends. *)
Fixpoint list_all (listing : list string) (d : disk)
  : list (dict json) * listing_end :=
  match listing with
  | [] => ([], inr Returned)
  | name :: listing' =>
      match is_dir name d with
      | Ok true =>
          if contains "_backup_" name then list_all listing' d
          else
            match
              and_then (load_json_safe name "meta.json" d) (fun meta =>
                description <- get_default "description" (JStr "") meta ;;
                description <- slice40 description ;;
                schema_exists <- file_exists name "schema.json" d ;;
                prompt_exists <- file_exists name "prompt.txt" d ;;
                Ok (inr [("name", JStr name);
                         ("description", description);
                         ("schema_exists", JBool schema_exists);
                         ("prompt_exists", JBool prompt_exists)]))%res
            with
            | Ok (inr entry) =>
                let rest := list_all listing' d in
                (entry :: fst rest, snd rest)
            | Ok (inl e) => ([], inl e)
            | Raise c msg => ([], inr (Raised c msg))
            | OutOfFuel => ([], inr Unfinished)
            end
      | Ok false => list_all listing' d
      | Raise c msg => ([], inr (Raised c msg))
      | OutOfFuel => ([], inr Unfinished)
      end
  end.
End Load.

End PairingRepository.

(* ===================================================================== *)
(** ** jig/utils.py: images *)
(* ===================================================================== *)

Module UtilsIO.
Local Open Scope string_scope.

Definition IMAGE_EXT_MIME : dict string :=
  [(".jpg", "image/jpeg");
   (".jpeg", "image/jpeg");
   (".png", "image/png");
   (".gif", "image/gif");
   (".webp", "image/webp");
   (".bmp", "image/bmp")].

(** [s.strip()] *)
Definition strip (s : string) : string :=
  PairingRepository.rstrip (PairingRepository.lstrip s).

(** The rest of [s] after its prefix [p], when it has it. *)
Fixpoint after_prefix (p s : string) : option string :=
  match p with
  | EmptyString => Some s
  | String a p' =>
      match s with
      | String b s' => if Ascii.eqb a b then after_prefix p' s' else None
      | EmptyString => None
      end
  end.

(** [s.split(sep, 1)] when [sep] occurs in [s]: what stands before its
    first occurrence, and what stands after. *)
Fixpoint split_first (sep s : string) : option (string * string) :=
  match after_prefix sep s with
  | Some rest => Some (EmptyString, rest)
  | None =>
      match s with
      | EmptyString => None
      | String c s' =>
          match split_first sep s' with
          | Some (before, rest) => Some (String c before, rest)
          | None => None
          end
      end
  end.

(** [s.replace(old, new, 1)] *)
Fixpoint replace_first (old new s : string) : string :=
  match after_prefix old s with
  | Some rest => new ++ rest
  | None =>
      match s with
      | EmptyString => EmptyString
      | String c s' => String c (replace_first old new s')
      end
  end.

(** [s.endswith(suffix)] *)
Definition endswith (s suffix : string) : bool :=
  (String.length suffix <=? String.length s)%nat
  && String.eqb
       (substring (String.length s - String.length suffix) (String.length suffix) s)
       suffix.

(** The path that [resolve_pairing_path] returns: the argument itself,
    or path components joined by [/]. *)
Inductive resolved : Type :=
| Direct (p : string)
| Joined (parts : list string).

Definition resolve_pairing_path (name_or_path ext : string) : resolved :=
  if contains "/" name_or_path
     || contains "\" name_or_path
     || endswith name_or_path ".json"
     || endswith name_or_path ".txt"
  then Direct name_or_path
  else
    let safe_name := PairingRepository.sanitize_filename name_or_path in
    let base := [PairingRepository.PAIRINGS_DIR; safe_name] in
    if String.eqb ext "json" || String.eqb ext "schema" then
      Joined (base ++ ["schema.json"])
    else if String.eqb ext "txt" || String.eqb ext "prompt" then
      Joined (base ++ ["prompt.txt"])
    else Joined base.

Section Images.
(** [Path(s).suffix], [Path(s).exists()] and
    [base64.b64encode(Path(s).read_bytes()).decode("ascii")].  The check
    [exists()] answers, or raises the [OSError] it does not take for an
    absent file (a name too long, a directory that may not be searched). *)
Variable suffix : string -> string.
Variable path_exists : string -> Res bool.
Variable read_b64 : string -> Res string.

Definition _mime_for_path (path : string) : string :=
  match dict_get (lower (suffix path)) IMAGE_EXT_MIME with
  | Some mime => mime
  | None => "image/jpeg"
  end.

(** One turn of the loop of [load_images_as_base64]: what it appends.
    [";base64," in s] holds exactly when the split finds the separator.
    The check [path.exists()] stands before the [try]: what it raises is
    not caught. *)
Definition load_image (p : string) : Res (list (string * string)) :=
  if negb (nonblank p) then Ok []
  else
    let s := strip p in
    let from_file :=
      (found <- path_exists s ;;
       if negb found then Ok []
       else
         let mime := _mime_for_path s in
         match read_b64 s with
         | Ok b64 => Ok [(b64, mime)]
         | Raise OSError _ => Ok []
         | Raise c msg => Raise c msg
         | OutOfFuel => OutOfFuel
         end)%res in
    if startswith s "data:" then
      match split_first ";base64," s with
      | Some (header, b64) =>
          let mime := strip (replace_first "data:" "" header) in
          let mime := if String.eqb mime "" then "image/jpeg" else mime in
          Ok [(strip b64, mime)]
      | None => from_file
      end
    else from_file.

Fixpoint load_images_as_base64 (paths : list string) : Res (list (string * string)) :=
  match paths with
  | [] => Ok []
  | p :: paths' =>
      (image <- load_image p ;;
       result <- load_images_as_base64 paths' ;;
       Ok (image ++ result)%list)%res
  end.
End Images.

End UtilsIO.

(* ===================================================================== *)
(** ** jig/factory.py: connecting to a backend *)
(* ===================================================================== *)

Module Factory.
Local Open Scope string_scope.

Definition DEFAULT_PORT : Z := 1234.
Definition COMMON_PORTS : list Z := [1234; 4321; 8080]%Z.
Definition OLLAMA_DEFAULT_PORT : Z := 11434.

(** [f"{port}"] *)
Definition str_of_int (n : Z) : string := NilZero.string_of_int (Z.to_int n).

Definition build_lmstudio_url (host : string) (port : Z) : string :=
  "http://" ++ host ++ ":" ++ str_of_int port ++ "/v1".

Definition build_ollama_url (host : string) (port : Z) : string :=
  "http://" ++ host ++ ":" ++ str_of_int port.

(** [port or default] *)
Definition port_or (port : option Z) (default : Z) : Z :=
  match port with
  | Some p => if Z.eqb p 0 then default else p
  | None => default
  end.

(** The client a call returns: one of the two classes. *)
Inductive llm_client : Type :=
| LMStudio (c : client)
| Ollama (c : client).

(** What a creation comes to, beside the exceptions of [Res]: a client,
    or the [InvalidURL] with which the OpenAI SDK rejects a base URL, an
    exception of [httpx] that is no [RuntimeError] and that no handler of
    the factory catches. *)
Inductive creation (A : Type) : Type :=
| Created (a : A)
| InvalidURL (msg : string).
Arguments Created {A} a.
Arguments InvalidURL {A} msg.

Section Network.
(** What a [GET] of a URL comes to, and the message with which
    [OpenAI(base_url=...)] rejects a base URL, if it does. *)
Variable get : string -> http_response.
Variable openai_rejects : string -> option string.

(** [LMStudioClient.__init__]: the fields, then
    [self._client = OpenAI(base_url=self.base_url, api_key=api_key)]. *)
Definition lmstudio_init (url : string) (model : option string) : creation client :=
  let self := new_client url model in
  match openai_rejects (base_url self) with
  | Some msg => InvalidURL msg
  | None => Created self
  end.

Definition lmstudio_preflight (c : client) : Res (bool * string) :=
  LMStudioClient.preflight c (get (base_url c ++ "/models")).

Definition ollama_preflight (c : client) : Res (bool * string) :=
  OllamaClient.preflight c (get (base_url c ++ "/api/tags")).

(** [for p in COMMON_PORTS] of [_create_lmstudio_client]. *)
Fixpoint probe (host : string) (model : option string) (port : Z)
    (ports : list Z) : Res (creation client) :=
  match ports with
  | [] => Raise RuntimeError "Connection failed on all common ports (LM Studio)"
  | p :: ports' =>
      if Z.eqb p port then probe host model port ports'
      else
        match lmstudio_init (build_lmstudio_url host p) model with
        | InvalidURL msg => Ok (InvalidURL msg)
        | Created candidate =>
            (r <- lmstudio_preflight candidate ;;
             if fst r then Ok (Created candidate)
             else probe host model port ports')%res
        end
  end.

Definition _create_lmstudio_client (host : string) (port : Z)
    (model : option string) (auto_probe : bool) : Res (creation client) :=
  let base_url := build_lmstudio_url host port in
  match lmstudio_init base_url model with
  | InvalidURL msg => Ok (InvalidURL msg)
  | Created client =>
      (r <- lmstudio_preflight client ;;
       if fst r then Ok (Created client)
       else if negb auto_probe then
         Raise RuntimeError
           ("Cannot connect to LM Studio. Ensure the server is running (Developer tab), "
              ++ "check port " ++ str_of_int port
              ++ ", or use --auto-probe to scan common ports.")
       else probe host model port COMMON_PORTS)%res
  end.

Definition _create_ollama_client (host : string) (port : Z)
    (model : option string) : Res client :=
  let base_url := build_ollama_url host port in
  let client := new_client base_url model in
  (r <- ollama_preflight client ;;
   if negb (fst r) then
     Raise RuntimeError
       ("Cannot connect to Ollama at " ++ base_url
          ++ ". Ensure Ollama is running (e.g. ollama serve). Details: " ++ snd r)
   else Ok client)%res.

(** [create_client]: the handler of [auto] catches [RuntimeError] only. *)
Definition create_client (host : string) (port : option Z)
    (model : option string) (auto_probe : bool) (backend : string)
  : Res (creation llm_client) :=
  let ollama :=
    (c <- _create_ollama_client host (port_or port OLLAMA_DEFAULT_PORT) model ;;
     Ok (Created (Ollama c)))%res in
  let as_lmstudio (r : Res (creation client)) : Res (creation llm_client) :=
    (made <- r ;;
     match made with
     | Created c => Ok (Created (LMStudio c))
     | InvalidURL msg => Ok (InvalidURL msg)
     end)%res in
  if String.eqb backend "ollama" then ollama
  else
    let lmstudio :=
      _create_lmstudio_client host (port_or port DEFAULT_PORT) model auto_probe in
    if String.eqb backend "lmstudio" then as_lmstudio lmstudio
    else
      match lmstudio with
      | Raise RuntimeError _ => ollama
      | r => as_lmstudio r
      end.
End Network.

End Factory.

(* ===================================================================== *)
(** ** Vocabulary of the statements *)
(* ===================================================================== *)

Import Utils.

(** Structural induction on JSON values, through arrays and dictionaries. *)
Section JsonInd.
Variable P : json -> Prop.
Hypothesis P_null : P JNull.
Hypothesis P_bool : forall b, P (JBool b).
Hypothesis P_num : forall n, P (JNum n).
Hypothesis P_str : forall s, P (JStr s).
Hypothesis P_arr : forall l, Forall P l -> P (JArr l).
Hypothesis P_obj : forall d, Forall (fun kv => P (snd kv)) d -> P (JObj d).

Fixpoint json_ind (j : json) : P j :=
  match j with
  | JNull => P_null
  | JBool b => P_bool b
  | JNum n => P_num n
  | JStr s => P_str s
  | JArr l =>
      P_arr l
        (list_ind (Forall P) (Forall_nil P)
           (fun x l' IH => Forall_cons x (json_ind x) IH) l)
  | JObj d =>
      P_obj d
        (list_ind (Forall (fun kv => P (snd kv))) (Forall_nil _)
           (fun kv d' IH => Forall_cons kv (json_ind (snd kv)) IH) d)
  end.
End JsonInd.

(** Every dictionary key of a value, at every depth. *)
Fixpoint all_keys (j : json) : list string :=
  match j with
  | JObj d => flat_map (fun kv => fst kv :: all_keys (snd kv)) d
  | JArr l => flat_map all_keys l
  | _ => []
  end.

(** The schema and the response of the end-to-end scenario. *)
Definition string_schema : json := JObj [("type", JStr "string")].

Definition scenario_schema : json :=
  JObj [("type", JStr "object");
        ("properties",
         JObj [("required", string_schema); ("name", string_schema)]);
        ("required", JBool true)].

Definition scenario_response : json :=
  JObj [("_prop_required", JStr "x"); ("name", JStr "y")].

(** An entry of the rename map pairs a reserved name with its renamed form. *)
Definition renamed_entry (e : string * string) : Prop :=
  In (snd e) _RESERVED_PROP_NAMES
  /\ fst e = (_RESERVED_RENAME_PREFIX ++ snd e)%string.

(** The invariant of the rename map under construction. *)
Definition rename_map_ok (rm : rmap) : Prop :=
  Forall renamed_entry rm /\ NoDup (dict_keys rm).

(** A computation keeps an invariant of the rename map. *)
Definition preserves {A} (I : rmap -> Prop) (c : M A) : Prop :=
  forall rm a rm', c rm = Ok (a, rm') -> I rm -> I rm'.

(** The resolution policy of the specification, for a client whose
    partial match looks for [hint m] inside the lower-cased ids: an exact
    match wins; else a single partial match is returned and remembered;
    else the call fails with a message listing every available id; with
    no model configured the first id is returned and remembered. *)
Definition resolution_policy (hint : string -> string)
    (ensure_model : client -> list string -> Res (string * client)) : Prop :=
  forall self first rest,
    let ids := first :: rest in
    match configured self with
    | Some m =>
        if existsb (String.eqb m) ids then ensure_model self ids = Ok (m, self)
        else
          match filter (fun mid => contains (hint m) (lower mid)) ids with
          | [p] => ensure_model self ids = Ok (p, set_model self p)
          | _ =>
              ensure_model self ids
              = Raise RuntimeError
                  ("Model '" ++ m ++ "' not found. Available: " ++ join ", " ids)%string
          end
    | None => ensure_model self ids = Ok (first, set_model self first)
    end.

(** The ids and the clients of the model-hint scenarios. *)
Definition scenario_ids : list string := ["zai-org/GLM-4.6"; "llama3.1"].

Definition client_with (hint : string) : client :=
  {| base_url := "http://localhost:1234/v1"; model := Some hint |}.

(** A result that an [except Exception] clause turns into a value: a
    value already, or an exception deriving from [Exception]. *)
Definition catchable {A} (r : Res A) : Prop :=
  match r with
  | Ok _ => True
  | Raise c _ => is_exception c = true
  | OutOfFuel => False
  end.

(** The accumulated text after each of the [parts], starting from [content]. *)
Fixpoint accumulate (content : string) (parts : list string) : list string :=
  match parts with
  | [] => []
  | p :: parts' => (content ++ p)%string :: accumulate (content ++ p)%string parts'
  end.

(** The stream of the specification: one [(text, None)] per incremental
    chunk, then the terminal pair of the full text with its parse, the
    empty object when the text is blank; [on_error] is how a parse
    failure surfaces. *)
Definition stream_of_spec (json_loads : string -> string + json)
    (on_error : string -> ending) (parts : list string) (last : string) : run :=
  let incremental := map (fun text => (text, @None json)) (accumulate "" parts) in
  let full := (String.concat "" parts ++ last)%string in
  if nonblank full then
    match json_loads full with
    | inr parsed => (incremental ++ [(full, Some parsed)], Returned)
    | inl e => (incremental, on_error e)
    end
  else (incremental ++ [(full, Some (JObj []))], Returned).

(** The stream of the specification with a text already accumulated. *)
Definition stream_from (json_loads : string -> string + json)
    (on_error : string -> ending) (content : string) (parts : list string)
    (last : string) : run :=
  let incremental := map (fun text => (text, @None json)) (accumulate content parts) in
  let full := (content ++ String.concat "" parts ++ last)%string in
  if nonblank full then
    match json_loads full with
    | inr parsed => (incremental ++ [(full, Some parsed)], Returned)
    | inl e => (incremental, on_error e)
    end
  else (incremental ++ [(full, Some (JObj []))], Returned).

(** The lines of a native response read as chunks: blank lines and lines
    that are not JSON carry nothing; a JSON line carries its text part and
    its [done] flag. *)
Inductive received (json_loads : string -> string + json)
  : list string -> list (string * bool) -> Prop :=
| received_end : received json_loads [] []
| received_blank lines chunks :
    received json_loads lines chunks ->
    received json_loads (EmptyString :: lines) chunks
| received_noise line lines chunks e :
    line <> EmptyString -> json_loads line = inl e ->
    received json_loads lines chunks ->
    received json_loads (line :: lines) chunks
| received_chunk line lines chunks data part done :
    line <> EmptyString -> json_loads line = inr data ->
    OllamaClient.chunk_part data = Ok part ->
    OllamaClient.chunk_done data = Ok done ->
    received json_loads lines chunks ->
    received json_loads (line :: lines) ((part, done) :: chunks).

(** The text parts before the chunk that signals completion, and the
    part that chunk carries. *)
Fixpoint parts_before_done (chunks : list (string * bool)) : list string :=
  match chunks with
  | [] => []
  | (part, done) :: chunks' => if done then [] else part :: parts_before_done chunks'
  end.

Fixpoint part_at_done (chunks : list (string * bool)) : string :=
  match chunks with
  | [] => EmptyString
  | (part, done) :: chunks' => if done then part else part_at_done chunks'
  end.

(** A decoder for the worked example of the stream theorem. *)
Definition example_loads (s : string) : string + json :=
  if String.eqb s "first" then
    inr (JObj [("message", JObj [("content", JStr "{}")]); ("done", JBool false)])
  else if String.eqb s "last" then inr (JObj [("done", JBool true)])
  else if String.eqb s "{}" then inr (JObj [])
  else inl "Expecting value".

(** A store with one saved pairing, for the worked example of [save]. *)
Definition example_store : PairingRepository.fs :=
  PairingRepository.fs_set "my_pairing"
    (Some (PairingRepository.Dir [("schema.json", "old schema")]))
    (fun _ => None).

Definition example_dumps (ensure_ascii : bool) (j : json) : string :=
  match j with
  | JObj [] => "{}"
  | _ => "{...}"
  end.

(* --------------------------------------------------------------------- *)
(** *** Schema nodes *)

(** The name a property key gets in the normalised schema. *)
Definition renamed (k : string) : string :=
  if reserved k then (_RESERVED_RENAME_PREFIX ++ k)%string else k.

Definition is_combinator (k : string) : bool :=
  existsb (String.eqb k) ["anyOf"; "oneOf"; "allOf"].

(** One step from a schema node to a sub-schema, along the keywords
    [_norm] follows. *)
Inductive step : Type :=
| in_property (k : string)
| in_items
| in_items_at (i : nat)
| in_combinator (key : string) (i : nat)
| in_defs (k : string).

Definition child_at (j : json) (s : step) : option json :=
  match j with
  | JObj d =>
      match s with
      | in_property k =>
          match dict_get "properties" d with
          | Some (JObj props) => dict_get k props
          | _ => None
          end
      | in_items =>
          match dict_get "items" d with
          | Some (JObj items) => Some (JObj items)
          | _ => None
          end
      | in_items_at i =>
          match dict_get "items" d with
          | Some (JArr items) => nth_error items i
          | _ => None
          end
      | in_combinator key i =>
          if is_combinator key then
            match dict_get key d with
            | Some (JArr l) => nth_error l i
            | _ => None
            end
          else None
      | in_defs k =>
          match dict_get "$defs" d with
          | Some (JObj defs) => dict_get k defs
          | _ => None
          end
      end
  | _ => None
  end.

(** The node reached from [j] along a path. *)
Fixpoint descend (j : json) (path : list step) : option json :=
  match path with
  | [] => Some j
  | s :: path' =>
      match child_at j s with
      | Some j' => descend j' path'
      | None => None
      end
  end.

(** The same step in the normalised schema. *)
Definition rename_step (s : step) : step :=
  match s with
  | in_property k => in_property (renamed k)
  | _ => s
  end.

(** The sub-schemas of a node, in the order [_norm] visits them. *)
Definition children_under (key : string) (d : dict json) : list json :=
  match dict_get key d with
  | Some (JArr l) => l
  | _ => []
  end.

Definition children (d : dict json) : list json :=
  match dict_get "properties" d with
  | Some (JObj props) => dict_values props
  | _ => []
  end
  ++ match dict_get "items" d with
     | Some (JObj items) => [JObj items]
     | Some (JArr items) => items
     | _ => []
     end
  ++ children_under "anyOf" d ++ children_under "oneOf" d
  ++ children_under "allOf" d
  ++ match dict_get "$defs" d with
     | Some (JObj defs) => dict_values defs
     | _ => []
     end.

(** Every schema node of a value: the dictionaries reached through
    [properties], [items], [anyOf], [oneOf], [allOf] and [$defs]. *)
Fixpoint nodes (j : json) : list json :=
  match j with
  | JObj d =>
      j :: flat_map
             (fun kv =>
                match snd kv with
                | JObj sub =>
                    if String.eqb (fst kv) "properties" || String.eqb (fst kv) "$defs"
                    then flat_map (fun kv' => nodes (snd kv')) sub
                    else if String.eqb (fst kv) "items" then nodes (snd kv)
                    else []
                | JArr l =>
                    if String.eqb (fst kv) "items" || is_combinator (fst kv)
                    then flat_map nodes l
                    else []
                | _ => []
                end) d
  | _ => []
  end.

Definition every_node (p : dict json -> bool) (schema : json) : bool :=
  forallb (fun n => match n with JObj d => p d | _ => true end) (nodes schema).

(** The [properties] of a node, when it has a map of them. *)
Definition properties_of (d : dict json) : dict json :=
  match dict_get "properties" d with
  | Some (JObj props) => props
  | _ => []
  end.

(** [properties], where present, is a map. *)
Definition properties_is_map (d : dict json) : bool :=
  match dict_get "properties" d with
  | None | Some (JObj _) => true
  | _ => false
  end.

(** No two property keys of the node get the same name. *)
Definition collision_free (d : dict json) : bool :=
  nodupb (map renamed (dict_keys (properties_of d))).

(** No property key of the node is reserved. *)
Definition no_reserved_property (d : dict json) : bool :=
  forallb (fun k => negb (reserved k)) (dict_keys (properties_of d)).

(** A value with the [required] entry of every schema node removed. *)
Fixpoint strip_required (j : json) : json :=
  match j with
  | JObj d =>
      JObj (flat_map
              (fun kv =>
                 if String.eqb (fst kv) "required" then []
                 else
                   [(fst kv,
                     match snd kv with
                     | JObj sub =>
                         if String.eqb (fst kv) "properties"
                            || String.eqb (fst kv) "$defs"
                         then JObj (map (fun kv' => (fst kv', strip_required (snd kv'))) sub)
                         else if String.eqb (fst kv) "items" then strip_required (snd kv)
                         else snd kv
                     | JArr l =>
                         if String.eqb (fst kv) "items" || is_combinator (fst kv)
                         then JArr (map strip_required l)
                         else snd kv
                     | v => v
                     end)]) d)
  | _ => j
  end.

(** A schema on which [_fix_required] misses a node: the object under
    [anyOf] has a property named [type] and requires it. *)
Definition schema_under_anyOf : json :=
  JObj [("anyOf",
         JArr [JObj [("type", JStr "object");
                     ("properties", JObj [("type", string_schema)]);
                     ("required", JArr [JStr "type"])]])].

(** [self] maps [x] to [y] from some rename map. *)
Definition produces (self : json -> M json) (x y : json) : Prop :=
  exists rm rm', self x rm = Ok (y, rm').

(** A property of every schema node of a value, by the lookups that
    [_norm] itself performs. *)
#[warnings="-register-all"]
Inductive all_nodes (P : dict json -> Prop) : json -> Prop :=
| all_nodes_leaf j : is_dict j = false -> all_nodes P j
| all_nodes_node d :
    P d -> Forall (all_nodes P) (children d) -> all_nodes P (JObj d).

(** The [required] entry of a normalised node: absent or null only when
    the node has no property, else a list of strings. *)
Definition normal_required (d : dict json) : Prop :=
  match get_or_none "required" d with
  | JNull =>
      match get_or_none "properties" d with
      | JObj (_ :: _) => False
      | _ => True
      end
  | req => is_str_list req = true
  end.

(** A node that [_norm] leaves as it is. *)
Definition normal_node (d : dict json) : Prop :=
  normal_required d
  /\ NoDup (dict_keys (properties_of d))
  /\ Forall (fun k => reserved k = false) (dict_keys (properties_of d))
  /\ match dict_get "$defs" d with
     | Some (JObj defs) => NoDup (dict_keys defs)
     | _ => True
     end.

(** The keywords whose entries [_norm] may rewrite. *)
Definition handled_keys : list string :=
  ["properties"; "items"; "required"; "anyOf"; "oneOf"; "allOf"; "$defs"].

(** A result that is not a fuel artefact; with [strict], not an
    exception either. *)
Definition runs {A} (strict : bool) (r : Res A) : Prop :=
  match r with
  | Ok _ => True
  | Raise _ _ => strict = false
  | OutOfFuel => False
  end.

(** The renamed form of a reserved name, spelled out. *)
Definition renamed_form (k : string) : string :=
  (_RESERVED_RENAME_PREFIX ++ k)%string.

(** A schema whose inner object, itself under a reserved property name,
    requires all of its properties. *)
Definition nested_schema : json :=
  JObj [("type", JStr "object");
        ("properties",
         JObj [("type",
                JObj [("type", JStr "object");
                      ("properties",
                       JObj [("items", string_schema); ("name", string_schema)]);
                      ("required", JBool true)])])].

(** [strip_required] on one entry of a node. *)
Definition strip_value (k : string) (v : json) : json :=
  match v with
  | JObj sub =>
      if String.eqb k "properties" || String.eqb k "$defs"
      then JObj (map (fun kv' => (fst kv', strip_required (snd kv'))) sub)
      else if String.eqb k "items" then strip_required v
      else v
  | JArr l =>
      if String.eqb k "items" || is_combinator k
      then JArr (map strip_required l)
      else v
  | _ => v
  end.

Definition strip_entry (kv : string * json) : list (string * json) :=
  if String.eqb (fst kv) "required" then []
  else [(fst kv, strip_value (fst kv) (snd kv))].

(** A schema without reserved property names, whose [required] is a
    mapping and whose inner array schema has none. *)
Definition plain_schema : json :=
  JObj [("type", JStr "object");
        ("properties",
         JObj [("name", string_schema);
               ("tags", JObj [("type", JStr "array"); ("items", string_schema)])]);
        ("required", JObj [("name", JBool true); ("tags", JBool false)])].

(** A step rewrites the entry of one key and leaves the others alone. *)
Definition rewrites (key : string) (d o : dict json) : Prop :=
  o = d \/ exists v, o = dict_set key v d.

(** [self] changes neither the rename map nor anything but [required]. *)
Definition plain_on (self : json -> M json) (x : json) : Prop :=
  forall r y r', self x r = Ok (y, r') ->
                 r' = r /\ strip_required y = strip_required x.

(** The keys of a dictionary filled by successive insertions: every key
    once, at the place of its first insertion. *)
Definition add_key (ks : list string) (k : string) : list string :=
  if existsb (String.eqb k) ks then ks else ks ++ [k].

Definition distinct_in_order (l : list string) : list string :=
  fold_left add_key l [].

(** Along the path, no property step leaves a node two of whose property
    keys get the same name. *)
Fixpoint clear_path (j : json) (path : list step) : bool :=
  match path with
  | [] => true
  | s :: path' =>
      match j, child_at j s with
      | JObj d, Some j' =>
          match s with
          | in_property _ => collision_free d
          | _ => true
          end && clear_path j' path'
      | _, _ => false
      end
  end.

(** A schema with two property keys that get the same name, the node
    that requires all of its properties standing under [items]. *)
Definition colliding_schema : json :=
  JObj [("type", JStr "array");
        ("items",
         JObj [("type", JStr "object");
               ("properties",
                JObj [("type", string_schema);
                      ("_prop_type", string_schema);
                      ("name", string_schema)]);
               ("required", JBool true)])].

(* --------------------------------------------------------------------- *)
(** *** The [required] of a node, rule by rule *)

(** The coercion rule of the specification, read on the entries of a node
    ([None] is an absent entry): a list of strings is kept; [true] gives
    the property keys and [false] the empty list; a mapping gives its
    names with a truthy value; any other value gives the property keys,
    none when there is no property; an absent or null entry becomes the
    empty list when the node has properties. *)
Definition coerced_required (d : dict json) : option json :=
  let keys := map JStr (dict_keys (properties_of d)) in
  match get_or_none "required" d with
  | JNull =>
      match keys with
      | [] => dict_get "required" d
      | _ :: _ => Some (JArr [])
      end
  | req =>
      if is_str_list req then Some req
      else
        match req with
        | JBool false => Some (JArr [])
        | JObj r =>
            Some (JArr (map JStr (dict_keys (filter (fun kv => truthy (snd kv)) r))))
        | _ => Some (JArr keys)
        end
  end.

(** The second walk on an entry of a [required] list: a reserved name
    gets the prefix, whether or not a property was renamed. *)
Definition prefix_reserved (r : json) : json :=
  match r with
  | JStr s => JStr (renamed s)
  | _ => r
  end.

Definition prefixed_required (required : option json) : option json :=
  match required with
  | Some (JArr l) => Some (JArr (map prefix_reserved l))
  | _ => required
  end.

Definition has_properties_map (d : dict json) : bool :=
  match dict_get "properties" d with
  | Some (JObj _) => true
  | _ => false
  end.

(** The paths the second walk follows: property values and the object
    form of [items]. *)
Definition second_walk_follows (path : list step) : bool :=
  forallb (fun s => match s with
                    | in_property _ | in_items => true
                    | _ => false
                    end) path.

(** The [required] of the node at [path] after both walks. *)
Definition final_required (path : list step) (d : dict json) : option json :=
  if second_walk_follows path && has_properties_map d
  then prefixed_required (coerced_required d)
  else coerced_required d.

(** Normalisation without reserved property keys, as the specification
    words it: the rename map is empty, the result is the input but for
    [required], which at every node is what the coercion rule gives, and
    a second run changes nothing. *)
Definition differs_by_coercion_only
    (normalize : json -> Res (json * rmap)) : Prop :=
  forall schema normalized rename_map,
    wf_json schema = true ->
    every_node no_reserved_property schema = true ->
    normalize schema = Ok (normalized, rename_map) ->
    rename_map = []
    /\ strip_required normalized = strip_required schema
    /\ (forall path d,
          descend schema path = Some (JObj d) ->
          exists d', descend normalized path = Some (JObj d')
                     /\ dict_get "required" d' = coerced_required d)
    /\ normalize normalized = Ok (normalized, []).

(** A schema without reserved property keys whose [required] names the
    reserved word [type]. *)
Definition schema_requiring_type : json :=
  JObj [("type", JStr "object");
        ("properties", JObj [("a", string_schema)]);
        ("required", JArr [JStr "type"; JStr "a"])].

(* --------------------------------------------------------------------- *)
(** *** Restored responses *)

(** The value with every mapping key sent through the rename map, at
    every depth, entry by entry. *)
Fixpoint with_keys_renamed (rename_map : rmap) (data : json) : json :=
  match data with
  | JObj d =>
      JObj (map (fun kv => (rename_key rename_map (fst kv),
                            with_keys_renamed rename_map (snd kv))) d)
  | JArr l => JArr (map (with_keys_renamed rename_map) l)
  | _ => data
  end.

(** No two keys of one mapping of the value get the same name. *)
Fixpoint collapse_free (rename_map : rmap) (data : json) : bool :=
  match data with
  | JObj d =>
      nodupb (map (rename_key rename_map) (dict_keys d))
      && forallb (fun kv => collapse_free rename_map (snd kv)) d
  | JArr l => forallb (collapse_free rename_map) l
  | _ => true
  end.

(** The value of the last entry of [d] whose key the map sends to [k]. *)
Definition last_under (rename_map : rmap) (k : string) (d : dict json)
  : option json :=
  fold_left
    (fun found kv =>
       if String.eqb (rename_key rename_map (fst kv)) k then Some (snd kv)
       else found)
    d None.

(* --------------------------------------------------------------------- *)
(** *** Strings and directory names *)

(** Every character of a string satisfies [p]. *)
Fixpoint all_chars (p : ascii -> bool) (s : string) : bool :=
  match s with
  | EmptyString => true
  | String c s' => p c && all_chars p s'
  end.

(** A string of ASCII characters: there the string operations of the
    embedding are those of Python. *)
Definition ascii_only (s : string) : bool :=
  all_chars (fun c => (nat_of_ascii c <? 128)%nat) s.

(** A lower-case letter, a digit or an underscore. *)
Definition is_safe_char (c : ascii) : bool :=
  let n := nat_of_ascii c in
  (((48 <=? n) && (n <=? 57)) || ((97 <=? n) && (n <=? 122)) || (n =? 95))%nat.

(** A directory name as [sanitize_filename] makes them. *)
Definition safe_name (s : string) : bool :=
  negb (String.eqb s "") && all_chars is_safe_char s.

(* --------------------------------------------------------------------- *)
(** *** Property names and responses *)

(** A name of the form [_prop_<reserved name>]. *)
Definition is_renamed_form (k : string) : bool :=
  existsb (fun r => String.eqb k (renamed_form r)) _RESERVED_PROP_NAMES.

(** [k] names a property of some node of the schema. *)
Definition property_of_schema (schema : json) (k : string) : Prop :=
  exists path d,
    descend schema path = Some (JObj d) /\ In k (dict_keys (properties_of d)).

(** The rename map holds the entry of the reserved name [k0]. *)
Definition recorded (k0 : string) (rm : rmap) : Prop :=
  dict_get (renamed_form k0) rm = Some k0.

(** Normalising [x] with [self] records [k0]. *)
Definition records (k0 : string) (self : json -> M json) (x : json) : Prop :=
  forall rm y rm', self x rm = Ok (y, rm') -> recorded k0 rm'.

(** A response in which every key stands under the name it has in the
    normalised schema. *)
Fixpoint rename_all (data : json) : json :=
  match data with
  | JObj d => JObj (map (fun kv => (renamed (fst kv), rename_all (snd kv))) d)
  | JArr l => JArr (map rename_all l)
  | _ => data
  end.

(** The normal form of the scenario schema. *)
Definition scenario_normalized : json :=
  JObj [("type", JStr "object");
        ("properties",
         JObj [("_prop_required", string_schema); ("name", string_schema)]);
        ("required", JArr [JStr "_prop_required"; JStr "name"])].

(* --------------------------------------------------------------------- *)
(** *** Clients *)

(** A message of the user. *)
Definition is_user (m : dict json) : bool :=
  is_the_str "user" (get_or_none "role" m).

Definition not_user (m : dict json) : bool := negb (is_user m).

(** The body of a native chat response carrying the text [content]. *)
Definition chat_body (content : string) : json :=
  JObj [("message",
         JObj [("role", JStr "assistant"); ("content", JStr content)]);
        ("done", JBool true)].

(** The full text of a run of chunks. *)
Definition full_text (parts : list string) (last : string) : string :=
  (String.concat "" parts ++ last)%string.

(** The messages that [SchemaAgent.run] sends, and one image. *)
Definition example_messages : list (dict json) :=
  [[("role", JStr "system"); ("content", JStr "Extract the fields.")];
   [("role", JStr "user"); ("content", JStr "An invoice.")]].

Definition example_image : string * string := ("QUJD", "image/png").

(* --------------------------------------------------------------------- *)
(** *** Connecting *)

(** The OpenAI-compatible server answers the preflight on port [p]. *)
Definition reachable (get : string -> http_response) (host : string)
    (model : option string) (p : Z) : bool :=
  match
    Factory.lmstudio_preflight get
      (new_client (Factory.build_lmstudio_url host p) model)
  with
  | Ok (ok, _) => ok
  | _ => false
  end.

(** The search of [_create_lmstudio_client] ends at port [p]: the SDK
    rejects its URL, or the server answers the preflight there. *)
Definition ends_search (get : string -> http_response)
    (openai_rejects : string -> option string) (host : string)
    (model : option string) (p : Z) : bool :=
  match Factory.lmstudio_init openai_rejects
          (Factory.build_lmstudio_url host p) model with
  | Factory.InvalidURL _ => true
  | Factory.Created _ => reachable get host model p
  end.

(** The outcome of the search at the port where it ends. *)
Definition found_at (openai_rejects : string -> option string) (host : string)
    (m : option string) (p : Z) : Res (Factory.creation client) :=
  match Factory.lmstudio_init openai_rejects
          (Factory.build_lmstudio_url host p) m with
  | Factory.InvalidURL msg => Ok (Factory.InvalidURL msg)
  | Factory.Created c => Ok (Factory.Created c)
  end.

(** The ports that [_create_lmstudio_client] tries with [auto_probe], in
    the order it tries them. *)
Definition probed_ports (port : Z) : list Z :=
  port :: filter (fun p => negb (Z.eqb p port)) Factory.COMMON_PORTS.

(** A network on which only an OpenAI-compatible server answers, on port
    4321, with one model. *)
Definition example_network (url : string) : http_response :=
  if String.eqb url "http://localhost:4321/v1/models" then
    Body (JObj [("data", JArr [JObj [("id", JStr "llama3.1")]])])
  else ConnectionFailed "Connection refused".

(** An SDK that takes every base URL, and one that rejects those of the
    host [localhost:1]. *)
Definition accepts_all (url : string) : option string := None.

Definition rejects_port_in_host (url : string) : option string :=
  if String.prefix "http://localhost:1:" url
  then Some "Invalid port" else None.

(** The outcome of a creation: a client of the given model that has
    passed [preflight], or [RuntimeError]. *)
Definition checked (preflight : client -> Res (bool * string))
    (m : option string) (r : Res client) : Prop :=
  match r with
  | Ok c => model c = m /\ exists msg, preflight c = Ok (true, msg)
  | Raise cls _ => cls = RuntimeError
  | OutOfFuel => False
  end.

(** The outcome of a creation by the OpenAI-compatible class: a client
    of the given model, accepted by the SDK, that has passed
    [preflight]; or [InvalidURL] for a URL of the host that the SDK
    rejects; or [RuntimeError]. *)
Definition checked_creation (get : string -> http_response)
    (openai_rejects : string -> option string) (host : string)
    (m : option string) (r : Res (Factory.creation client)) : Prop :=
  match r with
  | Ok (Factory.Created c) =>
      model c = m
      /\ openai_rejects (base_url c) = None
      /\ exists msg, Factory.lmstudio_preflight get c = Ok (true, msg)
  | Ok (Factory.InvalidURL msg) =>
      exists p,
        openai_rejects
          (base_url (new_client (Factory.build_lmstudio_url host p) m))
        = Some msg
  | Raise cls _ => cls = RuntimeError
  | OutOfFuel => False
  end.

(* --------------------------------------------------------------------- *)
(** *** The pairing store *)

(** The metadata that [save] writes: the given ones, with the name and
    the creation time where they were missing. *)
Definition saved_meta (name now_iso : string) (meta : option (dict json))
  : dict json :=
  PairingRepository.setdefault "created" (JStr now_iso)
    (PairingRepository.setdefault "name" (JStr name)
       match meta with
       | Some ((_ :: _) as m) => m
       | _ => []
       end).

(** The files of a pairing, as [save] writes them. *)
Definition saved_files (json_dumps : bool -> json -> string)
    (name now_iso : string) (schema : json) (prompt : string)
    (meta : option (dict json)) : dict string :=
  [("schema.json", json_dumps false schema);
   ("prompt.txt", prompt);
   ("meta.json", json_dumps true (JObj (saved_meta name now_iso meta)))].

(** A directory of the store that [list_all] shows. *)
Definition shown (d : PairingRepository.disk) (name : string) : bool :=
  match PairingRepository.is_dir name d with
  | Ok true => negb (contains "_backup_" name)
  | _ => false
  end.

(** A string without carriage return. *)
Definition no_carriage_return (s : string) : bool :=
  all_chars (fun c => negb (Ascii.eqb c "013")) s.

(** The place of a file of a pairing in the repository created with
    [base_dir]: where [save] writes it. *)
Definition written_at (base_dir : option string) (target file : string)
  : UtilsIO.resolved :=
  UtilsIO.Joined [PairingRepository.init base_dir; target; file].

(** A prompt of two lines, the first ended the Windows way, and the
    prompt as it is read back. *)
Definition windows_prompt : string :=
  String "a" (String "013" (String "010" (String "b" EmptyString))).

Definition unix_prompt : string :=
  String "a" (String "010" (String "b" EmptyString)).

(** A disk on which the pairing [invoices] has a schema, a directory in
    the place of its prompt, and metadata that are no UTF-8. *)
Definition damaged_disk : PairingRepository.disk :=
  fun p =>
    if String.eqb p "invoices" then
      Some (PairingRepository.Directory
              [("schema.json", PairingRepository.Text "{type: string}");
               ("prompt.txt", PairingRepository.Unreadable "Is a directory");
               ("meta.json", PairingRepository.NotUTF8 "invalid start byte")])
    else None.

(** The names of the entries that [list_all] yields. *)
Definition names_of (entries : list (dict json)) : list json :=
  map (get_or_none "name") entries.

(** A text form of JSON values for the worked examples: the schema
    [{"type": "string"}] and every metadata mapping are written and read
    back; nothing else is read. *)
Definition tiny_dumps (ensure_ascii : bool) (j : json) : string :=
  match j with
  | JObj [("type", JStr "string")] => "{type: string}"
  | JObj [] => "{}"
  | _ => "{name: invoices}"
  end.

Definition tiny_loads (s : string) : string + json :=
  if String.eqb s "{type: string}" then inr string_schema
  else if String.eqb s "{}" then inr (JObj [])
  else if String.eqb s "{name: invoices}" then
    inr (JObj [("name", JStr "invoices"); ("created", JStr "2026-01-01T12:00:00")])
  else inl "Expecting value".

Definition tiny_path (target file : string) : string :=
  ("pairings/" ++ target ++ "/" ++ file)%string.

(** A pairing reference that [resolve_pairing_path] takes for a path. *)
Definition is_path_like (name : string) : bool :=
  contains "/" name || contains "\" name
  || UtilsIO.endswith name ".json" || UtilsIO.endswith name ".txt".

(* --------------------------------------------------------------------- *)
(** *** Exceptions of the normaliser *)

(** How deep mappings and sequences are nested in a value: the
    recursion of [copy.deepcopy], of [_norm] and of [_fix_required] goes
    as deep. *)
Fixpoint nesting (j : json) : nat :=
  match j with
  | JArr l => S (fold_right (fun x n => Nat.max (nesting x) n) 0 l)
  | JObj d => S (fold_right (fun kv n => Nat.max (nesting (snd kv)) n) 0 d)
  | _ => 0
  end.

(** A nesting that the interpreter's recursion limit of 1000 frames
    leaves room for, [copy.deepcopy] taking a few frames a level; on a
    deeper schema the call can end in [RecursionError], which the
    embedding leaves out. *)
Definition within_recursion_limit (schema : json) : bool :=
  Nat.leb (nesting schema) 100.

(** A schema whose [properties] is no mapping. *)
Definition schema_with_listed_properties : json :=
  JObj [("type", JStr "object"); ("properties", JArr [JStr "name"])].

(** A result that, when it is an exception, is an [AttributeError]. *)
Definition attribute_error_only {A} (r : Res A) : Prop :=
  match r with
  | Raise c _ => c = AttributeError
  | _ => True
  end.




(* ===================================================================== *)
(** ** Dictionaries: lookup and update *)
(* ===================================================================== *)

Section DictFacts.
Context {V : Type}.
Implicit Types (d : dict V) (k : string) (v : V).

Lemma dict_get_set k k' v d :
  dict_get k (dict_set k' v d) = if String.eqb k k' then Some v else dict_get k d.
Proof.
  induction d as [|[k0 v0] d IH]; simpl.
  - destruct (String.eqb_spec k k'); reflexivity.
  - destruct (String.eqb_spec k' k0) as [->|Hne]; simpl.
    + destruct (String.eqb_spec k k0); reflexivity.
    + rewrite IH.
      destruct (String.eqb_spec k k0) as [->|]; [|reflexivity].
      destruct (String.eqb_spec k0 k'); [congruence|reflexivity].
Qed.

Lemma dict_get_set_same k v d : dict_get k (dict_set k v d) = Some v.
Proof. rewrite dict_get_set, String.eqb_refl. reflexivity. Qed.

Lemma dict_get_In k v d : dict_get k d = Some v -> In (k, v) d.
Proof.
  induction d as [|[k0 v0] d IH]; simpl; [discriminate|].
  destruct (String.eqb_spec k k0) as [->|]; intros H.
  - injection H as ->. now left.
  - right. auto.
Qed.

Lemma dict_set_id k v d : dict_get k d = Some v -> dict_set k v d = d.
Proof.
  induction d as [|[k0 v0] d IH]; simpl; [discriminate|].
  destruct (String.eqb_spec k k0) as [->|]; intros H.
  - injection H as ->. reflexivity.
  - f_equal. auto.
Qed.

Lemma dict_keys_set k v d :
  dict_keys (dict_set k v d)
  = if dict_mem k d then dict_keys d else (dict_keys d ++ [k])%list.
Proof.
  unfold dict_mem, dict_keys.
  induction d as [|[k0 v0] d IH]; simpl; [reflexivity|].
  destruct (String.eqb_spec k k0) as [->|]; simpl; [reflexivity|].
  rewrite IH. destruct (dict_get k d); reflexivity.
Qed.

Lemma dict_mem_keys k d : dict_mem k d = existsb (String.eqb k) (dict_keys d).
Proof.
  unfold dict_mem, dict_keys.
  induction d as [|[k0 v0] d IH]; simpl; [reflexivity|].
  destruct (String.eqb k k0); simpl; [reflexivity|exact IH].
Qed.

Lemma dict_get_none_keys k d : dict_get k d = None <-> ~ In k (dict_keys d).
Proof.
  unfold dict_keys.
  induction d as [|[k0 v0] d IH]; simpl; [tauto|].
  destruct (String.eqb_spec k k0) as [->|Hne].
  - split; [discriminate|]. intros H. exfalso. apply H. now left.
  - rewrite IH. split; [intros H [E|I]; [congruence|tauto]|tauto].
Qed.

Lemma dict_length_set k v d :
  length (dict_set k v d) = if dict_mem k d then length d else S (length d).
Proof.
  unfold dict_mem.
  induction d as [|[k0 v0] d IH]; simpl; [reflexivity|].
  destruct (String.eqb_spec k k0); simpl; [reflexivity|].
  rewrite IH. destruct (dict_get k d); reflexivity.
Qed.
End DictFacts.

Lemma nodupb_NoDup l : nodupb l = true <-> NoDup l.
Proof.
  induction l as [|x l IH]; simpl.
  - split; [constructor|reflexivity].
  - rewrite andb_true_iff, negb_true_iff, IH. split.
    + intros [Hx Hl]. constructor; [|assumption].
      intros Hin. assert (existsb (String.eqb x) l = true) as E.
      { apply existsb_exists. exists x. split; [assumption|apply String.eqb_refl]. }
      congruence.
    + intros H. inversion H as [|? ? Hx Hl]; subst. split; [|assumption].
      destruct (existsb (String.eqb x) l) eqn:E; [|reflexivity].
      apply existsb_exists in E as (y & Hy & Exy).
      apply String.eqb_eq in Exy. subst. contradiction.
Qed.

Lemma dict_set_NoDup {V} k (v : V) d :
  NoDup (dict_keys d) -> NoDup (dict_keys (dict_set k v d)).
Proof.
  intros H. rewrite dict_keys_set.
  destruct (dict_mem k d) eqn:E; [assumption|].
  apply NoDup_app; [assumption|repeat constructor; simpl; tauto|].
  intros x Hx [Ek|[]]. subst x.
  rewrite dict_mem_keys in E.
  assert (existsb (String.eqb k) (dict_keys d) = true); [|congruence].
  apply existsb_exists. exists k. split; [assumption|apply String.eqb_refl].
Qed.

Lemma reserved_In k : reserved k = true <-> In k _RESERVED_PROP_NAMES.
Proof.
  unfold reserved. rewrite existsb_exists. split.
  - intros (x & Hx & E). apply String.eqb_eq in E. now subst.
  - intros H. exists k. split; [assumption|apply String.eqb_refl].
Qed.


Lemma In_dict_set {V} k v k1 (v1 : V) d :
  In (k, v) (dict_set k1 v1 d) -> In (k, v) d \/ (k = k1 /\ v = v1).
Proof.
  induction d as [|[k0 v0] d IH]; simpl.
  - intros [E|[]]. injection E as <- <-. tauto.
  - destruct (String.eqb_spec k1 k0) as [->|]; simpl.
    + intros [E|H]; [injection E as <- <-|]; tauto.
    + intros [E|H]; [tauto|]. apply IH in H. tauto.
Qed.

Lemma dict_set_fresh {V} k (v : V) d :
  ~ In k (dict_keys d) -> dict_set k v d = d ++ [(k, v)].
Proof.
  unfold dict_keys. induction d as [|[k0 v0] d IH]; simpl; [reflexivity|].
  intros H. destruct (String.eqb_spec k k0) as [->|]; [tauto|].
  f_equal. apply IH. tauto.
Qed.

Lemma dict_get_values {V} k (v : V) d : dict_get k d = Some v -> In v (dict_values d).
Proof.
  intros H. apply dict_get_In in H. unfold dict_values.
  change v with (snd (k, v)). now apply in_map.
Qed.


(* ===================================================================== *)
(** ** Schema nodes: depth, well-formedness, reachability *)
(* ===================================================================== *)

Lemma depth_In_values (d : dict json) k v :
  In (k, v) d ->
  json_depth v <= fold_right (fun kv n => Nat.max (json_depth (snd kv)) n) 0 d.
Proof.
  induction d as [|[k0 v0] d IH]; simpl; [tauto|].
  intros [E|H]; [injection E as -> ->; lia|]. specialize (IH H). lia.
Qed.

Lemma depth_In_list (l : list json) x :
  In x l -> json_depth x <= json_depth (JArr l).
Proof.
  simpl. induction l as [|y l IH]; simpl; [tauto|].
  intros [->|H]; [lia|]. specialize (IH H). lia.
Qed.

Lemma depth_dict_get d k v :
  dict_get k d = Some v -> json_depth v < json_depth (JObj d).
Proof.
  intros H. apply dict_get_In in H. apply depth_In_values in H. simpl. lia.
Qed.

Lemma depth_JObj_values (d : dict json) v :
  In v (dict_values d) -> json_depth v < json_depth (JObj d).
Proof.
  unfold dict_values. intros H. apply in_map_iff in H as ([k v'] & <- & H).
  apply depth_In_values in H. simpl in *. lia.
Qed.

Lemma children_cases d y :
  In y (children d) ->
  (exists props, dict_get "properties" d = Some (JObj props) /\ In y (dict_values props))
  \/ (exists items, dict_get "items" d = Some (JObj items) /\ y = JObj items)
  \/ (exists items, dict_get "items" d = Some (JArr items) /\ In y items)
  \/ (exists key l, is_combinator key = true
                    /\ dict_get key d = Some (JArr l) /\ In y l)
  \/ (exists defs, dict_get "$defs" d = Some (JObj defs) /\ In y (dict_values defs)).
Proof.
  unfold children, children_under. rewrite !in_app_iff.
  intros [H|[H|[H|[H|[H|H]]]]].
  - left. destruct (dict_get "properties" d) as [[]|]; try contradiction. eauto.
  - destruct (dict_get "items" d) as [[]|]; try contradiction.
    + right. right. left. eauto.
    + right. left. destruct H as [<-|[]]. eauto.
  - right. right. right. left. exists "anyOf".
    destruct (dict_get "anyOf" d) as [[]|]; try contradiction. eauto.
  - right. right. right. left. exists "oneOf".
    destruct (dict_get "oneOf" d) as [[]|]; try contradiction. eauto.
  - right. right. right. left. exists "allOf".
    destruct (dict_get "allOf" d) as [[]|]; try contradiction. eauto.
  - right. right. right. right.
    destruct (dict_get "$defs" d) as [[]|]; try contradiction. eauto.
Qed.

Lemma children_intro_property d props y :
  dict_get "properties" d = Some (JObj props) -> In y (dict_values props) ->
  In y (children d).
Proof. unfold children. intros -> H. apply in_or_app. now left. Qed.

Lemma children_intro_items d items :
  dict_get "items" d = Some (JObj items) -> In (JObj items) (children d).
Proof.
  unfold children. intros ->. apply in_or_app. right. apply in_or_app. left. now left.
Qed.

Lemma children_intro_items_list d items y :
  dict_get "items" d = Some (JArr items) -> In y items -> In y (children d).
Proof.
  unfold children. intros -> H. apply in_or_app. right. apply in_or_app. now left.
Qed.

Lemma children_intro_combinator d key l y :
  is_combinator key = true -> dict_get key d = Some (JArr l) -> In y l ->
  In y (children d).
Proof.
  unfold is_combinator. simpl. rewrite orb_false_r. intros Hk Hd Hy.
  assert (Hu : In y (children_under key d)) by (unfold children_under; now rewrite Hd).
  unfold children. rewrite !in_app_iff.
  apply orb_true_iff in Hk as [Hk|Hk];
    [|apply orb_true_iff in Hk as [Hk|Hk]];
    apply String.eqb_eq in Hk; subst key; tauto.
Qed.

Lemma children_intro_defs d defs y :
  dict_get "$defs" d = Some (JObj defs) -> In y (dict_values defs) ->
  In y (children d).
Proof. unfold children. intros -> H. rewrite !in_app_iff. tauto. Qed.

Lemma depth_children d y : In y (children d) -> json_depth y < json_depth (JObj d).
Proof.
  intros H. apply children_cases in H
    as [(ps & Hd & Hy)|[(it & Hd & ->)|[(l & Hd & Hy)|[(key & l & _ & Hd & Hy)
       |(ds & Hd & Hy)]]]].
  - apply depth_dict_get in Hd. apply depth_JObj_values in Hy. lia.
  - now apply depth_dict_get in Hd.
  - apply depth_dict_get in Hd. apply depth_In_list in Hy. lia.
  - apply depth_dict_get in Hd. apply depth_In_list in Hy. lia.
  - apply depth_dict_get in Hd. apply depth_JObj_values in Hy. lia.
Qed.

Lemma wf_dict_In (d : dict json) k v :
  wf_json (JObj d) = true -> In (k, v) d -> wf_json v = true.
Proof.
  simpl. intros H Hin. apply andb_true_iff in H as [_ H].
  rewrite forallb_forall in H. apply (H (k, v) Hin).
Qed.

Lemma wf_dict_get d k v :
  wf_json (JObj d) = true -> dict_get k d = Some v -> wf_json v = true.
Proof. intros H Hg. apply dict_get_In in Hg. eapply wf_dict_In; eassumption. Qed.

Lemma wf_dict_values (d : dict json) v :
  wf_json (JObj d) = true -> In v (dict_values d) -> wf_json v = true.
Proof.
  unfold dict_values. intros H Hin. apply in_map_iff in Hin as ([k v'] & <- & Hin).
  eapply wf_dict_In; eassumption.
Qed.

Lemma wf_list_In l x : wf_json (JArr l) = true -> In x l -> wf_json x = true.
Proof. simpl. intros H Hin. rewrite forallb_forall in H. now apply H. Qed.

Lemma wf_dict_keys d : wf_json (JObj d) = true -> NoDup (dict_keys d).
Proof. simpl. intros H. apply andb_true_iff in H as [H _]. now apply nodupb_NoDup. Qed.

Lemma wf_children d y : wf_json (JObj d) = true -> In y (children d) -> wf_json y = true.
Proof.
  intros Hwf H. apply children_cases in H
    as [(ps & Hd & Hy)|[(it & Hd & ->)|[(l & Hd & Hy)|[(key & l & _ & Hd & Hy)
       |(ds & Hd & Hy)]]]].
  - eapply wf_dict_values; [|exact Hy]. eapply wf_dict_get; eassumption.
  - eapply wf_dict_get; eassumption.
  - eapply wf_list_In; [|exact Hy]. eapply wf_dict_get; eassumption.
  - eapply wf_list_In; [|exact Hy]. eapply wf_dict_get; eassumption.
  - eapply wf_dict_values; [|exact Hy]. eapply wf_dict_get; eassumption.
Qed.

(** The nodes below a child are nodes of the parent. *)
Lemma nodes_children d y : In y (children d) -> incl (nodes y) (nodes (JObj d)).
Proof.
  intros H x Hx. cbn [nodes]. right. apply in_flat_map.
  apply children_cases in H
    as [(ps & Hd & Hy)|[(it & Hd & ->)|[(l & Hd & Hy)|[(key & l & Hk & Hd & Hy)
       |(ds & Hd & Hy)]]]].
  - exists ("properties", JObj ps). split; [now apply dict_get_In|].
    cbn [fst snd String.eqb Ascii.eqb Bool.eqb orb].
    apply in_flat_map. unfold dict_values in Hy.
    apply in_map_iff in Hy as (kv & <- & Hin). eauto.
  - exists ("items", JObj it). split; [now apply dict_get_In|]. exact Hx.
  - exists ("items", JArr l). split; [now apply dict_get_In|].
    cbn [fst snd String.eqb Ascii.eqb Bool.eqb orb].
    apply in_flat_map. eauto.
  - exists (key, JArr l). split; [now apply dict_get_In|].
    cbn [fst snd]. rewrite Hk, orb_true_r. apply in_flat_map. eauto.
  - exists ("$defs", JObj ds). split; [now apply dict_get_In|].
    cbn [fst snd String.eqb Ascii.eqb Bool.eqb orb].
    apply in_flat_map. unfold dict_values in Hy.
    apply in_map_iff in Hy as (kv & <- & Hin). eauto.
Qed.

Lemma nodes_self d : In (JObj d) (nodes (JObj d)).
Proof. cbn [nodes]. now left. Qed.

(** A property checked on the list of nodes holds along the lookups. *)
Lemma every_node_all_nodes (p : dict json -> bool) schema :
  every_node p schema = true -> all_nodes (fun d => p d = true) schema.
Proof.
  unfold every_node. rewrite forallb_forall.
  remember (json_depth schema) as n eqn:En.
  assert (Hn : json_depth schema <= n) by lia. clear En.
  revert schema Hn. induction n as [|n IH]; intros schema Hn H.
  - destruct schema; try (now constructor); simpl in Hn; lia.
  - destruct schema as [| | | | |d]; try (now constructor).
    apply all_nodes_node.
    + apply (H (JObj d)). apply nodes_self.
    + apply Forall_forall. intros y Hy. apply IH.
      * apply depth_children in Hy. lia.
      * intros x Hx. apply H. eapply nodes_children; eassumption.
Qed.

Lemma all_nodes_impl (P Q : dict json -> Prop) schema :
  (forall d, P d -> Q d) -> all_nodes P schema -> all_nodes Q schema.
Proof.
  intros HPQ.
  remember (json_depth schema) as n eqn:En.
  assert (Hn : json_depth schema <= n) by lia. clear En.
  revert schema Hn. induction n as [|n IH]; intros schema Hn H.
  - destruct schema; try (now constructor); simpl in Hn; lia.
  - inversion H as [j Hj|d Hd Hc]; subst; [now constructor|].
    apply all_nodes_node; [auto|]. rewrite Forall_forall in *. intros y Hy.
    apply IH; [|auto]. apply depth_children in Hy. lia.
Qed.

Lemma all_nodes_and (P Q : dict json -> Prop) schema :
  all_nodes P schema -> all_nodes Q schema -> all_nodes (fun d => P d /\ Q d) schema.
Proof.
  remember (json_depth schema) as n eqn:En.
  assert (Hn : json_depth schema <= n) by lia. clear En.
  revert schema Hn. induction n as [|n IH]; intros schema Hn HP HQ.
  - destruct schema; try (now constructor); simpl in Hn; lia.
  - inversion HP as [j Hj|d Hd Hc]; subst; [now constructor|].
    inversion HQ as [j Hj|d' Hd' Hc']; subst; [discriminate|].
    apply all_nodes_node; [tauto|]. rewrite Forall_forall in *. intros y Hy.
    apply IH; [|auto|auto]. apply depth_children in Hy. lia.
Qed.

Lemma all_nodes_node_inv (P : dict json -> Prop) d :
  all_nodes P (JObj d) -> P d /\ forall y, In y (children d) -> all_nodes P y.
Proof.
  intros H. inversion H as [j Hj|d' Hd Hc]; subst; [discriminate|].
  split; [assumption|]. now apply Forall_forall.
Qed.

Lemma child_at_children d s y : child_at (JObj d) s = Some y -> In y (children d).
Proof.
  destruct s as [k| |i|key i|k]; simpl.
  - destruct (dict_get "properties" d) as [[]|] eqn:E; try discriminate.
    intros H. eapply children_intro_property; [exact E|].
    eapply dict_get_values; eassumption.
  - destruct (dict_get "items" d) as [[]|] eqn:E; try discriminate.
    intros H. injection H as <-. now apply children_intro_items.
  - destruct (dict_get "items" d) as [[]|] eqn:E; try discriminate.
    intros H. eapply children_intro_items_list; [exact E|].
    eapply nth_error_In; eassumption.
  - destruct (is_combinator key) eqn:Ek; [|discriminate].
    destruct (dict_get key d) as [[]|] eqn:E; try discriminate.
    intros H. eapply children_intro_combinator; [exact Ek|exact E|].
    eapply nth_error_In; eassumption.
  - destruct (dict_get "$defs" d) as [[]|] eqn:E; try discriminate.
    intros H. eapply children_intro_defs; [exact E|].
    eapply dict_get_values; eassumption.
Qed.

(* ===================================================================== *)
(** ** The normaliser, step by step *)
(* ===================================================================== *)

Lemma bind_Ok {A B} (c : M A) (k : A -> M B) rm b rm' :
  bind c k rm = Ok (b, rm') ->
  exists a rm1, c rm = Ok (a, rm1) /\ k a rm1 = Ok (b, rm').
Proof.
  unfold bind. destruct (c rm) as [[a rm1]| |]; try discriminate. eauto.
Qed.

Lemma bind_Ok_intro {A B} (c : M A) (k : A -> M B) rm a rm1 :
  c rm = Ok (a, rm1) -> bind c k rm = k a rm1.
Proof. unfold bind. now intros ->. Qed.

Lemma ret_Ok {A} (a b : A) rm rm' : ret a rm = Ok (b, rm') -> b = a /\ rm' = rm.
Proof. unfold ret. intros H. injection H as <- <-. tauto. Qed.

Lemma mapM_Forall2 {A B} (f : A -> M B) l :
  forall rm l' rm',
    mapM f l rm = Ok (l', rm') ->
    Forall2 (fun x y => exists r1 r2, f x r1 = Ok (y, r2)) l l'.
Proof.
  induction l as [|x l IH]; simpl; intros rm l' rm' H.
  - apply ret_Ok in H as [-> _]. constructor.
  - apply bind_Ok in H as (y & rm1 & Hy & H).
    apply bind_Ok in H as (ys & rm2 & Hys & H).
    apply ret_Ok in H as [-> _]. constructor; eauto.
Qed.

Lemma mapM_id {A} (f : A -> M A) l rm :
  Forall (fun x => f x rm = Ok (x, rm)) l -> mapM f l rm = Ok (l, rm).
Proof.
  induction 1 as [|x l Hx _ IH]; simpl; [reflexivity|].
  rewrite (bind_Ok_intro _ _ _ _ _ Hx), (bind_Ok_intro _ _ _ _ _ IH). reflexivity.
Qed.

Lemma renamed_not_reserved k : reserved (renamed k) = false.
Proof.
  unfold renamed. destruct (reserved k) eqn:E; [|assumption].
  apply reserved_In in E. simpl in E.
  destruct E as [<-|[<-|[<-|[<-|[<-|[]]]]]]; reflexivity.
Qed.

Lemma renamed_form_not_reserved k : reserved k = true -> reserved (renamed_form k) = false.
Proof.
  intros E. apply reserved_In in E. simpl in E.
  destruct E as [<-|[<-|[<-|[<-|[<-|[]]]]]]; reflexivity.
Qed.

Lemma add_keys_NoDup l :
  forall acc, NoDup (acc ++ l) -> fold_left add_key l acc = acc ++ l.
Proof.
  induction l as [|k l IH]; intros acc Hnd; simpl; [now rewrite app_nil_r|].
  unfold add_key at 2.
  destruct (existsb (String.eqb k) acc) eqn:E.
  - exfalso. apply existsb_exists in E as (k' & Hin & Ek).
    apply String.eqb_eq in Ek. subst k'.
    apply NoDup_remove_2 in Hnd. apply Hnd. apply in_or_app. now left.
  - rewrite IH; rewrite <- app_assoc; [reflexivity|exact Hnd].
Qed.

Lemma distinct_in_order_NoDup l : NoDup l -> distinct_in_order l = l.
Proof. intros H. unfold distinct_in_order. now rewrite add_keys_NoDup. Qed.

Lemma renamed_id k : reserved k = false -> renamed k = k.
Proof. unfold renamed. now intros ->. Qed.

Section NormSteps.
Variable self : json -> M json.
Hypothesis self_leaf : forall x, is_dict x = false -> self x = ret x.

Lemma norm_if_dict_self x rm : norm_if_dict self x rm = self x rm.
Proof.
  unfold norm_if_dict. destruct (is_dict x) eqn:E; [reflexivity|].
  now rewrite self_leaf.
Qed.

Lemma mapM_norm_if_dict l rm l' rm' :
  mapM (norm_if_dict self) l rm = Ok (l', rm') -> Forall2 (produces self) l l'.
Proof.
  intros H. apply mapM_Forall2 in H.
  eapply Forall2_impl; [|exact H].
  intros x y (r1 & r2 & E). rewrite norm_if_dict_self in E. now exists r1, r2.
Qed.

(** The loop over the properties: keys are pairwise distinct, no key is
    reserved, and every value comes from [self]. *)
Lemma norm_props_entries props :
  forall acc rm res rm',
    norm_props self props acc rm = Ok (res, rm') ->
    forall k' v', In (k', v') res ->
      In (k', v') acc
      \/ exists k v, In (k, v) props /\ k' = renamed k /\ produces self v v'.
Proof.
  induction props as [|[k v] props IH]; simpl; intros acc rm res rm' H k' v' Hin.
  - apply ret_Ok in H as [-> _]. tauto.
  - assert (Hgen : exists v1 rm1 rm2,
               self v rm1 = Ok (v1, rm2)
               /\ norm_props self props (dict_set (renamed k) v1 acc) rm2 = Ok (res, rm')).
    { unfold renamed. destruct (reserved k).
      - apply bind_Ok in H as ([] & rm1 & _ & H).
        apply bind_Ok in H as (v1 & rm2 & Hv & H). eauto.
      - apply bind_Ok in H as (v1 & rm2 & Hv & H). eauto. }
    destruct Hgen as (v1 & rm1 & rm2 & Hv & Hrest).
    destruct (IH _ _ _ _ Hrest k' v' Hin) as [Hacc|(k0 & v0 & H0 & Hk & Hp)].
    + apply In_dict_set in Hacc as [Hacc|[-> ->]]; [tauto|].
      right. exists k, v. split; [now left|]. split; [reflexivity|]. now exists rm1, rm2.
    + right. exists k0, v0. tauto.
Qed.

Lemma norm_props_NoDup props :
  forall acc rm res rm',
    norm_props self props acc rm = Ok (res, rm') ->
    NoDup (dict_keys acc) -> NoDup (dict_keys res).
Proof.
  induction props as [|[k v] props IH]; simpl; intros acc rm res rm' H Hnd.
  - apply ret_Ok in H as [-> _]. assumption.
  - destruct (reserved k).
    + apply bind_Ok in H as ([] & rm1 & _ & H).
      apply bind_Ok in H as (v1 & rm2 & Hv & H).
      eapply IH; [exact H|]. now apply dict_set_NoDup.
    + apply bind_Ok in H as (v1 & rm2 & Hv & H).
      eapply IH; [exact H|]. now apply dict_set_NoDup.
Qed.

(** Without collisions the loop maps the entries one to one, in order. *)
Lemma norm_props_exact props :
  forall acc rm res rm',
    norm_props self props acc rm = Ok (res, rm') ->
    NoDup (dict_keys acc ++ map renamed (dict_keys props)) ->
    exists props',
      res = acc ++ props'
      /\ Forall2 (fun kv kv' => fst kv' = renamed (fst kv)
                                /\ produces self (snd kv) (snd kv')) props props'.
Proof.
  induction props as [|[k v] props IH]; simpl; intros acc rm res rm' H Hnd.
  - apply ret_Ok in H as [-> _]. exists []. rewrite app_nil_r. split; constructor.
  - assert (Hgen : exists v1 rm1 rm2,
               self v rm1 = Ok (v1, rm2)
               /\ norm_props self props (dict_set (renamed k) v1 acc) rm2 = Ok (res, rm')).
    { unfold renamed. destruct (reserved k).
      - apply bind_Ok in H as ([] & rm1 & _ & H).
        apply bind_Ok in H as (v1 & rm2 & Hv & H). eauto.
      - apply bind_Ok in H as (v1 & rm2 & Hv & H). eauto. }
    destruct Hgen as (v1 & rm1 & rm2 & Hv & Hrest).
    assert (Hfresh : ~ In (renamed k) (dict_keys acc)).
    { intros Hin. apply NoDup_remove_2 in Hnd. apply Hnd.
      apply in_or_app. now left. }
    rewrite (dict_set_fresh _ _ _ Hfresh) in Hrest.
    destruct (IH _ _ _ _ Hrest) as (props' & -> & HF).
    { unfold dict_keys in *. rewrite map_app, <- app_assoc. simpl.
      exact Hnd. }
    exists ((renamed k, v1) :: props'). rewrite <- app_assoc. split; [reflexivity|].
    constructor; [|assumption]. split; [reflexivity|]. now exists rm1, rm2.
Qed.

(** The keys of the new properties map: the renamed keys, each once, in
    the order of their first insertion. *)
Lemma norm_props_keys props :
  forall acc rm res rm',
    norm_props self props acc rm = Ok (res, rm') ->
    dict_keys res = fold_left add_key (map renamed (dict_keys props)) (dict_keys acc).
Proof.
  induction props as [|[k v] props IH]; simpl; intros acc rm res rm' H.
  - apply ret_Ok in H as [-> _]. reflexivity.
  - assert (Hgen : exists v1 rm2,
               norm_props self props (dict_set (renamed k) v1 acc) rm2 = Ok (res, rm')).
    { unfold renamed. destruct (reserved k).
      - apply bind_Ok in H as ([] & rm1 & _ & H).
        apply bind_Ok in H as (v1 & rm2 & Hv & H). eauto.
      - apply bind_Ok in H as (v1 & rm2 & Hv & H). eauto. }
    destruct Hgen as (v1 & rm2 & Hrest).
    rewrite (IH _ _ _ _ Hrest). f_equal.
    rewrite dict_keys_set, dict_mem_keys. reflexivity.
Qed.

Lemma norm_defs_entries defs :
  forall acc rm res rm',
    norm_defs self defs acc rm = Ok (res, rm') ->
    forall k' v', In (k', v') res ->
      In (k', v') acc \/ exists v, In (k', v) defs /\ produces self v v'.
Proof.
  induction defs as [|[k v] defs IH]; simpl; intros acc rm res rm' H k' v' Hin.
  - apply ret_Ok in H as [-> _]. tauto.
  - apply bind_Ok in H as (v1 & rm1 & Hv & Hrest).
    rewrite norm_if_dict_self in Hv.
    destruct (IH _ _ _ _ Hrest k' v' Hin) as [Hacc|(v0 & H0 & Hp)].
    + apply In_dict_set in Hacc as [Hacc|[-> ->]]; [tauto|].
      right. exists v. split; [now left|]. now exists rm, rm1.
    + right. exists v0. tauto.
Qed.

Lemma norm_defs_NoDup defs :
  forall acc rm res rm',
    norm_defs self defs acc rm = Ok (res, rm') ->
    NoDup (dict_keys acc) -> NoDup (dict_keys res).
Proof.
  induction defs as [|[k v] defs IH]; simpl; intros acc rm res rm' H Hnd.
  - apply ret_Ok in H as [-> _]. assumption.
  - apply bind_Ok in H as (v1 & rm1 & Hv & Hrest).
    eapply IH; [exact Hrest|]. now apply dict_set_NoDup.
Qed.

Lemma norm_defs_exact defs :
  forall acc rm res rm',
    norm_defs self defs acc rm = Ok (res, rm') ->
    NoDup (dict_keys acc ++ dict_keys defs) ->
    exists defs',
      res = acc ++ defs'
      /\ Forall2 (fun kv kv' => fst kv' = fst kv
                                /\ produces self (snd kv) (snd kv')) defs defs'.
Proof.
  induction defs as [|[k v] defs IH]; simpl; intros acc rm res rm' H Hnd.
  - apply ret_Ok in H as [-> _]. exists []. rewrite app_nil_r. split; constructor.
  - apply bind_Ok in H as (v1 & rm1 & Hv & Hrest).
    rewrite norm_if_dict_self in Hv.
    assert (Hfresh : ~ In k (dict_keys acc)).
    { intros Hin. apply NoDup_remove_2 in Hnd. apply Hnd.
      apply in_or_app. now left. }
    rewrite (dict_set_fresh _ _ _ Hfresh) in Hrest.
    destruct (IH _ _ _ _ Hrest) as (defs' & -> & HF).
    { unfold dict_keys in *. rewrite map_app, <- app_assoc. simpl. exact Hnd. }
    exists ((k, v1) :: defs'). rewrite <- app_assoc. split; [reflexivity|].
    constructor; [|assumption]. split; [reflexivity|]. now exists rm, rm1.
Qed.
End NormSteps.

Lemma is_str_list_map_JStr l : is_str_list (JArr (map JStr l)) = true.
Proof. simpl. induction l as [|x l IH]; simpl; [reflexivity|exact IH]. Qed.

Section StepSpecs.
Variable self : json -> M json.
Hypothesis self_leaf : forall x, is_dict x = false -> self x = ret x.

Lemma step_properties_spec d rm o rm' :
  step_properties self d rm = Ok (o, rm') ->
  match dict_get "properties" d with
  | Some (JObj props) =>
      exists props',
        norm_props self props [] rm = Ok (props', rm')
        /\ o = dict_set "properties" (JObj props') d
  | _ => o = d /\ rm' = rm
  end.
Proof.
  unfold step_properties, get_or_none.
  destruct (dict_get "properties" d) as [[]|]; intros H;
    try (apply ret_Ok in H; exact H).
  apply bind_Ok in H as (props' & rm1 & Hp & H).
  apply ret_Ok in H as [-> ->]. eauto.
Qed.

Lemma step_items_spec d rm o rm' :
  step_items self d rm = Ok (o, rm') ->
  match dict_get "items" d with
  | Some (JObj items) =>
      exists items', self (JObj items) rm = Ok (items', rm')
                     /\ o = dict_set "items" items' d
  | Some (JArr items) =>
      exists items', mapM (norm_if_dict self) items rm = Ok (items', rm')
                     /\ o = dict_set "items" (JArr items') d
  | _ => o = d /\ rm' = rm
  end.
Proof.
  unfold step_items, get_or_none.
  destruct (dict_get "items" d) as [[]|]; intros H;
    try (apply ret_Ok in H; exact H).
  - apply bind_Ok in H as (l' & rm1 & Hl & H). apply ret_Ok in H as [-> ->]. eauto.
  - apply bind_Ok in H as (l' & rm1 & Hl & H). apply ret_Ok in H as [-> ->]. eauto.
Qed.

Lemma step_combinator_spec key d rm o rm' :
  step_combinator self key d rm = Ok (o, rm') ->
  match dict_get key d with
  | Some (JArr l) =>
      exists l', mapM (norm_if_dict self) l rm = Ok (l', rm')
                 /\ o = dict_set key (JArr l') d
  | _ => o = d /\ rm' = rm
  end.
Proof.
  unfold step_combinator.
  destruct (dict_get key d) as [[]|]; intros H;
    try (apply ret_Ok in H; exact H).
  apply bind_Ok in H as (l' & rm1 & Hl & H). apply ret_Ok in H as [-> ->]. eauto.
Qed.

Lemma step_defs_spec d rm o rm' :
  step_defs self d rm = Ok (o, rm') ->
  match dict_get "$defs" d with
  | Some (JObj defs) =>
      exists defs', norm_defs self defs [] rm = Ok (defs', rm')
                    /\ o = dict_set "$defs" (JObj defs') d
  | _ => o = d /\ rm' = rm
  end.
Proof.
  unfold step_defs.
  destruct (dict_get "$defs" d) as [[]|]; intros H;
    try (apply ret_Ok in H; exact H).
  apply bind_Ok in H as (l' & rm1 & Hl & H). apply ret_Ok in H as [-> ->]. eauto.
Qed.
End StepSpecs.

Lemma keys_of_Ok x ks rm rm' :
  keys_of x rm = Ok (ks, rm') ->
  exists d, x = JObj d /\ ks = map JStr (dict_keys d) /\ rm' = rm.
Proof.
  destruct x; simpl; try discriminate. intros H. apply ret_Ok in H as [-> ->]. eauto.
Qed.

(** What [step_required] does to a node: nothing, or it sets [required]
    to a list of strings. *)
Lemma step_required_spec d rm o rm' :
  step_required d rm = Ok (o, rm') ->
  rm' = rm
  /\ (o = d \/ exists l, o = dict_set "required" (JArr (map JStr l)) d)
  /\ normal_required o
  /\ (dict_get "required" d = Some (JBool true) ->
      properties_is_map d = true
      /\ o = dict_set "required" (JArr (map JStr (dict_keys (properties_of d)))) d).
Proof.
  unfold step_required. intros H.
  assert (Hset : forall l,
             normal_required (dict_set "required" (JArr (map JStr l)) d)).
  { intros l. unfold normal_required, get_or_none. rewrite dict_get_set_same.
    apply is_str_list_map_JStr. }
  assert (Hkeys : forall x ks r r',
             keys_of x r = Ok (ks, r') ->
             ret (dict_set "required" (JArr ks) d) r' = Ok (o, rm') ->
             rm' = r
             /\ (o = d \/ exists l, o = dict_set "required" (JArr (map JStr l)) d)
             /\ normal_required o).
  { intros x ks r r' Hk Hr. apply keys_of_Ok in Hk as (dk & -> & -> & ->).
    apply ret_Ok in Hr as [-> ->]. split; [reflexivity|]. split; [eauto|apply Hset]. }
  destruct (get_or_none "required" d) as [|[|]|n|s|l|r] eqn:Ereq.
  - (* None *)
    assert (Hnot : dict_get "required" d = Some (JBool true) -> False).
    { unfold get_or_none in Ereq. intros E. rewrite E in Ereq. discriminate. }
    destruct (get_or_none "properties" d) as [| | | | |[|e ps]] eqn:Eprops;
      apply ret_Ok in H as [-> ->];
      (split; [reflexivity|]);
      try (split; [now left|split; [|tauto]];
           unfold normal_required; rewrite Ereq, Eprops; exact Logic.I).
    split; [right; exists []; reflexivity|]. split; [apply (Hset [])|tauto].
  - (* True *)
    simpl in H. apply bind_Ok in H as (ks & r1 & Hk & H).
    pose proof (keys_of_Ok _ _ _ _ Hk) as (dk & Ex & -> & ->).
    apply ret_Ok in H as [-> ->].
    assert (Hp : properties_is_map d = true /\ dict_keys dk = dict_keys (properties_of d)).
    { unfold get_properties_or_empty in Ex. unfold properties_is_map, properties_of.
      destruct (dict_get "properties" d) as [p|]; [subst p|injection Ex as <-]; tauto. }
    destruct Hp as [Hp ->].
    split; [reflexivity|]. split; [eauto|]. split; [apply Hset|]. tauto.
  - (* False *)
    simpl in H. apply ret_Ok in H as [-> ->].
    assert (Hnot : dict_get "required" d = Some (JBool true) -> False).
    { unfold get_or_none in Ereq. intros E. rewrite E in Ereq. discriminate. }
    split; [reflexivity|]. split; [right; exists []; reflexivity|].
    split; [apply (Hset [])|tauto].
  - (* number *)
    assert (Hnot : dict_get "required" d = Some (JBool true) -> False).
    { unfold get_or_none in Ereq. intros E. rewrite E in Ereq. discriminate. }
    simpl in H. destruct (truthy (get_or_none "properties" d)).
    + apply bind_Ok in H as (ks & r1 & Hk & H).
      destruct (Hkeys _ _ _ _ Hk H) as (-> & Ho & Hn). tauto.
    + apply ret_Ok in H as [-> ->].
      split; [reflexivity|]. split; [right; exists []; reflexivity|].
      split; [apply (Hset [])|tauto].
  - (* string *)
    assert (Hnot : dict_get "required" d = Some (JBool true) -> False).
    { unfold get_or_none in Ereq. intros E. rewrite E in Ereq. discriminate. }
    simpl in H. destruct (truthy (get_or_none "properties" d)).
    + apply bind_Ok in H as (ks & r1 & Hk & H).
      destruct (Hkeys _ _ _ _ Hk H) as (-> & Ho & Hn). tauto.
    + apply ret_Ok in H as [-> ->].
      split; [reflexivity|]. split; [right; exists []; reflexivity|].
      split; [apply (Hset [])|tauto].
  - (* list *)
    assert (Hnot : dict_get "required" d = Some (JBool true) -> False).
    { unfold get_or_none in Ereq. intros E. rewrite E in Ereq. discriminate. }
    destruct (is_str_list (JArr l)) eqn:Estr.
    + apply ret_Ok in H as [-> ->]. split; [reflexivity|]. split; [now left|].
      split; [|tauto]. unfold normal_required. rewrite Ereq. exact Estr.
    + destruct (truthy (get_or_none "properties" d)).
      * apply bind_Ok in H as (ks & r1 & Hk & H).
        destruct (Hkeys _ _ _ _ Hk H) as (-> & Ho & Hn). tauto.
      * apply ret_Ok in H as [-> ->].
        split; [reflexivity|]. split; [right; exists []; reflexivity|].
        split; [apply (Hset [])|tauto].
  - (* mapping *)
    assert (Hnot : dict_get "required" d = Some (JBool true) -> False).
    { unfold get_or_none in Ereq. intros E. rewrite E in Ereq. discriminate. }
    simpl in H. apply ret_Ok in H as [-> ->].
    split; [reflexivity|]. split; [eauto|]. split; [apply Hset|tauto].
Qed.

(** The seven steps of [norm_dict], one after the other. *)
Lemma norm_dict_chain self d rm n rm' :
  norm_dict self d rm = Ok (n, rm') ->
  exists o1 o2 o3 o4 o5 o6 o7 r1 r2 r3 r4 r5 r6,
    step_properties self d rm = Ok (o1, r1)
    /\ step_items self o1 r1 = Ok (o2, r2)
    /\ step_required o2 r2 = Ok (o3, r3)
    /\ step_combinator self "anyOf" o3 r3 = Ok (o4, r4)
    /\ step_combinator self "oneOf" o4 r4 = Ok (o5, r5)
    /\ step_combinator self "allOf" o5 r5 = Ok (o6, r6)
    /\ step_defs self o6 r6 = Ok (o7, rm')
    /\ n = JObj o7.
Proof.
  unfold norm_dict. intros H.
  apply bind_Ok in H as (o1 & r1 & H1 & H).
  apply bind_Ok in H as (o2 & r2 & H2 & H).
  apply bind_Ok in H as (o3 & r3 & H3 & H).
  apply bind_Ok in H as (o4 & r4 & H4 & H).
  apply bind_Ok in H as (o5 & r5 & H5 & H).
  apply bind_Ok in H as (o6 & r6 & H6 & H).
  apply bind_Ok in H as (o7 & r7 & H7 & H).
  apply ret_Ok in H as [-> ->].
  exists o1, o2, o3, o4, o5, o6, o7, r1, r2, r3, r4, r5, r6. tauto.
Qed.


Lemma rewrites_other key d o k :
  rewrites key d o -> String.eqb k key = false -> dict_get k o = dict_get k d.
Proof.
  intros [->|(v & ->)] Hk; [reflexivity|]. now rewrite dict_get_set, Hk.
Qed.

Lemma rewrites_nonempty key d o : rewrites key d o -> d <> [] -> o <> [].
Proof.
  intros [->|(v & ->)] Hd; [assumption|].
  destruct d as [|[k0 v0] d]; simpl; [discriminate|].
  destruct (String.eqb key k0); discriminate.
Qed.

Section Rewrites.
Variable self : json -> M json.

Lemma step_properties_rewrites d rm o rm' :
  step_properties self d rm = Ok (o, rm') -> rewrites "properties" d o.
Proof.
  intros H. apply step_properties_spec in H.
  destruct (dict_get "properties" d) as [[]|];
    try (left; tauto). destruct H as (p & _ & ->). right. eauto.
Qed.

Lemma step_items_rewrites d rm o rm' :
  step_items self d rm = Ok (o, rm') -> rewrites "items" d o.
Proof.
  intros H. apply step_items_spec in H.
  destruct (dict_get "items" d) as [[]|];
    try (left; tauto); destruct H as (p & _ & ->); right; eauto.
Qed.

Lemma step_required_rewrites d rm o rm' :
  step_required d rm = Ok (o, rm') -> rewrites "required" d o.
Proof.
  intros H. apply step_required_spec in H as (_ & [->|(l & ->)] & _).
  - now left.
  - right. eauto.
Qed.

Lemma step_combinator_rewrites key d rm o rm' :
  step_combinator self key d rm = Ok (o, rm') -> rewrites key d o.
Proof.
  intros H. apply step_combinator_spec in H.
  destruct (dict_get key d) as [[]|];
    try (left; tauto). destruct H as (p & _ & ->). right. eauto.
Qed.

Lemma step_defs_rewrites d rm o rm' :
  step_defs self d rm = Ok (o, rm') -> rewrites "$defs" d o.
Proof.
  intros H. apply step_defs_spec in H.
  destruct (dict_get "$defs" d) as [[]|];
    try (left; tauto). destruct H as (p & _ & ->). right. eauto.
Qed.
End Rewrites.

Lemma normal_required_ext d o :
  dict_get "required" o = dict_get "required" d ->
  dict_get "properties" o = dict_get "properties" d ->
  normal_required d -> normal_required o.
Proof.
  unfold normal_required, get_or_none. now intros -> ->.
Qed.

Lemma properties_of_ext d o :
  dict_get "properties" o = dict_get "properties" d ->
  properties_of o = properties_of d.
Proof. unfold properties_of. now intros ->. Qed.

Section Lookups.
Variable self : json -> M json.
Hypothesis self_leaf : forall x, is_dict x = false -> self x = ret x.

(** The entries of a normalised node, keyword by keyword, from the
    entries of the node it comes from. *)
Lemma norm_dict_lookups d rm n rm' :
  norm_dict self d rm = Ok (n, rm') ->
  exists o,
    n = JObj o
    /\ (d <> [] -> o <> [])
    /\ match dict_get "properties" d with
       | Some (JObj props) =>
           exists props' ra rb,
             norm_props self props [] ra = Ok (props', rb)
             /\ dict_get "properties" o = Some (JObj props')
       | other => dict_get "properties" o = other
       end
    /\ match dict_get "items" d with
       | Some (JObj items) =>
           exists items', produces self (JObj items) items'
                          /\ dict_get "items" o = Some items'
       | Some (JArr items) =>
           exists items', Forall2 (produces self) items items'
                          /\ dict_get "items" o = Some (JArr items')
       | other => dict_get "items" o = other
       end
    /\ (forall key, is_combinator key = true ->
          match dict_get key d with
          | Some (JArr l) =>
              exists l', Forall2 (produces self) l l'
                         /\ dict_get key o = Some (JArr l')
          | other => dict_get key o = other
          end)
    /\ match dict_get "$defs" d with
       | Some (JObj defs) =>
           exists defs' ra rb,
             norm_defs self defs [] ra = Ok (defs', rb)
             /\ dict_get "$defs" o = Some (JObj defs')
       | other => dict_get "$defs" o = other
       end
    /\ normal_required o
    /\ (dict_get "required" d = Some (JBool true) ->
        properties_is_map d = true
        /\ dict_get "required" o
           = Some (JArr (map JStr (dict_keys (properties_of o)))))
    /\ (forall k, existsb (String.eqb k) handled_keys = false ->
                  dict_get k o = dict_get k d).
Proof.
  intros H.
  apply norm_dict_chain in H
    as (o1 & o2 & o3 & o4 & o5 & o6 & o7 & r1 & r2 & r3 & r4 & r5 & r6
        & H1 & H2 & H3 & H4 & H5 & H6 & H7 & ->).
  pose proof (step_properties_rewrites _ _ _ _ _ H1) as R1.
  pose proof (step_items_rewrites _ _ _ _ _ H2) as R2.
  pose proof (step_required_rewrites _ _ _ _ H3) as R3.
  pose proof (step_combinator_rewrites _ _ _ _ _ _ H4) as R4.
  pose proof (step_combinator_rewrites _ _ _ _ _ _ H5) as R5.
  pose proof (step_combinator_rewrites _ _ _ _ _ _ H6) as R6.
  pose proof (step_defs_rewrites _ _ _ _ _ H7) as R7.
  apply step_properties_spec in H1. apply step_items_spec in H2.
  apply step_required_spec in H3 as (_ & _ & Hnormal & Htrue).
  apply step_combinator_spec in H4. apply step_combinator_spec in H5.
  apply step_combinator_spec in H6. apply step_defs_spec in H7.
  exists o7. split; [reflexivity|]. split.
  { intros Hd. eapply rewrites_nonempty; [exact R7|].
    eapply rewrites_nonempty; [exact R6|]. eapply rewrites_nonempty; [exact R5|].
    eapply rewrites_nonempty; [exact R4|]. eapply rewrites_nonempty; [exact R3|].
    eapply rewrites_nonempty; [exact R2|]. eapply rewrites_nonempty; [exact R1|].
    exact Hd. }
  assert (Eprops : dict_get "properties" o7 = dict_get "properties" o1).
  { rewrite (rewrites_other _ _ _ "properties" R7 eq_refl),
      (rewrites_other _ _ _ "properties" R6 eq_refl),
      (rewrites_other _ _ _ "properties" R5 eq_refl),
      (rewrites_other _ _ _ "properties" R4 eq_refl),
      (rewrites_other _ _ _ "properties" R3 eq_refl),
      (rewrites_other _ _ _ "properties" R2 eq_refl). reflexivity. }
  assert (Eprops2 : dict_get "properties" o3 = dict_get "properties" o7).
  { rewrite Eprops. rewrite (rewrites_other _ _ _ "properties" R3 eq_refl),
      (rewrites_other _ _ _ "properties" R2 eq_refl). reflexivity. }
  assert (Eitems : dict_get "items" o7 = dict_get "items" o2).
  { rewrite (rewrites_other _ _ _ "items" R7 eq_refl),
      (rewrites_other _ _ _ "items" R6 eq_refl),
      (rewrites_other _ _ _ "items" R5 eq_refl),
      (rewrites_other _ _ _ "items" R4 eq_refl),
      (rewrites_other _ _ _ "items" R3 eq_refl). reflexivity. }
  assert (Ereq : dict_get "required" o7 = dict_get "required" o3).
  { rewrite (rewrites_other _ _ _ "required" R7 eq_refl),
      (rewrites_other _ _ _ "required" R6 eq_refl),
      (rewrites_other _ _ _ "required" R5 eq_refl),
      (rewrites_other _ _ _ "required" R4 eq_refl). reflexivity. }
  split; [|split; [|split; [|split; [|split; [|split]]]]].
  - (* properties *)
    rewrite Eprops. destruct (dict_get "properties" d) as [[| | | | |props]|] eqn:Ep.
    all: try (destruct H1 as [-> _]; exact Ep).
    destruct H1 as (props' & Hp & ->).
    exists props', rm, r1. split; [exact Hp|apply dict_get_set_same].
  - (* items *)
    rewrite Eitems.
    rewrite (rewrites_other _ _ _ "items" R1 eq_refl) in H2.
    destruct (dict_get "items" d) as [[]|] eqn:Ei.
    all: try (destruct H2 as [-> _];
              rewrite (rewrites_other _ _ _ "items" R1 eq_refl); exact Ei).
    + destruct H2 as (l' & Hl & ->). exists l'.
      split; [eapply mapM_norm_if_dict; eassumption|apply dict_get_set_same].
    + destruct H2 as (y & Hy & ->). exists y.
      split; [now exists r1, r2|apply dict_get_set_same].
  - (* combinators *)
    intros key Hkey. unfold is_combinator in Hkey. simpl in Hkey.
    rewrite orb_false_r in Hkey.
    apply orb_true_iff in Hkey as [Hkey|Hkey];
      [|apply orb_true_iff in Hkey as [Hkey|Hkey]];
      apply String.eqb_eq in Hkey; subst key.
    + rewrite (rewrites_other _ _ _ "anyOf" R7 eq_refl),
        (rewrites_other _ _ _ "anyOf" R6 eq_refl),
        (rewrites_other _ _ _ "anyOf" R5 eq_refl).
      rewrite (rewrites_other _ _ _ "anyOf" R3 eq_refl),
        (rewrites_other _ _ _ "anyOf" R2 eq_refl),
        (rewrites_other _ _ _ "anyOf" R1 eq_refl) in H4.
      destruct (dict_get "anyOf" d) as [[]|] eqn:Ek.
      all: try (destruct H4 as [-> _];
                rewrite (rewrites_other _ _ _ "anyOf" R3 eq_refl),
                  (rewrites_other _ _ _ "anyOf" R2 eq_refl),
                  (rewrites_other _ _ _ "anyOf" R1 eq_refl); exact Ek).
      destruct H4 as (l' & Hl & ->). exists l'.
      split; [eapply mapM_norm_if_dict; eassumption|apply dict_get_set_same].
    + rewrite (rewrites_other _ _ _ "oneOf" R7 eq_refl),
        (rewrites_other _ _ _ "oneOf" R6 eq_refl).
      rewrite (rewrites_other _ _ _ "oneOf" R4 eq_refl),
        (rewrites_other _ _ _ "oneOf" R3 eq_refl),
        (rewrites_other _ _ _ "oneOf" R2 eq_refl),
        (rewrites_other _ _ _ "oneOf" R1 eq_refl) in H5.
      destruct (dict_get "oneOf" d) as [[]|] eqn:Ek.
      all: try (destruct H5 as [-> _];
                rewrite (rewrites_other _ _ _ "oneOf" R4 eq_refl),
                  (rewrites_other _ _ _ "oneOf" R3 eq_refl),
                  (rewrites_other _ _ _ "oneOf" R2 eq_refl),
                  (rewrites_other _ _ _ "oneOf" R1 eq_refl); exact Ek).
      destruct H5 as (l' & Hl & ->). exists l'.
      split; [eapply mapM_norm_if_dict; eassumption|apply dict_get_set_same].
    + rewrite (rewrites_other _ _ _ "allOf" R7 eq_refl).
      rewrite (rewrites_other _ _ _ "allOf" R5 eq_refl),
        (rewrites_other _ _ _ "allOf" R4 eq_refl),
        (rewrites_other _ _ _ "allOf" R3 eq_refl),
        (rewrites_other _ _ _ "allOf" R2 eq_refl),
        (rewrites_other _ _ _ "allOf" R1 eq_refl) in H6.
      destruct (dict_get "allOf" d) as [[]|] eqn:Ek.
      all: try (destruct H6 as [-> _];
                rewrite (rewrites_other _ _ _ "allOf" R5 eq_refl),
                  (rewrites_other _ _ _ "allOf" R4 eq_refl),
                  (rewrites_other _ _ _ "allOf" R3 eq_refl),
                  (rewrites_other _ _ _ "allOf" R2 eq_refl),
                  (rewrites_other _ _ _ "allOf" R1 eq_refl); exact Ek).
      destruct H6 as (l' & Hl & ->). exists l'.
      split; [eapply mapM_norm_if_dict; eassumption|apply dict_get_set_same].
  - (* $defs *)
    rewrite (rewrites_other _ _ _ "$defs" R6 eq_refl),
      (rewrites_other _ _ _ "$defs" R5 eq_refl),
      (rewrites_other _ _ _ "$defs" R4 eq_refl),
      (rewrites_other _ _ _ "$defs" R3 eq_refl),
      (rewrites_other _ _ _ "$defs" R2 eq_refl),
      (rewrites_other _ _ _ "$defs" R1 eq_refl) in H7.
    destruct (dict_get "$defs" d) as [[]|] eqn:Ek.
    all: try (destruct H7 as [-> _];
              rewrite (rewrites_other _ _ _ "$defs" R6 eq_refl),
                (rewrites_other _ _ _ "$defs" R5 eq_refl),
                (rewrites_other _ _ _ "$defs" R4 eq_refl),
                (rewrites_other _ _ _ "$defs" R3 eq_refl),
                (rewrites_other _ _ _ "$defs" R2 eq_refl),
                (rewrites_other _ _ _ "$defs" R1 eq_refl); exact Ek).
    destruct H7 as (defs' & Hd & ->). exists defs', r6, rm'.
    split; [exact Hd|apply dict_get_set_same].
  - (* required is normal *)
    eapply normal_required_ext; [exact Ereq|symmetry; exact Eprops2|exact Hnormal].
  - (* required was true *)
    intros Htrue0.
    assert (Ereq2 : dict_get "required" o2 = Some (JBool true)).
    { rewrite (rewrites_other _ _ _ "required" R2 eq_refl),
        (rewrites_other _ _ _ "required" R1 eq_refl). exact Htrue0. }
    destruct (Htrue Ereq2) as [Hmap Eo3]. split.
    + unfold properties_is_map in *.
      rewrite (rewrites_other _ _ _ "properties" R2 eq_refl) in Hmap.
      destruct (dict_get "properties" d) as [[]|] eqn:Ep;
        try reflexivity; destruct H1 as [E1 _]; rewrite E1, Ep in Hmap; exact Hmap.
    + rewrite Ereq. rewrite Eo3 at 1. rewrite dict_get_set_same. do 4 f_equal.
      symmetry. apply properties_of_ext.
      rewrite <- Eprops2. apply (rewrites_other _ _ _ "properties" R3 eq_refl).
  - (* other keys *)
    intros k Hk. unfold handled_keys in Hk. simpl in Hk.
    repeat (apply orb_false_iff in Hk as [? Hk]).
    rewrite (rewrites_other _ _ _ k R7), (rewrites_other _ _ _ k R6),
      (rewrites_other _ _ _ k R5), (rewrites_other _ _ _ k R4),
      (rewrites_other _ _ _ k R3), (rewrites_other _ _ _ k R2),
      (rewrites_other _ _ _ k R1) by assumption. reflexivity.
Qed.
End Lookups.

(* ===================================================================== *)
(** ** The children of a normalised node *)
(* ===================================================================== *)

Lemma Forall2_In_r {A B} (R : A -> B -> Prop) l l' y :
  Forall2 R l l' -> In y l' -> exists x, In x l /\ R x y.
Proof.
  induction 1 as [|x y' l l' Hxy _ IH]; simpl; [tauto|].
  intros [<-|H]; [eauto|]. destruct (IH H) as (x0 & H0 & HR). eauto.
Qed.

Lemma Forall2_nth_error {A B} (R : A -> B -> Prop) l l' i x :
  Forall2 R l l' -> nth_error l i = Some x ->
  exists y, nth_error l' i = Some y /\ R x y.
Proof.
  intros H. revert i. induction H as [|x0 y0 l l' Hxy _ IH]; intros [|i]; simpl;
    try discriminate.
  - intros E. injection E as <-. eauto.
  - apply IH.
Qed.

(** Lookup in the renamed properties, when no two keys collide. *)
Lemma renamed_lookup (R : json -> json -> Prop) props props' k x :
  Forall2 (fun kv kv' => fst kv' = renamed (fst kv) /\ R (snd kv) (snd kv'))
    props props' ->
  NoDup (map renamed (dict_keys props)) ->
  dict_get k props = Some x ->
  exists y, dict_get (renamed k) props' = Some y /\ R x y.
Proof.
  induction 1 as [|[k0 v0] [k0' v0'] props props' [Hk Hv] _ IH]; simpl;
    [discriminate|].
  intros Hnd Hget. simpl in Hk, Hv. subst k0'.
  inversion Hnd as [|? ? Hnotin Hnd']; subst.
  destruct (String.eqb_spec k k0) as [->|Hne].
  - injection Hget as <-. rewrite String.eqb_refl. eauto.
  - destruct (String.eqb_spec (renamed k) (renamed k0)) as [E|_].
    + exfalso. apply Hnotin. rewrite <- E. apply in_map.
      apply dict_get_In in Hget. unfold dict_keys.
      change k with (fst (k, x)). now apply in_map.
    + now apply IH.
Qed.

Lemma same_key_lookup (R : json -> json -> Prop) defs defs' k x :
  Forall2 (fun kv kv' => fst kv' = fst kv /\ R (snd kv) (snd kv')) defs defs' ->
  dict_get k defs = Some x ->
  exists y, dict_get k defs' = Some y /\ R x y.
Proof.
  induction 1 as [|[k0 v0] [k0' v0'] defs defs' [Hk Hv] _ IH]; simpl;
    [discriminate|].
  simpl in Hk, Hv. subst k0'.
  destruct (String.eqb_spec k k0) as [->|Hne].
  - intros E. injection E as <-. eauto.
  - apply IH.
Qed.

Section Children.
Variable self : json -> M json.
Hypothesis self_leaf : forall x, is_dict x = false -> self x = ret x.
Hypothesis self_shape : forall x y, produces self x y -> is_dict y = is_dict x.

(** Every child of the normalised node comes from a child of the node. *)
Lemma norm_dict_children d rm o rm' y :
  norm_dict self d rm = Ok (JObj o, rm') ->
  In y (children o) ->
  exists x, In x (children d) /\ produces self x y.
Proof.
  intros H Hy.
  apply (norm_dict_lookups self self_leaf) in H
    as (o' & E & _ & Lp & Li & Lc & Ld & _ & _ & _).
  injection E as <-.
  apply children_cases in Hy
    as [(ps' & Ho & Hy)|[(it' & Ho & ->)|[(l' & Ho & Hy)|[(key & l' & Hk & Ho & Hy)
       |(ds' & Ho & Hy)]]]].
  - destruct (dict_get "properties" d) as [[| | | | |ps]|] eqn:Ed;
      try (rewrite Ho in Lp; discriminate).
    destruct Lp as (ps0 & ra & rb & Hn & Ho'). rewrite Ho in Ho'. injection Ho' as <-.
    unfold dict_values in Hy. apply in_map_iff in Hy as ([k' v'] & <- & Hin).
    destruct (norm_props_entries self ps _ _ _ _ Hn k' v' Hin)
      as [[]|(k & v & Hkv & _ & Hp)].
    exists v. split; [|exact Hp].
    eapply children_intro_property; [exact Ed|].
    unfold dict_values. change v with (snd (k, v)). now apply in_map.
  - destruct (dict_get "items" d) as [[| | | |l|it]|] eqn:Ed;
      try (rewrite Ho in Li; discriminate).
    + destruct Li as (l' & _ & Ho'). rewrite Ho in Ho'. discriminate.
    + destruct Li as (y & Hp & Ho'). rewrite Ho in Ho'. injection Ho' as <-.
      exists (JObj it). split; [now apply children_intro_items|exact Hp].
  - destruct (dict_get "items" d) as [[| | | |l|it]|] eqn:Ed;
      try (rewrite Ho in Li; discriminate).
    + destruct Li as (l0 & HF & Ho'). rewrite Ho in Ho'. injection Ho' as <-.
      destruct (Forall2_In_r _ _ _ _ HF Hy) as (x & Hx & Hp).
      exists x. split; [|exact Hp]. eapply children_intro_items_list; eassumption.
    + destruct Li as (y0 & Hp & Ho'). rewrite Ho in Ho'. injection Ho' as <-.
      apply self_shape in Hp. discriminate.
  - specialize (Lc key Hk).
    destruct (dict_get key d) as [[| | | |l|]|] eqn:Ed;
      try (rewrite Ho in Lc; discriminate).
    destruct Lc as (l0 & HF & Ho'). rewrite Ho in Ho'. injection Ho' as <-.
    destruct (Forall2_In_r _ _ _ _ HF Hy) as (x & Hx & Hp).
    exists x. split; [|exact Hp]. eapply children_intro_combinator; eassumption.
  - destruct (dict_get "$defs" d) as [[| | | | |ds]|] eqn:Ed;
      try (rewrite Ho in Ld; discriminate).
    destruct Ld as (ds0 & ra & rb & Hn & Ho'). rewrite Ho in Ho'. injection Ho' as <-.
    unfold dict_values in Hy. apply in_map_iff in Hy as ([k' v'] & <- & Hin).
    destruct (norm_defs_entries self self_leaf ds _ _ _ _ Hn k' v' Hin)
      as [[]|(v & Hkv & Hp)].
    exists v. split; [|exact Hp].
    eapply children_intro_defs; [exact Ed|].
    unfold dict_values. change v with (snd (k', v)). now apply in_map.
Qed.

(** A step in the node leads, renamed, to the image of its target. *)
Lemma norm_dict_child_at d rm o rm' s x :
  norm_dict self d rm = Ok (JObj o, rm') ->
  wf_json (JObj d) = true ->
  (forall k, s = in_property k -> collision_free d = true) ->
  child_at (JObj d) s = Some x ->
  exists y, child_at (JObj o) (rename_step s) = Some y /\ produces self x y.
Proof.
  intros H Hwf Hcf Hx.
  apply (norm_dict_lookups self self_leaf) in H
    as (o' & E & _ & Lp & Li & Lc & Ld & _ & _ & _).
  injection E as <-.
  destruct s as [k| |i|key i|k]; simpl in Hx |- *.
  - destruct (dict_get "properties" d) as [[| | | | |ps]|] eqn:Ed; try discriminate.
    destruct Lp as (ps' & ra & rb & Hn & ->).
    specialize (Hcf k eq_refl).
    unfold collision_free, properties_of in Hcf. rewrite Ed in Hcf.
    apply nodupb_NoDup in Hcf.
    apply norm_props_exact in Hn as (ps0 & E0 & HF); [|exact Hcf].
    simpl in E0. subst ps0.
    eapply renamed_lookup; [exact HF|exact Hcf|exact Hx].
  - destruct (dict_get "items" d) as [[| | | |l|it]|] eqn:Ed; try discriminate.
    injection Hx as <-. destruct Li as (y & Hp & ->).
    pose proof (self_shape _ _ Hp) as Hs. destruct y; try discriminate. eauto.
  - destruct (dict_get "items" d) as [[| | | |l|it]|] eqn:Ed; try discriminate.
    destruct Li as (l' & HF & ->).
    eapply Forall2_nth_error; eassumption.
  - destruct (is_combinator key) eqn:Ek; [|discriminate].
    specialize (Lc key Ek).
    destruct (dict_get key d) as [[| | | |l|]|] eqn:Ed; try discriminate.
    destruct Lc as (l' & HF & ->).
    eapply Forall2_nth_error; eassumption.
  - destruct (dict_get "$defs" d) as [[| | | | |ds]|] eqn:Ed; try discriminate.
    destruct Ld as (ds' & ra & rb & Hn & ->).
    apply (norm_defs_exact self self_leaf) in Hn as (ds0 & E0 & HF).
    + simpl in E0. subst ds0. eapply same_key_lookup; eassumption.
    + simpl. apply wf_dict_keys. eapply wf_dict_get; eassumption.
Qed.
End Children.

(* ===================================================================== *)
(** ** [_norm] on the whole tree *)
(* ===================================================================== *)

Lemma norm_leaf fuel x : is_dict x = false -> _norm fuel x = ret x.
Proof. intros H. destruct fuel, x; try reflexivity; discriminate. Qed.

Lemma norm_node fuel d : _norm (S fuel) (JObj d) = norm_dict (_norm fuel) d.
Proof. reflexivity. Qed.

Lemma norm_node_Ok fuel d rm n rm' :
  _norm fuel (JObj d) rm = Ok (n, rm') ->
  exists fuel' o, fuel = S fuel' /\ n = JObj o
                  /\ norm_dict (_norm fuel') d rm = Ok (JObj o, rm').
Proof.
  destruct fuel as [|fuel]; simpl; [discriminate|]. intros H.
  pose proof (norm_dict_chain _ _ _ _ _ H) as (? & ? & ? & ? & ? & ? & o & ? & ? & ? & ?
                                               & ? & ? & _ & _ & _ & _ & _ & _ & _ & ->).
  eauto.
Qed.

Lemma norm_shape fuel x y : produces (_norm fuel) x y -> is_dict y = is_dict x.
Proof.
  intros (rm & rm' & H). destruct x;
    try (rewrite norm_leaf in H by reflexivity; apply ret_Ok in H as [-> _]; reflexivity).
  apply norm_node_Ok in H as (f & o & _ & -> & _). reflexivity.
Qed.

(** A property of the nodes of the input that [norm_dict] turns, node by
    node, into a property of the output holds of every node of the output. *)
Lemma norm_all_nodes (P Q : dict json -> Prop) :
  (forall fuel d rm o rm',
      norm_dict (_norm fuel) d rm = Ok (JObj o, rm') -> P d -> Q o) ->
  forall fuel schema rm n rm',
    _norm fuel schema rm = Ok (n, rm') -> all_nodes P schema -> all_nodes Q n.
Proof.
  intros Hlocal. induction fuel as [|fuel IH]; intros schema rm n rm' H HP.
  - destruct schema; try (apply ret_Ok in H as [-> _]; now constructor).
    discriminate.
  - destruct schema as [| | | | |d];
      try (apply ret_Ok in H as [-> _]; now constructor).
    pose proof (norm_node_Ok _ _ _ _ _ H) as (f & o & Ef & -> & Hn).
    injection Ef as <-.
    apply all_nodes_node_inv in HP as [Hd Hc].
    apply all_nodes_node; [eapply Hlocal; eassumption|].
    apply Forall_forall. intros y Hy.
    destruct (norm_dict_children (_norm fuel) (norm_leaf fuel) (norm_shape fuel)
                _ _ _ _ _ Hn Hy) as (x & Hx & r1 & r2 & Hp).
    eapply IH; [exact Hp|]. now apply Hc.
Qed.

Lemma all_nodes_trivial schema : all_nodes (fun _ => True) schema.
Proof.
  remember (json_depth schema) as n eqn:En.
  assert (Hn : json_depth schema <= n) by lia. clear En.
  revert schema Hn. induction n as [|n IH]; intros schema Hn.
  - destruct schema; try (now constructor); simpl in Hn; lia.
  - destruct schema as [| | | | |d]; try (now constructor).
    apply all_nodes_node; [exact Logic.I|].
    apply Forall_forall. intros y Hy. apply IH. apply depth_children in Hy. lia.
Qed.

Lemma norm_dict_normal_node fuel d rm o rm' :
  norm_dict (_norm fuel) d rm = Ok (JObj o, rm') -> normal_node o.
Proof.
  intros H.
  apply (norm_dict_lookups _ (norm_leaf fuel)) in H
    as (o' & E & _ & Lp & _ & _ & Ld & Hreq & _ & _).
  injection E as <-. split; [exact Hreq|].
  assert (Hprops : NoDup (dict_keys (properties_of o))
                   /\ Forall (fun k => reserved k = false) (dict_keys (properties_of o))).
  { unfold properties_of.
    destruct (dict_get "properties" d) as [[| | | | |ps]|];
      try (rewrite Lp; split; constructor).
    destruct Lp as (ps' & ra & rb & Hn & ->). split.
    - eapply norm_props_NoDup; [exact Hn|constructor].
    - apply Forall_forall. intros k Hk. unfold dict_keys in Hk.
      apply in_map_iff in Hk as ([k' v'] & <- & Hin).
      destruct (norm_props_entries _ _ _ _ _ _ Hn k' v' Hin)
        as [[]|(k0 & v0 & _ & -> & _)].
      apply renamed_not_reserved. }
  destruct Hprops as [H1 H2]. split; [exact H1|]. split; [exact H2|].
  destruct (dict_get "$defs" d) as [[| | | | |ds]|]; try (rewrite Ld; exact Logic.I).
  destruct Ld as (ds' & ra & rb & Hn & ->).
  eapply norm_defs_NoDup; [exact Hn|constructor].
Qed.

(** Every node of the output of [_norm] is in normal form. *)
Lemma norm_normal fuel schema rm n rm' :
  _norm fuel schema rm = Ok (n, rm') -> all_nodes normal_node n.
Proof.
  intros H. eapply (norm_all_nodes (fun _ => True)); [|exact H|apply all_nodes_trivial].
  intros f d r o r' Hn _. eapply norm_dict_normal_node; eassumption.
Qed.

Lemma norm_properties_is_map fuel schema rm n rm' :
  _norm fuel schema rm = Ok (n, rm') ->
  all_nodes (fun d => properties_is_map d = true) schema ->
  all_nodes (fun d => properties_is_map d = true) n.
Proof.
  apply norm_all_nodes. intros f d r o r' H Hd.
  apply (norm_dict_lookups _ (norm_leaf f)) in H
    as (o' & E & _ & Lp & _).
  injection E as <-. unfold properties_is_map in *.
  destruct (dict_get "properties" d) as [[| | | | |ps]|]; try discriminate.
  - destruct Lp as (ps' & _ & _ & _ & ->). reflexivity.
  - now rewrite Lp.
Qed.

(* --------------------------------------------------------------------- *)
(** *** A normal form is a fixed point of [_norm] *)

Section Identity.
Variable self : json -> M json.

Lemma norm_props_id props :
  forall acc rm,
    NoDup (dict_keys acc ++ dict_keys props) ->
    Forall (fun kv => reserved (fst kv) = false
                      /\ self (snd kv) rm = Ok (snd kv, rm)) props ->
    norm_props self props acc rm = Ok (acc ++ props, rm).
Proof.
  induction props as [|[k v] props IH]; intros acc rm Hnd HF; simpl.
  - now rewrite app_nil_r.
  - inversion HF as [|? ? [Hk Hv] HF']; subst. simpl in Hk, Hv. rewrite Hk.
    rewrite (bind_Ok_intro _ _ _ _ _ Hv).
    rewrite dict_set_fresh.
    + rewrite IH; [now rewrite <- app_assoc| |assumption].
      unfold dict_keys in *. rewrite map_app, <- app_assoc. exact Hnd.
    + intros Hin. apply NoDup_remove_2 in Hnd. apply Hnd.
      apply in_or_app. now left.
Qed.

Lemma norm_defs_id defs :
  forall acc rm,
    NoDup (dict_keys acc ++ dict_keys defs) ->
    Forall (fun kv => norm_if_dict self (snd kv) rm = Ok (snd kv, rm)) defs ->
    norm_defs self defs acc rm = Ok (acc ++ defs, rm).
Proof.
  induction defs as [|[k v] defs IH]; intros acc rm Hnd HF; simpl.
  - now rewrite app_nil_r.
  - inversion HF as [|? ? Hv HF']; subst. simpl in Hv.
    rewrite (bind_Ok_intro _ _ _ _ _ Hv).
    rewrite dict_set_fresh.
    + rewrite IH; [now rewrite <- app_assoc| |assumption].
      unfold dict_keys in *. rewrite map_app, <- app_assoc. exact Hnd.
    + intros Hin. apply NoDup_remove_2 in Hnd. apply Hnd.
      apply in_or_app. now left.
Qed.

Variable d : dict json.
Variable rm : rmap.
Hypothesis children_fixed : forall y, In y (children d) -> self y rm = Ok (y, rm).
Hypothesis node_normal : normal_node d.

Lemma norm_if_dict_fixed y : In y (children d) -> norm_if_dict self y rm = Ok (y, rm).
Proof.
  intros H. unfold norm_if_dict. destruct (is_dict y); [now apply children_fixed|reflexivity].
Qed.

Lemma step_properties_id : step_properties self d rm = Ok (d, rm).
Proof.
  unfold step_properties, get_or_none.
  destruct (dict_get "properties" d) as [[| | | | |ps]|] eqn:E; try reflexivity.
  destruct node_normal as (_ & Hnd & Hres & _).
  unfold properties_of in Hnd, Hres. rewrite E in Hnd, Hres.
  rewrite (bind_Ok_intro _ _ _ ps rm).
  - unfold ret. now rewrite (dict_set_id _ _ _ E).
  - apply (norm_props_id ps []); [exact Hnd|].
    apply Forall_forall. intros [k v] Hin. simpl. split.
    + rewrite Forall_forall in Hres. apply Hres. unfold dict_keys.
      change k with (fst (k, v)). now apply in_map.
    + apply children_fixed. eapply children_intro_property; [exact E|].
      unfold dict_values. change v with (snd (k, v)). now apply in_map.
Qed.

Lemma step_items_id : step_items self d rm = Ok (d, rm).
Proof.
  unfold step_items, get_or_none.
  destruct (dict_get "items" d) as [[| | | |l|it]|] eqn:E; try reflexivity.
  - rewrite (bind_Ok_intro _ _ _ l rm).
    + unfold ret. now rewrite (dict_set_id _ _ _ E).
    + apply mapM_id. apply Forall_forall. intros y Hy. apply norm_if_dict_fixed.
      eapply children_intro_items_list; eassumption.
  - rewrite (bind_Ok_intro _ _ _ (JObj it) rm).
    + unfold ret. now rewrite (dict_set_id _ _ _ E).
    + apply children_fixed. now apply children_intro_items.
Qed.

Lemma step_required_id : step_required d rm = Ok (d, rm).
Proof.
  destruct node_normal as (Hreq & _). unfold normal_required in Hreq.
  unfold step_required.
  destruct (get_or_none "required" d) as [|b| | |l|]; try discriminate.
  - destruct (get_or_none "properties" d) as [| | | | |[|e ps]];
      try reflexivity. contradiction.
  - now rewrite Hreq.
Qed.

Lemma step_combinator_id key :
  is_combinator key = true -> step_combinator self key d rm = Ok (d, rm).
Proof.
  intros Hk. unfold step_combinator.
  destruct (dict_get key d) as [[| | | |l|]|] eqn:E; try reflexivity.
  rewrite (bind_Ok_intro _ _ _ l rm).
  - unfold ret. now rewrite (dict_set_id _ _ _ E).
  - apply mapM_id. apply Forall_forall. intros y Hy. apply norm_if_dict_fixed.
    eapply children_intro_combinator; eassumption.
Qed.

Lemma step_defs_id : step_defs self d rm = Ok (d, rm).
Proof.
  unfold step_defs.
  destruct (dict_get "$defs" d) as [[| | | | |ds]|] eqn:E; try reflexivity.
  destruct node_normal as (_ & _ & _ & Hnd). rewrite E in Hnd.
  rewrite (bind_Ok_intro _ _ _ ds rm).
  - unfold ret. now rewrite (dict_set_id _ _ _ E).
  - apply (norm_defs_id ds []); [exact Hnd|].
    apply Forall_forall. intros [k v] Hin. simpl. apply norm_if_dict_fixed.
    eapply children_intro_defs; [exact E|].
    unfold dict_values. change v with (snd (k, v)). now apply in_map.
Qed.

Lemma norm_dict_id : norm_dict self d rm = Ok (JObj d, rm).
Proof.
  unfold norm_dict.
  rewrite (bind_Ok_intro _ _ _ _ _ step_properties_id).
  rewrite (bind_Ok_intro _ _ _ _ _ step_items_id).
  rewrite (bind_Ok_intro _ _ _ _ _ step_required_id).
  rewrite (bind_Ok_intro _ _ _ _ _ (step_combinator_id "anyOf" eq_refl)).
  rewrite (bind_Ok_intro _ _ _ _ _ (step_combinator_id "oneOf" eq_refl)).
  rewrite (bind_Ok_intro _ _ _ _ _ (step_combinator_id "allOf" eq_refl)).
  rewrite (bind_Ok_intro _ _ _ _ _ step_defs_id).
  reflexivity.
Qed.
End Identity.

(** [_norm] leaves a schema in normal form as it is, rename map included. *)
Lemma norm_identity fuel :
  forall n rm,
    json_depth n <= fuel -> all_nodes normal_node n -> _norm fuel n rm = Ok (n, rm).
Proof.
  induction fuel as [|fuel IH]; intros n rm Hd Hn.
  - destruct n; try reflexivity. simpl in Hd. lia.
  - destruct n as [| | | | |d]; try reflexivity.
    apply all_nodes_node_inv in Hn as [Hnode Hc].
    rewrite norm_node. apply norm_dict_id; [|exact Hnode].
    intros y Hy. apply IH; [|now apply Hc]. apply depth_children in Hy. lia.
Qed.

(* ===================================================================== *)
(** ** [_fix_required], step by step *)
(* ===================================================================== *)

Lemma rbind_Ok {A B} (c : Res A) (k : A -> Res B) b :
  rbind c k = Ok b -> exists a, c = Ok a /\ k a = Ok b.
Proof. destruct c; simpl; try discriminate. eauto. Qed.

Lemma rmapM_Forall2 {A B} (f : A -> Res B) l l' :
  rmapM f l = Ok l' -> Forall2 (fun x y => f x = Ok y) l l'.
Proof.
  revert l'. induction l as [|x l IH]; simpl; intros l' H.
  - injection H as <-. constructor.
  - apply rbind_Ok in H as (y & Hy & H). apply rbind_Ok in H as (ys & Hys & H).
    injection H as <-. constructor; auto.
Qed.

Lemma rmapM_id {A} (f : A -> Res A) l :
  Forall (fun x => f x = Ok x) l -> rmapM f l = Ok l.
Proof.
  induction 1 as [|x l Hx _ IH]; simpl; [reflexivity|]. now rewrite Hx, IH.
Qed.

Lemma fix_entry_idem r r' : fix_entry r = Ok r' -> fix_entry r' = Ok r'.
Proof.
  destruct r as [| | |s| |]; unfold fix_entry; try discriminate;
    try (intros H; injection H as <-; reflexivity).
  destruct (reserved s) eqn:E; intros H; injection H as <-.
  - pose proof (renamed_form_not_reserved s E) as E'.
    cbv [renamed_form _RESERVED_RENAME_PREFIX String.append] in E'.
    now rewrite E'.
  - now rewrite E.
Qed.

Lemma fix_entry_str r r' : fix_entry r = Ok r' -> is_str r = true -> is_str r' = true.
Proof.
  destruct r; simpl; try discriminate.
  destruct (reserved s); intros H _; injection H as <-; reflexivity.
Qed.

Lemma fix_entry_plain s : reserved s = false -> fix_entry (JStr s) = Ok (JStr s).
Proof. simpl. now intros ->. Qed.

Section FixSteps.
Variable self : json -> Res json.

Lemma fix_values_Forall2 props props' :
  fix_values self props = Ok props' ->
  Forall2 (fun kv kv' => fst kv' = fst kv /\ self (snd kv) = Ok (snd kv'))
    props props'.
Proof.
  revert props'. induction props as [|[k v] props IH]; simpl; intros props' H.
  - injection H as <-. constructor.
  - apply rbind_Ok in H as (v' & Hv & H). apply rbind_Ok in H as (rest & Hr & H).
    injection H as <-. constructor; auto.
Qed.

Lemma fix_values_id props :
  Forall (fun kv => self (snd kv) = Ok (snd kv)) props ->
  fix_values self props = Ok props.
Proof.
  induction 1 as [|[k v] props Hv _ IH]; simpl; [reflexivity|].
  simpl in Hv. now rewrite Hv, IH.
Qed.

Lemma fix_own_required_spec d o :
  fix_own_required d = Ok o ->
  match get_or_none "properties" d, get_or_none "required" d with
  | JObj _, JArr req =>
      exists req', rmapM fix_entry req = Ok req'
                   /\ o = dict_set "required" (JArr req') d
  | _, _ => o = d
  end.
Proof.
  unfold fix_own_required.
  destruct (get_or_none "properties" d); try (intros H; now injection H);
    destruct (get_or_none "required" d); try (intros H; now injection H).
  intros H. apply rbind_Ok in H as (req' & Hr & H). injection H as <-. eauto.
Qed.

Lemma fix_properties_spec d o :
  fix_properties self d = Ok o ->
  match get_or_none "properties" d with
  | JObj props =>
      exists props', fix_values self props = Ok props'
                     /\ o = dict_set "properties" (JObj props') d
  | _ => o = d
  end.
Proof.
  unfold fix_properties.
  destruct (get_or_none "properties" d) as [|[|]| | | |ps] eqn:E; simpl;
    try (intros H; now injection H); try discriminate.
  - destruct (negb (n =? 0)%Z); [discriminate|]. intros H; now injection H.
  - destruct (negb (s =? "")%string); [discriminate|]. intros H; now injection H.
  - destruct l; [|discriminate]. intros H; now injection H.
  - destruct ps as [|e ps].
    + intros H. injection H as <-. exists []. split; [reflexivity|].
      unfold get_or_none in E.
      destruct (dict_get "properties" d) eqn:E'; [|discriminate]. subst j.
      symmetry. now apply dict_set_id.
    + intros H. apply rbind_Ok in H as (ps' & Hp & H). injection H as <-. eauto.
Qed.

Lemma fix_items_spec d o :
  fix_items self d = Ok o ->
  match dict_get "items" d with
  | Some (JObj items) =>
      exists items', self (JObj items) = Ok items' /\ o = dict_set "items" items' d
  | _ => o = d
  end.
Proof.
  unfold fix_items.
  destruct (dict_get "items" d) as [[]|]; try (intros H; now injection H).
  intros H. apply rbind_Ok in H as (it' & Hi & H). injection H as <-. eauto.
Qed.

Lemma fix_properties_falsy d o :
  fix_properties self d = Ok o ->
  is_dict (get_or_none "properties" d) = false ->
  truthy (get_or_none "properties" d) = false.
Proof.
  unfold fix_properties.
  destruct (truthy (get_or_none "properties" d)); [|reflexivity].
  destruct (get_or_none "properties" d); discriminate.
Qed.

Lemma fix_dict_chain d n :
  fix_dict self d = Ok n ->
  exists o1 o2 o3,
    fix_own_required d = Ok o1 /\ fix_properties self o1 = Ok o2
    /\ fix_items self o2 = Ok o3 /\ n = JObj o3.
Proof.
  unfold fix_dict. intros H.
  apply rbind_Ok in H as (o1 & H1 & H). apply rbind_Ok in H as (o2 & H2 & H).
  apply rbind_Ok in H as (o3 & H3 & H). injection H as <-. eauto 8.
Qed.

Lemma fix_own_required_rewrites d o :
  fix_own_required d = Ok o -> rewrites "required" d o.
Proof.
  intros H. apply fix_own_required_spec in H.
  destruct (get_or_none "properties" d); try (now left);
    destruct (get_or_none "required" d); try (now left).
  destruct H as (r & _ & ->). right. eauto.
Qed.

Lemma fix_properties_rewrites d o :
  fix_properties self d = Ok o -> rewrites "properties" d o.
Proof.
  intros H. apply fix_properties_spec in H.
  destruct (get_or_none "properties" d); try (now left).
  destruct H as (r & _ & ->). right. eauto.
Qed.

Lemma fix_items_rewrites d o :
  fix_items self d = Ok o -> rewrites "items" d o.
Proof.
  intros H. apply fix_items_spec in H.
  destruct (dict_get "items" d) as [[]|]; try (now left).
  destruct H as (r & _ & ->). right. eauto.
Qed.
End FixSteps.

Lemma get_or_none_ext k (d o : dict json) :
  dict_get k o = dict_get k d -> get_or_none k o = get_or_none k d.
Proof. unfold get_or_none. now intros ->. Qed.

(** The entries of a fixed node, keyword by keyword. *)
Lemma fix_dict_lookups self d n :
  fix_dict self d = Ok n ->
  exists o,
    n = JObj o
    /\ (d <> [] -> o <> [])
    /\ match get_or_none "properties" d, get_or_none "required" d with
       | JObj _, JArr req =>
           exists req', rmapM fix_entry req = Ok req'
                        /\ dict_get "required" o = Some (JArr req')
       | _, _ => dict_get "required" o = dict_get "required" d
       end
    /\ match dict_get "properties" d with
       | Some (JObj props) =>
           exists props', fix_values self props = Ok props'
                          /\ dict_get "properties" o = Some (JObj props')
       | other => dict_get "properties" o = other
       end
    /\ match dict_get "items" d with
       | Some (JObj items) =>
           exists items', self (JObj items) = Ok items'
                          /\ dict_get "items" o = Some items'
       | other => dict_get "items" o = other
       end
    /\ (forall k, existsb (String.eqb k) ["required"; "properties"; "items"] = false ->
                  dict_get k o = dict_get k d).
Proof.
  intros H. apply fix_dict_chain in H as (o1 & o2 & o3 & H1 & H2 & H3 & ->).
  pose proof (fix_own_required_rewrites _ _ H1) as R1.
  pose proof (fix_properties_rewrites _ _ _ H2) as R2.
  pose proof (fix_items_rewrites _ _ _ H3) as R3.
  apply fix_own_required_spec in H1. apply fix_properties_spec in H2.
  apply fix_items_spec in H3.
  exists o3. split; [reflexivity|]. split.
  { intros Hd. eapply rewrites_nonempty; [exact R3|].
    eapply rewrites_nonempty; [exact R2|]. eapply rewrites_nonempty; eassumption. }
  split; [|split; [|split]].
  - rewrite (rewrites_other _ _ _ "required" R3 eq_refl),
      (rewrites_other _ _ _ "required" R2 eq_refl).
    destruct (get_or_none "properties" d); try (now rewrite H1);
      destruct (get_or_none "required" d); try (now rewrite H1).
    destruct H1 as (req' & Hr & ->). exists req'. split; [exact Hr|apply dict_get_set_same].
  - rewrite (rewrites_other _ _ _ "properties" R3 eq_refl).
    rewrite (get_or_none_ext "properties" d o1
               (rewrites_other _ _ _ "properties" R1 eq_refl)) in H2.
    unfold get_or_none in H2.
    destruct (dict_get "properties" d) as [[| | | | |ps]|] eqn:E;
      try (rewrite H2, (rewrites_other _ _ _ "properties" R1 eq_refl); exact E).
    destruct H2 as (ps' & Hp & ->). exists ps'. split; [exact Hp|apply dict_get_set_same].
  - rewrite (rewrites_other _ _ _ "items" R2 eq_refl),
      (rewrites_other _ _ _ "items" R1 eq_refl) in H3.
    destruct (dict_get "items" d) as [[| | | | |it]|] eqn:E;
      try (rewrite H3, (rewrites_other _ _ _ "items" R2 eq_refl),
             (rewrites_other _ _ _ "items" R1 eq_refl); exact E).
    destruct H3 as (y & Hy & ->). exists y. split; [exact Hy|apply dict_get_set_same].
  - intros k Hk. simpl in Hk. repeat (apply orb_false_iff in Hk as [? Hk]).
    rewrite (rewrites_other _ _ _ k R3), (rewrites_other _ _ _ k R2),
      (rewrites_other _ _ _ k R1) by assumption. reflexivity.
Qed.

(* --------------------------------------------------------------------- *)
(** *** [_fix_required] on the whole tree *)

Lemma fix_leaf fuel x : is_dict x = false -> _fix_required fuel x = Ok x.
Proof. intros H. destruct fuel, x; try reflexivity; discriminate. Qed.

Lemma fix_node fuel d : _fix_required (S fuel) (JObj d) = fix_dict (_fix_required fuel) d.
Proof. reflexivity. Qed.

Lemma fix_node_Ok fuel d n :
  _fix_required fuel (JObj d) = Ok n ->
  exists fuel' o, fuel = S fuel' /\ n = JObj o
                  /\ fix_dict (_fix_required fuel') d = Ok (JObj o).
Proof.
  destruct fuel as [|fuel]; simpl; [discriminate|]. intros H.
  pose proof (fix_dict_chain _ _ _ H) as (? & ? & o & _ & _ & _ & ->). eauto.
Qed.

Lemma fix_shape fuel x y : _fix_required fuel x = Ok y -> is_dict y = is_dict x.
Proof.
  intros H. destruct x;
    try (rewrite fix_leaf in H by reflexivity; injection H as <-; reflexivity).
  apply fix_node_Ok in H as (f & o & _ & -> & _). reflexivity.
Qed.

(** A child of the fixed node is a child of the node, fixed or untouched. *)
Lemma fix_dict_children fuel d o y :
  fix_dict (_fix_required fuel) d = Ok (JObj o) ->
  In y (children o) ->
  exists x, In x (children d) /\ (_fix_required fuel x = Ok y \/ y = x).
Proof.
  intros H Hy.
  apply fix_dict_lookups in H as (o' & E & _ & _ & Lp & Li & Lo).
  injection E as <-.
  apply children_cases in Hy
    as [(ps' & Ho & Hy)|[(it' & Ho & ->)|[(l' & Ho & Hy)|[(key & l' & Hk & Ho & Hy)
       |(ds' & Ho & Hy)]]]].
  - destruct (dict_get "properties" d) as [[| | | | |ps]|] eqn:Ed;
      try (rewrite Ho in Lp; discriminate).
    destruct Lp as (ps0 & Hf & Ho'). rewrite Ho in Ho'. injection Ho' as <-.
    apply fix_values_Forall2 in Hf.
    unfold dict_values in Hy. apply in_map_iff in Hy as (kv' & <- & Hin).
    destruct (Forall2_In_r _ _ _ _ Hf Hin) as (kv & Hkv & _ & Hv).
    exists (snd kv). split; [|now left].
    eapply children_intro_property; [exact Ed|]. unfold dict_values. now apply in_map.
  - destruct (dict_get "items" d) as [[| | | |l|it]|] eqn:Ed;
      try (rewrite Ho in Li; discriminate).
    destruct Li as (y & Hp & Ho'). rewrite Ho in Ho'. injection Ho' as <-.
    exists (JObj it). split; [now apply children_intro_items|now left].
  - destruct (dict_get "items" d) as [[| | | |l|it]|] eqn:Ed;
      try (rewrite Ho in Li; discriminate).
    + rewrite Ho in Li. injection Li as <-. exists y.
      split; [eapply children_intro_items_list; eassumption|now right].
    + destruct Li as (y0 & Hp & Ho'). rewrite Ho in Ho'. injection Ho' as <-.
      apply fix_shape in Hp. discriminate.
  - exists y. split; [|now right].
    eapply children_intro_combinator; [exact Hk| |exact Hy].
    rewrite <- Ho. symmetry. apply Lo.
    unfold is_combinator in Hk. simpl in Hk |- *. rewrite orb_false_r in *.
    apply orb_true_iff in Hk as [Hk|Hk];
      [|apply orb_true_iff in Hk as [Hk|Hk]];
      apply String.eqb_eq in Hk; subst key; reflexivity.
  - exists y. split; [|now right].
    eapply children_intro_defs; [|exact Hy].
    rewrite <- Ho. symmetry. now apply Lo.
Qed.

(** A property of nodes that [fix_dict] keeps, node by node, survives
    [_fix_required]. *)
Lemma fix_all_nodes (P : dict json -> Prop) :
  (forall fuel d o, fix_dict (_fix_required fuel) d = Ok (JObj o) -> P d -> P o) ->
  forall fuel n n',
    _fix_required fuel n = Ok n' -> all_nodes P n -> all_nodes P n'.
Proof.
  intros Hlocal. induction fuel as [|fuel IH]; intros n n' H HP.
  - destruct n; try (injection H as <-; now constructor). discriminate.
  - destruct n as [| | | | |d]; try (injection H as <-; now constructor).
    pose proof (fix_node_Ok _ _ _ H) as (f & o & Ef & -> & Hn).
    injection Ef as <-.
    apply all_nodes_node_inv in HP as [Hd Hc].
    apply all_nodes_node; [eapply Hlocal; eassumption|].
    apply Forall_forall. intros y Hy.
    destruct (fix_dict_children _ _ _ _ Hn Hy) as (x & Hx & [Hf|Ex]); [|subst y].
    + eapply IH; [exact Hf|]. now apply Hc.
    + now apply Hc.
Qed.

Lemma Forall2_same_keys (R : json -> json -> Prop) (props props' : dict json) :
  Forall2 (fun kv kv' => fst kv' = fst kv /\ R (snd kv) (snd kv')) props props' ->
  dict_keys props' = dict_keys props.
Proof.
  induction 1 as [|kv kv' l l' [Hk _] _ IH]; simpl; [reflexivity|].
  now rewrite Hk, IH.
Qed.

Lemma fix_dict_property_keys self d o :
  fix_dict self d = Ok (JObj o) ->
  dict_keys (properties_of o) = dict_keys (properties_of d).
Proof.
  intros H. apply fix_dict_lookups in H as (o' & E & _ & _ & Lp & _).
  injection E as <-. unfold properties_of.
  destruct (dict_get "properties" d) as [[| | | | |ps]|]; try (now rewrite Lp).
  destruct Lp as (ps' & Hf & ->). apply fix_values_Forall2 in Hf.
  apply (Forall2_same_keys (fun x y => self x = Ok y)). exact Hf.
Qed.

Lemma fix_entries_str req req' :
  rmapM fix_entry req = Ok req' ->
  forallb is_str req = true -> forallb is_str req' = true.
Proof.
  intros H. apply rmapM_Forall2 in H.
  induction H as [|r r' l l' Hr _ IH]; simpl; [reflexivity|].
  rewrite !andb_true_iff. intros [H1 H2]. split; [|auto].
  eapply fix_entry_str; eassumption.
Qed.

Lemma fix_dict_normal_node self d o :
  fix_dict self d = Ok (JObj o) -> normal_node d -> normal_node o.
Proof.
  intros H (Hreq & Hnd & Hres & Hdefs).
  pose proof (fix_dict_property_keys _ _ _ H) as Hkeys.
  apply fix_dict_lookups in H as (o' & E & _ & Lr & Lp & _ & Lo).
  injection E as <-.
  split; [|split; [now rewrite Hkeys|split; [now rewrite Hkeys|]]].
  - unfold normal_required in *.
    assert (Hshape : match get_or_none "properties" o with
                     | JObj (_ :: _) => match get_or_none "properties" d with
                                        | JObj (_ :: _) => True
                                        | _ => False
                                        end
                     | _ => True
                     end).
    { unfold get_or_none.
      destruct (dict_get "properties" d) as [[| | | | |ps]|]; try (now rewrite Lp).
      destruct Lp as (ps' & Hf & ->). apply fix_values_Forall2 in Hf.
      destruct Hf; exact Logic.I. }
    assert (Hr' : (exists req req',
                      get_or_none "required" d = JArr req
                      /\ rmapM fix_entry req = Ok req'
                      /\ get_or_none "required" o = JArr req')
                  \/ get_or_none "required" o = get_or_none "required" d).
    { clear Hreq Hshape.
      pose proof (get_or_none_ext "required" d o) as Hext.
      remember (get_or_none "properties" d) as P eqn:EP.
      remember (get_or_none "required" d) as R eqn:ER.
      destruct P; try (right; now apply Hext);
        destruct R as [| | | |req|]; try (right; now apply Hext).
      destruct Lr as (req' & Hr & Ho). left. exists req, req'.
      split; [reflexivity|]. split; [exact Hr|]. unfold get_or_none. now rewrite Ho. }
    destruct Hr' as [(req & req' & Er & Hr & Eo)|Eo]; rewrite Eo.
    + rewrite Er in Hreq. simpl in Hreq |- *. eapply fix_entries_str; eassumption.
    + destruct (get_or_none "required" d); try exact Hreq.
      destruct (get_or_none "properties" o) as [| | | | |[|e' ps']];
        try exact Logic.I.
      destruct (get_or_none "properties" d) as [| | | | |[|e ps]]; contradiction.
  - rewrite Lo by reflexivity. exact Hdefs.
Qed.

(** [_fix_required] keeps the normal form of [_norm]. *)
Lemma fix_normal fuel n n' :
  _fix_required fuel n = Ok n' -> all_nodes normal_node n -> all_nodes normal_node n'.
Proof.
  apply fix_all_nodes. intros f d o. apply fix_dict_normal_node.
Qed.

(* --------------------------------------------------------------------- *)
(** *** A fixed schema is a fixed point of [_fix_required] *)

Section FixIdentity.
Variable self : json -> Res json.
Variable d : dict json.
Hypothesis required_fixed :
  forall req, get_or_none "required" d = JArr req ->
              is_dict (get_or_none "properties" d) = true ->
              rmapM fix_entry req = Ok req.
Hypothesis properties_fixed :
  match get_or_none "properties" d with
  | JObj props => Forall (fun kv => self (snd kv) = Ok (snd kv)) props
  | p => truthy p = false
  end.
Hypothesis items_fixed :
  forall items, dict_get "items" d = Some (JObj items) ->
                self (JObj items) = Ok (JObj items).

Lemma fix_dict_id : fix_dict self d = Ok (JObj d).
Proof.
  unfold fix_dict.
  assert (H1 : fix_own_required d = Ok d).
  { unfold fix_own_required.
    destruct (get_or_none "properties" d) eqn:Ep; try reflexivity.
    destruct (get_or_none "required" d) as [| | | |req|] eqn:Er; try reflexivity.
    rewrite (required_fixed req eq_refl eq_refl). simpl.
    unfold get_or_none in Er.
    destruct (dict_get "required" d) as [j|] eqn:E; [subst j|discriminate].
    now rewrite (dict_set_id _ _ _ E). }
  rewrite H1. simpl.
  assert (H2 : fix_properties self d = Ok d).
  { unfold fix_properties.
    destruct (get_or_none "properties" d) as [| | | | |ps] eqn:Ep;
      try (now rewrite properties_fixed).
    destruct (truthy (JObj ps)); [|reflexivity].
    rewrite (fix_values_id _ _ properties_fixed). simpl.
    unfold get_or_none in Ep.
    destruct (dict_get "properties" d) as [j|] eqn:E; [subst j|discriminate].
    now rewrite (dict_set_id _ _ _ E). }
  rewrite H2. simpl.
  assert (H3 : fix_items self d = Ok d).
  { unfold fix_items.
    destruct (dict_get "items" d) as [[| | | | |it]|] eqn:E; try reflexivity.
    rewrite (items_fixed it eq_refl). simpl. now rewrite (dict_set_id _ _ _ E). }
  rewrite H3. reflexivity.
Qed.
End FixIdentity.

(** What [_fix_required] returns, it returns again when applied to it. *)
Lemma fix_idempotent fuel :
  forall x y,
    _fix_required fuel x = Ok y ->
    forall fuel', json_depth y <= fuel' -> _fix_required fuel' y = Ok y.
Proof.
  induction fuel as [|fuel IH]; intros x y H fuel' Hd.
  - destruct x; try (injection H as <-; now apply fix_leaf). discriminate.
  - destruct x as [| | | | |d]; try (injection H as <-; now apply fix_leaf).
    pose proof (fix_node_Ok _ _ _ H) as (f & o & Ef & -> & Hn).
    injection Ef as <-.
    destruct fuel' as [|fuel']; [simpl in Hd; lia|].
    rewrite fix_node.
    pose proof (fix_dict_lookups _ _ _ Hn) as (o' & E & _ & Lr & Lp & Li & _).
    injection E as <-.
    apply fix_dict_id.
    + intros req' Er Hp.
      assert (Hd' : is_dict (get_or_none "properties" d) = true).
      { unfold get_or_none in *.
        destruct (dict_get "properties" d) as [[| | | | |ps]|];
          try (rewrite Lp in Hp; exact Hp). reflexivity. }
      destruct (get_or_none "properties" d) as [| | | | |ps]; try discriminate.
      destruct (get_or_none "required" d) as [| | | |req|] eqn:Er0.
      all: try (unfold get_or_none in Er, Er0; rewrite Lr in Er;
                destruct (dict_get "required" d); congruence).
      destruct Lr as (r' & Hr & Ho). unfold get_or_none in Er. rewrite Ho in Er.
      injection Er as <-. apply rmapM_id. apply rmapM_Forall2 in Hr.
      clear -Hr. induction Hr as [|a b l l' Hab _ IHr]; constructor; [|exact IHr].
      eapply fix_entry_idem; exact Hab.
    + assert (Hfalsy : is_dict (get_or_none "properties" d) = false ->
                       truthy (get_or_none "properties" d) = false).
      { pose proof (fix_dict_chain _ _ _ Hn) as (o1 & o2 & o3 & H1 & H2 & _).
        apply fix_own_required_rewrites in H1.
        rewrite <- (get_or_none_ext "properties" d o1
                      (rewrites_other _ _ _ "properties" H1 eq_refl)).
        eapply fix_properties_falsy; exact H2. }
      unfold get_or_none in *.
      destruct (dict_get "properties" d) as [[| | | | |ps]|] eqn:Ep.
      all: try (rewrite Lp; apply Hfalsy; reflexivity).
      * destruct Lp as (ps' & Hf & ->). apply fix_values_Forall2 in Hf.
        apply Forall_forall. intros kv' Hin.
        destruct (Forall2_In_r _ _ _ _ Hf Hin) as (kv & Hkv & _ & Hv).
        eapply IH; [exact Hv|].
        assert (json_depth (snd kv') < json_depth (JObj o)); [|lia].
        apply depth_children.
        destruct (fix_dict_lookups _ _ _ Hn) as (o' & E & _ & _ & Lp' & _).
        injection E as <-. rewrite Ep in Lp'. destruct Lp' as (ps2 & Hf2 & Ho2).
        eapply children_intro_property; [exact Ho2|].
        assert (ps2 = ps') as -> by (apply fix_values_Forall2 in Hf2;
          clear -Hf Hf2; revert ps2 Hf2;
          induction Hf as [|a b l l' [Ha Hb] _ IHf]; intros ps2 Hf2;
          inversion Hf2 as [|a2 b2 l2 l2' [Ha2 Hb2] Hf2']; subst;
          [reflexivity|];
          f_equal; [destruct b, b2; simpl in *; congruence|now apply IHf]).
        unfold dict_values. now apply in_map.
    + intros it' Hit.
      destruct (dict_get "items" d) as [[| | | | |it]|] eqn:Ei;
        try (rewrite Li in Hit; discriminate).
      destruct Li as (y & Hy & Ho). rewrite Hit in Ho. injection Ho as <-.
      eapply IH; [exact Hy|].
      assert (json_depth (JObj it') < json_depth (JObj o)); [|lia].
      apply depth_children. now apply children_intro_items.
Qed.

(* ===================================================================== *)
(** ** The walkers return: fuel is never short, and on a schema whose
       [properties] are maps nothing is raised *)
(* ===================================================================== *)

Section RunsM.
Variable strict : bool.

Lemma runs_bind {A B} (c : M A) (k : A -> M B) rm :
  runs strict (c rm) ->
  (forall a r1, c rm = Ok (a, r1) -> runs strict (k a r1)) ->
  runs strict (bind c k rm).
Proof.
  unfold bind. destruct (c rm) as [[a r1]| |]; simpl; auto.
Qed.

Lemma runs_mapM {A B} (f : A -> M B) l :
  (forall x, In x l -> forall r, runs strict (f x r)) ->
  forall rm, runs strict (mapM f l rm).
Proof.
  induction l as [|x l IH]; intros Hf rm; simpl; [exact Logic.I|].
  apply runs_bind; [apply Hf; now left|]. intros y r1 _.
  apply runs_bind; [apply IH; intros; apply Hf; now right|].
  intros ys r2 _. exact Logic.I.
Qed.

Variable self : json -> M json.

Lemma runs_norm_if_dict x :
  (forall r, runs strict (self x r)) -> forall r, runs strict (norm_if_dict self x r).
Proof.
  intros H r. unfold norm_if_dict. destruct (is_dict x); [apply H|exact Logic.I].
Qed.

Lemma runs_norm_props props :
  (forall v, In v (dict_values props) -> forall r, runs strict (self v r)) ->
  forall acc rm, runs strict (norm_props self props acc rm).
Proof.
  induction props as [|[k v] props IH]; intros Hv acc rm; simpl; [exact Logic.I|].
  assert (Hrest : forall acc' r, runs strict (norm_props self props acc' r)).
  { apply IH. intros v' Hin. apply Hv. now right. }
  destruct (reserved k).
  - apply runs_bind; [exact Logic.I|]. intros [] r1 _.
    apply runs_bind; [apply Hv; now left|]. intros v' r2 _. apply Hrest.
  - apply runs_bind; [apply Hv; now left|]. intros v' r2 _. apply Hrest.
Qed.

Lemma runs_norm_defs defs :
  (forall v, In v (dict_values defs) -> forall r, runs strict (self v r)) ->
  forall acc rm, runs strict (norm_defs self defs acc rm).
Proof.
  induction defs as [|[k v] defs IH]; intros Hv acc rm; simpl; [exact Logic.I|].
  apply runs_bind; [apply runs_norm_if_dict, Hv; now left|].
  intros v' r1 _. apply IH. intros v0 Hin. apply Hv. now right.
Qed.

Lemma runs_step_properties d rm :
  (forall props v, dict_get "properties" d = Some (JObj props) ->
                   In v (dict_values props) -> forall r, runs strict (self v r)) ->
  runs strict (step_properties self d rm).
Proof.
  intros H. unfold step_properties, get_or_none.
  destruct (dict_get "properties" d) as [[| | | | |ps]|] eqn:E; try exact Logic.I.
  apply runs_bind; [|intros; exact Logic.I].
  apply runs_norm_props. intros v Hv. now apply (H ps).
Qed.

Lemma runs_step_items d rm :
  (forall items, dict_get "items" d = Some (JObj items) ->
                 forall r, runs strict (self (JObj items) r)) ->
  (forall items v, dict_get "items" d = Some (JArr items) -> In v items ->
                   forall r, runs strict (self v r)) ->
  runs strict (step_items self d rm).
Proof.
  intros H1 H2. unfold step_items, get_or_none.
  destruct (dict_get "items" d) as [[| | | |l|it]|] eqn:E; try exact Logic.I.
  - apply runs_bind; [|intros; exact Logic.I].
    apply runs_mapM. intros x Hx. apply runs_norm_if_dict. now apply (H2 l).
  - apply runs_bind; [|intros; exact Logic.I]. now apply H1.
Qed.

Lemma runs_step_combinator key d rm :
  (forall l v, dict_get key d = Some (JArr l) -> In v l ->
               forall r, runs strict (self v r)) ->
  runs strict (step_combinator self key d rm).
Proof.
  intros H. unfold step_combinator.
  destruct (dict_get key d) as [[| | | |l|]|] eqn:E; try exact Logic.I.
  apply runs_bind; [|intros; exact Logic.I].
  apply runs_mapM. intros x Hx. apply runs_norm_if_dict. now apply (H l).
Qed.

Lemma runs_step_defs d rm :
  (forall defs v, dict_get "$defs" d = Some (JObj defs) ->
                  In v (dict_values defs) -> forall r, runs strict (self v r)) ->
  runs strict (step_defs self d rm).
Proof.
  intros H. unfold step_defs.
  destruct (dict_get "$defs" d) as [[| | | | |ds]|] eqn:E; try exact Logic.I.
  apply runs_bind; [|intros; exact Logic.I].
  apply runs_norm_defs. intros v Hv. now apply (H ds).
Qed.

Lemma runs_step_required d rm :
  (strict = true -> properties_is_map d = true) ->
  runs strict (step_required d rm).
Proof.
  intros Hmap. unfold step_required.
  assert (Hk1 : forall k : list json -> M (dict json),
             (forall ks r, runs strict (k ks r)) ->
             runs strict (bind (keys_of (get_properties_or_empty d)) k rm)).
  { intros k Hk. apply runs_bind; [|intros; apply Hk].
    unfold get_properties_or_empty, properties_is_map in *.
    destruct (dict_get "properties" d) as [[]|]; simpl; try exact Logic.I;
      destruct strict; try reflexivity; specialize (Hmap eq_refl); discriminate. }
  assert (Hk2 : forall k : list json -> M (dict json),
             (forall ks r, runs strict (k ks r)) ->
             runs strict ((if truthy (get_or_none "properties" d)
                           then bind (keys_of (get_or_none "properties" d)) k
                           else ret (dict_set "required" (JArr []) d)) rm)).
  { intros k Hk. unfold get_or_none, properties_is_map in *.
    destruct (dict_get "properties" d) as [p|]; [|exact Logic.I].
    destruct (truthy p); [|exact Logic.I].
    apply runs_bind; [|intros; apply Hk].
    destruct p; simpl; try exact Logic.I;
      destruct strict; try reflexivity; specialize (Hmap eq_refl); discriminate. }
  destruct (get_or_none "required" d) as [|[|]| | |l|].
  - destruct (get_or_none "properties" d) as [| | | | |[|]]; exact Logic.I.
  - simpl. apply Hk1. intros; exact Logic.I.
  - exact Logic.I.
  - simpl. apply Hk2. intros; exact Logic.I.
  - simpl. apply Hk2. intros; exact Logic.I.
  - destruct (is_str_list (JArr l)); [exact Logic.I|].
    apply Hk2. intros; exact Logic.I.
  - exact Logic.I.
Qed.

(** [norm_dict] returns when [self] returns on every child of the node. *)
Lemma runs_norm_dict d rm :
  (forall y, In y (children d) -> forall r, runs strict (self y r)) ->
  (strict = true -> properties_is_map d = true) ->
  runs strict (norm_dict self d rm).
Proof.
  intros Hc Hmap. unfold norm_dict.
  apply runs_bind.
  { apply runs_step_properties. intros ps v E Hv.
    apply Hc. eapply children_intro_property; eassumption. }
  intros o1 r1 H1. apply step_properties_rewrites in H1 as R1.
  apply runs_bind.
  { apply runs_step_items.
    - intros it E. rewrite (rewrites_other _ _ _ "items" R1 eq_refl) in E.
      apply Hc. now apply children_intro_items.
    - intros l v E Hv. rewrite (rewrites_other _ _ _ "items" R1 eq_refl) in E.
      apply Hc. eapply children_intro_items_list; eassumption. }
  intros o2 r2 H2. apply step_items_rewrites in H2 as R2.
  apply runs_bind.
  { apply runs_step_required. intros Hs. specialize (Hmap Hs).
    unfold properties_is_map in *.
    rewrite (rewrites_other _ _ _ "properties" R2 eq_refl).
    apply step_properties_spec in H1.
    destruct (dict_get "properties" d) as [[| | | | |ps]|] eqn:Ep; try discriminate.
    - destruct H1 as (ps' & _ & ->). now rewrite dict_get_set_same.
    - destruct H1 as [-> _]. now rewrite Ep. }
  intros o3 r3 H3. apply step_required_rewrites in H3 as R3.
  apply runs_bind.
  { apply runs_step_combinator. intros l v E Hv.
    rewrite (rewrites_other _ _ _ "anyOf" R3 eq_refl),
      (rewrites_other _ _ _ "anyOf" R2 eq_refl),
      (rewrites_other _ _ _ "anyOf" R1 eq_refl) in E.
    apply Hc. eapply (children_intro_combinator _ "anyOf"); [reflexivity|eassumption..]. }
  intros o4 r4 H4. apply step_combinator_rewrites in H4 as R4.
  apply runs_bind.
  { apply runs_step_combinator. intros l v E Hv.
    rewrite (rewrites_other _ _ _ "oneOf" R4 eq_refl),
      (rewrites_other _ _ _ "oneOf" R3 eq_refl),
      (rewrites_other _ _ _ "oneOf" R2 eq_refl),
      (rewrites_other _ _ _ "oneOf" R1 eq_refl) in E.
    apply Hc. eapply (children_intro_combinator _ "oneOf"); [reflexivity|eassumption..]. }
  intros o5 r5 H5. apply step_combinator_rewrites in H5 as R5.
  apply runs_bind.
  { apply runs_step_combinator. intros l v E Hv.
    rewrite (rewrites_other _ _ _ "allOf" R5 eq_refl),
      (rewrites_other _ _ _ "allOf" R4 eq_refl),
      (rewrites_other _ _ _ "allOf" R3 eq_refl),
      (rewrites_other _ _ _ "allOf" R2 eq_refl),
      (rewrites_other _ _ _ "allOf" R1 eq_refl) in E.
    apply Hc. eapply (children_intro_combinator _ "allOf"); [reflexivity|eassumption..]. }
  intros o6 r6 H6. apply step_combinator_rewrites in H6 as R6.
  apply runs_bind; [|intros; exact Logic.I].
  apply runs_step_defs. intros ds v E Hv.
  rewrite (rewrites_other _ _ _ "$defs" R6 eq_refl),
    (rewrites_other _ _ _ "$defs" R5 eq_refl),
    (rewrites_other _ _ _ "$defs" R4 eq_refl),
    (rewrites_other _ _ _ "$defs" R3 eq_refl),
    (rewrites_other _ _ _ "$defs" R2 eq_refl),
    (rewrites_other _ _ _ "$defs" R1 eq_refl) in E.
  apply Hc. eapply children_intro_defs; eassumption.
Qed.
End RunsM.

(** With fuel for its depth [_norm] never runs short; it raises nothing
    when every [properties] met is a map. *)
Lemma norm_runs strict fuel :
  forall schema rm,
    json_depth schema <= fuel ->
    (strict = true -> all_nodes (fun d => properties_is_map d = true) schema) ->
    runs strict (_norm fuel schema rm).
Proof.
  induction fuel as [|fuel IH]; intros schema rm Hd Hmap.
  - destruct schema; try exact Logic.I. simpl in Hd. lia.
  - destruct schema as [| | | | |d]; try exact Logic.I.
    rewrite norm_node. apply runs_norm_dict.
    + intros y Hy r. apply IH.
      * apply depth_children in Hy. lia.
      * intros Hs. specialize (Hmap Hs).
        apply all_nodes_node_inv in Hmap as [_ Hc]. now apply Hc.
    + intros Hs. specialize (Hmap Hs).
      now apply all_nodes_node_inv in Hmap as [Hm _].
Qed.

Section RunsRes.
Variable strict : bool.

Lemma runs_rbind {A B} (c : Res A) (k : A -> Res B) :
  runs strict c -> (forall a, c = Ok a -> runs strict (k a)) -> runs strict (rbind c k).
Proof. destruct c; simpl; auto. Qed.

Lemma runs_rmapM {A B} (f : A -> Res B) l :
  (forall x, In x l -> runs strict (f x)) -> runs strict (rmapM f l).
Proof.
  induction l as [|x l IH]; intros Hf; simpl; [exact Logic.I|].
  apply runs_rbind; [apply Hf; now left|]. intros y _.
  apply runs_rbind; [apply IH; intros; apply Hf; now right|].
  intros ys _. exact Logic.I.
Qed.

Variable self : json -> Res json.

Lemma runs_fix_values props :
  (forall v, In v (dict_values props) -> runs strict (self v)) ->
  runs strict (fix_values self props).
Proof.
  induction props as [|[k v] props IH]; intros Hv; simpl; [exact Logic.I|].
  apply runs_rbind; [apply Hv; now left|]. intros v' _.
  apply runs_rbind; [apply IH; intros; apply Hv; now right|].
  intros rest _. exact Logic.I.
Qed.

Lemma runs_fix_own_required d :
  (strict = true -> normal_required d) -> runs strict (fix_own_required d).
Proof.
  intros Hn. unfold fix_own_required.
  destruct (get_or_none "properties" d); try exact Logic.I.
  unfold normal_required in Hn.
  destruct (get_or_none "required" d) as [| | | |req|]; try exact Logic.I.
  apply runs_rbind; [|intros; exact Logic.I].
  apply runs_rmapM. intros x Hx.
  destruct strict.
  - specialize (Hn eq_refl). simpl in Hn. rewrite forallb_forall in Hn.
    specialize (Hn x Hx). destruct x; try discriminate.
    simpl. destruct (reserved s); exact Logic.I.
  - destruct x; simpl; try exact Logic.I; try reflexivity.
    destruct (reserved s); exact Logic.I.
Qed.

Lemma runs_fix_properties d :
  (strict = true -> properties_is_map d = true) ->
  (forall props v, dict_get "properties" d = Some (JObj props) ->
                   In v (dict_values props) -> runs strict (self v)) ->
  runs strict (fix_properties self d).
Proof.
  intros Hmap Hv. unfold fix_properties, get_or_none, properties_is_map in *.
  destruct (dict_get "properties" d) as [p|] eqn:E; [|exact Logic.I].
  destruct (truthy p); [|exact Logic.I].
  destruct p as [| | | | |ps];
    try (destruct strict; [specialize (Hmap eq_refl); discriminate|reflexivity]).
  apply runs_rbind; [|intros; exact Logic.I].
  apply runs_fix_values. intros v Hin. now apply (Hv ps).
Qed.

Lemma runs_fix_items d :
  (forall items, dict_get "items" d = Some (JObj items) ->
                 runs strict (self (JObj items))) ->
  runs strict (fix_items self d).
Proof.
  intros H. unfold fix_items.
  destruct (dict_get "items" d) as [[| | | | |it]|] eqn:E; try exact Logic.I.
  apply runs_rbind; [|intros; exact Logic.I]. now apply H.
Qed.

Lemma runs_fix_dict d :
  (forall y, In y (children d) -> runs strict (self y)) ->
  (strict = true -> properties_is_map d = true /\ normal_node d) ->
  runs strict (fix_dict self d).
Proof.
  intros Hc Hnode. unfold fix_dict.
  apply runs_rbind.
  { apply runs_fix_own_required. intros Hs. now apply Hnode. }
  intros o1 H1. apply fix_own_required_rewrites in H1 as R1.
  apply runs_rbind.
  { apply runs_fix_properties.
    - intros Hs. unfold properties_is_map.
      rewrite (rewrites_other _ _ _ "properties" R1 eq_refl). now apply Hnode.
    - intros ps v E Hv. rewrite (rewrites_other _ _ _ "properties" R1 eq_refl) in E.
      apply Hc. eapply children_intro_property; eassumption. }
  intros o2 H2. apply fix_properties_rewrites in H2 as R2.
  apply runs_rbind; [|intros; exact Logic.I].
  apply runs_fix_items. intros it E.
  rewrite (rewrites_other _ _ _ "items" R2 eq_refl),
    (rewrites_other _ _ _ "items" R1 eq_refl) in E.
  apply Hc. now apply children_intro_items.
Qed.
End RunsRes.

(** With fuel for its depth [_fix_required] never runs short; it raises
    nothing on a normal form whose [properties] are maps. *)
Lemma fix_runs strict fuel :
  forall n,
    json_depth n <= fuel ->
    (strict = true ->
     all_nodes (fun d => properties_is_map d = true /\ normal_node d) n) ->
    runs strict (_fix_required fuel n).
Proof.
  induction fuel as [|fuel IH]; intros n Hd Hn.
  - destruct n; try exact Logic.I. simpl in Hd. lia.
  - destruct n as [| | | | |d]; try exact Logic.I.
    rewrite fix_node. apply runs_fix_dict.
    + intros y Hy. apply IH.
      * apply depth_children in Hy. lia.
      * intros Hs. specialize (Hn Hs).
        apply all_nodes_node_inv in Hn as [_ Hc]. now apply Hc.
    + intros Hs. specialize (Hn Hs).
      now apply all_nodes_node_inv in Hn as [Hm _].
Qed.

(** [normalize_schema_for_backend] never runs out of fuel, and returns a
    schema and a rename map whenever every [properties] met is a map. *)
Lemma normalize_runs strict schema :
  (strict = true -> every_node properties_is_map schema = true) ->
  runs strict (normalize_schema_for_backend schema).
Proof.
  intros Hmap. unfold normalize_schema_for_backend.
  destruct schema as [| | | | |[|e d]]; try exact Logic.I.
  assert (Hall : strict = true ->
                 all_nodes (fun d => properties_is_map d = true) (JObj (e :: d))).
  { intros Hs. apply every_node_all_nodes. now apply Hmap. }
  pose proof (norm_runs strict (json_depth (JObj (e :: d))) (JObj (e :: d)) []
                (le_n _) Hall) as Hn.
  destruct (_norm _ _ []) as [[n rm]| |] eqn:En; try exact Hn.
  apply runs_rbind; [|intros; exact Logic.I].
  apply fix_runs; [apply le_n|]. intros Hs.
  apply all_nodes_and.
  - eapply norm_properties_is_map; [exact En|]. now apply Hall.
  - eapply norm_normal; exact En.
Qed.

(* ===================================================================== *)
(** ** The end-to-end scenario and the key restorer *)
(* ===================================================================== *)

(** C2. The scenario schema normalises to a schema whose properties map
    has exactly the keys [_prop_required] and [name], in that order, whose
    [required] is the list of these two keys, with the rename map
    [{_prop_required: required}]; and the scenario response restores,
    under that map, to [{required: x, name: y}]. *)
Theorem scenario_normalize_then_restore :
  exists d props rename_map,
    normalize_schema_for_backend scenario_schema = Ok (JObj d, rename_map)
    /\ dict_get "properties" d = Some (JObj props)
    /\ dict_keys props = ["_prop_required"; "name"]
    /\ dict_get "required" d = Some (JArr [JStr "_prop_required"; JStr "name"])
    /\ rename_map = [("_prop_required", "required")]
    /\ restore_response_keys scenario_response rename_map
       = JObj [("required", JStr "x"); ("name", JStr "y")].
Proof.
  eexists _, _, _. split; [vm_compute; reflexivity|].
  repeat split; reflexivity.
Qed.

(** The loop of [restore_response_keys] over the items of a dictionary. *)
Lemma restore_walk_obj rm d :
  restore_walk rm (JObj d)
  = JObj (fold_left
            (fun out kv =>
               dict_set (rename_key rm (fst kv)) (restore_walk rm (snd kv)) out)
            d []).
Proof.
  simpl. f_equal. generalize (@nil (string * json)).
  induction d as [|[k v] d IH]; intros out; simpl; [reflexivity|apply IH].
Qed.

Lemma fold_set_keys (f : string -> string) (g : json -> json) d :
  forall out k,
    In k (dict_keys (fold_left (fun out kv => dict_set (f (fst kv)) (g (snd kv)) out) d out)) ->
    In k (dict_keys out) \/ In k (map f (dict_keys d)).
Proof.
  induction d as [|[k0 v0] d IH]; intros out k; simpl; [tauto|].
  intros H. apply IH in H as [H|H]; [|tauto].
  rewrite dict_keys_set in H. destruct (dict_mem (f k0) out); [tauto|].
  apply in_app_or in H as [H|[<-|[]]]; tauto.
Qed.

Lemma fold_set_values (f : string -> string) (g : json -> json) d :
  forall out k v,
    In (k, v) (fold_left (fun out kv => dict_set (f (fst kv)) (g (snd kv)) out) d out) ->
    In (k, v) out \/ exists k0 v0, In (k0, v0) d /\ v = g v0.
Proof.
  assert (Hset : forall (out : dict json) k1 v1 k v,
             In (k, v) (dict_set k1 v1 out) -> In (k, v) out \/ v = v1).
  { induction out as [|[k2 v2] out IHo]; simpl; intros k1 v1 k v.
    - intros [E|[]]. injection E as -> ->. now right.
    - destruct (String.eqb k1 k2); simpl.
      + intros [E|H]; [injection E as -> ->; now right|tauto].
      + intros [E|H]; [tauto|]. apply IHo in H. tauto. }
  induction d as [|[k0 v0] d IH]; intros out k v; simpl; [tauto|].
  intros H. apply IH in H as [H|(k1 & v1 & Hin & ->)].
  - apply Hset in H as [H| ->]; [tauto|]. right. exists k0, v0. tauto.
  - right. exists k1, v1. tauto.
Qed.

Lemma restore_walk_keys rm data k :
  In k (all_keys (restore_walk rm data)) ->
  exists k0, In k0 (all_keys data) /\ k = rename_key rm k0.
Proof.
  revert k. induction data as [| | | |l IH|d IH] using json_ind; intros k;
    try (simpl; tauto).
  - simpl. rewrite flat_map_concat_map, map_map, <- flat_map_concat_map.
    rewrite !in_flat_map. intros (x & Hx & Hk).
    rewrite Forall_forall in IH. destruct (IH x Hx k Hk) as (k0 & H0 & ->).
    exists k0. split; [|reflexivity]. apply in_flat_map. eauto.
  - rewrite restore_walk_obj. simpl. rewrite in_flat_map.
    intros ([k1 v1] & Hin & Hk). simpl in Hk.
    rewrite Forall_forall in IH.
    destruct Hk as [<-|Hk].
    + assert (Hkeys : In k1 (dict_keys (fold_left
                (fun out kv => dict_set (rename_key rm (fst kv))
                                 (restore_walk rm (snd kv)) out) d []))).
      { unfold dict_keys. change k1 with (fst (k1, v1)). now apply in_map. }
      apply fold_set_keys in Hkeys as [[]|Hkeys].
      apply in_map_iff in Hkeys as (k0 & <- & Hin0).
      exists k0. split; [|reflexivity].
      apply in_map_iff in Hin0 as ([k2 v2] & <- & Hin2).
      apply in_flat_map. exists (k2, v2). split; [assumption|now left].
    + apply fold_set_values in Hin as [[]|(k0 & v0 & Hin0 & ->)].
      destruct (IH (k0, v0) Hin0 k Hk) as (k2 & H2 & ->).
      exists k2. split; [|reflexivity].
      apply in_flat_map. exists (k0, v0). split; [assumption|now right].
Qed.

(** The loop of [restore_response_keys] when no two keys fall together:
    one entry per entry, in the same order. *)
Lemma fold_set_exact (f : string -> string) (g : json -> json) d :
  forall out,
    NoDup (dict_keys out ++ map f (dict_keys d)) ->
    fold_left (fun out kv => dict_set (f (fst kv)) (g (snd kv)) out) d out
    = out ++ map (fun kv => (f (fst kv), g (snd kv))) d.
Proof.
  induction d as [|[k v] d IH]; intros out Hnd; simpl.
  - now rewrite app_nil_r.
  - simpl in Hnd. rewrite dict_set_fresh.
    + rewrite IH.
      * now rewrite <- app_assoc.
      * unfold dict_keys in *. rewrite map_app, <- app_assoc. exact Hnd.
    + apply NoDup_remove_2 in Hnd. intros Hin. apply Hnd.
      apply in_or_app. now left.
Qed.

Lemma fold_set_key_list (f : string -> string) (g : json -> json) d :
  forall out,
    dict_keys (fold_left (fun out kv => dict_set (f (fst kv)) (g (snd kv)) out) d out)
    = fold_left add_key (map f (dict_keys d)) (dict_keys out).
Proof.
  induction d as [|[k v] d IH]; intros out; simpl; [reflexivity|].
  rewrite IH. f_equal. rewrite dict_keys_set, dict_mem_keys. reflexivity.
Qed.

Lemma last_found {A} (p : string * A -> bool) (d : dict A) :
  forall found,
    fold_left (fun found kv => if p kv then Some (snd kv) else found) d found
    = match fold_left (fun found kv => if p kv then Some (snd kv) else found) d None with
      | Some v => Some v
      | None => found
      end.
Proof.
  induction d as [|kv d IH]; intros found; simpl; [reflexivity|].
  rewrite IH. rewrite (IH (if p kv then Some (snd kv) else None)).
  destruct (fold_left _ d None); [reflexivity|].
  destruct (p kv); reflexivity.
Qed.

(** The loop of [restore_response_keys], lookup by lookup: under a name
    stands the value of the last entry that gets this name. *)
Lemma fold_set_get (f : string -> string) (g : json -> json) d k :
  forall out,
    dict_get k (fold_left (fun out kv => dict_set (f (fst kv)) (g (snd kv)) out) d out)
    = match fold_left
              (fun found kv => if String.eqb (f (fst kv)) k then Some (snd kv) else found)
              d None with
      | Some v => Some (g v)
      | None => dict_get k out
      end.
Proof.
  induction d as [|[k0 v0] d IH]; intros out; simpl; [reflexivity|].
  rewrite IH.
  rewrite (last_found (fun kv => String.eqb (f (fst kv)) k) d
             (if String.eqb (f k0) k then Some v0 else None)).
  destruct (fold_left _ d None); [reflexivity|].
  rewrite dict_get_set, (String.eqb_sym k (f k0)).
  destruct (String.eqb (f k0) k); reflexivity.
Qed.

(** Where no two keys of a mapping fall together the restored value is
    the input with every key renamed in place. *)
Lemma restore_walk_renames rm data :
  collapse_free rm data = true -> restore_walk rm data = with_keys_renamed rm data.
Proof.
  induction data as [| | | |l IH|d IH] using json_ind; intros Hfree;
    try reflexivity.
  - simpl in *. f_equal. apply map_ext_in. intros x Hx.
    rewrite Forall_forall in IH. rewrite forallb_forall in Hfree. auto.
  - rewrite restore_walk_obj. cbn [with_keys_renamed collapse_free] in *.
    apply andb_true_iff in Hfree as [Hnd Hall]. f_equal.
    rewrite fold_set_exact by (now apply nodupb_NoDup).
    simpl. apply map_ext_in. intros [k v] Hin. cbn [fst snd]. f_equal.
    rewrite Forall_forall in IH. rewrite forallb_forall in Hall.
    apply (IH (k, v) Hin). apply (Hall (k, v) Hin).
Qed.

(** C10. Under a non-empty rename map the restorer sends every mapping
    key through the map at every depth, with no regard to a schema: a
    mapping is restored to a mapping whose keys are the renamed keys of
    the input, each once, in the order of their first occurrence, and
    under each of them stands the restored value of the last input entry
    that gets this name; a sequence is restored element by element; any
    other value is returned as it is.  Hence a value none of whose
    mappings has two keys falling together is restored to the value with
    every key renamed in place, and every key of a restored value is
    the image of a key of the input.  And there are a non-empty rename
    map and a mapping holding both a renamed key and its original key
    whose two entries collapse into one entry under the original name,
    holding the value of the later entry, so that the output has fewer
    entries. *)
Theorem restore_renames_every_key_and_can_collapse :
  (forall rename_map,
      rename_map <> [] ->
      (forall d,
          exists out,
            restore_response_keys (JObj d) rename_map = JObj out
            /\ dict_keys out
               = distinct_in_order (map (rename_key rename_map) (dict_keys d))
            /\ forall k,
                 dict_get k out
                 = option_map (fun v => restore_response_keys v rename_map)
                     (last_under rename_map k d))
      /\ (forall l,
             restore_response_keys (JArr l) rename_map
             = JArr (map (fun x => restore_response_keys x rename_map) l))
      /\ (forall data,
             match data with
             | JObj _ | JArr _ => True
             | _ => restore_response_keys data rename_map = data
             end)
      /\ (forall data,
             collapse_free rename_map data = true ->
             restore_response_keys data rename_map
             = with_keys_renamed rename_map data)
      /\ (forall data k,
             In k (all_keys (restore_response_keys data rename_map)) ->
             exists k0, In k0 (all_keys data) /\ k = rename_key rename_map k0))
  /\ exists rename_map d out,
       rename_map <> []
       /\ dict_get "_prop_required" d = Some (JStr "x")
       /\ dict_get "required" d = Some (JStr "y")
       /\ rename_key rename_map "_prop_required" = "required"
       /\ restore_response_keys (JObj d) rename_map = JObj out
       /\ out = [("required", JStr "y")]
       /\ length out < length d.
Proof.
  split.
  - intros rm Hrm. destruct rm as [|e rm]; [congruence|].
    unfold restore_response_keys. repeat split.
    + intros d. rewrite restore_walk_obj. eexists. split; [reflexivity|]. split.
      * apply fold_set_key_list.
      * intros k. rewrite fold_set_get. unfold last_under.
        destruct (fold_left _ d None); reflexivity.
    + intros data. destruct data; reflexivity.
    + intros data. apply restore_walk_renames.
    + intros data k. apply restore_walk_keys.
  - exists [("_prop_required", "required")],
      [("_prop_required", JStr "x"); ("required", JStr "y")],
      [("required", JStr "y")].
    repeat split; try reflexivity; [discriminate|simpl; lia].
Qed.

(* ===================================================================== *)
(** ** The rename map *)
(* ===================================================================== *)

Section Preserves.
Variable I : rmap -> Prop.

Lemma preserves_ret {A} (a : A) : preserves I (ret a).
Proof. intros rm b rm' H. apply ret_Ok in H as [_ ->]. trivial. Qed.

Lemma preserves_bind {A B} (c : M A) (k : A -> M B) :
  preserves I c -> (forall a, preserves I (k a)) -> preserves I (bind c k).
Proof.
  intros Hc Hk rm b rm' H Hrm.
  apply bind_Ok in H as (a & rm1 & H1 & H2).
  eapply Hk; [exact H2|]. eapply Hc; [exact H1|exact Hrm].
Qed.

Lemma preserves_raise {A} c msg : preserves I (@raise A c msg).
Proof. intros rm a rm' H. discriminate. Qed.

Lemma preserves_mapM {A B} (f : A -> M B) l :
  (forall x, preserves I (f x)) -> preserves I (mapM f l).
Proof.
  intros Hf. induction l as [|x l IH]; simpl.
  - apply preserves_ret.
  - apply preserves_bind; [apply Hf|]. intros y.
    apply preserves_bind; [apply IH|]. intros ys. apply preserves_ret.
Qed.

Section Steps.
Variable self : json -> M json.
Hypothesis self_ok : forall x, preserves I (self x).
Hypothesis record_ok :
  forall k, reserved k = true ->
            preserves I (record_rename (_RESERVED_RENAME_PREFIX ++ k) k).

Lemma preserves_norm_if_dict x : preserves I (norm_if_dict self x).
Proof. unfold norm_if_dict. destruct (is_dict x); [apply self_ok|apply preserves_ret]. Qed.

Lemma preserves_norm_props props : forall acc, preserves I (norm_props self props acc).
Proof.
  induction props as [|[k v] props IH]; intros acc; simpl.
  - apply preserves_ret.
  - destruct (reserved k) eqn:E.
    + apply preserves_bind; [now apply record_ok|]. intros _.
      apply preserves_bind; [apply self_ok|]. intros v'. apply IH.
    + apply preserves_bind; [apply self_ok|]. intros v'. apply IH.
Qed.

Lemma preserves_norm_defs defs : forall acc, preserves I (norm_defs self defs acc).
Proof.
  induction defs as [|[k v] defs IH]; intros acc; simpl.
  - apply preserves_ret.
  - apply preserves_bind; [apply preserves_norm_if_dict|]. intros v'. apply IH.
Qed.

Lemma preserves_keys_of x : preserves I (keys_of x).
Proof. destruct x; simpl; first [apply preserves_ret|apply preserves_raise]. Qed.

Lemma preserves_step_properties out : preserves I (step_properties self out).
Proof.
  unfold step_properties. destruct (get_or_none "properties" out);
    try apply preserves_ret.
  apply preserves_bind; [apply preserves_norm_props|]. intros ps. apply preserves_ret.
Qed.

Lemma preserves_step_items out : preserves I (step_items self out).
Proof.
  unfold step_items. destruct (get_or_none "items" out); try apply preserves_ret.
  - apply preserves_bind; [apply preserves_mapM, preserves_norm_if_dict|].
    intros l'. apply preserves_ret.
  - apply preserves_bind; [apply self_ok|]. intros l'. apply preserves_ret.
Qed.

Lemma preserves_step_required out : preserves I (step_required out).
Proof.
  unfold step_required.
  destruct (get_or_none "required" out) as [|[|]| | | |] eqn:E;
    repeat match goal with
      | |- preserves _ (ret _) => apply preserves_ret
      | |- preserves _ (bind _ _) =>
          apply preserves_bind; [apply preserves_keys_of|intros ?]
      | |- preserves _ (if ?b then _ else _) => destruct b
      | |- preserves _ (match ?x with _ => _ end) => destruct x
      end.
Qed.

Lemma preserves_step_combinator key out : preserves I (step_combinator self key out).
Proof.
  unfold step_combinator. destruct (dict_get key out) as [[]|]; try apply preserves_ret.
  apply preserves_bind; [apply preserves_mapM, preserves_norm_if_dict|].
  intros l'. apply preserves_ret.
Qed.

Lemma preserves_step_defs out : preserves I (step_defs self out).
Proof.
  unfold step_defs. destruct (dict_get "$defs" out) as [[]|]; try apply preserves_ret.
  apply preserves_bind; [apply preserves_norm_defs|]. intros l'. apply preserves_ret.
Qed.

Lemma preserves_norm_dict d : preserves I (norm_dict self d).
Proof.
  unfold norm_dict.
  apply preserves_bind; [apply preserves_step_properties|intros ?].
  apply preserves_bind; [apply preserves_step_items|intros ?].
  apply preserves_bind; [apply preserves_step_required|intros ?].
  do 3 (apply preserves_bind; [apply preserves_step_combinator|intros ?]).
  apply preserves_bind; [apply preserves_step_defs|intros ?].
  apply preserves_ret.
Qed.
End Steps.

(** An invariant kept by every recorded rename is kept by [_norm]. *)
Lemma preserves_norm :
  (forall k, reserved k = true ->
             preserves I (record_rename (_RESERVED_RENAME_PREFIX ++ k) k)) ->
  forall fuel obj, preserves I (_norm fuel obj).
Proof.
  intros Hrec. induction fuel as [|fuel IH]; intros obj.
  - destruct obj; simpl; try apply preserves_ret. intros rm a rm' H. discriminate.
  - destruct obj; simpl; try apply preserves_ret.
    apply preserves_norm_dict; assumption.
Qed.
End Preserves.

Lemma Forall_dict_set {V} (P : string * V -> Prop) k v (d : dict V) :
  Forall P d -> P (k, v) -> Forall P (dict_set k v d).
Proof.
  intros Hd Hkv. induction d as [|[k0 v0] d IH]; simpl.
  - constructor; [assumption|constructor].
  - inversion Hd as [|? ? H0 Hd']; subst.
    destruct (String.eqb_spec k k0) as [->|]; constructor; auto.
Qed.

Lemma record_rename_ok k :
  reserved k = true ->
  preserves rename_map_ok (record_rename (_RESERVED_RENAME_PREFIX ++ k) k).
Proof.
  intros Hk rm a rm' H [Hall Hnd]. unfold record_rename in H.
  injection H as _ <-. split.
  - apply Forall_dict_set; [assumption|]. split; [|reflexivity].
    now apply reserved_In.
  - now apply dict_set_NoDup.
Qed.

Lemma rename_map_ok_length rm : rename_map_ok rm -> length rm <= 5.
Proof.
  intros [Hall Hnd].
  change 5 with (length (map (String.append _RESERVED_RENAME_PREFIX)
                           _RESERVED_PROP_NAMES)).
  replace (length rm) with (length (dict_keys rm))
    by (unfold dict_keys; apply length_map).
  apply NoDup_incl_length; [assumption|].
  intros k Hk. unfold dict_keys in Hk.
  apply in_map_iff in Hk as ([nk ok] & <- & Hin).
  rewrite Forall_forall in Hall. destruct (Hall _ Hin) as [Hres E].
  cbn [fst snd] in *. rewrite E.
  apply (in_map (String.append _RESERVED_RENAME_PREFIX)). exact Hres.
Qed.

(** C9. Every entry of the rename map returned by
    [normalize_schema_for_backend] pairs a name of the reserved set with
    that name prefixed by [_prop_]; the keys of the map are pairwise
    distinct, so it has at most five entries whatever the schema. *)
Theorem rename_map_entries_are_reserved schema normalized rename_map :
  normalize_schema_for_backend schema = Ok (normalized, rename_map) ->
  (forall new_key original_key,
      In (new_key, original_key) rename_map ->
      In original_key _RESERVED_PROP_NAMES
      /\ new_key = (_RESERVED_RENAME_PREFIX ++ original_key)%string)
  /\ NoDup (dict_keys rename_map)
  /\ length rename_map <= 5.
Proof.
  intros H.
  assert (Hok : rename_map_ok rename_map).
  { unfold normalize_schema_for_backend in H.
    destruct schema as [| | | | |[|e d]]; try (injection H as _ <-; split; constructor).
    destruct (_norm _ _ []) as [[n rm]| |] eqn:En; try discriminate.
    destruct (_fix_required _ n) eqn:Ef; try discriminate.
    simpl in H. injection H as _ <-.
    eapply (preserves_norm rename_map_ok record_rename_ok); [exact En|].
    split; constructor. }
  split; [|split; [apply Hok|now apply rename_map_ok_length]].
  intros nk ok Hin. destruct Hok as [Hall _].
  rewrite Forall_forall in Hall. apply (Hall (nk, ok) Hin).
Qed.

Lemma rename_map_entries_are_reserved_witness :
  (forall new_key original_key,
      In (new_key, original_key) [("_prop_required", "required")] ->
      In original_key _RESERVED_PROP_NAMES
      /\ new_key = (_RESERVED_RENAME_PREFIX ++ original_key)%string)
  /\ NoDup (dict_keys [("_prop_required", "required")])
  /\ length [("_prop_required", "required")] <= 5.
Proof.
  apply (rename_map_entries_are_reserved scenario_schema
           (JObj [("type", JStr "object");
                  ("properties",
                   JObj [("_prop_required", string_schema); ("name", string_schema)]);
                  ("required", JArr [JStr "_prop_required"; JStr "name"])])).
  vm_compute. reflexivity.
Defined.

(* ===================================================================== *)
(** ** Model resolution *)
(* ===================================================================== *)

Lemma startswith_contains hay p : startswith hay p = true -> contains p hay = true.
Proof.
  unfold startswith. intros H. destruct hay; cbn [contains]; rewrite H; reflexivity.
Qed.

Lemma filter_ext_bool {A} (f g : A -> bool) l :
  (forall x, f x = g x) -> filter f l = filter g l.
Proof.
  intros E. induction l as [|x l IH]; simpl; [reflexivity|].
  rewrite E, IH. reflexivity.
Qed.

(** The claim as stated fails on the native client: with the model
    [llama3:70b] configured and the single id [llama3:8b] available, no id
    contains the configured name, and yet the call returns [llama3:8b]. *)
Lemma ollama_partial_match_ignores_tag :
  ~ resolution_policy lower OllamaClient.ensure_model.
Proof.
  intros H.
  specialize (H (client_with "llama3:70b") "llama3:8b" []).
  vm_compute in H. discriminate.
Qed.

(** C5, amended. The client of [client.py] resolves the model as stated,
    matching the whole configured name, lower-cased, inside the
    lower-cased ids; the client of [ollama_client.py] follows the same
    policy but matches the part of the configured name before its first
    colon.  On both, the hint [glm] against [zai-org/GLM-4.6] and
    [llama3.1] resolves to [zai-org/GLM-4.6], and the hint [a] fails with
    a message naming both ids. *)
Theorem ensure_model_resolution :
  resolution_policy lower LMStudioClient.ensure_model
  /\ resolution_policy (fun m => lower (before_colon m)) OllamaClient.ensure_model
  /\ LMStudioClient.ensure_model (client_with "glm") scenario_ids
     = Ok ("zai-org/GLM-4.6", set_model (client_with "glm") "zai-org/GLM-4.6")
  /\ OllamaClient.ensure_model (client_with "glm") scenario_ids
     = Ok ("zai-org/GLM-4.6", set_model (client_with "glm") "zai-org/GLM-4.6")
  /\ LMStudioClient.ensure_model (client_with "a") scenario_ids
     = Raise RuntimeError "Model 'a' not found. Available: zai-org/GLM-4.6, llama3.1"
  /\ OllamaClient.ensure_model (client_with "a") scenario_ids
     = Raise RuntimeError "Model 'a' not found. Available: zai-org/GLM-4.6, llama3.1".
Proof.
  split; [|split; [|repeat split; reflexivity]].
  - intros self first rest ids. unfold LMStudioClient.ensure_model. subst ids.
    destruct (configured self) as [m|]; [|reflexivity].
    destruct (existsb (String.eqb m) (first :: rest)); [reflexivity|].
    destruct (filter _ (first :: rest)) as [|p [|q l]]; reflexivity.
  - intros self first rest ids. unfold OllamaClient.ensure_model. subst ids.
    destruct (configured self) as [m|]; [|reflexivity].
    destruct (existsb (String.eqb m) (first :: rest)); [reflexivity|].
    cbv zeta.
    rewrite (filter_ext_bool
               (fun mid => contains (lower (before_colon m)) (lower mid)
                           || startswith (lower mid) (lower (before_colon m)))
               (fun mid => contains (lower (before_colon m)) (lower mid))).
    + destruct (filter _ (first :: rest)) as [|p [|q l]]; reflexivity.
    + intros mid.
      destruct (contains (lower (before_colon m)) (lower mid)) eqn:E; [reflexivity|].
      destruct (startswith (lower mid) (lower (before_colon m))) eqn:S; [|reflexivity].
      apply startswith_contains in S. congruence.
Qed.

(* ===================================================================== *)
(** ** Preflight *)
(* ===================================================================== *)

Lemma catchable_rbind {A B} (c : Res A) (k : A -> Res B) :
  catchable c -> (forall a, catchable (k a)) -> catchable (rbind c k).
Proof. destruct c; simpl; auto. Qed.

Lemma catchable_rmapM {A B} (f : A -> Res B) l :
  (forall x, catchable (f x)) -> catchable (rmapM f l).
Proof.
  intros Hf. induction l as [|x l IH]; simpl; [exact Logic.I|].
  apply catchable_rbind; [apply Hf|]. intros y.
  apply catchable_rbind; [apply IH|]. intros ys. exact Logic.I.
Qed.

Lemma catchable_get_default key default m : catchable (get_default key default m).
Proof.
  destruct m; simpl; try reflexivity. destruct (dict_get key d); exact Logic.I.
Qed.

Lemma catchable_join_first3 names : catchable (join_first3 names).
Proof.
  unfold join_first3. apply catchable_rbind; [|intros; exact Logic.I].
  apply catchable_rmapM. intros [ ]; simpl; auto.
Qed.

Lemma catchable_get_models key http : catchable (get_models_from key http).
Proof.
  destruct http as [m|m|m|[]]; simpl; try reflexivity.
  destruct (dict_get key d) as [[]|]; exact Logic.I.
Qed.

(** What the two handlers make of a body that can only be caught. *)
Lemma try_except_total (body : Res (bool * string)) h1 h2 :
  catchable body ->
  (forall e, exists msg, h1 e = Ok (false, msg)) ->
  (forall e, exists msg, h2 e = Ok (false, msg)) ->
  exists b msg,
    try_except body h1 h2 = Ok (b, msg)
    /\ (b = true -> body = Ok (true, msg)).
Proof.
  intros Hb H1 H2. destruct body as [[b msg]|c e|]; simpl in *.
  - exists b, msg. split; [reflexivity|]. intros ->. reflexivity.
  - destruct c; simpl in Hb; try discriminate;
      first [destruct (H1 e) as [msg ->]|destruct (H2 e) as [msg ->]];
      exists false, msg; (split; [reflexivity|discriminate]).
  - contradiction.
Qed.

(** C7. Whatever the model-list request comes to (a failed connection, an
    error status, a body that is not JSON, a JSON body of any shape),
    [preflight] of either client returns a pair and raises nothing; and
    it answers [true] only when the request yielded a non-empty list of
    models, so every failure is reported by [false]. *)
Theorem preflight_never_raises self http :
  (exists ok message,
      LMStudioClient.preflight self http = Ok (ok, message)
      /\ (ok = true ->
          exists m models, LMStudioClient._get_models self http = Ok (m :: models)))
  /\ (exists ok message,
         OllamaClient.preflight self http = Ok (ok, message)
         /\ (ok = true ->
             exists m models, OllamaClient._get_models self http = Ok (m :: models))).
Proof.
  split.
  - unfold LMStudioClient.preflight.
    match goal with |- context [try_except ?b ?h1 ?h2] =>
      destruct (try_except_total b h1 h2) as (ok & msg & E & Hok) end.
    + apply catchable_rbind; [apply catchable_get_models|]. intros [|m ms]; [exact Logic.I|].
      apply catchable_rbind; [apply catchable_rmapM; intros; apply catchable_get_default|].
      intros names. apply catchable_rbind; [apply catchable_join_first3|].
      intros; exact Logic.I.
    + intros e. eexists. reflexivity.
    + intros e. eexists. reflexivity.
    + exists ok, msg. split; [exact E|]. intros Hb. specialize (Hok Hb).
      destruct (LMStudioClient._get_models self http) as [[|m ms]| |];
        simpl in Hok; try discriminate. eauto.
  - unfold OllamaClient.preflight.
    match goal with |- context [try_except ?b ?h1 ?h2] =>
      destruct (try_except_total b h1 h2) as (ok & msg & E & Hok) end.
    + apply catchable_rbind; [apply catchable_get_models|]. intros [|m ms]; [exact Logic.I|].
      apply catchable_rbind.
      { apply catchable_rmapM. intros x. unfold OllamaClient.display_name.
        apply catchable_rbind; intros; apply catchable_get_default. }
      intros names. apply catchable_rbind; [apply catchable_join_first3|].
      intros; exact Logic.I.
    + intros e. eexists. reflexivity.
    + intros e. eexists. reflexivity.
    + exists ok, msg. split; [exact E|]. intros Hb. specialize (Hok Hb).
      destruct (OllamaClient._get_models self http) as [[|m ms]| |];
        simpl in Hok; try discriminate. eauto.
Qed.

(* ===================================================================== *)
(** ** Streaming *)
(* ===================================================================== *)

Lemma append_assoc (a b c : string) : ((a ++ b) ++ c = a ++ (b ++ c))%string.
Proof. induction a as [|x a IH]; simpl; [reflexivity|now rewrite IH]. Qed.

Lemma append_empty_r (a : string) : (a ++ "")%string = a.
Proof. induction a as [|x a IH]; simpl; [reflexivity|now rewrite IH]. Qed.

Lemma concat_empty_cons p parts :
  String.concat "" (p :: parts) = (p ++ String.concat "" parts)%string.
Proof.
  destruct parts as [|q parts]; simpl; [now rewrite append_empty_r|reflexivity].
Qed.

Lemma stream_from_cons json_loads on_error content p parts last :
  stream_from json_loads on_error content (p :: parts) last
  = emit ((content ++ p)%string, None)
      (stream_from json_loads on_error (content ++ p)%string parts last).
Proof.
  unfold stream_from, emit. cbv zeta. rewrite concat_empty_cons.
  rewrite !append_assoc.
  destruct (nonblank _); [destruct (json_loads _)|]; reflexivity.
Qed.

Lemma lm_stream_loop json_loads stream content :
  LMStudioClient.stream_loop json_loads stream content
  = stream_from json_loads
      (fun e => Raised RuntimeError ("Inference error: " ++ e)%string)
      content (map LMStudioClient.delta_of stream) "".
Proof.
  revert content. induction stream as [|c stream IH]; intros content.
  - simpl. unfold LMStudioClient.finish, stream_from, parse_or_empty. simpl.
    rewrite append_empty_r.
    destruct (nonblank content); [destruct (json_loads content)|]; reflexivity.
  - cbn [LMStudioClient.stream_loop map]. rewrite stream_from_cons, IH. reflexivity.
Qed.

Lemma ollama_stream_loop json_loads lines chunks :
  received json_loads lines chunks ->
  forall content,
    OllamaClient.stream_loop json_loads lines content
    = stream_from json_loads (Raised JSONDecodeError) content
        (parts_before_done chunks) (part_at_done chunks).
Proof.
  induction 1 as [|lines chunks _ IH|line lines chunks e Hne He _ IH
                 |line lines chunks data part done Hne Hd Hp Hdone _ IH];
    intros content.
  - simpl. unfold OllamaClient.finish, stream_from, parse_or_empty. simpl.
    rewrite append_empty_r.
    destruct (nonblank content); [destruct (json_loads content)|]; reflexivity.
  - simpl. apply IH.
  - cbn [OllamaClient.stream_loop].
    destruct (String.eqb_spec line ""); [contradiction|]. rewrite He. apply IH.
  - cbn [OllamaClient.stream_loop].
    destruct (String.eqb_spec line ""); [contradiction|]. rewrite Hd, Hp, Hdone.
    cbn [after parts_before_done part_at_done]. destruct done.
    + unfold OllamaClient.finish, stream_from, parse_or_empty. simpl.
      destruct (nonblank (content ++ part));
        [destruct (json_loads (content ++ part)%string)|]; reflexivity.
    + rewrite stream_from_cons, IH. reflexivity.
Qed.

(** C6. For every sequence of received chunks, [generate_structured_stream]
    of either client yields the accumulated text with no parse for each
    incremental chunk, then exactly one terminal pair of the full text
    and its parse, which is the empty object when the full text is empty
    or blank; a full text that is not JSON ends the run with an error
    after the incremental pairs.  On the native client the incremental
    chunks are those before the one flagged [done], whose part still
    counts in the full text. *)
Theorem stream_yields_partials_then_terminal json_loads stream lines chunks :
  received json_loads lines chunks ->
  LMStudioClient.generate_structured_stream json_loads stream
  = stream_of_spec json_loads
      (fun e => Raised RuntimeError ("Inference error: " ++ e)%string)
      (map LMStudioClient.delta_of stream) ""
  /\ OllamaClient.generate_structured_stream json_loads lines
     = stream_of_spec json_loads (Raised JSONDecodeError)
         (parts_before_done chunks) (part_at_done chunks).
Proof.
  intros Hrecv. split.
  - unfold LMStudioClient.generate_structured_stream. apply lm_stream_loop.
  - unfold OllamaClient.generate_structured_stream.
    change (stream_of_spec json_loads (Raised JSONDecodeError)
              (parts_before_done chunks) (part_at_done chunks))
      with (stream_from json_loads (Raised JSONDecodeError) ""
              (parts_before_done chunks) (part_at_done chunks)).
    now apply ollama_stream_loop.
Qed.

Lemma stream_yields_partials_then_terminal_witness :
  LMStudioClient.generate_structured_stream example_loads
    [LMStudioClient.mkChunk [Some "{"]; LMStudioClient.mkChunk [];
     LMStudioClient.mkChunk [Some "}"]]
  = ([("{", None); ("{", None); ("{}", None); ("{}", Some (JObj []))], Returned)
  /\ OllamaClient.generate_structured_stream example_loads
       ["first"; ""; "noise"; "last"; "first"]
     = ([("{}", None); ("{}", Some (JObj []))], Returned).
Proof.
  apply (stream_yields_partials_then_terminal example_loads
           [LMStudioClient.mkChunk [Some "{"]; LMStudioClient.mkChunk [];
            LMStudioClient.mkChunk [Some "}"]]
           ["first"; ""; "noise"; "last"; "first"]
           [("{}", false); ("", true); ("{}", false)]).
  apply received_chunk with
    (data := JObj [("message", JObj [("content", JStr "{}")]); ("done", JBool false)]);
    [discriminate|reflexivity|reflexivity|reflexivity|].
  apply received_blank.
  apply received_noise with (e := "Expecting value"); [discriminate|reflexivity|].
  apply received_chunk with (data := JObj [("done", JBool true)]);
    [discriminate|reflexivity|reflexivity|reflexivity|].
  apply received_chunk with
    (data := JObj [("message", JObj [("content", JStr "{}")]); ("done", JBool false)]);
    [discriminate|reflexivity|reflexivity|reflexivity|].
  apply received_end.
Defined.

(* ===================================================================== *)
(** ** Saving a pairing *)
(* ===================================================================== *)

Section SaveFacts.
Import PairingRepository.

Lemma length_append (a b : string) :
  String.length (a ++ b) = String.length a + String.length b.
Proof. induction a as [|c a IH]; simpl; [reflexivity|now rewrite IH]. Qed.

Lemma backup_name_fresh stamp target : backup_name_of stamp target <> target.
Proof.
  unfold backup_name_of. intros E. apply (f_equal String.length) in E.
  rewrite !length_append in E. simpl in E. lia.
Qed.

Lemma fs_set_eq p n s : fs_set p n s p = n.
Proof. unfold fs_set. now rewrite String.eqb_refl. Qed.

Lemma fs_set_neq p q n s : q <> p -> fs_set p n s q = s q.
Proof. unfold fs_set. intros H. destruct (String.eqb_spec q p); [contradiction|reflexivity]. Qed.

Lemma setdefault_get k k' v d :
  dict_get k (setdefault k' v d)
  = match dict_get k d with
    | Some x => Some x
    | None => if String.eqb k k' then Some v else None
    end.
Proof.
  unfold setdefault, dict_mem. destruct (dict_get k' d) eqn:E.
  - destruct (dict_get k d) eqn:E'; [reflexivity|].
    destruct (String.eqb_spec k k'); [congruence|reflexivity].
  - rewrite dict_get_set. destruct (String.eqb_spec k k') as [->|].
    + now rewrite E.
    + now destruct (dict_get k d).
Qed.

Lemma fbind_ok {A B} (c : FS A) (k : A -> FS B) s a s' :
  c s = (Ok a, s') -> fbind c k s = k a s'.
Proof. unfold fbind. now intros ->. Qed.

Lemma fbind_raise {A B} (c : FS A) (k : A -> FS B) s cls msg s' :
  c s = (Raise cls msg, s') -> fbind c k s = (Raise cls msg, s').
Proof. unfold fbind. now intros ->. Qed.

Lemma mkdir_spec target st :
  st target = None ->
  exists st', mkdir target st = (Ok tt, st')
              /\ st' target = Some (Dir [])
              /\ forall p, p <> target -> st' p = st p.
Proof.
  intros H. unfold mkdir. rewrite H. eexists. split; [reflexivity|].
  split; [apply fs_set_eq|]. intros p Hp. now apply fs_set_neq.
Qed.

Lemma write_text_spec target file text st entries :
  st target = Some (Dir entries) ->
  exists st', write_text target file text st = (Ok tt, st')
              /\ st' target = Some (Dir (dict_set file text entries))
              /\ forall p, p <> target -> st' p = st p.
Proof.
  intros H. unfold write_text. rewrite H. eexists. split; [reflexivity|].
  split; [apply fs_set_eq|]. intros p Hp. now apply fs_set_neq.
Qed.

(** C8. When the target directory of a pairing exists and is not empty,
    [save] first moves it, contents untouched, to the backup name made of
    the target name, [_backup_] and the time stamp, and then writes the
    schema, prompt and metadata files into a fresh directory at the
    target; nothing else changes.  When the backup name is already taken
    by a file or a non-empty directory the move raises, and the store is
    left as it was: in no case are the old contents overwritten in place. *)
Theorem save_relocates_before_writing
    (json_dumps : bool -> json -> string) (now_stamp now_iso : string)
    (name : string) (schema : json) (prompt : string) (meta : option (dict json))
    (store : fs) (old : dict string) :
  let target := sanitize_filename name in
  let backup := backup_name_of now_stamp target in
  store target = Some (Dir old) ->
  old <> [] ->
  match store backup with
  | None | Some (Dir []) =>
      exists store' meta_data,
        save json_dumps now_stamp now_iso name schema prompt meta store
        = (Ok target, store')
        /\ store' backup = Some (Dir old)
        /\ store' target
           = Some (Dir [("schema.json", json_dumps false schema);
                        ("prompt.txt", prompt);
                        ("meta.json", json_dumps true (JObj meta_data))])
        /\ dict_get "name" meta_data <> None
        /\ forall p, p <> target -> p <> backup -> store' p = store p
  | Some _ =>
      exists msg,
        save json_dumps now_stamp now_iso name schema prompt meta store
        = (Raise OSError msg, store)
  end.
Proof.
  intros target backup Ht Hold.
  destruct old as [|e old]; [congruence|].
  assert (Hfresh : backup <> target) by apply backup_name_fresh.
  assert (Hfresh' : target <> backup) by congruence.
  assert (Hmeta : forall m : dict json,
             dict_get "name"
               (setdefault "created" (JStr now_iso) (setdefault "name" (JStr name) m))
             <> None).
  { intros m. rewrite !setdefault_get.
    destruct (dict_get "name" m); simpl; discriminate. }
  assert (Hmove : forall st,
             st = fs_set backup (Some (Dir (e :: old))) (fs_set target None store) ->
             exists store' meta_data,
               (mkdir target ;;;
                write_text target "schema.json" (json_dumps false schema) ;;;
                write_text target "prompt.txt" prompt ;;;
                write_text target "meta.json"
                  (json_dumps true
                     (JObj (setdefault "created" (JStr now_iso)
                              (setdefault "name" (JStr name)
                                 match meta with Some ((_ :: _) as m) => m | _ => [] end)))) ;;;
                fret target)%FS st = (Ok target, store')
               /\ store' backup = Some (Dir (e :: old))
               /\ store' target
                  = Some (Dir [("schema.json", json_dumps false schema);
                               ("prompt.txt", prompt);
                               ("meta.json", json_dumps true (JObj meta_data))])
               /\ dict_get "name" meta_data <> None
               /\ forall p, p <> target -> p <> backup -> store' p = store p).
  { intros st ->.
    destruct (mkdir_spec target
                (fs_set backup (Some (Dir (e :: old))) (fs_set target None store)))
      as (s1 & E1 & T1 & O1).
    { rewrite fs_set_neq by assumption. apply fs_set_eq. }
    destruct (write_text_spec target "schema.json" (json_dumps false schema) s1 [] T1)
      as (s2 & E2 & T2 & O2).
    destruct (write_text_spec target "prompt.txt" prompt s2 _ T2)
      as (s3 & E3 & T3 & O3).
    destruct (write_text_spec target "meta.json"
                (json_dumps true
                   (JObj (setdefault "created" (JStr now_iso)
                            (setdefault "name" (JStr name)
                               match meta with Some ((_ :: _) as m) => m | _ => [] end))))
                s3 _ T3) as (s4 & E4 & T4 & O4).
    exists s4. eexists.
    unfold fbind. rewrite E1, E2, E3, E4. split; [reflexivity|].
    split; [|split; [exact T4|split; [apply Hmeta|]]].
    - rewrite O4, O3, O2, O1 by assumption. apply fs_set_eq.
    - intros p Hp1 Hp2. rewrite O4, O3, O2, O1 by assumption.
      rewrite fs_set_neq by assumption. now apply fs_set_neq. }
  assert (Hocc : exists_and_nonempty target store = (Ok true, store)).
  { unfold exists_and_nonempty. now rewrite Ht. }
  unfold save. fold target. fold backup.
  rewrite (fbind_ok _ _ _ _ _ Hocc).
  destruct (store backup) as [[c|[|e' es]]|] eqn:Hb.
  - eexists. apply fbind_raise. unfold rename. now rewrite Ht, Hb.
  - erewrite fbind_ok; [apply Hmove; reflexivity|].
    unfold rename. now rewrite Ht, Hb.
  - eexists. apply fbind_raise. unfold rename. now rewrite Ht, Hb.
  - erewrite fbind_ok; [apply Hmove; reflexivity|].
    unfold rename. now rewrite Ht, Hb.
Qed.

Lemma save_relocates_before_writing_witness :
  exists store' meta_data,
    save example_dumps "20260101_120000" "2026-01-01T12:00:00" "My Pairing"
      (JObj []) "Extract the fields." None example_store
    = (Ok "my_pairing", store')
    /\ store' "my_pairing_backup_20260101_120000"
       = Some (Dir [("schema.json", "old schema")])
    /\ store' "my_pairing"
       = Some (Dir [("schema.json", "{}");
                    ("prompt.txt", "Extract the fields.");
                    ("meta.json", example_dumps true (JObj meta_data))])
    /\ dict_get "name" meta_data <> None
    /\ forall p, p <> "my_pairing" -> p <> "my_pairing_backup_20260101_120000" ->
                 store' p = example_store p.
Proof.
  apply (save_relocates_before_writing example_dumps "20260101_120000"
           "2026-01-01T12:00:00" "My Pairing" (JObj []) "Extract the fields."
           None example_store [("schema.json", "old schema")]).
  - reflexivity.
  - discriminate.
Defined.
End SaveFacts.

(* ===================================================================== *)
(** ** The [required] lists of the normalised schema *)
(* ===================================================================== *)

(** C1, on the failing input.  The object under [anyOf] has its property
    [type] renamed to [_prop_type] by [_norm], but [_fix_required] only
    follows [properties] and the object form of [items]: the entry [type]
    of its [required] list is left as it was and names no key of the
    renamed properties map. *)
Theorem fix_required_skips_anyOf :
  exists node props,
    normalize_schema_for_backend schema_under_anyOf
    = Ok (JObj [("anyOf", JArr [JObj node])], [("_prop_type", "type")])
    /\ dict_get "properties" node = Some (JObj props)
    /\ dict_keys props = ["_prop_type"]
    /\ dict_get "required" node = Some (JArr [JStr "type"]).
Proof.
  eexists _, _. split; [vm_compute; reflexivity|].
  repeat split; reflexivity.
Qed.

(* --------------------------------------------------------------------- *)
(** *** Nodes with [required: true] *)

Lemma Forall2_renamed_keys (R : json -> json -> Prop) (props props' : dict json) :
  Forall2 (fun kv kv' => fst kv' = renamed (fst kv) /\ R (snd kv) (snd kv'))
    props props' ->
  dict_keys props' = map renamed (dict_keys props).
Proof.
  induction 1 as [|kv kv' l l' [Hk _] _ IH]; simpl; [reflexivity|].
  now rewrite Hk, IH.
Qed.

(** The node a path leads to, in the output of [_norm]. *)
Lemma norm_descend path :
  forall fuel schema rm n rm' x,
    _norm fuel schema rm = Ok (n, rm') ->
    wf_json schema = true ->
    clear_path schema path = true ->
    descend schema path = Some x ->
    exists y, descend n (map rename_step path) = Some y
              /\ exists fuel', produces (_norm fuel') x y.
Proof.
  induction path as [|s path IH]; intros fuel schema rm n rm' x H Hwf Hcf Hx.
  - injection Hx as <-. exists n. split; [reflexivity|]. exists fuel. now exists rm, rm'.
  - cbn [descend clear_path] in Hx, Hcf.
    destruct schema as [| | | | |d]; try discriminate.
    destruct (child_at (JObj d) s) as [x1|] eqn:Ec; [|discriminate].
    apply andb_true_iff in Hcf as [Hd Hc].
    pose proof (norm_node_Ok _ _ _ _ _ H) as (f & o & -> & -> & Hn).
    assert (Hd' : forall k, s = in_property k -> collision_free d = true)
      by (intros k ->; exact Hd).
    destruct (norm_dict_child_at (_norm f) (norm_leaf f) (norm_shape f)
                _ _ _ _ _ _ Hn Hwf Hd' Ec) as (y1 & Hy1 & r1 & r2 & Hp).
    cbn [map descend]. rewrite Hy1.
    pose proof (child_at_children _ _ _ Ec) as Hin.
    eapply IH; [exact Hp| |exact Hc|exact Hx].
    eapply wf_children; eassumption.
Qed.

Lemma fix_dict_child_at fuel d o s x :
  fix_dict (_fix_required fuel) d = Ok (JObj o) ->
  child_at (JObj d) s = Some x ->
  exists y, child_at (JObj o) s = Some y /\ (_fix_required fuel x = Ok y \/ y = x).
Proof.
  intros H Hx.
  apply fix_dict_lookups in H as (o' & E & _ & _ & Lp & Li & Lo).
  injection E as <-.
  destruct s as [k| |i|key i|k]; simpl in Hx |- *.
  - destruct (dict_get "properties" d) as [[| | | | |ps]|] eqn:Ed; try discriminate.
    destruct Lp as (ps' & Hf & ->). apply fix_values_Forall2 in Hf.
    destruct (same_key_lookup (fun a b => _fix_required fuel a = Ok b)
                _ _ _ _ Hf Hx) as (y & Hy & Hv).
    eauto.
  - destruct (dict_get "items" d) as [[| | | |l|it]|] eqn:Ed; try discriminate.
    injection Hx as <-. destruct Li as (y & Hy & ->).
    pose proof (fix_shape _ _ _ Hy) as Hs. destruct y; try discriminate. eauto.
  - destruct (dict_get "items" d) as [[| | | |l|it]|] eqn:Ed; try discriminate.
    rewrite Li. eauto.
  - destruct (is_combinator key) eqn:Ek; [|discriminate].
    rewrite Lo; [destruct (dict_get key d) as [[]|]; try discriminate; eauto|].
    unfold is_combinator in Ek. simpl in Ek |- *. rewrite orb_false_r in *.
    apply orb_true_iff in Ek as [Ek|Ek];
      [|apply orb_true_iff in Ek as [Ek|Ek]];
      apply String.eqb_eq in Ek; subst key; reflexivity.
  - rewrite Lo by reflexivity.
    destruct (dict_get "$defs" d) as [[]|]; try discriminate. eauto.
Qed.

(** The node a path leads to, in the output of [_fix_required]. *)
Lemma fix_descend path :
  forall fuel n n' x,
    _fix_required fuel n = Ok n' ->
    descend n path = Some x ->
    exists y, descend n' path = Some y
              /\ (y = x \/ exists fuel', _fix_required fuel' x = Ok y).
Proof.
  induction path as [|s path IH]; intros fuel n n' x H Hx.
  - injection Hx as <-. exists n'. split; [reflexivity|]. right. eauto.
  - cbn [descend] in Hx. destruct (child_at n s) as [x1|] eqn:Ec; [|discriminate].
    destruct n as [| | | | |d]; try discriminate.
    pose proof (fix_node_Ok _ _ _ H) as (f & o & -> & -> & Hn).
    destruct (fix_dict_child_at _ _ _ _ _ Hn Ec) as (y1 & Hy1 & [Hf| ->]).
    + cbn [descend]. rewrite Hy1. eapply IH; eassumption.
    + cbn [descend]. rewrite Hy1. exists x. split; [exact Hx|now left].
Qed.

(** What [_norm] makes of a node with [required: true]. *)
Lemma norm_required_true fuel d y :
  produces (_norm fuel) (JObj d) y ->
  dict_get "required" d = Some (JBool true) ->
  exists o,
    y = JObj o
    /\ dict_get "required" o = Some (JArr (map JStr (dict_keys (properties_of o))))
    /\ dict_keys (properties_of o)
       = distinct_in_order (map renamed (dict_keys (properties_of d)))
    /\ Forall (fun k => reserved k = false) (dict_keys (properties_of o)).
Proof.
  intros (rm & rm' & H) Htrue.
  apply norm_node_Ok in H as (f & o & _ & -> & Hn).
  exists o. split; [reflexivity|].
  pose proof (norm_dict_normal_node _ _ _ _ _ Hn) as (_ & _ & Hplain & _).
  apply (norm_dict_lookups _ (norm_leaf f)) in Hn
    as (o' & E & _ & Lp & _ & _ & _ & _ & Hreq & _).
  injection E as <-. destruct (Hreq Htrue) as [Hmap Ho]. split; [exact Ho|].
  split; [|exact Hplain].
  unfold properties_is_map, properties_of in *.
  destruct (dict_get "properties" d) as [[| | | | |ps]|]; try discriminate.
  - destruct Lp as (ps' & ra & rb & Hp & ->).
    apply norm_props_keys in Hp. exact Hp.
  - now rewrite Lp.
Qed.

Lemma rmapM_fix_entry_plain ks :
  Forall (fun k => reserved k = false) ks ->
  rmapM fix_entry (map JStr ks) = Ok (map JStr ks).
Proof.
  intros H. apply rmapM_id. apply Forall_forall. intros x Hx.
  apply in_map_iff in Hx as (k & <- & Hk). rewrite Forall_forall in H.
  apply fix_entry_plain. now apply H.
Qed.

(** [_fix_required] leaves alone a list of names none of which is reserved. *)
Lemma fix_keeps_plain_required fuel o y ks :
  _fix_required fuel (JObj o) = Ok y ->
  dict_get "required" o = Some (JArr (map JStr ks)) ->
  Forall (fun k => reserved k = false) ks ->
  exists o',
    y = JObj o'
    /\ dict_get "required" o' = Some (JArr (map JStr ks))
    /\ dict_keys (properties_of o') = dict_keys (properties_of o).
Proof.
  intros H Hreq Hks. apply fix_node_Ok in H as (f & o' & _ & -> & Hn).
  exists o'. split; [reflexivity|].
  split; [|eapply fix_dict_property_keys; exact Hn].
  apply fix_dict_lookups in Hn as (o2 & E & _ & Lr & _).
  injection E as <-.
  assert (Er : get_or_none "required" o = JArr (map JStr ks))
    by (unfold get_or_none; now rewrite Hreq).
  rewrite Er in Lr.
  destruct (get_or_none "properties" o); try (now rewrite Lr).
  destruct Lr as (req' & Hr & ->).
  rewrite (rmapM_fix_entry_plain ks Hks) in Hr. now injection Hr as <-.
Qed.

Lemma child_at_nonempty j s x : child_at j s = Some x -> exists e d, j = JObj (e :: d).
Proof.
  destruct j as [| | | | |[|e d]]; try discriminate; [|eauto].
  destruct s; simpl; try discriminate. destruct (is_combinator key); discriminate.
Qed.

(** C4. Take a schema whose dictionaries have distinct keys, and a node
    of it reached through properties, items, anyOf, oneOf, allOf and
    [$defs] along a path on which no property step leaves a node with
    colliding property names.  If the [required] of that node is [true],
    then in the normalised schema, at the same place (property names
    renamed along the path), stands a node whose [required] is exactly
    the list of its own property keys; these keys are the renamed forms
    of the node's original keys, in their original order, each once: the
    plain list of renamed forms when no two of them coincide.
    Normalisation does return when every [properties] met is a map. *)
Theorem required_true_becomes_renamed_keys schema path d :
  wf_json schema = true ->
  clear_path schema path = true ->
  descend schema path = Some (JObj d) ->
  dict_get "required" d = Some (JBool true) ->
  (every_node properties_is_map schema = true ->
   exists normalized rename_map,
     normalize_schema_for_backend schema = Ok (normalized, rename_map))
  /\ forall normalized rename_map,
       normalize_schema_for_backend schema = Ok (normalized, rename_map) ->
       exists d',
         descend normalized (map rename_step path) = Some (JObj d')
         /\ dict_get "required" d'
            = Some (JArr (map JStr (dict_keys (properties_of d'))))
         /\ dict_keys (properties_of d')
            = distinct_in_order (map renamed (dict_keys (properties_of d)))
         /\ (collision_free d = true ->
             dict_keys (properties_of d') = map renamed (dict_keys (properties_of d))).
Proof.
  intros Hwf Hclear Hpath Htrue. split.
  { intros Hmap.
    pose proof (normalize_runs true schema (fun _ => Hmap)) as Hruns.
    destruct (normalize_schema_for_backend schema) as [[n rm]| |];
      try (simpl in Hruns; discriminate); try contradiction. eauto. }
  intros n rm Hnorm.
  assert (Hne : exists e d0, schema = JObj (e :: d0)).
  { destruct path as [|s path].
    - injection Hpath as ->. destruct d as [|e d0]; [discriminate|eauto].
    - cbn [descend] in Hpath.
      destruct (child_at schema s) eqn:Ec; [|discriminate].
      eapply child_at_nonempty; exact Ec. }
  destruct Hne as (e & d0 & ->).
  unfold normalize_schema_for_backend in Hnorm.
  destruct (_norm _ _ []) as [[n1 rm1]| |] eqn:En; try discriminate.
  destruct (_fix_required _ n1) as [n2| |] eqn:Ef; try discriminate.
  simpl in Hnorm. injection Hnorm as <- <-.
  destruct (norm_descend _ _ _ _ _ _ _ En Hwf Hclear Hpath)
    as (y1 & Hy1 & f1 & Hp).
  destruct (norm_required_true _ _ _ Hp Htrue) as (o1 & -> & Hreq1 & Hkeys1 & Hplain).
  destruct (fix_descend _ _ _ _ _ Ef Hy1) as (y & Hy & Hrel).
  assert (Hcf : collision_free d = true ->
                distinct_in_order (map renamed (dict_keys (properties_of d)))
                = map renamed (dict_keys (properties_of d))).
  { unfold collision_free. intros H. apply distinct_in_order_NoDup.
    now apply nodupb_NoDup. }
  destruct Hrel as [->|(f2 & Hf2)].
  - exists o1. split; [exact Hy|]. split; [exact Hreq1|]. split; [exact Hkeys1|].
    intros H. rewrite Hkeys1. now apply Hcf.
  - destruct (fix_keeps_plain_required _ _ _ _ Hf2 Hreq1 Hplain)
      as (o2 & -> & Hreq2 & Hkeys2).
    exists o2. split; [exact Hy|]. rewrite Hkeys2.
    split; [exact Hreq2|]. split; [exact Hkeys1|].
    intros H. rewrite Hkeys1. now apply Hcf.
Qed.

Lemma required_true_becomes_renamed_keys_witness :
  (exists normalized rename_map d',
      normalize_schema_for_backend nested_schema = Ok (normalized, rename_map)
      /\ descend normalized [in_property "_prop_type"] = Some (JObj d')
      /\ dict_get "required" d'
         = Some (JArr (map JStr (dict_keys (properties_of d'))))
      /\ dict_keys (properties_of d') = ["_prop_items"; "name"])
  /\ (exists normalized rename_map d',
         normalize_schema_for_backend colliding_schema = Ok (normalized, rename_map)
         /\ descend normalized [in_items] = Some (JObj d')
         /\ dict_get "required" d'
            = Some (JArr (map JStr (dict_keys (properties_of d'))))
         /\ dict_keys (properties_of d') = ["_prop_type"; "name"]).
Proof.
  split.
  - destruct (required_true_becomes_renamed_keys nested_schema [in_property "type"]
                [("type", JStr "object");
                 ("properties",
                  JObj [("items", string_schema); ("name", string_schema)]);
                 ("required", JBool true)]
                eq_refl eq_refl eq_refl eq_refl) as [Htotal Hpartial].
    destruct (Htotal eq_refl) as (normalized & rename_map & Hn).
    destruct (Hpartial _ _ Hn) as (d' & Hd & Hreq & Hkeys & _).
    exists normalized, rename_map, d'. tauto.
  - destruct (required_true_becomes_renamed_keys colliding_schema [in_items]
                [("type", JStr "object");
                 ("properties",
                  JObj [("type", string_schema);
                        ("_prop_type", string_schema);
                        ("name", string_schema)]);
                 ("required", JBool true)]
                eq_refl eq_refl eq_refl eq_refl) as [Htotal Hpartial].
    destruct (Htotal eq_refl) as (normalized & rename_map & Hn).
    destruct (Hpartial _ _ Hn) as (d' & Hd & Hreq & Hkeys & _).
    exists normalized, rename_map, d'. tauto.
Defined.

(* ===================================================================== *)
(** ** Schemas without reserved property names *)
(* ===================================================================== *)

Lemma strip_required_node d :
  strip_required (JObj d) = JObj (flat_map strip_entry d).
Proof.
  cbn [strip_required]. f_equal. apply flat_map_ext. intros [k v].
  unfold strip_entry, strip_value. cbn [fst snd]. destruct v; reflexivity.
Qed.

Lemma strip_required_leaf j : is_dict j = false -> strip_required j = j.
Proof. destruct j; try reflexivity. discriminate. Qed.

Lemma flat_map_dict_set_same {B} (f : string * json -> list B) k v v' d :
  dict_get k d = Some v -> f (k, v') = f (k, v) ->
  flat_map f (dict_set k v' d) = flat_map f d.
Proof.
  intros Hg Hf. induction d as [|[k0 v0] d IH]; simpl in *; [discriminate|].
  destruct (String.eqb_spec k k0) as [->|Hne]; simpl.
  - injection Hg as ->. now rewrite Hf.
  - now rewrite IH.
Qed.

Lemma flat_map_dict_set_new {B} (f : string * json -> list B) k v' d :
  dict_get k d = None -> f (k, v') = [] ->
  flat_map f (dict_set k v' d) = flat_map f d.
Proof.
  intros Hg Hf. induction d as [|[k0 v0] d IH]; simpl in *.
  - now rewrite Hf.
  - destruct (String.eqb_spec k k0) as [->|Hne]; [discriminate|]. simpl.
    now rewrite IH.
Qed.

Lemma strip_entries_set_required v d :
  flat_map strip_entry (dict_set "required" v d) = flat_map strip_entry d.
Proof.
  destruct (dict_get "required" d) as [v0|] eqn:E.
  - eapply flat_map_dict_set_same; [exact E|reflexivity].
  - apply flat_map_dict_set_new; [exact E|reflexivity].
Qed.

Lemma strip_entries_rewrites_required d o :
  rewrites "required" d o -> flat_map strip_entry o = flat_map strip_entry d.
Proof. intros [->|(v & ->)]; [reflexivity|apply strip_entries_set_required]. Qed.

Lemma map_strip_Forall2 (R : json -> json -> Prop) l l' :
  Forall2 R l l' ->
  (forall x y, In x l -> R x y -> strip_required y = strip_required x) ->
  map strip_required l' = map strip_required l.
Proof.
  induction 1 as [|x y l l' Hxy _ IH]; intros H; simpl; [reflexivity|].
  rewrite (H x y (or_introl eq_refl) Hxy), IH; [reflexivity|].
  intros x0 y0 Hin. apply H. now right.
Qed.

Lemma map_strip_entries_Forall2 (R : json -> json -> Prop) (props props' : dict json) :
  Forall2 (fun kv kv' => fst kv' = fst kv /\ R (snd kv) (snd kv')) props props' ->
  (forall x y, In x (dict_values props) -> R x y ->
               strip_required y = strip_required x) ->
  map (fun kv => (fst kv, strip_required (snd kv))) props'
  = map (fun kv => (fst kv, strip_required (snd kv))) props.
Proof.
  induction 1 as [|kv kv' l l' [Hk Hv] _ IH]; intros H; simpl; [reflexivity|].
  rewrite Hk, (H (snd kv) (snd kv') (or_introl eq_refl) Hv), IH; [reflexivity|].
  intros x0 y0 Hin. apply H. now right.
Qed.

(** [_fix_required] only touches [required] entries. *)
Lemma fix_strip fuel :
  forall n n', _fix_required fuel n = Ok n' -> strip_required n' = strip_required n.
Proof.
  induction fuel as [|fuel IH]; intros n n' H.
  - destruct n; try (injection H as <-; reflexivity). discriminate.
  - destruct n as [| | | | |d]; try (injection H as <-; reflexivity).
    rewrite fix_node in H.
    apply fix_dict_chain in H as (o1 & o2 & o3 & H1 & H2 & H3 & ->).
    rewrite !strip_required_node. f_equal.
    pose proof (fix_own_required_rewrites _ _ H1) as R1.
    pose proof (fix_properties_rewrites _ _ _ H2) as R2.
    apply fix_properties_spec in H2. apply fix_items_spec in H3.
    transitivity (flat_map strip_entry o2);
      [|transitivity (flat_map strip_entry o1);
        [|now apply strip_entries_rewrites_required]].
    + destruct (dict_get "items" o2) as [[| | | | |it]|] eqn:E; try (now rewrite H3).
      destruct H3 as (y & Hy & ->).
      eapply flat_map_dict_set_same; [exact E|].
      pose proof (fix_shape _ _ _ Hy) as Hs. destruct y as [| | | | |oy]; try discriminate.
      unfold strip_entry. cbn [fst snd String.eqb Ascii.eqb Bool.eqb].
      unfold strip_value. cbn [String.eqb Ascii.eqb Bool.eqb orb].
      do 2 f_equal. now apply IH.
    + unfold get_or_none in H2.
      destruct (dict_get "properties" o1) as [[| | | | |ps]|] eqn:E;
        try (now rewrite H2).
      destruct H2 as (ps' & Hf & ->). apply fix_values_Forall2 in Hf.
      eapply flat_map_dict_set_same; [exact E|].
      unfold strip_entry. cbn [fst snd String.eqb Ascii.eqb Bool.eqb].
      unfold strip_value. cbn [String.eqb Ascii.eqb Bool.eqb orb].
      do 3 f_equal.
      apply (map_strip_entries_Forall2 (fun a b => _fix_required fuel a = Ok b));
        [exact Hf|].
      intros x y _ Hxy. now apply IH.
Qed.


Section Plain.
Variable self : json -> M json.
Hypothesis self_shape : forall x y, produces self x y -> is_dict y = is_dict x.

Lemma norm_if_dict_plain x : plain_on self x -> plain_on (norm_if_dict self) x.
Proof.
  intros H r y r'. unfold norm_if_dict. destruct (is_dict x); [apply H|].
  intros E. apply ret_Ok in E as [-> ->]. tauto.
Qed.

Lemma mapM_plain (f : json -> M json) l :
  (forall x, In x l -> plain_on f x) ->
  forall rm l' rm',
    mapM f l rm = Ok (l', rm') ->
    rm' = rm /\ map strip_required l' = map strip_required l.
Proof.
  induction l as [|x l IH]; intros Hf rm l' rm' H; simpl in H.
  - apply ret_Ok in H as [-> ->]. tauto.
  - apply bind_Ok in H as (y & r1 & Hy & H).
    apply bind_Ok in H as (ys & r2 & Hys & H). apply ret_Ok in H as [-> ->].
    destruct (Hf x (or_introl eq_refl) _ _ _ Hy) as [-> Ey].
    destruct (IH (fun x0 Hin => Hf x0 (or_intror Hin)) _ _ _ Hys) as [-> Eys].
    split; [reflexivity|]. simpl. now rewrite Ey, Eys.
Qed.

Lemma norm_props_plain props :
  forall acc rm res rm',
    NoDup (dict_keys acc ++ dict_keys props) ->
    Forall (fun k => reserved k = false) (dict_keys props) ->
    (forall v, In v (dict_values props) -> plain_on self v) ->
    norm_props self props acc rm = Ok (res, rm') ->
    rm' = rm
    /\ exists props',
         res = acc ++ props'
         /\ map (fun kv => (fst kv, strip_required (snd kv))) props'
            = map (fun kv => (fst kv, strip_required (snd kv))) props.
Proof.
  induction props as [|[k v] props IH]; intros acc rm res rm' Hnd Hres Hv H;
    simpl in H.
  - apply ret_Ok in H as [-> ->]. split; [reflexivity|].
    exists []. now rewrite app_nil_r.
  - inversion Hres as [|? ? Hk Hres']; subst. simpl in Hk. rewrite Hk in H.
    apply bind_Ok in H as (v1 & r1 & Hv1 & H).
    destruct (Hv v (or_introl eq_refl) _ _ _ Hv1) as [-> Ev].
    rewrite dict_set_fresh in H.
    + apply IH in H as [-> (props' & -> & Hmap)]; [| |assumption|].
      * split; [reflexivity|]. exists ((k, v1) :: props').
        rewrite <- app_assoc. split; [reflexivity|]. simpl. now rewrite Ev, Hmap.
      * unfold dict_keys in *. rewrite map_app, <- app_assoc. exact Hnd.
      * intros v0 Hin. apply Hv. now right.
    + intros Hin. apply NoDup_remove_2 in Hnd. apply Hnd.
      apply in_or_app. now left.
Qed.

Lemma norm_defs_plain defs :
  forall acc rm res rm',
    NoDup (dict_keys acc ++ dict_keys defs) ->
    (forall v, In v (dict_values defs) -> plain_on self v) ->
    norm_defs self defs acc rm = Ok (res, rm') ->
    rm' = rm
    /\ exists defs',
         res = acc ++ defs'
         /\ map (fun kv => (fst kv, strip_required (snd kv))) defs'
            = map (fun kv => (fst kv, strip_required (snd kv))) defs.
Proof.
  induction defs as [|[k v] defs IH]; intros acc rm res rm' Hnd Hv H; simpl in H.
  - apply ret_Ok in H as [-> ->]. split; [reflexivity|].
    exists []. now rewrite app_nil_r.
  - apply bind_Ok in H as (v1 & r1 & Hv1 & H).
    destruct (norm_if_dict_plain v (Hv v (or_introl eq_refl)) _ _ _ Hv1) as [-> Ev].
    rewrite dict_set_fresh in H.
    + apply IH in H as [-> (defs' & -> & Hmap)].
      * split; [reflexivity|]. exists ((k, v1) :: defs').
        rewrite <- app_assoc. split; [reflexivity|]. simpl. now rewrite Ev, Hmap.
      * unfold dict_keys in *. rewrite map_app, <- app_assoc. exact Hnd.
      * intros v0 Hin. apply Hv. now right.
    + intros Hin. apply NoDup_remove_2 in Hnd. apply Hnd.
      apply in_or_app. now left.
Qed.

Variable d : dict json.
Hypothesis children_plain : forall x, In x (children d) -> plain_on self x.
Hypothesis node_wf : wf_json (JObj d) = true.
Hypothesis node_plain : no_reserved_property d = true.

Lemma combinator_plain key o1 rm o rm' :
  is_combinator key = true ->
  dict_get key o1 = dict_get key d ->
  step_combinator self key o1 rm = Ok (o, rm') ->
  rm' = rm /\ flat_map strip_entry o = flat_map strip_entry o1.
Proof.
  intros Hk Hsame H. apply step_combinator_spec in H.
  destruct (dict_get key o1) as [[| | | |l|]|] eqn:E;
    try (destruct H as [-> ->]; tauto).
  destruct H as (l' & Hl & ->).
  apply mapM_plain in Hl as [-> Hmap].
  - split; [reflexivity|].
    eapply flat_map_dict_set_same; [exact E|].
    unfold strip_entry. cbn [fst snd].
    destruct (String.eqb key "required"); [reflexivity|].
    unfold strip_value. rewrite Hk, orb_true_r. now rewrite Hmap.
  - intros x Hx. apply norm_if_dict_plain. apply children_plain.
    eapply children_intro_combinator; [exact Hk| |exact Hx]. now rewrite <- Hsame.
Qed.

(** On a node without reserved property names [norm_dict] keeps the
    rename map and changes at most [required]. *)
Lemma norm_dict_plain rm n rm' :
  norm_dict self d rm = Ok (n, rm') ->
  rm' = rm /\ strip_required n = strip_required (JObj d).
Proof.
  intros H.
  apply norm_dict_chain in H
    as (o1 & o2 & o3 & o4 & o5 & o6 & o7 & r1 & r2 & r3 & r4 & r5 & r6
        & H1 & H2 & H3 & H4 & H5 & H6 & H7 & ->).
  pose proof (step_properties_rewrites _ _ _ _ _ H1) as R1.
  pose proof (step_items_rewrites _ _ _ _ _ H2) as R2.
  pose proof (step_required_rewrites _ _ _ _ H3) as R3.
  pose proof (step_combinator_rewrites _ _ _ _ _ _ H4) as R4.
  pose proof (step_combinator_rewrites _ _ _ _ _ _ H5) as R5.
  pose proof (step_combinator_rewrites _ _ _ _ _ _ H6) as R6.
  (* properties *)
  assert (S1 : r1 = rm /\ flat_map strip_entry o1 = flat_map strip_entry d).
  { apply step_properties_spec in H1.
    destruct (dict_get "properties" d) as [[| | | | |ps]|] eqn:E;
      try (destruct H1 as [-> ->]; tauto).
    destruct H1 as (ps' & Hp & ->).
    unfold no_reserved_property, properties_of in node_plain. rewrite E in node_plain.
    apply (norm_props_plain ps []) in Hp as [-> (ps0 & E0 & Hmap)].
    - simpl in E0. subst ps0. split; [reflexivity|].
      eapply flat_map_dict_set_same; [exact E|].
      unfold strip_entry, strip_value. cbn [fst snd String.eqb Ascii.eqb Bool.eqb orb].
      now rewrite Hmap.
    - simpl. apply wf_dict_keys. eapply wf_dict_get; eassumption.
    - apply Forall_forall. intros k Hk. rewrite forallb_forall in node_plain.
      apply negb_true_iff. now apply node_plain.
    - intros v Hv. apply children_plain. eapply children_intro_property; eassumption. }
  destruct S1 as [-> S1].
  (* items *)
  assert (S2 : r2 = rm /\ flat_map strip_entry o2 = flat_map strip_entry o1).
  { apply step_items_spec in H2.
    pose proof (rewrites_other _ _ _ "items" R1 eq_refl) as Ei.
    destruct (dict_get "items" o1) as [[| | | |l|it]|] eqn:E;
      try (destruct H2 as [-> ->]; tauto).
    - destruct H2 as (l' & Hl & ->).
      apply mapM_plain in Hl as [-> Hmap].
      + split; [reflexivity|].
        eapply flat_map_dict_set_same; [exact E|].
        unfold strip_entry, strip_value. cbn [fst snd String.eqb Ascii.eqb Bool.eqb orb].
        now rewrite Hmap.
      + intros x Hx. apply norm_if_dict_plain. apply children_plain.
        eapply children_intro_items_list; [|exact Hx]. now rewrite <- Ei.
    - destruct H2 as (y & Hy & ->).
      assert (Hin : In (JObj it) (children d))
        by (apply children_intro_items; now rewrite <- Ei).
      destruct (children_plain _ Hin _ _ _ Hy) as [-> Ey].
      split; [reflexivity|].
      eapply flat_map_dict_set_same; [exact E|].
      assert (Hs : is_dict y = true) by (apply (self_shape (JObj it)); now exists rm, rm).
      destruct y as [| | | | |oy]; try discriminate.
      unfold strip_entry, strip_value. cbn [fst snd String.eqb Ascii.eqb Bool.eqb orb].
      now rewrite Ey. }
  destruct S2 as [-> S2].
  (* required *)
  assert (S3 : r3 = rm /\ flat_map strip_entry o3 = flat_map strip_entry o2).
  { apply step_required_spec in H3 as (-> & _). split; [reflexivity|].
    now apply strip_entries_rewrites_required. }
  destruct S3 as [-> S3].
  (* combinators *)
  assert (E4 : dict_get "anyOf" o3 = dict_get "anyOf" d).
  { rewrite (rewrites_other _ _ _ "anyOf" R3 eq_refl),
      (rewrites_other _ _ _ "anyOf" R2 eq_refl),
      (rewrites_other _ _ _ "anyOf" R1 eq_refl). reflexivity. }
  destruct (combinator_plain "anyOf" o3 _ _ _ eq_refl E4 H4) as [-> S4].
  assert (E5 : dict_get "oneOf" o4 = dict_get "oneOf" d).
  { rewrite (rewrites_other _ _ _ "oneOf" R4 eq_refl),
      (rewrites_other _ _ _ "oneOf" R3 eq_refl),
      (rewrites_other _ _ _ "oneOf" R2 eq_refl),
      (rewrites_other _ _ _ "oneOf" R1 eq_refl). reflexivity. }
  destruct (combinator_plain "oneOf" o4 _ _ _ eq_refl E5 H5) as [-> S5].
  assert (E6 : dict_get "allOf" o5 = dict_get "allOf" d).
  { rewrite (rewrites_other _ _ _ "allOf" R5 eq_refl),
      (rewrites_other _ _ _ "allOf" R4 eq_refl),
      (rewrites_other _ _ _ "allOf" R3 eq_refl),
      (rewrites_other _ _ _ "allOf" R2 eq_refl),
      (rewrites_other _ _ _ "allOf" R1 eq_refl). reflexivity. }
  destruct (combinator_plain "allOf" o5 _ _ _ eq_refl E6 H6) as [-> S6].
  (* $defs *)
  assert (S7 : rm' = rm /\ flat_map strip_entry o7 = flat_map strip_entry o6).
  { apply step_defs_spec in H7.
    assert (Ed : dict_get "$defs" o6 = dict_get "$defs" d).
    { rewrite (rewrites_other _ _ _ "$defs" R6 eq_refl),
        (rewrites_other _ _ _ "$defs" R5 eq_refl),
        (rewrites_other _ _ _ "$defs" R4 eq_refl),
        (rewrites_other _ _ _ "$defs" R3 eq_refl),
        (rewrites_other _ _ _ "$defs" R2 eq_refl),
        (rewrites_other _ _ _ "$defs" R1 eq_refl). reflexivity. }
    destruct (dict_get "$defs" o6) as [[| | | | |ds]|] eqn:E;
      try (destruct H7 as [-> ->]; tauto).
    destruct H7 as (ds' & Hd & ->).
    apply (norm_defs_plain ds []) in Hd as [-> (ds0 & E0 & Hmap)].
    - simpl in E0. subst ds0. split; [reflexivity|].
      eapply flat_map_dict_set_same; [exact E|].
      unfold strip_entry, strip_value. cbn [fst snd String.eqb Ascii.eqb Bool.eqb orb].
      now rewrite Hmap.
    - simpl. apply wf_dict_keys. eapply wf_dict_get; [exact node_wf|].
      symmetry in Ed. exact Ed.
    - intros v Hv. apply children_plain. eapply children_intro_defs; [|exact Hv].
      now rewrite <- Ed. }
  destruct S7 as [-> S7]. split; [reflexivity|].
  rewrite !strip_required_node. f_equal. congruence.
Qed.
End Plain.

(** On a schema without reserved property names [_norm] records no
    rename and changes at most the [required] entries. *)
Lemma norm_plain fuel :
  forall schema rm n rm',
    _norm fuel schema rm = Ok (n, rm') ->
    wf_json schema = true ->
    all_nodes (fun d => no_reserved_property d = true) schema ->
    rm' = rm /\ strip_required n = strip_required schema.
Proof.
  induction fuel as [|fuel IH]; intros schema rm n rm' H Hwf Hplain.
  - destruct schema; try (apply ret_Ok in H as [-> ->]; tauto). discriminate.
  - destruct schema as [| | | | |d]; try (apply ret_Ok in H as [-> ->]; tauto).
    rewrite norm_node in H.
    apply all_nodes_node_inv in Hplain as [Hd Hc].
    eapply (norm_dict_plain (_norm fuel) (norm_shape fuel)); [|exact Hwf|exact Hd|exact H].
    intros x Hx r y r' Hxy. eapply IH; [exact Hxy| |now apply Hc].
    eapply wf_children; eassumption.
Qed.

Lemma norm_nonempty fuel e d rm n rm' :
  _norm fuel (JObj (e :: d)) rm = Ok (n, rm') -> exists e' d', n = JObj (e' :: d').
Proof.
  intros H. apply norm_node_Ok in H as (f & o & _ & -> & Hn).
  apply (norm_dict_lookups _ (norm_leaf f)) in Hn as (o' & E & Hne & _).
  injection E as <-. destruct o as [|e' d']; [|eauto].
  exfalso. now apply Hne.
Qed.

Lemma fix_nonempty fuel e d n :
  _fix_required fuel (JObj (e :: d)) = Ok n -> exists e' d', n = JObj (e' :: d').
Proof.
  intros H. apply fix_node_Ok in H as (f & o & _ & -> & Hn).
  apply fix_dict_lookups in Hn as (o' & E & Hne & _).
  injection E as <-. destruct o as [|e' d']; [|eauto].
  exfalso. now apply Hne.
Qed.

(** Normalising a normalised schema changes nothing and renames nothing. *)
Lemma normalize_idempotent schema normalized rename_map :
  normalize_schema_for_backend schema = Ok (normalized, rename_map) ->
  normalize_schema_for_backend normalized = Ok (normalized, []).
Proof.
  unfold normalize_schema_for_backend at 1. intros H.
  destruct schema as [| | | | |[|e d]]; try (injection H as <- _; reflexivity).
  destruct (_norm _ _ []) as [[n1 rm]| |] eqn:En; try discriminate.
  destruct (_fix_required _ n1) as [n| |] eqn:Ef; try discriminate.
  simpl in H. injection H as <- <-.
  pose proof (norm_normal _ _ _ _ _ En) as Hn1.
  pose proof (fix_normal _ _ _ Ef Hn1) as Hn.
  destruct (norm_nonempty _ _ _ _ _ _ En) as (e1 & d1 & ->).
  destruct (fix_nonempty _ _ _ _ Ef) as (e2 & d2 & ->).
  unfold normalize_schema_for_backend.
  rewrite (norm_identity _ _ [] (le_n _) Hn).
  rewrite (fix_idempotent _ _ _ Ef _ (le_n _)). reflexivity.
Qed.

(* --------------------------------------------------------------------- *)
(** *** The [required] of every node, without reserved property keys *)

Lemma coerced_required_ext d o :
  dict_get "required" o = dict_get "required" d ->
  dict_keys (properties_of o) = dict_keys (properties_of d) ->
  coerced_required o = coerced_required d.
Proof.
  unfold coerced_required, get_or_none. now intros -> ->.
Qed.

(** What [step_required] leaves under [required]. *)
Lemma step_required_exact d rm o rm' :
  step_required d rm = Ok (o, rm') ->
  dict_get "required" o = coerced_required d.
Proof.
  unfold step_required, coerced_required. intros H.
  assert (Hkeys : forall x ks r r',
             keys_of x r = Ok (ks, r') ->
             ret (dict_set "required" (JArr ks) d) r' = Ok (o, rm') ->
             exists dk, x = JObj dk
                        /\ dict_get "required" o
                           = Some (JArr (map JStr (dict_keys dk)))).
  { intros x ks r r' Hk Hr. apply keys_of_Ok in Hk as (dk & -> & -> & ->).
    apply ret_Ok in Hr as [-> ->]. exists dk. split; [reflexivity|].
    apply dict_get_set_same. }
  assert (Hfalsy : truthy (get_or_none "properties" d) = false ->
                   dict_keys (properties_of d) = []).
  { unfold get_or_none, properties_of.
    destruct (dict_get "properties" d) as [[| | | | |[|e ps]]|];
      simpl; intros E; try reflexivity; discriminate. }
  assert (Hother : (if truthy (get_or_none "properties" d)
                    then (ks <- keys_of (get_or_none "properties" d) ;;
                          ret (dict_set "required" (JArr ks) d))%M
                    else ret (dict_set "required" (JArr []) d)) rm = Ok (o, rm') ->
                   dict_get "required" o
                   = Some (JArr (map JStr (dict_keys (properties_of d))))).
  { destruct (truthy (get_or_none "properties" d)) eqn:Et; intros H'.
    - apply bind_Ok in H' as (ks & r1 & Hk & H').
      destruct (Hkeys _ _ _ _ Hk H') as (dk & Ex & ->).
      unfold get_or_none, properties_of in *.
      destruct (dict_get "properties" d) as [p|]; [|discriminate].
      now subst p.
    - apply ret_Ok in H' as [-> ->]. rewrite (Hfalsy eq_refl).
      apply dict_get_set_same. }
  destruct (get_or_none "required" d) as [|[|]|n|s|l|r] eqn:Ereq.
  - (* None *)
    unfold get_or_none, properties_of in *.
    destruct (dict_get "properties" d) as [[| | | | |[|e ps]]|];
      apply ret_Ok in H as [-> ->]; try reflexivity.
    apply dict_get_set_same.
  - (* True *)
    simpl in H |- *. apply bind_Ok in H as (ks & r1 & Hk & H).
    destruct (Hkeys _ _ _ _ Hk H) as (dk & Ex & ->).
    unfold get_properties_or_empty, properties_of in *.
    destruct (dict_get "properties" d) as [p|]; [now subst p|].
    now injection Ex as <-.
  - (* False *)
    simpl in H |- *. apply ret_Ok in H as [-> ->]. apply dict_get_set_same.
  - simpl in H |- *. exact (Hother H).
  - simpl in H |- *. exact (Hother H).
  - (* list *)
    destruct (is_str_list (JArr l)) eqn:El.
    + apply ret_Ok in H as [-> ->]. unfold get_or_none in Ereq.
      destruct (dict_get "required" d); [now subst|discriminate].
    + exact (Hother H).
  - (* mapping *)
    simpl in H |- *. apply ret_Ok in H as [-> ->]. apply dict_get_set_same.
Qed.

Lemma coerced_required_strings d l :
  coerced_required d = Some (JArr l) -> forallb is_str l = true.
Proof.
  unfold coerced_required.
  assert (Hmap : forall ks, forallb is_str (map JStr ks) = true)
    by (intros ks; induction ks; simpl; auto).
  destruct (get_or_none "required" d) as [|[|]|n|s|l0|r] eqn:Ereq.
  - destruct (map JStr (dict_keys (properties_of d))).
    + unfold get_or_none in Ereq. intros E. rewrite E in Ereq. discriminate.
    + intros E. now injection E as <-.
  - simpl. intros E. injection E as <-. apply Hmap.
  - simpl. intros E. now injection E as <-.
  - simpl. intros E. injection E as <-. apply Hmap.
  - simpl. intros E. injection E as <-. apply Hmap.
  - destruct (is_str_list (JArr l0)) eqn:El; intros E; injection E as <-.
    + exact El.
    + apply Hmap.
  - simpl. intros E. injection E as <-. apply Hmap.
Qed.

Lemma plain_keys_renamed ks :
  forallb (fun k => negb (reserved k)) ks = true -> map renamed ks = ks.
Proof.
  induction ks as [|k ks IH]; simpl; [reflexivity|].
  intros H. apply andb_true_iff in H as [Hk Hks].
  rewrite (IH Hks), renamed_id; [reflexivity|].
  now destruct (reserved k).
Qed.

Lemma wf_properties_keys d :
  wf_json (JObj d) = true -> NoDup (dict_keys (properties_of d)).
Proof.
  intros Hwf. unfold properties_of.
  destruct (dict_get "properties" d) as [[| | | | |ps]|] eqn:E; try constructor.
  apply wf_dict_keys. eapply wf_dict_get; eassumption.
Qed.

(** The [required] of one node after the first walk. *)
Lemma norm_required_exact fuel d y :
  produces (_norm fuel) (JObj d) y ->
  wf_json (JObj d) = true ->
  no_reserved_property d = true ->
  exists o,
    y = JObj o
    /\ dict_get "required" o = coerced_required d
    /\ has_properties_map o = has_properties_map d.
Proof.
  intros (rm & rm' & H) Hwf Hplain.
  apply norm_node_Ok in H as (f & o & _ & -> & Hn).
  exists o. split; [reflexivity|].
  apply norm_dict_chain in Hn
    as (o1 & o2 & o3 & o4 & o5 & o6 & o7 & r1 & r2 & r3 & r4 & r5 & r6
        & H1 & H2 & H3 & H4 & H5 & H6 & H7 & E).
  injection E as ->.
  pose proof (step_properties_rewrites _ _ _ _ _ H1) as R1.
  pose proof (step_items_rewrites _ _ _ _ _ H2) as R2.
  pose proof (step_required_rewrites _ _ _ _ H3) as R3.
  pose proof (step_combinator_rewrites _ _ _ _ _ _ H4) as R4.
  pose proof (step_combinator_rewrites _ _ _ _ _ _ H5) as R5.
  pose proof (step_combinator_rewrites _ _ _ _ _ _ H6) as R6.
  pose proof (step_defs_rewrites _ _ _ _ _ H7) as R7.
  apply step_required_exact in H3.
  assert (Hp1 : has_properties_map o1 = has_properties_map d
                /\ dict_keys (properties_of o1) = dict_keys (properties_of d)).
  { apply step_properties_spec in H1.
    unfold no_reserved_property, has_properties_map, properties_of in *.
    pose proof (wf_properties_keys _ Hwf) as Hnd. unfold properties_of in Hnd.
    destruct (dict_get "properties" d) as [[| | | | |ps]|] eqn:Ed;
      try (destruct H1 as [-> _]; rewrite Ed; split; reflexivity).
    destruct H1 as (ps' & Hp & ->). rewrite dict_get_set_same.
    split; [reflexivity|].
    rewrite (norm_props_keys _ _ _ _ _ _ Hp). simpl dict_keys.
    rewrite (plain_keys_renamed _ Hplain).
    now apply distinct_in_order_NoDup. }
  destruct Hp1 as [Hm1 Hk1].
  assert (Hprops : forall a b key, rewrites key a b ->
                                   String.eqb "properties" key = false ->
                                   has_properties_map b = has_properties_map a
                                   /\ properties_of b = properties_of a).
  { intros a b key R Hk. unfold has_properties_map, properties_of.
    now rewrite (rewrites_other _ _ _ "properties" R Hk). }
  destruct (Hprops _ _ _ R2 eq_refl) as [Hm2 Hk2].
  destruct (Hprops _ _ _ R3 eq_refl) as [Hm3 _].
  destruct (Hprops _ _ _ R4 eq_refl) as [Hm4 _].
  destruct (Hprops _ _ _ R5 eq_refl) as [Hm5 _].
  destruct (Hprops _ _ _ R6 eq_refl) as [Hm6 _].
  destruct (Hprops _ _ _ R7 eq_refl) as [Hm7 _].
  split; [|congruence].
  rewrite (rewrites_other _ _ _ "required" R7 eq_refl),
    (rewrites_other _ _ _ "required" R6 eq_refl),
    (rewrites_other _ _ _ "required" R5 eq_refl),
    (rewrites_other _ _ _ "required" R4 eq_refl), H3.
  apply coerced_required_ext.
  - rewrite (rewrites_other _ _ _ "required" R2 eq_refl).
    apply (rewrites_other _ _ _ "required" R1 eq_refl).
  - now rewrite Hk2.
Qed.

Lemma rmapM_fix_entry_strings l :
  forallb is_str l = true -> rmapM fix_entry l = Ok (map prefix_reserved l).
Proof.
  induction l as [|x l IH]; simpl; [reflexivity|].
  intros H. apply andb_true_iff in H as [Hx Hl].
  destruct x as [| | |s| |]; try discriminate.
  rewrite (IH Hl). unfold fix_entry, prefix_reserved, renamed.
  now destruct (reserved s).
Qed.

(** The [required] of one node after the second walk. *)
Lemma fix_required_exact fuel o y :
  _fix_required fuel (JObj o) = Ok y ->
  (forall l, dict_get "required" o = Some (JArr l) -> forallb is_str l = true) ->
  exists o',
    y = JObj o'
    /\ dict_get "required" o'
       = if has_properties_map o then prefixed_required (dict_get "required" o)
         else dict_get "required" o.
Proof.
  intros H Hstr. apply fix_node_Ok in H as (f & o' & _ & -> & Hn).
  exists o'. split; [reflexivity|].
  apply fix_dict_lookups in Hn as (o2 & E & _ & Lr & _).
  injection E as <-. unfold has_properties_map, get_or_none in *.
  destruct (dict_get "properties" o) as [[| | | | |ps]|]; try exact Lr;
    try (destruct (dict_get "required" o) as [[]|]; exact Lr).
  destruct (dict_get "required" o) as [[| | | |l|]|]; try exact Lr.
  destruct Lr as (req' & Hr & ->).
  rewrite (rmapM_fix_entry_strings l (Hstr l eq_refl)) in Hr.
  now injection Hr as <-.
Qed.

Lemma fix_dict_child_exact fuel d o s x :
  fix_dict (_fix_required fuel) d = Ok (JObj o) ->
  child_at (JObj d) s = Some x ->
  exists y, child_at (JObj o) s = Some y
            /\ match s with
               | in_property _ | in_items => _fix_required fuel x = Ok y
               | _ => y = x
               end.
Proof.
  intros H Hx.
  apply fix_dict_lookups in H as (o' & E & _ & _ & Lp & Li & Lo).
  injection E as <-.
  destruct s as [k| |i|key i|k]; simpl in Hx |- *.
  - destruct (dict_get "properties" d) as [[| | | | |ps]|] eqn:Ed; try discriminate.
    destruct Lp as (ps' & Hf & ->). apply fix_values_Forall2 in Hf.
    destruct (same_key_lookup (fun a b => _fix_required fuel a = Ok b)
                _ _ _ _ Hf Hx) as (y & Hy & Hv).
    eauto.
  - destruct (dict_get "items" d) as [[| | | |l|it]|] eqn:Ed; try discriminate.
    injection Hx as <-. destruct Li as (y & Hy & ->).
    pose proof (fix_shape _ _ _ Hy) as Hs. destruct y; try discriminate. eauto.
  - destruct (dict_get "items" d) as [[| | | |l|it]|] eqn:Ed; try discriminate.
    rewrite Li. eauto.
  - destruct (is_combinator key) eqn:Ek; [|discriminate].
    rewrite Lo; [destruct (dict_get key d) as [[]|]; try discriminate; eauto|].
    unfold is_combinator in Ek. simpl in Ek |- *. rewrite orb_false_r in *.
    apply orb_true_iff in Ek as [Ek|Ek];
      [|apply orb_true_iff in Ek as [Ek|Ek]];
      apply String.eqb_eq in Ek; subst key; reflexivity.
  - rewrite Lo by reflexivity.
    destruct (dict_get "$defs" d) as [[]|]; try discriminate. eauto.
Qed.

(** The node a path leads to after the second walk: rewritten where the
    walk follows the path, untouched elsewhere. *)
Lemma fix_descend_exact path :
  forall fuel n n' x,
    _fix_required fuel n = Ok n' ->
    descend n path = Some x ->
    exists y, descend n' path = Some y
              /\ if second_walk_follows path
                 then exists fuel', _fix_required fuel' x = Ok y
                 else y = x.
Proof.
  induction path as [|s path IH]; intros fuel n n' x H Hx.
  - injection Hx as <-. exists n'. split; [reflexivity|]. simpl. eauto.
  - cbn [descend] in Hx. destruct (child_at n s) as [x1|] eqn:Ec; [|discriminate].
    destruct n as [| | | | |d]; try discriminate.
    pose proof (fix_node_Ok _ _ _ H) as (f & o & -> & -> & Hn).
    destruct (fix_dict_child_exact _ _ _ _ _ Hn Ec) as (y1 & Hy1 & Hs).
    cbn [descend second_walk_follows forallb]. rewrite Hy1.
    destruct s as [k| |i|key i|k]; cbn [andb];
      try (subst y1; exists x; split; [exact Hx|reflexivity]);
      exact (IH _ _ _ _ Hs Hx).
Qed.

(** Without reserved property keys a path that leads somewhere is clear,
    and is the same path in the normalised schema. *)
Lemma plain_path path :
  forall schema x,
    wf_json schema = true ->
    all_nodes (fun d => no_reserved_property d = true) schema ->
    descend schema path = Some x ->
    clear_path schema path = true
    /\ map rename_step path = path
    /\ wf_json x = true
    /\ all_nodes (fun d => no_reserved_property d = true) x.
Proof.
  induction path as [|s path IH]; intros schema x Hwf Hplain Hx.
  - injection Hx as <-. tauto.
  - cbn [descend] in Hx.
    destruct (child_at schema s) as [x1|] eqn:Ec; [|discriminate].
    destruct schema as [| | | | |d]; try discriminate.
    cbn [clear_path map]. rewrite Ec.
    pose proof (child_at_children _ _ _ Ec) as Hin.
    destruct (all_nodes_node_inv _ _ Hplain) as [Hd Hc].
    destruct (IH _ _ (wf_children _ _ Hwf Hin) (Hc _ Hin) Hx)
      as (Hclear & Hsame & Hwfx & Hpx).
    rewrite Hclear, Hsame, andb_true_r.
    split; [|split; [|tauto]].
    + destruct s; try reflexivity. unfold collision_free.
      unfold no_reserved_property in Hd. rewrite (plain_keys_renamed _ Hd).
      apply nodupb_NoDup. now apply wf_properties_keys.
    + f_equal. destruct s as [k| | | |]; try reflexivity. simpl.
      f_equal. apply renamed_id. simpl in Ec.
      unfold no_reserved_property, properties_of in Hd.
      destruct (dict_get "properties" d) as [[| | | | |ps]|]; try discriminate.
      rewrite forallb_forall in Hd.
      assert (Hk : In k (dict_keys ps)).
      { apply dict_get_In in Ec. unfold dict_keys.
        apply in_map_iff. now exists (k, x1). }
      specialize (Hd _ Hk). now destruct (reserved k).
Qed.

(** The property as the specification words it fails: in
    [schema_requiring_type] no property key is reserved and [required]
    is a list of strings already, which the coercion rule keeps; yet the
    second walk turns its entry [type] into [_prop_type], with an empty
    rename map. *)
Lemma reserved_word_in_required_is_prefixed :
  ~ differs_by_coercion_only normalize_schema_for_backend.
Proof.
  intros H.
  destruct (normalize_schema_for_backend schema_requiring_type)
    as [[n rm]| |] eqn:E; try (vm_compute in E; discriminate).
  destruct (H schema_requiring_type n rm eq_refl eq_refl E) as (_ & _ & Hreq & _).
  destruct (Hreq [] _ eq_refl) as (d' & Hd & Hr).
  vm_compute in E. injection E as <- <-.
  injection Hd as <-. vm_compute in Hr. discriminate.
Qed.

(** C3, amended. On a schema whose dictionaries have distinct keys and
    none of whose property keys is reserved, normalisation returns an
    empty rename map and a schema equal to the input once every
    [required] entry is set aside, and it does return when every
    [properties] met is a map.  The [required] of the node at any path is
    what the coercion rule gives; at a node with a [properties] map that
    is reached through property values and object-form [items] only, the
    reserved words among its entries then get the prefix [_prop_], though
    no property was renamed.  Normalising the result again changes
    nothing and yields an empty rename map. *)
Theorem normalize_without_reserved_properties schema :
  wf_json schema = true ->
  every_node no_reserved_property schema = true ->
  (every_node properties_is_map schema = true ->
   exists normalized, normalize_schema_for_backend schema = Ok (normalized, []))
  /\ forall normalized rename_map,
       normalize_schema_for_backend schema = Ok (normalized, rename_map) ->
       rename_map = []
       /\ strip_required normalized = strip_required schema
       /\ (forall path d,
             descend schema path = Some (JObj d) ->
             exists d', descend normalized path = Some (JObj d')
                        /\ dict_get "required" d' = final_required path d)
       /\ normalize_schema_for_backend normalized = Ok (normalized, []).
Proof.
  intros Hwf Hplain.
  assert (Hpart : forall normalized rename_map,
             normalize_schema_for_backend schema = Ok (normalized, rename_map) ->
             rename_map = []
             /\ strip_required normalized = strip_required schema
             /\ (forall path d,
                   descend schema path = Some (JObj d) ->
                   exists d', descend normalized path = Some (JObj d')
                              /\ dict_get "required" d' = final_required path d)
             /\ normalize_schema_for_backend normalized = Ok (normalized, [])).
  { intros n rm H. pose proof (normalize_idempotent _ _ _ H) as Hidem.
    unfold normalize_schema_for_backend in H.
    destruct schema as [| | | | |[|e d]];
      try (injection H as <- <-;
           split; [reflexivity|]; split; [reflexivity|]; split; [|exact Hidem];
           intros [|st path] d0 Hd; try discriminate;
           destruct st; try discriminate;
           simpl in Hd; destruct (is_combinator key); discriminate).
    - injection H as <- <-.
      split; [reflexivity|]. split; [reflexivity|]. split; [|exact Hidem].
      intros [|st path] d0 Hd.
      + injection Hd as <-. now exists [].
      + destruct st; try discriminate.
        simpl in Hd; destruct (is_combinator key); discriminate.
    - destruct (_norm _ _ []) as [[n1 rm1]| |] eqn:En; try discriminate.
      destruct (_fix_required _ n1) as [n2| |] eqn:Ef; try discriminate.
      simpl in H. injection H as <- <-.
      apply every_node_all_nodes in Hplain.
      destruct (norm_plain _ _ _ _ _ En Hwf Hplain) as [-> Hs].
      split; [reflexivity|]. split; [|split; [|exact Hidem]].
      { rewrite (fix_strip _ _ _ Ef). exact Hs. }
      intros path d0 Hd.
      destruct (plain_path _ _ _ Hwf Hplain Hd) as (Hclear & Hsame & Hwfd & Hpd).
      destruct (norm_descend _ _ _ _ _ _ _ En Hwf Hclear Hd)
        as (y1 & Hy1 & f1 & Hp).
      rewrite Hsame in Hy1.
      destruct (all_nodes_node_inv _ _ Hpd) as [Hd0 _].
      destruct (norm_required_exact _ _ _ Hp Hwfd Hd0) as (o1 & -> & Hr1 & Hm1).
      destruct (fix_descend_exact _ _ _ _ _ Ef Hy1) as (y & Hy & Hrel).
      unfold final_required.
      destruct (second_walk_follows path); cbn [andb].
      + destruct Hrel as (f2 & Hf2).
        destruct (fix_required_exact _ _ _ Hf2) as (o2 & -> & Hr2).
        { intros l Hl. rewrite Hr1 in Hl.
          eapply coerced_required_strings; exact Hl. }
        exists o2. split; [exact Hy|]. now rewrite Hr2, Hm1, Hr1.
      + subst y. exists o1. split; [exact Hy|exact Hr1]. }
  split; [|exact Hpart].
  intros Hmap.
  pose proof (normalize_runs true schema (fun _ => Hmap)) as Hruns.
  destruct (normalize_schema_for_backend schema) as [[n rm]| |] eqn:E;
    try (simpl in Hruns; discriminate); try contradiction.
  destruct (Hpart n rm eq_refl) as [-> _]. now exists n.
Qed.

Lemma normalize_without_reserved_properties_witness :
  (exists normalized,
      normalize_schema_for_backend plain_schema = Ok (normalized, [])
      /\ dict_get "required" (match normalized with JObj d => d | _ => [] end)
         = Some (JArr [JStr "name"])
      /\ strip_required normalized = strip_required plain_schema
      /\ normalize_schema_for_backend normalized = Ok (normalized, []))
  /\ (exists normalized d',
         normalize_schema_for_backend schema_requiring_type = Ok (normalized, [])
         /\ descend normalized [] = Some (JObj d')
         /\ dict_get "required" d' = Some (JArr [JStr "_prop_type"; JStr "a"])).
Proof.
  split.
  - destruct (normalize_without_reserved_properties plain_schema eq_refl eq_refl)
      as [Htotal Hpartial].
    destruct (Htotal eq_refl) as (normalized & Hn).
    exists normalized. split; [exact Hn|].
    destruct (Hpartial normalized [] Hn) as (_ & Hs & Hreq & Hidem).
    split; [|tauto].
    destruct (Hreq [] _ eq_refl) as (d' & Hd & Hr).
    injection Hd as ->. exact Hr.
  - destruct (normalize_without_reserved_properties schema_requiring_type
                eq_refl eq_refl) as [Htotal Hpartial].
    destruct (Htotal eq_refl) as (normalized & Hn).
    destruct (Hpartial normalized [] Hn) as (_ & _ & Hreq & _).
    destruct (Hreq [] _ eq_refl) as (d' & Hd & Hr).
    exists normalized, d'. tauto.
Defined.

(* ===================================================================== *)
(** ** Directory names *)
(* ===================================================================== *)

Section Sanitize.
Import PairingRepository.

Lemma all_chars_impl (p q : ascii -> bool) s :
  (forall c, p c = true -> q c = true) -> all_chars p s = true -> all_chars q s = true.
Proof.
  intros Hpq. induction s as [|c s IH]; simpl; [reflexivity|].
  intros H. apply andb_true_iff in H as [Hc Hs].
  now rewrite (Hpq _ Hc), IH.
Qed.

Lemma keep_all p s : all_chars p (keep p s) = true.
Proof.
  induction s as [|c s IH]; simpl; [reflexivity|].
  destruct (p c) eqn:E; simpl; [now rewrite E|exact IH].
Qed.

Lemma keep_id p s : all_chars p s = true -> keep p s = s.
Proof.
  induction s as [|c s IH]; simpl; [reflexivity|].
  intros H. apply andb_true_iff in H as [-> Hs]. now rewrite IH.
Qed.

Lemma lstrip_all p s : all_chars p s = true -> all_chars p (lstrip s) = true.
Proof.
  induction s as [|c s IH]; simpl; [reflexivity|].
  intros H. destruct (is_space c); [|exact H].
  apply andb_true_iff in H as [_ Hs]. now apply IH.
Qed.

Lemma rstrip_all p s : all_chars p s = true -> all_chars p (rstrip s) = true.
Proof.
  induction s as [|c s IH]; simpl; [reflexivity|].
  intros H. apply andb_true_iff in H as [Hc Hs]. specialize (IH Hs).
  destruct (rstrip s) as [|c' r].
  - destruct (is_space c); simpl; [reflexivity|now rewrite Hc].
  - change (all_chars p (String c (String c' r))) with (p c && all_chars p (String c' r)).
    now rewrite Hc, IH.
Qed.

Lemma lower_all p q s :
  (forall c, p c = true -> q (lower_ascii c) = true) ->
  all_chars p s = true -> all_chars q (lower s) = true.
Proof.
  intros Hpq. induction s as [|c s IH]; simpl; [reflexivity|].
  intros H. apply andb_true_iff in H as [Hc Hs].
  now rewrite (Hpq _ Hc), IH.
Qed.

(** The facts about single characters, checked on each of them. *)
Lemma lower_kept c :
  (is_word c || is_space c || is_hyphen c) = true ->
  (is_safe_char (lower_ascii c) || is_space (lower_ascii c)
   || is_hyphen (lower_ascii c)) = true.
Proof. destruct c as [[] [] [] [] [] [] [] []]; vm_compute; intros H; congruence. Qed.

Lemma safe_not_separator c :
  is_safe_char c = true -> is_hyphen c || is_space c = false.
Proof. destruct c as [[] [] [] [] [] [] [] []]; vm_compute; intros H; congruence. Qed.

Lemma safe_is_kept c :
  is_safe_char c = true -> (is_word c || is_space c || is_hyphen c) = true.
Proof. destruct c as [[] [] [] [] [] [] [] []]; vm_compute; intros H; congruence. Qed.

Lemma safe_is_lower c : is_safe_char c = true -> lower_ascii c = c.
Proof. destruct c as [[] [] [] [] [] [] [] []]; vm_compute; intros H; congruence. Qed.

Lemma lower_ascii_test c :
  is_word (lower_ascii c) = is_word c
  /\ is_space (lower_ascii c) = is_space c
  /\ is_hyphen (lower_ascii c) = is_hyphen c
  /\ lower_ascii (lower_ascii c) = lower_ascii c.
Proof. destruct c as [[] [] [] [] [] [] [] []]; vm_compute; repeat split. Qed.

Lemma collapse_all b s :
  all_chars (fun c => is_safe_char c || is_space c || is_hyphen c) s = true ->
  all_chars is_safe_char (collapse b s) = true.
Proof.
  revert b. induction s as [|c s IH]; intros b; simpl; [reflexivity|].
  intros H. apply andb_true_iff in H as [Hc Hs].
  destruct (is_hyphen c || is_space c) eqn:E.
  - destruct b; [now apply IH|]. simpl. now apply IH.
  - simpl. rewrite IH by exact Hs.
    apply orb_false_iff in E as [E1 E2]. rewrite E1, E2 in Hc.
    rewrite !orb_false_r in Hc. now rewrite Hc.
Qed.

Lemma sanitize_safe name : safe_name (sanitize_filename name) = true.
Proof.
  unfold sanitize_filename.
  set (kept := keep (fun c => is_word c || is_space c || is_hyphen c) name).
  assert (H : all_chars is_safe_char
                (collapse false (lower (rstrip (lstrip kept)))) = true).
  { apply collapse_all. apply (lower_all _ _ _ lower_kept).
    apply rstrip_all, lstrip_all. apply keep_all. }
  destruct (collapse false (lower (rstrip (lstrip kept)))) as [|c r] eqn:E.
  - reflexivity.
  - unfold safe_name. now rewrite H.
Qed.

Lemma lstrip_id s :
  all_chars (fun c => negb (is_space c)) s = true -> lstrip s = s.
Proof.
  destruct s as [|c s]; simpl; [reflexivity|].
  intros H. apply andb_true_iff in H as [Hc _].
  apply negb_true_iff in Hc. now rewrite Hc.
Qed.

Lemma rstrip_id s :
  all_chars (fun c => negb (is_space c)) s = true -> rstrip s = s.
Proof.
  induction s as [|c s IH]; simpl; [reflexivity|].
  intros H. apply andb_true_iff in H as [Hc Hs].
  apply negb_true_iff in Hc. rewrite (IH Hs), Hc.
  now destruct s.
Qed.

Lemma lower_id s : all_chars is_safe_char s = true -> lower s = s.
Proof.
  induction s as [|c s IH]; simpl; [reflexivity|].
  intros H. apply andb_true_iff in H as [Hc Hs].
  now rewrite (safe_is_lower _ Hc), IH.
Qed.

Lemma collapse_id s : all_chars is_safe_char s = true -> collapse false s = s.
Proof.
  induction s as [|c s IH]; simpl; [reflexivity|].
  intros H. apply andb_true_iff in H as [Hc Hs].
  now rewrite (safe_not_separator _ Hc), IH.
Qed.

(** A safe name is its own directory name. *)
Lemma sanitize_fixed s : safe_name s = true -> sanitize_filename s = s.
Proof.
  unfold safe_name. intros H. apply andb_true_iff in H as [Hne Hs].
  assert (Hnospace : all_chars (fun c => negb (is_space c)) s = true).
  { eapply all_chars_impl; [|exact Hs]. intros c Hc.
    pose proof (safe_not_separator _ Hc) as E.
    apply orb_false_iff in E as [_ E]. now rewrite E. }
  unfold sanitize_filename.
  rewrite keep_id by (eapply all_chars_impl; [apply safe_is_kept|exact Hs]).
  rewrite lstrip_id, rstrip_id, lower_id, collapse_id by assumption.
  destruct s; [discriminate|reflexivity].
Qed.

Lemma keep_lower p s :
  (forall c, p (lower_ascii c) = p c) -> keep p (lower s) = lower (keep p s).
Proof.
  intros Hp. induction s as [|c s IH]; simpl; [reflexivity|].
  rewrite Hp. destruct (p c); simpl; now rewrite IH.
Qed.

Lemma lstrip_lower s : lstrip (lower s) = lower (lstrip s).
Proof.
  induction s as [|c s IH]; simpl; [reflexivity|].
  destruct (lower_ascii_test c) as (_ & -> & _). now destruct (is_space c).
Qed.

Lemma rstrip_lower s : rstrip (lower s) = lower (rstrip s).
Proof.
  induction s as [|c s IH]; simpl; [reflexivity|].
  rewrite IH. destruct (lower_ascii_test c) as (_ & E & _).
  destruct (rstrip s); simpl; [|reflexivity].
  rewrite E. now destruct (is_space c).
Qed.

Lemma lower_lower s : lower (lower s) = lower s.
Proof.
  induction s as [|c s IH]; simpl; [reflexivity|].
  destruct (lower_ascii_test c) as (_ & _ & _ & ->). now rewrite IH.
Qed.

Lemma sanitize_lower name : sanitize_filename (lower name) = sanitize_filename name.
Proof.
  unfold sanitize_filename.
  rewrite keep_lower.
  - now rewrite lstrip_lower, rstrip_lower, lower_lower.
  - intros c. destruct (lower_ascii_test c) as (-> & -> & -> & _). reflexivity.
Qed.

Lemma contains_char_false x s :
  all_chars (fun c => negb (Ascii.eqb x c)) s = true ->
  contains (String x EmptyString) s = false.
Proof.
  induction s as [|c s IH]; [reflexivity|].
  change (all_chars (fun c => negb (Ascii.eqb x c)) (String c s))
    with (negb (Ascii.eqb x c) && all_chars (fun c => negb (Ascii.eqb x c)) s).
  intros H. apply andb_true_iff in H as [Hc Hs].
  apply negb_true_iff, Ascii.eqb_neq in Hc.
  change (contains (String x EmptyString) (String c s))
    with (if String.prefix (String x EmptyString) (String c s) then true
          else contains (String x EmptyString) s).
  rewrite (IH Hs). cbn [String.prefix].
  destruct (ascii_dec x c); [contradiction|reflexivity].
Qed.

(** X1. The directory name of an ASCII pairing name is never empty and is
    made of lower-case letters, digits and underscores only: it holds no
    path separator, no dot and no space. *)
Theorem sanitize_filename_is_safe name :
  ascii_only name = true ->
  sanitize_filename name <> ""
  /\ all_chars is_safe_char (sanitize_filename name) = true
  /\ contains "/" (sanitize_filename name) = false
  /\ contains "." (sanitize_filename name) = false.
Proof.
  intros _. pose proof (sanitize_safe name) as H. unfold safe_name in H.
  apply andb_true_iff in H as [Hne Hs].
  split; [|split; [exact Hs|]].
  - intros E. rewrite E in Hne. discriminate.
  - split; apply contains_char_false;
      (eapply all_chars_impl; [|exact Hs]);
      intros [[] [] [] [] [] [] [] []]; vm_compute; congruence.
Qed.

Lemma sanitize_filename_is_safe_witness :
  sanitize_filename "My Pairing: v2!" <> ""
  /\ all_chars is_safe_char (sanitize_filename "My Pairing: v2!") = true
  /\ contains "/" (sanitize_filename "My Pairing: v2!") = false
  /\ contains "." (sanitize_filename "My Pairing: v2!") = false.
Proof. apply (sanitize_filename_is_safe "My Pairing: v2!"). reflexivity. Defined.

(** X2. On ASCII names [sanitize_filename] is idempotent, and the names it
    leaves as they are are exactly the non-empty strings of lower-case
    letters, digits and underscores. *)
Theorem sanitize_filename_idempotent name :
  ascii_only name = true ->
  sanitize_filename (sanitize_filename name) = sanitize_filename name
  /\ (sanitize_filename name = name <-> safe_name name = true).
Proof.
  intros _. split.
  - apply sanitize_fixed, sanitize_safe.
  - split.
    + intros E. rewrite <- E. apply sanitize_safe.
    + apply sanitize_fixed.
Qed.

Lemma sanitize_filename_idempotent_witness :
  sanitize_filename (sanitize_filename "Sales Report - Q3")
  = sanitize_filename "Sales Report - Q3"
  /\ (sanitize_filename "Sales Report - Q3" = "Sales Report - Q3"
      <-> safe_name "Sales Report - Q3" = true).
Proof. apply (sanitize_filename_idempotent "Sales Report - Q3"). reflexivity. Defined.

(** X3. Two ASCII names that differ only in the case of their letters get the
    same directory name. *)
Theorem sanitize_filename_ignores_case a b :
  ascii_only a = true -> ascii_only b = true ->
  lower a = lower b -> sanitize_filename a = sanitize_filename b.
Proof.
  intros _ _ E. rewrite <- (sanitize_lower a), <- (sanitize_lower b). now rewrite E.
Qed.

Lemma sanitize_filename_ignores_case_witness :
  sanitize_filename "Invoice Parser" = sanitize_filename "INVOICE parser".
Proof.
  apply (sanitize_filename_ignores_case "Invoice Parser" "INVOICE parser");
    reflexivity.
Defined.

End Sanitize.

(* ===================================================================== *)
(** ** The normal form of a schema *)
(* ===================================================================== *)

Lemma normalize_normal schema normalized rename_map :
  normalize_schema_for_backend schema = Ok (normalized, rename_map) ->
  all_nodes normal_node normalized.
Proof.
  unfold normalize_schema_for_backend. intros H.
  destruct schema as [| | | | |[|e d]];
    try (injection H as <- _; now apply all_nodes_leaf).
  - injection H as <- _. apply all_nodes_node; [|constructor].
    repeat split; simpl; constructor.
  - destruct (_norm _ _ []) as [[n1 rm]| |] eqn:En; try discriminate.
    destruct (_fix_required _ n1) as [n| |] eqn:Ef; try discriminate.
    simpl in H. injection H as <- _.
    eapply fix_normal; [exact Ef|]. eapply norm_normal; exact En.
Qed.

(** A property of every node holds at the end of every path. *)
Lemma all_nodes_descend (P : dict json -> Prop) path :
  forall j d, all_nodes P j -> descend j path = Some (JObj d) -> P d.
Proof.
  induction path as [|s path IH]; intros j d Hall Hd.
  - injection Hd as ->. now apply all_nodes_node_inv in Hall.
  - cbn [descend] in Hd. destruct (child_at j s) as [y|] eqn:Ec; [|discriminate].
    destruct j as [| | | | |d0]; try discriminate.
    apply all_nodes_node_inv in Hall as [_ Hch].
    eapply IH; [|exact Hd]. apply Hch. eapply child_at_children; exact Ec.
Qed.

(** X4. Normalising the schema that [normalize_schema_for_backend] returns,
    whatever the input was, returns it unchanged, with an empty rename
    map. *)
Theorem normalize_is_idempotent schema normalized rename_map :
  normalize_schema_for_backend schema = Ok (normalized, rename_map) ->
  normalize_schema_for_backend normalized = Ok (normalized, []).
Proof. apply normalize_idempotent. Qed.

Lemma normalize_is_idempotent_witness :
  normalize_schema_for_backend scenario_normalized = Ok (scenario_normalized, []).
Proof.
  apply (normalize_is_idempotent scenario_schema scenario_normalized
           [("_prop_required", "required")]).
  reflexivity.
Defined.

(** X5. In the normalised schema no node, however it is reached through
    [properties], [items], [anyOf], [oneOf], [allOf] and [$defs], has a
    property under a reserved name. *)
Theorem normalized_has_no_reserved_property schema normalized rename_map path d k :
  normalize_schema_for_backend schema = Ok (normalized, rename_map) ->
  descend normalized path = Some (JObj d) ->
  In k (dict_keys (properties_of d)) ->
  reserved k = false.
Proof.
  intros H Hd Hk. apply normalize_normal in H.
  pose proof (all_nodes_descend _ _ _ _ H Hd) as (_ & _ & Hplain & _).
  rewrite Forall_forall in Hplain. now apply Hplain.
Qed.

Lemma normalized_has_no_reserved_property_witness : reserved "_prop_items" = false.
Proof.
  apply (normalized_has_no_reserved_property nested_schema
           (JObj [("type", JStr "object");
                  ("properties",
                   JObj [("_prop_type",
                          JObj [("type", JStr "object");
                                ("properties",
                                 JObj [("_prop_items", string_schema);
                                       ("name", string_schema)]);
                                ("required",
                                 JArr [JStr "_prop_items"; JStr "name"])])]);
                  ("required", JArr [])])
           [("_prop_type", "type"); ("_prop_items", "items")]
           [in_property "_prop_type"]
           [("type", JStr "object");
            ("properties",
             JObj [("_prop_items", string_schema); ("name", string_schema)]);
            ("required", JArr [JStr "_prop_items"; JStr "name"])]
           "_prop_items").
  - reflexivity.
  - reflexivity.
  - simpl. tauto.
Defined.

(** X6. In the normalised schema the [required] of every node is a list of
    strings, or is absent or null at a node without properties: never a
    boolean, a number or a mapping. *)
Theorem normalized_required_is_a_list_of_strings
    schema normalized rename_map path d :
  normalize_schema_for_backend schema = Ok (normalized, rename_map) ->
  descend normalized path = Some (JObj d) ->
  match dict_get "required" d with
  | Some (JArr names) => forallb is_str names = true
  | Some JNull | None => properties_of d = []
  | Some _ => False
  end.
Proof.
  intros H Hd. apply normalize_normal in H.
  pose proof (all_nodes_descend _ _ _ _ H Hd) as (Hreq & _).
  unfold normal_required, get_or_none, properties_of in *.
  destruct (dict_get "required" d) as [[| | | |l|r]|]; simpl in Hreq;
    try discriminate; try exact Hreq;
    destruct (dict_get "properties" d) as [[| | | | |[|e ps]]|];
    try reflexivity; contradiction.
Qed.

Lemma normalized_required_is_a_list_of_strings_witness :
  forallb is_str [JStr "name"] = true.
Proof.
  apply (normalized_required_is_a_list_of_strings plain_schema
           (JObj [("type", JStr "object");
                  ("properties",
                   JObj [("name", string_schema);
                         ("tags",
                          JObj [("type", JStr "array"); ("items", string_schema)])]);
                  ("required", JArr [JStr "name"])])
           [] []
           [("type", JStr "object");
            ("properties",
             JObj [("name", string_schema);
                   ("tags",
                    JObj [("type", JStr "array"); ("items", string_schema)])]);
            ("required", JArr [JStr "name"])]).
  - reflexivity.
  - reflexivity.
Defined.

(* ===================================================================== *)
(** ** The rename map records every reserved property *)
(* ===================================================================== *)

Lemma renamed_form_inj a b : renamed_form a = renamed_form b -> a = b.
Proof. unfold renamed_form. simpl. intros H. now injection H. Qed.

Lemma record_keeps_recorded k0 k :
  reserved k = true ->
  preserves (recorded k0) (record_rename (_RESERVED_RENAME_PREFIX ++ k) k).
Proof.
  intros _ rm a rm' H Hrec. unfold record_rename in H. injection H as _ <-.
  unfold recorded in *. rewrite dict_get_set.
  match goal with |- context [String.eqb ?a ?b] =>
    destruct (String.eqb_spec a b) as [E|]; [|exact Hrec] end.
  apply (renamed_form_inj k0 k) in E. now subst.
Qed.

Section Records.
Variable k0 : string.
Hypothesis k0_reserved : reserved k0 = true.
Variable self : json -> M json.
Hypothesis self_keeps : forall x, preserves (recorded k0) (self x).

Lemma norm_props_records_key props :
  In k0 (dict_keys props) ->
  forall acc rm res rm',
    norm_props self props acc rm = Ok (res, rm') -> recorded k0 rm'.
Proof.
  induction props as [|[k v] props IH]; simpl; [tauto|].
  intros [->|Hin] acc rm res rm' H.
  - rewrite k0_reserved in H.
    apply bind_Ok in H as ([] & r1 & Hr & H).
    apply bind_Ok in H as (v1 & r2 & Hv & H).
    eapply (preserves_norm_props _ self self_keeps (record_keeps_recorded k0));
      [exact H|].
    eapply self_keeps; [exact Hv|].
    unfold record_rename in Hr. injection Hr as <-.
    unfold recorded. apply dict_get_set_same.
  - destruct (reserved k).
    + apply bind_Ok in H as ([] & r1 & _ & H).
      apply bind_Ok in H as (v1 & r2 & _ & H). eapply IH; eassumption.
    + apply bind_Ok in H as (v1 & r2 & _ & H). eapply IH; eassumption.
Qed.

Lemma norm_props_records_child props y :
  In y (dict_values props) -> records k0 self y ->
  forall acc rm res rm',
    norm_props self props acc rm = Ok (res, rm') -> recorded k0 rm'.
Proof.
  intros Hin Hy. induction props as [|[k v] props IH]; simpl in *; [tauto|].
  intros acc rm res rm' H.
  assert (Hgen : exists r1 v1 r2 acc',
             self v r1 = Ok (v1, r2)
             /\ norm_props self props acc' r2 = Ok (res, rm')).
  { destruct (reserved k).
    - apply bind_Ok in H as ([] & r1 & _ & H).
      apply bind_Ok in H as (v1 & r2 & Hv & H). eauto 6.
    - apply bind_Ok in H as (v1 & r2 & Hv & H). eauto 6. }
  destruct Hgen as (r1 & v1 & r2 & acc' & Hv & Hrest).
  destruct Hin as [<-|Hin].
  - eapply (preserves_norm_props _ self self_keeps (record_keeps_recorded k0));
      [exact Hrest|]. eapply Hy; exact Hv.
  - eapply IH; eassumption.
Qed.

Lemma mapM_records l y :
  In y l -> is_dict y = true -> records k0 self y ->
  forall rm l' rm', mapM (norm_if_dict self) l rm = Ok (l', rm') -> recorded k0 rm'.
Proof.
  intros Hin Hdict Hy. induction l as [|x l IH]; simpl in *; [tauto|].
  intros rm l' rm' H.
  apply bind_Ok in H as (x1 & r1 & Hx & H).
  apply bind_Ok in H as (l1 & r2 & Hl & H). apply ret_Ok in H as [_ ->].
  destruct Hin as [<-|Hin].
  - eapply (preserves_mapM (recorded k0)); [|exact Hl|].
    + intros z. apply preserves_norm_if_dict. exact self_keeps.
    + unfold norm_if_dict in Hx. rewrite Hdict in Hx. eapply Hy; exact Hx.
  - eapply IH; eassumption.
Qed.

Lemma norm_defs_records defs y :
  In y (dict_values defs) -> is_dict y = true -> records k0 self y ->
  forall acc rm res rm',
    norm_defs self defs acc rm = Ok (res, rm') -> recorded k0 rm'.
Proof.
  intros Hin Hdict Hy. induction defs as [|[k v] defs IH]; simpl in *; [tauto|].
  intros acc rm res rm' H.
  apply bind_Ok in H as (v1 & r1 & Hv & H).
  destruct Hin as [<-|Hin].
  - eapply (preserves_norm_defs _ self self_keeps); [exact H|].
    unfold norm_if_dict in Hv. rewrite Hdict in Hv. eapply Hy; exact Hv.
  - eapply IH; eassumption.
Qed.

Let keeps_step_items := preserves_step_items (recorded k0) self self_keeps.
Let keeps_step_required := preserves_step_required (recorded k0).
Let keeps_step_combinator := preserves_step_combinator (recorded k0) self self_keeps.
Let keeps_step_defs := preserves_step_defs (recorded k0) self self_keeps.

(** A node records [k0] when it has a property of that name, or when one
    of its sub-schemas records it. *)
Lemma norm_dict_records d rm n rm' :
  norm_dict self d rm = Ok (n, rm') ->
  In k0 (dict_keys (properties_of d))
  \/ (exists y, In y (children d) /\ is_dict y = true /\ records k0 self y) ->
  recorded k0 rm'.
Proof.
  intros H Hcase.
  apply norm_dict_chain in H
    as (o1 & o2 & o3 & o4 & o5 & o6 & o7 & r1 & r2 & r3 & r4 & r5 & r6
        & H1 & H2 & H3 & H4 & H5 & H6 & H7 & _).
  pose proof (step_properties_rewrites _ _ _ _ _ H1) as W1.
  pose proof (step_items_rewrites _ _ _ _ _ H2) as W2.
  pose proof (step_required_rewrites _ _ _ _ H3) as W3.
  pose proof (step_combinator_rewrites _ _ _ _ _ _ H4) as W4.
  pose proof (step_combinator_rewrites _ _ _ _ _ _ H5) as W5.
  pose proof (step_combinator_rewrites _ _ _ _ _ _ H6) as W6.
  assert (K1 : recorded k0 r1 -> recorded k0 rm').
  { intros K. eapply keeps_step_defs; [exact H7|].
    eapply keeps_step_combinator; [exact H6|].
    eapply keeps_step_combinator; [exact H5|].
    eapply keeps_step_combinator; [exact H4|].
    eapply keeps_step_required; [exact H3|].
    eapply keeps_step_items; [exact H2|exact K]. }
  assert (K2 : recorded k0 r2 -> recorded k0 rm').
  { intros K. eapply keeps_step_defs; [exact H7|].
    eapply keeps_step_combinator; [exact H6|].
    eapply keeps_step_combinator; [exact H5|].
    eapply keeps_step_combinator; [exact H4|].
    eapply keeps_step_required; [exact H3|exact K]. }
  assert (Hprops : forall props, dict_get "properties" d = Some (JObj props) ->
             (forall acc rm res rm',
                 norm_props self props acc rm = Ok (res, rm') -> recorded k0 rm') ->
             recorded k0 r1).
  { intros props Ep Hrec. unfold step_properties, get_or_none in H1.
    rewrite Ep in H1. apply bind_Ok in H1 as (np & ra & Hn & H1).
    apply ret_Ok in H1 as [_ ->]. eapply Hrec; exact Hn. }
  destruct Hcase as [Hkey|(y & Hy & Hdict & Hrec)].
  - apply K1. unfold properties_of in Hkey.
    destruct (dict_get "properties" d) as [[| | | | |props]|] eqn:Ep;
      try contradiction.
    apply (Hprops props eq_refl). now apply norm_props_records_key.
  - apply children_cases in Hy
      as [(ps & Ep & Hin)|[(it & Ei & ->)|[(l & Ei & Hin)
         |[(key & l & Hk & Ek & Hin)|(ds & Ed & Hin)]]]].
    + apply K1. apply (Hprops ps Ep). now apply norm_props_records_child with (y := y).
    + apply K2. unfold step_items, get_or_none in H2.
      rewrite (rewrites_other _ _ _ "items" W1 eq_refl), Ei in H2.
      apply bind_Ok in H2 as (it' & ra & Hs & H2). apply ret_Ok in H2 as [_ ->].
      eapply Hrec; exact Hs.
    + apply K2. unfold step_items, get_or_none in H2.
      rewrite (rewrites_other _ _ _ "items" W1 eq_refl), Ei in H2.
      apply bind_Ok in H2 as (l' & ra & Hs & H2). apply ret_Ok in H2 as [_ ->].
      eapply mapM_records; eassumption.
    + assert (Hstep : forall o r o' r',
                 step_combinator self key o r = Ok (o', r') ->
                 dict_get key o = Some (JArr l) -> recorded k0 r').
      { intros o r o' r' Hs Eo. unfold step_combinator in Hs. rewrite Eo in Hs.
        apply bind_Ok in Hs as (l' & ra & Hs & Hr). apply ret_Ok in Hr as [_ ->].
        eapply mapM_records; eassumption. }
      assert (Hkey : key = "anyOf" \/ key = "oneOf" \/ key = "allOf").
      { unfold is_combinator in Hk. simpl in Hk.
        destruct (String.eqb_spec key "anyOf"); [tauto|].
        destruct (String.eqb_spec key "oneOf"); [tauto|].
        destruct (String.eqb_spec key "allOf"); [tauto|discriminate]. }
      assert (E03 : forall k', k' = key -> dict_get k' o3 = Some (JArr l)).
      { intros k' ->.
        destruct Hkey as [->|[->| ->]];
          match goal with |- dict_get ?k _ = _ =>
            now rewrite (rewrites_other _ _ _ k W3 eq_refl),
              (rewrites_other _ _ _ k W2 eq_refl),
              (rewrites_other _ _ _ k W1 eq_refl)
          end. }
      destruct Hkey as [->|[->| ->]].
      * eapply keeps_step_defs; [exact H7|].
        eapply keeps_step_combinator; [exact H6|].
        eapply keeps_step_combinator; [exact H5|].
        eapply Hstep; [exact H4|now apply E03].
      * eapply keeps_step_defs; [exact H7|].
        eapply keeps_step_combinator; [exact H6|].
        eapply Hstep; [exact H5|].
        rewrite (rewrites_other _ _ _ "oneOf" W4 eq_refl). now apply E03.
      * eapply keeps_step_defs; [exact H7|].
        eapply Hstep; [exact H6|].
        rewrite (rewrites_other _ _ _ "allOf" W5 eq_refl),
          (rewrites_other _ _ _ "allOf" W4 eq_refl). now apply E03.
    + unfold step_defs in H7.
      rewrite (rewrites_other _ _ _ "$defs" W6 eq_refl),
        (rewrites_other _ _ _ "$defs" W5 eq_refl),
        (rewrites_other _ _ _ "$defs" W4 eq_refl),
        (rewrites_other _ _ _ "$defs" W3 eq_refl),
        (rewrites_other _ _ _ "$defs" W2 eq_refl),
        (rewrites_other _ _ _ "$defs" W1 eq_refl), Ed in H7.
      apply bind_Ok in H7 as (ds' & ra & Hs & H7). apply ret_Ok in H7 as [_ ->].
      eapply norm_defs_records; eassumption.
Qed.
End Records.

Lemma descend_is_dict path : forall j d, descend j path = Some (JObj d) -> is_dict j = true.
Proof.
  destruct path as [|s path]; intros j d H.
  - now injection H as ->.
  - cbn [descend] in H. destruct j; try discriminate. reflexivity.
Qed.

Lemma descend_empty path d : descend (JObj []) path = Some (JObj d) -> d = [].
Proof.
  destruct path as [|s path]; cbn [descend].
  - intros H. now injection H.
  - destruct s; simpl; try discriminate.
    destruct (is_combinator key); discriminate.
Qed.

Lemma norm_records k0 path :
  reserved k0 = true ->
  forall fuel schema rm n rm' d,
    _norm fuel schema rm = Ok (n, rm') ->
    descend schema path = Some (JObj d) ->
    In k0 (dict_keys (properties_of d)) ->
    recorded k0 rm'.
Proof.
  intros Hk0.
  pose proof (preserves_norm (recorded k0) (record_keeps_recorded k0)) as Hkeep.
  induction path as [|s path IH]; intros fuel schema rm n rm' d H Hd Hin.
  - injection Hd as ->.
    apply norm_node_Ok in H as (f & o & _ & _ & Hn).
    eapply (norm_dict_records k0 Hk0 (_norm f) (Hkeep f)); [exact Hn|now left].
  - cbn [descend] in Hd. destruct (child_at schema s) as [y|] eqn:Ec; [|discriminate].
    destruct schema as [| | | | |d0]; try discriminate.
    apply norm_node_Ok in H as (f & o & _ & _ & Hn).
    eapply (norm_dict_records k0 Hk0 (_norm f) (Hkeep f)); [exact Hn|right].
    exists y. split; [eapply child_at_children; exact Ec|].
    split; [eapply descend_is_dict; exact Hd|].
    intros r1 y1 r2 Hy. eapply IH; eassumption.
Qed.

Lemma normalize_rename_map_ok schema normalized rename_map :
  normalize_schema_for_backend schema = Ok (normalized, rename_map) ->
  rename_map_ok rename_map.
Proof.
  unfold normalize_schema_for_backend. intros H.
  destruct schema as [| | | | |[|e d]]; try (injection H as _ <-; split; constructor).
  destruct (_norm _ _ []) as [[n rm]| |] eqn:En; try discriminate.
  destruct (_fix_required _ n) eqn:Ef; try discriminate.
  simpl in H. injection H as _ <-.
  eapply (preserves_norm rename_map_ok record_rename_ok); [exact En|].
  split; constructor.
Qed.

Lemma is_renamed_form_spec k :
  is_renamed_form k = true <-> exists r, reserved r = true /\ k = renamed_form r.
Proof.
  unfold is_renamed_form. rewrite existsb_exists. split.
  - intros (r & Hr & E). apply String.eqb_eq in E. exists r.
    split; [now apply reserved_In|assumption].
  - intros (r & Hr & ->). exists r. split; [now apply reserved_In|apply String.eqb_refl].
Qed.

(** A name that is no renamed form is no key of the rename map. *)
Lemma rename_key_plain rm k :
  rename_map_ok rm -> is_renamed_form k = false -> rename_key rm k = k.
Proof.
  intros [Hall _] Hk. unfold rename_key.
  destruct (dict_get k rm) as [v|] eqn:E; [|reflexivity].
  apply dict_get_In in E. rewrite Forall_forall in Hall.
  destruct (Hall _ E) as [Hres Hnew]. cbn [fst snd] in *.
  assert (is_renamed_form k = true); [|congruence].
  apply is_renamed_form_spec. exists v. split; [now apply reserved_In|exact Hnew].
Qed.

Lemma reserved_not_renamed_form k : reserved k = true -> is_renamed_form k = false.
Proof.
  intros H. apply reserved_In in H. simpl in H.
  repeat (destruct H as [<-|H]; [reflexivity|]). contradiction.
Qed.

(** The name a property has in the normalised schema is restored to the
    name it had. *)
Lemma normalize_restores_name schema normalized rename_map k :
  normalize_schema_for_backend schema = Ok (normalized, rename_map) ->
  property_of_schema schema k ->
  is_renamed_form k = false ->
  rename_key rename_map (renamed k) = k.
Proof.
  intros H (path & d & Hd & Hin) Hform.
  pose proof (normalize_rename_map_ok _ _ _ H) as Hok.
  unfold renamed. destruct (reserved k) eqn:Hk; [|now apply rename_key_plain].
  assert (Hrec : recorded k rename_map).
  { unfold normalize_schema_for_backend in H.
    destruct schema as [| | | | |[|e d0]].
    1-5: destruct path; cbn [descend child_at] in Hd; try discriminate.
    - apply descend_empty in Hd. subst d. contradiction.
    - destruct (_norm _ _ []) as [[n rm]| |] eqn:En; try discriminate.
      destruct (_fix_required _ n) eqn:Ef; try discriminate.
      simpl in H. injection H as _ <-.
      eapply norm_records; eassumption. }
  unfold rename_key, recorded, renamed_form in *. now rewrite Hrec.
Qed.

(** X7. The converse of the rename map holding reserved names only: every
    reserved name that some node of the schema, reached through
    [properties], [items], [anyOf], [oneOf], [allOf] and [$defs], uses
    for a property has its entry in the rename map; and the name every
    property has in the normalised schema is mapped back to its own,
    unless that name is itself of the form [_prop_<reserved name>]. *)
Theorem rename_map_records_every_reserved_property
    schema normalized rename_map path d k :
  normalize_schema_for_backend schema = Ok (normalized, rename_map) ->
  descend schema path = Some (JObj d) ->
  In k (dict_keys (properties_of d)) ->
  (reserved k = true ->
   dict_get (_RESERVED_RENAME_PREFIX ++ k)%string rename_map = Some k)
  /\ (is_renamed_form k = false -> rename_key rename_map (renamed k) = k).
Proof.
  intros H Hd Hin.
  assert (Hback : is_renamed_form k = false -> rename_key rename_map (renamed k) = k).
  { intros Hform. eapply normalize_restores_name; [exact H| |exact Hform].
    now exists path, d. }
  split; [|exact Hback].
  intros Hk. specialize (Hback (reserved_not_renamed_form _ Hk)).
  unfold renamed in Hback. rewrite Hk in Hback. unfold rename_key in Hback.
  destruct (dict_get _ rename_map) as [v|] eqn:E; [now subst|].
  exfalso. revert Hback. apply reserved_In in Hk. simpl in Hk.
  repeat (destruct Hk as [<-|Hk]; [discriminate|]). contradiction.
Qed.

Lemma rename_map_records_every_reserved_property_witness :
  (reserved "items" = true ->
   dict_get (_RESERVED_RENAME_PREFIX ++ "items")%string
     [("_prop_type", "type"); ("_prop_items", "items")] = Some "items")
  /\ (is_renamed_form "items" = false ->
      rename_key [("_prop_type", "type"); ("_prop_items", "items")]
        (renamed "items") = "items").
Proof.
  apply (rename_map_records_every_reserved_property nested_schema
           (JObj [("type", JStr "object");
                  ("properties",
                   JObj [("_prop_type",
                          JObj [("type", JStr "object");
                                ("properties",
                                 JObj [("_prop_items", string_schema);
                                       ("name", string_schema)]);
                                ("required",
                                 JArr [JStr "_prop_items"; JStr "name"])])]);
                  ("required", JArr [])])
           [("_prop_type", "type"); ("_prop_items", "items")]
           [in_property "type"]
           [("type", JStr "object");
            ("properties",
             JObj [("items", string_schema); ("name", string_schema)]);
            ("required", JBool true)]
           "items").
  - reflexivity.
  - reflexivity.
  - simpl. tauto.
Defined.

(* ===================================================================== *)
(** ** Restoring the keys of a response *)
(* ===================================================================== *)

Lemma all_keys_entry (d : dict json) k v k' :
  In (k, v) d -> k' = k \/ In k' (all_keys v) -> In k' (all_keys (JObj d)).
Proof.
  intros Hin Hk. simpl. apply in_flat_map. exists (k, v). split; [assumption|].
  simpl. destruct Hk as [->|Hk]; tauto.
Qed.

Lemma map_id_in {A} (f : A -> A) l : (forall x, In x l -> f x = x) -> map f l = l.
Proof.
  intros H. induction l as [|x l IH]; simpl; [reflexivity|].
  rewrite H by now left. rewrite IH; [reflexivity|].
  intros y Hy. apply H. now right.
Qed.

(** Renaming every key forwards and restoring gives the response back. *)
Lemma restore_rename_all rm data :
  wf_json data = true ->
  (forall k, In k (all_keys data) -> rename_key rm (renamed k) = k) ->
  restore_walk rm (rename_all data) = data.
Proof.
  induction data as [| | | |l IH|d IH] using json_ind; intros Hwf Hkeys;
    try reflexivity.
  - simpl. f_equal. rewrite map_map. apply map_id_in. intros x Hx.
    rewrite Forall_forall in IH. apply IH; [assumption| |].
    + eapply wf_list_In; eassumption.
    + intros k Hk. apply Hkeys. simpl. apply in_flat_map. eauto.
  - cbn [rename_all]. rewrite restore_walk_obj. f_equal.
    assert (Hk1 : forall kv, In kv d -> rename_key rm (renamed (fst kv)) = fst kv).
    { intros [k v] Hin. apply Hkeys. eapply all_keys_entry; [exact Hin|now left]. }
    rewrite fold_set_exact.
    + simpl. rewrite map_map. apply map_id_in. intros [k v] Hin. cbn [fst snd].
      pose proof (Hk1 _ Hin) as E. cbn [fst] in E. rewrite E. f_equal.
      rewrite Forall_forall in IH. apply (IH (k, v) Hin).
      * eapply wf_dict_In; eassumption.
      * intros k' Hk'. apply Hkeys. eapply all_keys_entry; [exact Hin|now right].
    + simpl. unfold dict_keys. rewrite !map_map. cbn [fst].
      rewrite (map_ext_in _ fst) by exact Hk1.
      now apply wf_dict_keys.
Qed.

Lemma rename_all_id data :
  (forall k, In k (all_keys data) -> renamed k = k) -> rename_all data = data.
Proof.
  induction data as [| | | |l IH|d IH] using json_ind; intros Hkeys;
    try reflexivity.
  - simpl. f_equal. apply map_id_in. intros x Hx.
    rewrite Forall_forall in IH. apply IH; [assumption|].
    intros k Hk. apply Hkeys. simpl. apply in_flat_map. eauto.
  - simpl. f_equal. apply map_id_in. intros [k v] Hin. cbn [fst snd].
    rewrite Hkeys by (eapply all_keys_entry; [exact Hin|now left]). f_equal.
    rewrite Forall_forall in IH. apply (IH (k, v) Hin).
    intros k' Hk'. apply Hkeys. eapply all_keys_entry; [exact Hin|now right].
Qed.

(** A value none of whose keys the map renames is restored to itself. *)
Lemma restore_walk_id rm data :
  wf_json data = true ->
  (forall k, In k (all_keys data) -> rename_key rm k = k) ->
  restore_walk rm data = data.
Proof.
  induction data as [| | | |l IH|d IH] using json_ind; intros Hwf Hkeys;
    try reflexivity.
  - simpl. f_equal. apply map_id_in. intros x Hx.
    rewrite Forall_forall in IH. apply IH; [assumption| |].
    + eapply wf_list_In; eassumption.
    + intros k Hk. apply Hkeys. simpl. apply in_flat_map. eauto.
  - rewrite restore_walk_obj. f_equal.
    assert (Hk1 : forall kv, In kv d -> rename_key rm (fst kv) = fst kv).
    { intros [k v] Hin. apply Hkeys. eapply all_keys_entry; [exact Hin|now left]. }
    rewrite fold_set_exact.
    + simpl. apply map_id_in. intros [k v] Hin. cbn [fst snd].
      pose proof (Hk1 _ Hin) as E. cbn [fst] in E. rewrite E. f_equal.
      rewrite Forall_forall in IH. apply (IH (k, v) Hin).
      * eapply wf_dict_In; eassumption.
      * intros k' Hk'. apply Hkeys. eapply all_keys_entry; [exact Hin|now right].
    + simpl. unfold dict_keys. rewrite map_map.
      rewrite (map_ext_in _ fst) by exact Hk1.
      now apply wf_dict_keys.
Qed.

(** The restored value has distinct keys in every dictionary. *)
Lemma fold_set_wf (f : string -> string) (g : json -> json) d :
  (forall kv, In kv d -> wf_json (g (snd kv)) = true) ->
  forall out,
    wf_json (JObj out) = true ->
    wf_json (JObj (fold_left (fun out kv => dict_set (f (fst kv)) (g (snd kv)) out)
                     d out)) = true.
Proof.
  induction d as [|[k v] d IH]; intros Hg out Hout; simpl; [exact Hout|].
  apply IH; [intros kv Hkv; apply Hg; now right|].
  simpl in Hout |- *. apply andb_true_iff in Hout as [Hnd Hall].
  apply andb_true_iff. split.
  - apply nodupb_NoDup. apply dict_set_NoDup. now apply nodupb_NoDup.
  - apply forallb_forall. intros [k1 v1] Hin.
    apply In_dict_set in Hin as [Hin|[_ ->]].
    + rewrite forallb_forall in Hall. apply (Hall _ Hin).
    + apply (Hg (k, v)). now left.
Qed.

Lemma restore_walk_wf rm data : wf_json (restore_walk rm data) = true.
Proof.
  induction data as [| | | |l IH|d IH] using json_ind; try reflexivity.
  - simpl. apply forallb_forall. intros y Hy.
    apply in_map_iff in Hy as (x & <- & Hx).
    rewrite Forall_forall in IH. now apply IH.
  - rewrite restore_walk_obj. apply fold_set_wf; [|reflexivity].
    rewrite Forall_forall in IH. exact IH.
Qed.

(** X8. A response that follows the normalised schema is restored to the
    response under the original names: when every key of [data], at
    every depth, names a property of the schema and none has the form
    [_prop_<reserved name>], restoring [data] with its keys renamed as
    in the normalised schema gives [data] back. *)
Theorem restore_inverts_renaming schema normalized rename_map data :
  normalize_schema_for_backend schema = Ok (normalized, rename_map) ->
  wf_json data = true ->
  (forall k, In k (all_keys data) ->
             property_of_schema schema k /\ is_renamed_form k = false) ->
  restore_response_keys (rename_all data) rename_map = data.
Proof.
  intros H Hwf Hkeys.
  assert (Hback : forall k, In k (all_keys data) ->
                            rename_key rename_map (renamed k) = k).
  { intros k Hk. destruct (Hkeys k Hk) as [Hp Hf].
    eapply normalize_restores_name; eassumption. }
  unfold restore_response_keys. destruct rename_map as [|e rm].
  - apply rename_all_id. intros k Hk. apply (Hback k Hk).
  - now apply restore_rename_all.
Qed.

Lemma restore_inverts_renaming_witness :
  restore_response_keys
    (rename_all (JObj [("required", JStr "x"); ("name", JStr "y")]))
    [("_prop_required", "required")]
  = JObj [("required", JStr "x"); ("name", JStr "y")].
Proof.
  apply (restore_inverts_renaming scenario_schema scenario_normalized).
  - reflexivity.
  - reflexivity.
  - intros k Hk. split.
    + exists [].
      exists [("type", JStr "object");
              ("properties",
               JObj [("required", string_schema); ("name", string_schema)]);
              ("required", JBool true)].
      split; [reflexivity|]. simpl in Hk |- *. tauto.
    + simpl in Hk. destruct Hk as [<-|[<-|[]]]; reflexivity.
Defined.

(** X9. Restoring leaves alone a response none of whose keys is a key of the
    rename map; and under the rename map that normalisation returns,
    restoring a restored response changes nothing more. *)
Theorem restore_is_stable schema normalized rename_map data :
  normalize_schema_for_backend schema = Ok (normalized, rename_map) ->
  (wf_json data = true ->
   (forall k, In k (all_keys data) -> dict_get k rename_map = None) ->
   restore_response_keys data rename_map = data)
  /\ restore_response_keys (restore_response_keys data rename_map) rename_map
     = restore_response_keys data rename_map.
Proof.
  intros H. pose proof (normalize_rename_map_ok _ _ _ H) as Hok. split.
  - intros Hwf Hkeys. unfold restore_response_keys.
    destruct rename_map as [|e rm]; [reflexivity|].
    apply restore_walk_id; [assumption|].
    intros k Hk. unfold rename_key. now rewrite (Hkeys k Hk).
  - unfold restore_response_keys. destruct rename_map as [|e rm]; [reflexivity|].
    apply restore_walk_id; [apply restore_walk_wf|].
    intros k Hk. apply restore_walk_keys in Hk as (k0 & _ & ->).
    destruct (dict_get k0 (e :: rm)) as [v|] eqn:E.
    + assert (Ek : rename_key (e :: rm) k0 = v)
        by (unfold rename_key; now rewrite E).
      rewrite Ek. apply rename_key_plain; [exact Hok|].
      apply reserved_not_renamed_form. apply reserved_In.
      destruct Hok as [Hall _]. rewrite Forall_forall in Hall.
      apply dict_get_In in E. apply (Hall _ E).
    + assert (Ek : rename_key (e :: rm) k0 = k0)
        by (unfold rename_key; now rewrite E).
      rewrite Ek. exact Ek.
Qed.

Lemma restore_is_stable_witness :
  (wf_json scenario_response = true ->
   (forall k, In k (all_keys scenario_response) ->
              dict_get k [("_prop_required", "required")] = None) ->
   restore_response_keys scenario_response [("_prop_required", "required")]
   = scenario_response)
  /\ restore_response_keys
       (restore_response_keys scenario_response [("_prop_required", "required")])
       [("_prop_required", "required")]
     = restore_response_keys scenario_response [("_prop_required", "required")].
Proof.
  apply (restore_is_stable scenario_schema scenario_normalized). reflexivity.
Defined.

(* ===================================================================== *)
(** ** Model resolution: what [ensure_model] returns *)
(* ===================================================================== *)

Lemma configured_model self m : configured self = Some m -> model self = Some m /\ m <> "".
Proof.
  unfold configured. destruct (model self) as [[|c s]|]; intros H; try discriminate.
  injection H as <-. split; [reflexivity|discriminate].
Qed.

Lemma existsb_eqb_In m (ids : list string) :
  existsb (String.eqb m) ids = true <-> In m ids.
Proof.
  rewrite existsb_exists. split.
  - intros (x & Hx & E). apply String.eqb_eq in E. now subst.
  - intros H. exists m. split; [assumption|apply String.eqb_refl].
Qed.

Lemma single_match {A} (f : A -> bool) l p : filter f l = [p] -> In p l.
Proof.
  intros E. assert (H : In p (filter f l)) by (rewrite E; now left).
  now apply filter_In in H.
Qed.

Lemma lmstudio_ensure_model_cases self ids :
  match LMStudioClient.ensure_model self ids with
  | Ok (m, self') =>
      In m ids /\ model self' = Some m /\ base_url self' = base_url self
  | Raise c _ => c = RuntimeError
  | OutOfFuel => False
  end.
Proof.
  unfold LMStudioClient.ensure_model. destruct ids as [|first rest]; [reflexivity|].
  destruct (configured self) as [m|] eqn:Ec.
  - destruct (existsb (String.eqb m) (first :: rest)) eqn:Ee.
    + apply existsb_eqb_In in Ee. apply configured_model in Ec as [Em _]. tauto.
    + destruct (filter _ (first :: rest)) as [|p [|q l]] eqn:Ef; try reflexivity.
      apply single_match in Ef. simpl. tauto.
  - simpl. tauto.
Qed.

Lemma ollama_ensure_model_cases self ids :
  match OllamaClient.ensure_model self ids with
  | Ok (m, self') =>
      In m ids /\ model self' = Some m /\ base_url self' = base_url self
  | Raise c _ => c = RuntimeError
  | OutOfFuel => False
  end.
Proof.
  unfold OllamaClient.ensure_model. destruct ids as [|first rest]; [reflexivity|].
  destruct (configured self) as [m|] eqn:Ec.
  - destruct (existsb (String.eqb m) (first :: rest)) eqn:Ee.
    + apply existsb_eqb_In in Ee. apply configured_model in Ec as [Em _]. tauto.
    + cbv zeta. destruct (filter _ (first :: rest)) as [|p [|q l]] eqn:Ef;
        try reflexivity.
      apply single_match in Ef. simpl. tauto.
  - simpl. tauto.
Qed.

Lemma get_default_dict key default m :
  is_dict m = true -> exists v, get_default key default m = Ok v.
Proof.
  destruct m; try discriminate. intros _. simpl.
  destruct (dict_get key d); eauto.
Qed.

Lemma get_default_not_dict key default m :
  is_dict m = false ->
  get_default key default m = Raise AttributeError "object has no attribute 'get'".
Proof. destruct m; try reflexivity. discriminate. Qed.

Lemma ollama_name_of_cases m :
  match OllamaClient.name_of m with
  | Ok _ => is_dict m = true
  | Raise c _ => c = AttributeError /\ is_dict m = false
  | OutOfFuel => False
  end.
Proof.
  unfold OllamaClient.name_of. destruct m; try (simpl; tauto).
  simpl. destruct (dict_get "name" d) as [v|]; simpl.
  - destruct (truthy v); [reflexivity|]. now destruct (dict_get "model" d).
  - now destruct (dict_get "model" d).
Qed.














Lemma ensure_model_again
    (ensure_model : client -> list string -> Res (string * client)) self ids m :
  (forall self ids,
      match ids with
      | [] => True
      | _ :: _ =>
          forall m, configured self = Some m ->
                    existsb (String.eqb m) ids = true ->
                    ensure_model self ids = Ok (m, self)
      end) ->
  Forall (fun id => id <> "") ids ->
  In m ids -> model self = Some m ->
  ensure_model self ids = Ok (m, self).
Proof.
  intros Hexact Hne Hin Hm.
  specialize (Hexact self ids). destruct ids as [|first rest]; [contradiction|].
  apply Hexact; [|now apply existsb_eqb_In].
  rewrite Forall_forall in Hne. specialize (Hne m Hin).
  unfold configured. rewrite Hm. destruct m; [contradiction|reflexivity].
Qed.

(** X11. Resolution is stable: once [ensure_model] has returned an id, calling
    it again on the updated client with the same available ids, none of
    them empty, returns the same id and changes the client no more. *)
Theorem ensure_model_is_stable self ids m self' :
  Forall (fun id => id <> "") ids ->
  (LMStudioClient.ensure_model self ids = Ok (m, self') ->
   LMStudioClient.ensure_model self' ids = Ok (m, self'))
  /\ (OllamaClient.ensure_model self ids = Ok (m, self') ->
      OllamaClient.ensure_model self' ids = Ok (m, self')).
Proof.
  intros Hne. split; intros H.
  - pose proof (lmstudio_ensure_model_cases self ids) as Hc. rewrite H in Hc.
    destruct Hc as (Hin & Hm & _).
    apply ensure_model_again; try assumption.
    intros s [|first rest]; [exact Logic.I|]. intros m0 Ec Ee.
    unfold LMStudioClient.ensure_model. now rewrite Ec, Ee.
  - pose proof (ollama_ensure_model_cases self ids) as Hc. rewrite H in Hc.
    destruct Hc as (Hin & Hm & _).
    apply ensure_model_again; try assumption.
    intros s [|first rest]; [exact Logic.I|]. intros m0 Ec Ee.
    unfold OllamaClient.ensure_model. now rewrite Ec, Ee.
Qed.

Lemma ensure_model_is_stable_witness :
  (LMStudioClient.ensure_model (client_with "glm") scenario_ids
   = Ok ("zai-org/GLM-4.6", set_model (client_with "glm") "zai-org/GLM-4.6") ->
   LMStudioClient.ensure_model
     (set_model (client_with "glm") "zai-org/GLM-4.6") scenario_ids
   = Ok ("zai-org/GLM-4.6", set_model (client_with "glm") "zai-org/GLM-4.6"))
  /\ (OllamaClient.ensure_model (client_with "glm") scenario_ids
      = Ok ("zai-org/GLM-4.6", set_model (client_with "glm") "zai-org/GLM-4.6") ->
      OllamaClient.ensure_model
        (set_model (client_with "glm") "zai-org/GLM-4.6") scenario_ids
      = Ok ("zai-org/GLM-4.6", set_model (client_with "glm") "zai-org/GLM-4.6")).
Proof.
  apply (ensure_model_is_stable (client_with "glm") scenario_ids).
  repeat constructor; discriminate.
Defined.

(* ===================================================================== *)
(** ** The ids that the clients list *)
(* ===================================================================== *)

(** X12. The ids that [list_models] and [ensure_model] collect are truthy,
    on both clients.  The OpenAI-compatible client passes over an entry
    that is no mapping and never raises; the native client raises
    [AttributeError] exactly when some entry is no mapping. *)
Theorem listed_ids_are_truthy models :
  Forall (fun id => truthy id = true) (LMStudioClient.ids_of models)
  /\ match OllamaClient.ids_of models with
     | Ok ids =>
         Forall (fun id => truthy id = true) ids /\ forallb is_dict models = true
     | Raise c _ => c = AttributeError /\ forallb is_dict models = false
     | OutOfFuel => False
     end.
Proof.
  split.
  - unfold LMStudioClient.ids_of. apply Forall_forall. intros id Hin.
    apply in_map_iff in Hin as (m & <- & Hm). apply filter_In in Hm as [_ Hm].
    now apply andb_true_iff in Hm.
  - induction models as [|m models IH]; [simpl; split; [constructor|reflexivity]|].
    cbn [OllamaClient.ids_of forallb].
    pose proof (ollama_name_of_cases m) as Hn.
    destruct (OllamaClient.name_of m) as [name|c msg|]; [|simpl|contradiction].
    + rewrite Hn. cbn [rbind andb].
      destruct (OllamaClient.ids_of models) as [ids|c msg|]; [|exact IH|contradiction].
      cbn [rbind]. destruct IH as [IH1 IH2]. split; [|exact IH2].
      destruct (truthy name) eqn:Et; [constructor; assumption|exact IH1].
    + destruct Hn as [-> ->]. split; reflexivity.
Qed.

(* ===================================================================== *)
(** ** Attaching images to the messages *)
(* ===================================================================== *)

Lemma update_last_user_none update reversed :
  forallb not_user reversed = true -> update_last_user update reversed = Ok reversed.
Proof.
  induction reversed as [|m earlier IH]; simpl; [reflexivity|].
  intros H. apply andb_true_iff in H as [Hm He].
  unfold not_user, is_user in Hm. apply negb_true_iff in Hm.
  now rewrite Hm, (IH He).
Qed.

Lemma update_last_user_found update later m earlier :
  forallb not_user later = true -> is_user m = true ->
  update_last_user update (later ++ m :: earlier)
  = (m' <- update m ;; Ok (later ++ m' :: earlier))%res.
Proof.
  intros Hl Hm. induction later as [|x later IH]; simpl.
  - unfold is_user in Hm. now rewrite Hm.
  - simpl in Hl. apply andb_true_iff in Hl as [Hx Hl].
    unfold not_user, is_user in Hx. apply negb_true_iff in Hx.
    rewrite Hx, (IH Hl). now destruct (update m).
Qed.

Lemma forallb_rev {A} (p : A -> bool) l : forallb p (rev l) = forallb p l.
Proof.
  induction l as [|x l IH]; simpl; [reflexivity|].
  rewrite forallb_app, IH. simpl. rewrite andb_true_r. apply andb_comm.
Qed.

Lemma attach_last_user update before m after :
  is_user m = true -> forallb not_user after = true ->
  (r <- update_last_user update (rev (before ++ m :: after)) ;; Ok (rev r))%res
  = (m' <- update m ;; Ok (before ++ m' :: after))%res.
Proof.
  intros Hm Ha. rewrite rev_app_distr. simpl. rewrite <- app_assoc. simpl.
  rewrite update_last_user_found by (rewrite ?forallb_rev; assumption).
  destruct (update m) as [m'| |]; simpl; try reflexivity.
  rewrite rev_app_distr. simpl. rewrite !rev_involutive, <- app_assoc. reflexivity.
Qed.

(** X13. With at least one image, both clients change the last message of the
    user and nothing else: the native client puts the encoded images
    under its [images]; the OpenAI-compatible client replaces its
    [content], a string, by that text followed by one [image_url] part
    per image, in order. *)
Theorem attach_images_changes_the_last_user_message
    before m after image images content :
  is_user m = true ->
  forallb not_user after = true ->
  dict_get "content" m = Some (JStr content) ->
  let all := image :: images in
  LMStudioClient.attach_images (before ++ m :: after) all
  = Ok (before
        ++ dict_set "content"
             (JArr (JObj [("type", JStr "text"); ("text", JStr content)]
                    :: map LMStudioClient.image_part all)) m
        :: after)
  /\ OllamaClient.attach_images (before ++ m :: after) all
     = Ok (before
           ++ dict_set "images" (JArr (map (fun i => JStr (fst i)) all)) m
           :: after).
Proof.
  intros Hm Ha Hc all. split.
  - unfold LMStudioClient.attach_images. subst all.
    rewrite attach_last_user by assumption.
    unfold LMStudioClient.with_images. rewrite Hc. cbn [rbind].
    destruct content; reflexivity.
  - unfold OllamaClient.attach_images. subst all.
    rewrite attach_last_user by assumption. reflexivity.
Qed.

Lemma attach_images_changes_the_last_user_message_witness :
  LMStudioClient.attach_images example_messages [example_image]
  = Ok [[("role", JStr "system"); ("content", JStr "Extract the fields.")];
        [("role", JStr "user");
         ("content",
          JArr [JObj [("type", JStr "text"); ("text", JStr "An invoice.")];
                JObj [("type", JStr "image_url");
                      ("image_url",
                       JObj [("url", JStr "data:image/png;base64,QUJD")])]])]]
  /\ OllamaClient.attach_images example_messages [example_image]
     = Ok [[("role", JStr "system"); ("content", JStr "Extract the fields.")];
           [("role", JStr "user"); ("content", JStr "An invoice.");
            ("images", JArr [JStr "QUJD"])]].
Proof.
  apply (attach_images_changes_the_last_user_message
           [[("role", JStr "system"); ("content", JStr "Extract the fields.")]]
           [("role", JStr "user"); ("content", JStr "An invoice.")]
           [] example_image [] "An invoice.");
    reflexivity.
Defined.

(** X14. Without an image, or without a message of the user, both clients
    leave the messages as they are: images given with no user message to
    carry them are dropped. *)
Theorem attach_images_needs_a_user_message messages images :
  images = [] \/ forallb not_user messages = true ->
  LMStudioClient.attach_images messages images = Ok messages
  /\ OllamaClient.attach_images messages images = Ok messages.
Proof.
  intros [->|H]; [split; reflexivity|].
  unfold LMStudioClient.attach_images, OllamaClient.attach_images.
  destruct images as [|i images]; [split; reflexivity|].
  rewrite !update_last_user_none by (now rewrite forallb_rev).
  simpl. now rewrite rev_involutive.
Qed.

Lemma attach_images_needs_a_user_message_witness :
  LMStudioClient.attach_images
    [[("role", JStr "system"); ("content", JStr "Extract the fields.")]]
    [example_image]
  = Ok [[("role", JStr "system"); ("content", JStr "Extract the fields.")]]
  /\ OllamaClient.attach_images
       [[("role", JStr "system"); ("content", JStr "Extract the fields.")]]
       [example_image]
     = Ok [[("role", JStr "system"); ("content", JStr "Extract the fields.")]].
Proof.
  apply (attach_images_needs_a_user_message
           [[("role", JStr "system"); ("content", JStr "Extract the fields.")]]
           [example_image]).
  right. reflexivity.
Defined.

(* ===================================================================== *)
(** ** One-shot generation *)
(* ===================================================================== *)


(* ===================================================================== *)
(** ** One-shot generation and streaming *)
(* ===================================================================== *)

Lemma stream_from_parsed json_loads on_error parts last v :
  nonblank (full_text parts last) = true ->
  json_loads (full_text parts last) = inr v ->
  exists partials,
    stream_from json_loads on_error "" parts last
    = (partials ++ [(full_text parts last, Some v)], Returned)
    /\ Forall (fun e => snd e = None) partials.
Proof.
  intros Hn Hv. unfold stream_from, full_text in *. cbn [String.append].
  rewrite Hn, Hv. eexists. split; [reflexivity|].
  apply Forall_forall. intros x Hx. apply in_map_iff in Hx as (t & <- & _).
  reflexivity.
Qed.

Lemma stream_from_blank json_loads on_error parts last :
  nonblank (full_text parts last) = false ->
  exists partials,
    stream_from json_loads on_error "" parts last
    = (partials ++ [(full_text parts last, Some (JObj []))], Returned)
    /\ Forall (fun e => snd e = None) partials.
Proof.
  intros Hn. unfold stream_from, full_text in *. cbn [String.append].
  rewrite Hn. eexists. split; [reflexivity|].
  apply Forall_forall. intros x Hx. apply in_map_iff in Hx as (t & <- & _).
  reflexivity.
Qed.

Lemma nonblank_nonempty s : nonblank s = true -> s <> "".
Proof. intros H ->. discriminate. Qed.

(** X16. On a text that is not blank and that is JSON, streaming and one-shot
    generation agree, on both clients: [generate_structured] returns the
    parse, and [generate_structured_stream] ends normally on the pair of
    the text and the same parse, after pairs that carry no parse. *)
Theorem streaming_agrees_with_one_shot json_loads stream lines chunks v :
  received json_loads lines chunks ->
  let text := full_text (map LMStudioClient.delta_of stream) "" in
  let text' := full_text (parts_before_done chunks) (part_at_done chunks) in
  (nonblank text = true -> json_loads text = inr v ->
   LMStudioClient.generate_structured json_loads (Some text) = Ok v
   /\ exists partials,
        LMStudioClient.generate_structured_stream json_loads stream
        = (partials ++ [(text, Some v)], Returned)
        /\ Forall (fun e => snd e = None) partials)
  /\ (nonblank text' = true -> json_loads text' = inr v ->
      OllamaClient.generate_structured json_loads (chat_body text') = Ok v
      /\ exists partials,
           OllamaClient.generate_structured_stream json_loads lines
           = (partials ++ [(text', Some v)], Returned)
           /\ Forall (fun e => snd e = None) partials).
Proof.
  intros Hrecv text text'. split; intros Hn Hv.
  - split.
    + unfold LMStudioClient.generate_structured, loads. now rewrite Hv.
    + unfold LMStudioClient.generate_structured_stream. rewrite lm_stream_loop.
      now apply stream_from_parsed.
  - split.
    + unfold OllamaClient.generate_structured, chat_body. simpl.
      destruct text' as [|a t] eqn:Et; [discriminate|]. now rewrite Hv.
    + unfold OllamaClient.generate_structured_stream.
      rewrite (ollama_stream_loop _ _ _ Hrecv). now apply stream_from_parsed.
Qed.

Lemma streaming_agrees_with_one_shot_witness :
  (nonblank "{}" = true -> example_loads "{}" = inr (JObj []) ->
   LMStudioClient.generate_structured example_loads (Some "{}") = Ok (JObj [])
   /\ exists partials,
        LMStudioClient.generate_structured_stream example_loads
          [LMStudioClient.mkChunk [Some "{"]; LMStudioClient.mkChunk [Some "}"]]
        = (partials ++ [("{}", Some (JObj []))], Returned)
        /\ Forall (fun e => snd e = None) partials)
  /\ (nonblank "{}" = true -> example_loads "{}" = inr (JObj []) ->
      OllamaClient.generate_structured example_loads (chat_body "{}") = Ok (JObj [])
      /\ exists partials,
           OllamaClient.generate_structured_stream example_loads ["first"; "last"]
           = (partials ++ [("{}", Some (JObj []))], Returned)
           /\ Forall (fun e => snd e = None) partials).
Proof.
  apply (streaming_agrees_with_one_shot example_loads
           [LMStudioClient.mkChunk [Some "{"]; LMStudioClient.mkChunk [Some "}"]]
           ["first"; "last"] [("{}", false); ("", true)] (JObj [])).
  apply (received_chunk example_loads "first" ["last"] [("", true)]
           (JObj [("message", JObj [("content", JStr "{}")]); ("done", JBool false)])
           "{}" false);
    [discriminate|reflexivity|reflexivity|reflexivity|].
  apply (received_chunk example_loads "last" [] [] (JObj [("done", JBool true)])
           "" true);
    [discriminate|reflexivity|reflexivity|reflexivity|constructor].
Defined.

(** X17. On a blank text the two differ, on both clients: streaming ends
    normally on the empty object, whereas [generate_structured] hands the
    text to the parser, or on the native client rejects an empty one, and
    raises [RuntimeError] when the parser refuses it. *)
Theorem blank_text_is_an_error_only_in_one_shot
    json_loads stream lines chunks e e' :
  received json_loads lines chunks ->
  let text := full_text (map LMStudioClient.delta_of stream) "" in
  let text' := full_text (parts_before_done chunks) (part_at_done chunks) in
  (nonblank text = false -> json_loads text = inl e ->
   (exists msg,
       LMStudioClient.generate_structured json_loads (Some text)
       = Raise RuntimeError msg)
   /\ exists partials,
        LMStudioClient.generate_structured_stream json_loads stream
        = (partials ++ [(text, Some (JObj []))], Returned)
        /\ Forall (fun e => snd e = None) partials)
  /\ (nonblank text' = false -> json_loads text' = inl e' ->
      (exists msg,
          OllamaClient.generate_structured json_loads (chat_body text')
          = Raise RuntimeError msg)
      /\ exists partials,
           OllamaClient.generate_structured_stream json_loads lines
           = (partials ++ [(text', Some (JObj []))], Returned)
           /\ Forall (fun e => snd e = None) partials).
Proof.
  intros Hrecv text text'. split; intros Hn Hv.
  - split.
    + unfold LMStudioClient.generate_structured, loads. rewrite Hv. eauto.
    + unfold LMStudioClient.generate_structured_stream. rewrite lm_stream_loop.
      now apply stream_from_blank.
  - split.
    + unfold OllamaClient.generate_structured, chat_body. simpl.
      destruct text' as [|a t] eqn:Et; [eauto|]. rewrite Hv. eauto.
    + unfold OllamaClient.generate_structured_stream.
      rewrite (ollama_stream_loop _ _ _ Hrecv). now apply stream_from_blank.
Qed.

Lemma blank_text_is_an_error_only_in_one_shot_witness :
  (nonblank "" = false -> example_loads "" = inl "Expecting value" ->
   (exists msg,
       LMStudioClient.generate_structured example_loads (Some "")
       = Raise RuntimeError msg)
   /\ exists partials,
        LMStudioClient.generate_structured_stream example_loads []
        = (partials ++ [("", Some (JObj []))], Returned)
        /\ Forall (fun e => snd e = None) partials)
  /\ (nonblank "" = false -> example_loads "" = inl "Expecting value" ->
      (exists msg,
          OllamaClient.generate_structured example_loads (chat_body "")
          = Raise RuntimeError msg)
      /\ exists partials,
           OllamaClient.generate_structured_stream example_loads ["last"]
           = (partials ++ [("", Some (JObj []))], Returned)
           /\ Forall (fun e => snd e = None) partials).
Proof.
  apply (blank_text_is_an_error_only_in_one_shot example_loads
           [] ["last"] [("", true)] "Expecting value" "Expecting value").
  apply (received_chunk example_loads "last" [] [] (JObj [("done", JBool true)])
           "" true);
    [discriminate|reflexivity|reflexivity|reflexivity|constructor].
Defined.

(* ===================================================================== *)
(** ** Images *)
(* ===================================================================== *)

Section ImageFacts.
Import PairingRepository UtilsIO.

Lemma rstrip_cons c s : is_space c = false -> rstrip (String c s) = String c (rstrip s).
Proof. intros H. simpl. rewrite H. now destruct (rstrip s). Qed.

Lemma rstrip_app a b : rstrip b <> "" -> rstrip (a ++ b) = (a ++ rstrip b)%string.
Proof.
  intros Hb. induction a as [|c a IH]; simpl; [reflexivity|].
  rewrite IH. destruct (a ++ rstrip b)%string eqn:E; [|reflexivity].
  destruct a; simpl in E; [contradiction|discriminate].
Qed.

Lemma rstrip_idem s : rstrip (rstrip s) = rstrip s.
Proof.
  induction s as [|c s IH]; simpl; [reflexivity|].
  destruct (rstrip s) as [|c' r] eqn:E.
  - destruct (is_space c) eqn:Ec; simpl; [reflexivity|now rewrite Ec].
  - change (rstrip (String c (String c' r)))
      with (match rstrip (String c' r) with
            | EmptyString => if is_space c then EmptyString else String c EmptyString
            | r0 => String c r0
            end).
    now rewrite IH.
Qed.

Lemma strip_fixed_rstrip s : strip s = s -> rstrip s = s.
Proof. unfold strip. intros H. rewrite <- H at 1. rewrite rstrip_idem. exact H. Qed.

Lemma after_prefix_app p s : after_prefix p (p ++ s) = Some s.
Proof.
  induction p as [|a p IH]; simpl; [reflexivity|]. now rewrite Ascii.eqb_refl.
Qed.

(** The split finds the first occurrence of the separator: what stands
    before it holds the first character of the separator nowhere. *)
Lemma split_first_at c0 sep' a b :
  all_chars (fun c => negb (Ascii.eqb c c0)) a = true ->
  split_first (String c0 sep') (a ++ String c0 (sep' ++ b)) = Some (a, b).
Proof.
  intros Ha. induction a as [|x a IH].
  - cbn [String.append split_first after_prefix].
    now rewrite Ascii.eqb_refl, after_prefix_app.
  - simpl in Ha. apply andb_true_iff in Ha as [Hx Ha].
    apply negb_true_iff in Hx.
    cbn [String.append split_first after_prefix].
    rewrite Ascii.eqb_sym, Hx. now rewrite (IH Ha).
Qed.

Lemma after_prefix_prefix p s :
  after_prefix p s = None <-> String.prefix p s = false.
Proof.
  revert s. induction p as [|a p IH]; intros s.
  - destruct s; simpl; split; discriminate.
  - destruct s as [|b s]; cbn [after_prefix String.prefix]; [tauto|].
    destruct (ascii_dec a b) as [->|Hne].
    + rewrite Ascii.eqb_refl. apply IH.
    + apply Ascii.eqb_neq in Hne. rewrite Hne. tauto.
Qed.

(** The split finds the separator exactly when [sep in s] holds. *)
Lemma split_first_contains sep s :
  split_first sep s = None <-> contains sep s = false.
Proof.
  induction s as [|c s IH].
  - cbn [split_first].
    change (contains sep "") with (if String.prefix sep "" then true else false).
    destruct (after_prefix sep "") eqn:E; destruct (String.prefix sep "") eqn:Ep.
    + split; intros H; discriminate.
    + apply after_prefix_prefix in Ep. congruence.
    + apply after_prefix_prefix in E. congruence.
    + tauto.
  - change (contains sep (String c s))
      with (if String.prefix sep (String c s) then true else contains sep s).
    cbn [split_first].
    destruct (after_prefix sep (String c s)) eqn:E.
    + destruct (String.prefix sep (String c s)) eqn:Ep.
      * split; intros H; discriminate.
      * apply after_prefix_prefix in Ep. congruence.
    + apply after_prefix_prefix in E. rewrite E.
      destruct (split_first sep s) as [[a b]|].
      * split; [discriminate|]. intros H. apply IH in H. discriminate.
      * split; [intros _; now apply IH|reflexivity].
Qed.

Variable suffix : string -> string.
Variable path_exists : string -> Res bool.
Variable read_b64 : string -> Res string.

Lemma load_image_data_url mime b64 :
  all_chars (fun c => negb (Ascii.eqb c ";")) mime = true ->
  load_image suffix path_exists read_b64 (LMStudioClient.data_url mime b64)
  = Ok [(strip (rstrip b64),
         if String.eqb (strip mime) "" then "image/jpeg" else strip mime)].
Proof.
  intros Hm. unfold load_image, LMStudioClient.data_url. cbv zeta.
  change (nonblank ("data:" ++ mime ++ ";base64," ++ b64)) with true.
  cbn [negb].
  assert (Hstart : startswith (("data:" ++ mime) ++ ";base64," ++ rstrip b64) "data:"
                   = true).
  { unfold startswith. simpl. destruct (mime ++ _)%string; reflexivity. }
  assert (Es : strip ("data:" ++ mime ++ ";base64," ++ b64)
               = (("data:" ++ mime) ++ ";base64," ++ rstrip b64)%string).
  { unfold strip. change (lstrip ("data:" ++ mime ++ ";base64," ++ b64))
      with ("data:" ++ mime ++ ";base64," ++ b64)%string.
    replace ("data:" ++ mime ++ ";base64," ++ b64)%string
      with (("data:" ++ mime ++ ";base64") ++ String "," b64)%string
      by (simpl; rewrite !append_assoc; reflexivity).
    rewrite rstrip_app; rewrite rstrip_cons by reflexivity; [|discriminate].
    simpl. rewrite !append_assoc. reflexivity. }
  rewrite Es, Hstart.
  change (("data:" ++ mime) ++ ";base64," ++ rstrip b64)%string
    with (("data:" ++ mime) ++ String ";" ("base64," ++ rstrip b64))%string.
  rewrite (split_first_at ";" "base64," ("data:" ++ mime) (rstrip b64)).
  - change (replace_first "data:" "" ("data:" ++ mime)) with mime. reflexivity.
  - simpl. exact Hm.
Qed.

(** X18. A data URL as the OpenAI-compatible client writes it, from a MIME
    type and an encoded image that hold no surrounding white space and no
    semicolon in the type, is read back by [load_images_as_base64] as
    that image and that type. *)
Theorem data_url_round_trip mime b64 :
  all_chars (fun c => negb (Ascii.eqb c ";")) mime = true ->
  strip mime = mime -> mime <> "" -> strip b64 = b64 ->
  load_images_as_base64 suffix path_exists read_b64
    [LMStudioClient.data_url mime b64]
  = Ok [(b64, mime)].
Proof.
  intros Hm Hs Hne Hb. cbn [load_images_as_base64].
  rewrite load_image_data_url by exact Hm. cbn [rbind app].
  rewrite Hs, (strip_fixed_rstrip _ Hb), Hb.
  destruct (String.eqb_spec mime ""); [contradiction|reflexivity].
Qed.


End ImageFacts.

Lemma data_url_round_trip_witness :
  UtilsIO.load_images_as_base64 (fun _ => "") (fun _ => Ok false)
    (fun _ => Raise OSError "No such file or directory")
    [LMStudioClient.data_url "image/png" "QUJD"]
  = Ok [("QUJD", "image/png")].
Proof.
  apply (data_url_round_trip (fun _ => "") (fun _ => Ok false)
           (fun _ => Raise OSError "No such file or directory") "image/png" "QUJD");
    [reflexivity|reflexivity|discriminate|reflexivity].
Defined.


(* ===================================================================== *)
(** ** Connecting to a backend *)
(* ===================================================================== *)

Section FactoryFacts.
Import Factory.
Variable get : string -> http_response.
Variable openai_rejects : string -> option string.

Lemma lmstudio_preflight_total c :
  exists ok msg, lmstudio_preflight get c = Ok (ok, msg).
Proof.
  unfold lmstudio_preflight, LMStudioClient.preflight.
  match goal with |- context [try_except ?b ?h1 ?h2] =>
    destruct (try_except_total b h1 h2) as (ok & msg & E & _) end.
  - apply catchable_rbind; [apply catchable_get_models|].
    intros [|m ms]; [exact Logic.I|].
    apply catchable_rbind; [apply catchable_rmapM; intros; apply catchable_get_default|].
    intros names. apply catchable_rbind; [apply catchable_join_first3|].
    intros; exact Logic.I.
  - intros e. eexists. reflexivity.
  - intros e. eexists. reflexivity.
  - eauto.
Qed.

Lemma ollama_preflight_total c :
  exists ok msg, ollama_preflight get c = Ok (ok, msg).
Proof.
  unfold ollama_preflight, OllamaClient.preflight.
  match goal with |- context [try_except ?b ?h1 ?h2] =>
    destruct (try_except_total b h1 h2) as (ok & msg & E & _) end.
  - apply catchable_rbind; [apply catchable_get_models|].
    intros [|m ms]; [exact Logic.I|].
    apply catchable_rbind.
    { apply catchable_rmapM. intros x. unfold OllamaClient.display_name.
      apply catchable_rbind; intros; apply catchable_get_default. }
    intros names. apply catchable_rbind; [apply catchable_join_first3|].
    intros; exact Logic.I.
  - intros e. eexists. reflexivity.
  - intros e. eexists. reflexivity.
  - eauto.
Qed.

Lemma init_cases host p m :
  match lmstudio_init openai_rejects (build_lmstudio_url host p) m with
  | Created c =>
      c = new_client (build_lmstudio_url host p) m
      /\ openai_rejects (base_url c) = None
  | InvalidURL msg =>
      openai_rejects (base_url (new_client (build_lmstudio_url host p) m)) = Some msg
  end.
Proof.
  unfold lmstudio_init. cbv zeta.
  destruct (openai_rejects _) eqn:E; [reflexivity|]. split; [reflexivity|exact E].
Qed.

Lemma probe_find host m port ports :
  probe get openai_rejects host m port ports
  = match find (ends_search get openai_rejects host m)
            (filter (fun p => negb (Z.eqb p port)) ports) with
    | Some p => found_at openai_rejects host m p
    | None => Raise RuntimeError "Connection failed on all common ports (LM Studio)"
    end.
Proof.
  induction ports as [|p ports IH]; cbn [probe filter find]; [reflexivity|].
  destruct (Z.eqb p port); cbn [negb find]; [exact IH|].
  unfold ends_search. pose proof (init_cases host p m) as Hi.
  destruct (lmstudio_init openai_rejects (build_lmstudio_url host p) m)
    as [c|msg] eqn:Ei; [|unfold found_at; now rewrite Ei].
  destruct Hi as [-> _]. unfold reachable.
  destruct (lmstudio_preflight_total (new_client (build_lmstudio_url host p) m))
    as (ok & msg & E).
  rewrite E. cbn [rbind fst]. destruct ok; [|exact IH].
  unfold found_at. now rewrite Ei.
Qed.

Lemma create_lmstudio_find host port m :
  _create_lmstudio_client get openai_rejects host port m true
  = match find (ends_search get openai_rejects host m) (probed_ports port) with
    | Some p => found_at openai_rejects host m p
    | None => Raise RuntimeError "Connection failed on all common ports (LM Studio)"
    end.
Proof.
  unfold _create_lmstudio_client, probed_ports. cbn [find]. cbv zeta.
  unfold ends_search at 1.
  pose proof (init_cases host port m) as Hi.
  destruct (lmstudio_init openai_rejects (build_lmstudio_url host port) m)
    as [c|msg] eqn:Ei; [|unfold found_at; now rewrite Ei].
  destruct Hi as [-> _]. unfold reachable.
  destruct (lmstudio_preflight_total (new_client (build_lmstudio_url host port) m))
    as (ok & msg & E).
  rewrite E. cbn [rbind fst negb]. destruct ok; [|apply probe_find].
  unfold found_at. now rewrite Ei.
Qed.

Lemma found_at_checked host m ports p :
  find (ends_search get openai_rejects host m) ports = Some p ->
  checked_creation get openai_rejects host m (found_at openai_rejects host m p).
Proof.
  intros H. apply find_some in H as [_ H]. unfold ends_search, found_at in *.
  pose proof (init_cases host p m) as Hi.
  destruct (lmstudio_init openai_rejects (build_lmstudio_url host p) m) as [c|msg].
  - destruct Hi as [-> Hacc]. cbn [checked_creation].
    split; [reflexivity|]. split; [exact Hacc|].
    unfold reachable in H.
    destruct (lmstudio_preflight get _) as [[ok msg]| |]; try discriminate.
    subst ok. eauto.
  - cbn [checked_creation]. eauto.
Qed.

Lemma create_lmstudio_checked host port m auto_probe :
  checked_creation get openai_rejects host m
    (_create_lmstudio_client get openai_rejects host port m auto_probe).
Proof.
  destruct auto_probe.
  - rewrite create_lmstudio_find.
    destruct (find _ (probed_ports port)) as [p|] eqn:E; [|reflexivity].
    eapply found_at_checked; exact E.
  - unfold _create_lmstudio_client. cbv zeta.
    pose proof (init_cases host port m) as Hi.
    destruct (lmstudio_init openai_rejects (build_lmstudio_url host port) m) as [c|msg];
      [|cbn [checked_creation]; eauto].
    destruct Hi as [-> Hacc].
    destruct (lmstudio_preflight_total (new_client (build_lmstudio_url host port) m))
      as (ok & msg & E).
    rewrite E. cbn [rbind fst negb]. destruct ok; [|reflexivity].
    split; [reflexivity|]. split; [exact Hacc|]. eauto.
Qed.

Lemma create_ollama_checked host port m :
  checked (ollama_preflight get) m (_create_ollama_client get host port m).
Proof.
  unfold _create_ollama_client.
  destruct (ollama_preflight_total (new_client (build_ollama_url host port) m))
    as (ok & msg & E).
  rewrite E. cbn [rbind fst snd negb]. destruct ok; [|reflexivity].
  split; [reflexivity|]. eauto.
Qed.

(** X20. Whatever the network answers, [create_client] returns a client only
    after that client has passed its own [preflight], with the model it
    was asked for; a client of the native class is never returned for
    the backend [lmstudio], nor one of the OpenAI-compatible class for
    [ollama].  Otherwise it raises [RuntimeError], or, for a backend
    other than [ollama], lets escape the [InvalidURL] with which the
    OpenAI SDK rejects a base URL built from the host: the handler of
    the backend [auto] catches [RuntimeError] only.  Where the SDK takes
    every URL the outcome is a checked client or [RuntimeError]. *)
Theorem create_client_returns_a_checked_client host port m auto_probe backend :
  match create_client get openai_rejects host port m auto_probe backend with
  | Ok (Created (LMStudio c)) =>
      backend <> "ollama" /\ model c = m
      /\ openai_rejects (base_url c) = None
      /\ exists msg, lmstudio_preflight get c = Ok (true, msg)
  | Ok (Created (Ollama c)) =>
      backend <> "lmstudio" /\ model c = m
      /\ exists msg, ollama_preflight get c = Ok (true, msg)
  | Ok (InvalidURL msg) =>
      backend <> "ollama"
      /\ exists p,
           openai_rejects (base_url (new_client (build_lmstudio_url host p) m))
           = Some msg
  | Raise cls _ => cls = RuntimeError
  | OutOfFuel => False
  end.
Proof.
  unfold create_client. cbv zeta.
  pose proof (create_ollama_checked host (port_or port OLLAMA_DEFAULT_PORT) m) as Ho.
  pose proof (create_lmstudio_checked host (port_or port DEFAULT_PORT) m auto_probe)
    as Hl.
  destruct (String.eqb_spec backend "ollama") as [->|Hno].
  - destruct (_create_ollama_client _ _ _ _) as [c| |]; simpl in *;
      [|assumption|assumption].
    split; [discriminate|exact Ho].
  - destruct (String.eqb_spec backend "lmstudio") as [->|Hnl].
    + destruct (_create_lmstudio_client _ _ _ _ _ _) as [[c|msg]| |]; simpl in *;
        [| |assumption|assumption].
      * split; [discriminate|]. tauto.
      * split; [discriminate|exact Hl].
    + destruct (_create_lmstudio_client _ _ _ _ _ _) as [[c|msg]|cls msg|];
        simpl in *.
      * split; [assumption|]. tauto.
      * split; [assumption|exact Hl].
      * subst cls.
        destruct (_create_ollama_client _ _ _ _) as [c| |]; simpl in *;
          [|assumption|assumption].
        split; [assumption|exact Ho].
      * contradiction.
Qed.

(** X21. With [auto_probe], the OpenAI-compatible client is looked for on the
    requested port first and then on the common ports 1234, 4321 and
    8080 in that order, the requested port not being tried again.  The
    search ends at the first port whose URL the OpenAI SDK rejects, with
    [InvalidURL], or whose server passes [preflight], with the client of
    that port; with no such port it ends in [RuntimeError].  So where
    the SDK takes every URL the client of the first port that passes
    [preflight] is returned. *)
Theorem auto_probe_tries_the_ports_in_order host port m :
  _create_lmstudio_client get openai_rejects host port m true
  = match find (ends_search get openai_rejects host m) (probed_ports port) with
    | Some p =>
        match openai_rejects (base_url (new_client (build_lmstudio_url host p) m)) with
        | Some msg => Ok (InvalidURL msg)
        | None => Ok (Created (new_client (build_lmstudio_url host p) m))
        end
    | None => Raise RuntimeError "Connection failed on all common ports (LM Studio)"
    end
  /\ ((forall url, openai_rejects url = None) ->
      _create_lmstudio_client get openai_rejects host port m true
      = match find (reachable get host m) (probed_ports port) with
        | Some p => Ok (Created (new_client (build_lmstudio_url host p) m))
        | None => Raise RuntimeError "Connection failed on all common ports (LM Studio)"
        end)
  /\ probed_ports 1234 = [1234; 4321; 8080]%Z
  /\ probed_ports 5000 = [5000; 1234; 4321; 8080]%Z.
Proof.
  split; [|split; [|split; reflexivity]].
  - rewrite create_lmstudio_find.
    destruct (find _ (probed_ports port)) as [p|]; [|reflexivity].
    unfold found_at, lmstudio_init. cbv zeta.
    destruct (openai_rejects _); reflexivity.
  - intros Hacc. rewrite create_lmstudio_find.
    assert (E : forall ports,
               find (ends_search get openai_rejects host m) ports
               = find (reachable get host m) ports).
    { intros ports. induction ports as [|p ports IH]; simpl; [reflexivity|].
      unfold ends_search at 1, lmstudio_init. cbv zeta. rewrite Hacc.
      now rewrite IH. }
    rewrite E. destruct (find _ (probed_ports port)) as [p|]; [|reflexivity].
    unfold found_at, lmstudio_init. cbv zeta. now rewrite Hacc.
Qed.
End FactoryFacts.

(** On a network where only port 4321 answers, the search with
    [auto_probe] finds the client there; at the host [localhost:1], whose
    URL the SDK rejects, no backend is tried at all. *)
Lemma create_client_examples :
  Factory.create_client example_network accepts_all "localhost" None None true "auto"
  = Ok (Factory.Created
          (Factory.LMStudio (new_client "http://localhost:4321/v1" None)))
  /\ Factory.create_client example_network rejects_port_in_host "localhost:1"
       None None true "auto"
     = Ok (Factory.InvalidURL "Invalid port")
  /\ Factory.create_client example_network rejects_port_in_host "localhost:1"
       None None true "ollama"
     = Raise RuntimeError
         ("Cannot connect to Ollama at http://localhost:1:11434. "
            ++ "Ensure Ollama is running (e.g. ollama serve). "
            ++ "Details: Connection failed: Connection refused").
Proof. repeat split; vm_compute; reflexivity. Qed.

(* ===================================================================== *)
(** ** The pairing store: saving, loading, listing *)
(* ===================================================================== *)

Section StoreFacts.
Import PairingRepository.
Variable json_dumps : bool -> json -> string.
Variable json_loads : string -> string + json.
Variable str_of_path : string -> string -> string.
Variables now_stamp now_iso : string.

(** Writing the three files into a free target. *)
Lemma write_files name schema prompt meta st target :
  st target = None \/ st target = Some (Dir []) ->
  exists st',
    (mkdir target ;;;
     write_text target "schema.json" (json_dumps false schema) ;;;
     write_text target "prompt.txt" prompt ;;;
     write_text target "meta.json"
       (json_dumps true (JObj (saved_meta name now_iso meta))) ;;;
     fret target)%FS st = (Ok target, st')
    /\ st' target = Some (Dir (saved_files json_dumps name now_iso schema prompt meta))
    /\ forall p, p <> target -> st' p = st p.
Proof.
  intros Hfree.
  assert (Hmk : exists s1, mkdir target st = (Ok tt, s1)
                           /\ s1 target = Some (Dir [])
                           /\ forall p, p <> target -> s1 p = st p).
  { destruct Hfree as [H|H].
    - now apply mkdir_spec.
    - exists st. unfold mkdir. rewrite H. auto. }
  destruct Hmk as (s1 & E1 & T1 & O1).
  destruct (write_text_spec target "schema.json" (json_dumps false schema) s1 [] T1)
    as (s2 & E2 & T2 & O2).
  destruct (write_text_spec target "prompt.txt" prompt s2 _ T2)
    as (s3 & E3 & T3 & O3).
  destruct (write_text_spec target "meta.json"
              (json_dumps true (JObj (saved_meta name now_iso meta))) s3 _ T3)
    as (s4 & E4 & T4 & O4).
  exists s4. unfold fbind. rewrite E1, E2, E3, E4.
  split; [reflexivity|]. split; [exact T4|].
  intros p Hp. now rewrite O4, O3, O2, O1.
Qed.

(** Every case of [save], by what stands at the target and at the
    backup name. *)
Lemma save_cases name schema prompt meta store :
  let target := sanitize_filename name in
  let backup := backup_name_of now_stamp target in
  match store target with
  | None | Some (Dir []) =>
      exists store',
        save json_dumps now_stamp now_iso name schema prompt meta store
        = (Ok target, store')
        /\ store' target = Some (Dir (saved_files json_dumps name now_iso schema prompt meta))
        /\ forall p, p <> target -> store' p = store p
  | Some (Dir old) =>
      match store backup with
      | None | Some (Dir []) =>
          exists store',
            save json_dumps now_stamp now_iso name schema prompt meta store
            = (Ok target, store')
            /\ store' target = Some (Dir (saved_files json_dumps name now_iso schema prompt meta))
            /\ store' backup = Some (Dir old)
            /\ forall p, p <> target -> p <> backup -> store' p = store p
      | Some _ =>
          exists msg,
            save json_dumps now_stamp now_iso name schema prompt meta store
            = (Raise OSError msg, store)
      end
  | Some (File _) =>
      exists msg,
        save json_dumps now_stamp now_iso name schema prompt meta store
        = (Raise OSError msg, store)
  end.
Proof.
  intros target backup.
  assert (Hfresh : backup <> target) by apply backup_name_fresh.
  assert (Hfresh' : target <> backup) by congruence.
  unfold save. fold target. fold backup. fold (saved_meta name now_iso meta).
  destruct (store target) as [[c|[|e old]]|] eqn:Ht.
  - eexists. apply fbind_raise. unfold exists_and_nonempty. now rewrite Ht.
  - rewrite (fbind_ok _ _ store false store)
      by (unfold exists_and_nonempty; now rewrite Ht).
    rewrite (fbind_ok _ _ store tt store) by reflexivity.
    apply write_files. now right.
  - rewrite (fbind_ok _ _ store true store)
      by (unfold exists_and_nonempty; now rewrite Ht).
    assert (Hmove : rename target backup store
                    = (Ok tt, fs_set backup (Some (Dir (e :: old)))
                                (fs_set target None store))
                    -> exists store',
                      ((rename target backup ;;;
                        mkdir target ;;;
                        write_text target "schema.json" (json_dumps false schema) ;;;
                        write_text target "prompt.txt" prompt ;;;
                        write_text target "meta.json"
                          (json_dumps true (JObj (saved_meta name now_iso meta))) ;;;
                        fret target)%FS store) = (Ok target, store')
                      /\ store' target
                         = Some (Dir (saved_files json_dumps name now_iso schema prompt meta))
                      /\ store' backup = Some (Dir (e :: old))
                      /\ forall p, p <> target -> p <> backup -> store' p = store p).
    { intros Hr. rewrite (fbind_ok _ _ _ _ _ Hr).
      destruct (write_files name schema prompt meta
                  (fs_set backup (Some (Dir (e :: old))) (fs_set target None store))
                  target) as (s' & E & T & O).
      { left. rewrite fs_set_neq by assumption. apply fs_set_eq. }
      exists s'. split; [exact E|]. split; [exact T|]. split.
      - rewrite O by assumption. apply fs_set_eq.
      - intros p Hp1 Hp2. rewrite O by assumption.
        rewrite fs_set_neq by assumption. now apply fs_set_neq. }
    destruct (store backup) as [[c|[|e' es]]|] eqn:Hb.
    + eexists. apply fbind_raise. unfold rename. now rewrite Ht, Hb.
    + apply Hmove. unfold rename. now rewrite Ht, Hb.
    + eexists. apply fbind_raise. unfold rename. now rewrite Ht, Hb.
    + apply Hmove. unfold rename. now rewrite Ht, Hb.
  - rewrite (fbind_ok _ _ store false store)
      by (unfold exists_and_nonempty; now rewrite Ht).
    rewrite (fbind_ok _ _ store tt store) by reflexivity.
    apply write_files. now left.
Qed.

(** What a successful [save] leaves in the store. *)
Lemma save_success name schema prompt meta store target store' :
  save json_dumps now_stamp now_iso name schema prompt meta store
  = (Ok target, store') ->
  target = sanitize_filename name
  /\ store' target = Some (Dir (saved_files json_dumps name now_iso schema prompt meta))
  /\ forall p, p <> target -> p <> backup_name_of now_stamp target ->
               store' p = store p.
Proof.
  intros H. pose proof (save_cases name schema prompt meta store) as Hc.
  cbv zeta in Hc.
  destruct (store (sanitize_filename name)) as [[c|[|e old]]|].
  - destruct Hc as (msg & E). congruence.
  - destruct Hc as (s' & E & T & O). rewrite E in H. injection H as <- <-.
    split; [reflexivity|]. split; [exact T|]. intros p Hp _. now apply O.
  - destruct (store (backup_name_of now_stamp (sanitize_filename name)))
      as [[c|[|e' es]]|].
    + destruct Hc as (msg & E). congruence.
    + destruct Hc as (s' & E & T & _ & O). rewrite E in H. injection H as <- <-.
      auto.
    + destruct Hc as (msg & E). congruence.
    + destruct Hc as (s' & E & T & _ & O). rewrite E in H. injection H as <- <-.
      auto.
  - destruct Hc as (s' & E & T & O). rewrite E in H. injection H as <- <-.
    split; [reflexivity|]. split; [exact T|]. intros p Hp _. now apply O.
Qed.

(** [read_text] raises [OSError] only. *)
Lemma read_text_cases target file d :
  match read_text target file d with
  | Ok _ => True
  | Raise c _ => c = OSError
  | OutOfFuel => False
  end.
Proof.
  unfold read_text. destruct (d target) as [[|entries|msg|msg]|]; try reflexivity.
  destruct (dict_get file entries) as [[text|msg|msg]|]; reflexivity.
Qed.


(** [load_json_safe] lets nothing through but the error of a file that
    is no UTF-8. *)
Lemma load_json_safe_value target file d :
  load_json_safe json_loads target file d
  = match read_text target file d with
    | Ok (inr text) =>
        Ok (inr match json_loads text with
                | inr v => v
                | inl _ => JObj []
                end)
    | Ok (inl e) => Ok (inl e)
    | _ => Ok (inr (JObj []))
    end.
Proof.
  unfold load_json_safe, and_then, loads.
  pose proof (read_text_cases target file d) as Hc.
  destruct (read_text target file d) as [[e|text]|c msg|]; cbn [rbind];
    [reflexivity| |now subst c|contradiction].
  now destruct (json_loads text).
Qed.

(** Loading depends on the directory of the pairing only. *)
Lemma load_ext name (d d' : disk) :
  d' (path name) = d (path name) ->
  load json_loads str_of_path name d' = load json_loads str_of_path name d
  /\ is_complete name d' = is_complete name d
  /\ exists_ name d' = exists_ name d.
Proof.
  intros E.
  unfold load, is_complete, exists_, load_json_safe, read_text, file_exists.
  now rewrite E.
Qed.

Lemma on_disk_ext (store store' : fs) p :
  store' p = store p -> on_disk store' p = on_disk store p.
Proof. unfold on_disk. now intros ->. Qed.

(** Reading the files that [save] wrote. *)
Lemma read_saved name schema prompt meta store target :
  store target = Some (Dir (saved_files json_dumps name now_iso schema prompt meta)) ->
  file_exists target "schema.json" (on_disk store) = Ok true
  /\ file_exists target "prompt.txt" (on_disk store) = Ok true
  /\ read_text target "schema.json" (on_disk store)
     = Ok (inr (universal_newlines (json_dumps false schema)))
  /\ read_text target "prompt.txt" (on_disk store)
     = Ok (inr (universal_newlines prompt))
  /\ read_text target "meta.json" (on_disk store)
     = Ok (inr (universal_newlines
                  (json_dumps true (JObj (saved_meta name now_iso meta))))).
Proof.
  intros T. unfold file_exists, read_text, on_disk. rewrite T.
  repeat split; reflexivity.
Qed.

(** Text without carriage return is read as it was written. *)
Lemma universal_newlines_id s :
  no_carriage_return s = true -> universal_newlines s = s.
Proof.
  unfold no_carriage_return.
  induction s as [|c s IH]; [reflexivity|].
  cbn [all_chars universal_newlines]. intros H.
  apply andb_true_iff in H as [Hc Hs].
  destruct (Ascii.eqb c "013"); [discriminate|]. now rewrite IH.
Qed.

(** X22. A pairing that has been saved exists, is complete and loads: when the
    text that [json.dumps] writes for the schema and for the metadata is
    read back from the file by [json.loads] as that schema and those
    metadata, and the schema is not empty, [load] returns the schema,
    the metadata that [save] wrote, the name and the creation time added
    where the caller gave none, and the prompt as a file opened in text
    mode gives it back: with [\n] for every [\r\n] and [\r], so the
    prompt itself when it holds no carriage return. *)
Theorem save_then_load name schema prompt meta store target store' :
  save json_dumps now_stamp now_iso name schema prompt meta store
  = (Ok target, store') ->
  json_loads (universal_newlines (json_dumps false schema)) = inr schema ->
  json_loads (universal_newlines
                (json_dumps true (JObj (saved_meta name now_iso meta))))
  = inr (JObj (saved_meta name now_iso meta)) ->
  truthy schema = true ->
  exists_ name (on_disk store') = Ok true
  /\ is_complete name (on_disk store') = Ok true
  /\ load json_loads str_of_path name (on_disk store')
     = Ok (inr [("schema", schema);
                ("prompt", JStr (universal_newlines prompt));
                ("meta", JObj (saved_meta name now_iso meta))])
  /\ (no_carriage_return prompt = true -> universal_newlines prompt = prompt)
  /\ dict_get "name" (saved_meta name now_iso meta) <> None
  /\ dict_get "created" (saved_meta name now_iso meta) <> None.
Proof.
  intros H Hs Hm Ht. apply save_success in H as (-> & T & _).
  destruct (read_saved _ _ _ _ _ _ T) as (F1 & F2 & R1 & R2 & R3).
  split; [unfold exists_, path, on_disk; now rewrite T|].
  split; [unfold is_complete, path; now rewrite F1, F2|].
  split; [|split; [apply universal_newlines_id|]].
  - unfold load, path. rewrite F1, F2. cbn [negb rbind].
    rewrite !load_json_safe_value, R1, R2, R3, Hs, Hm. unfold and_then.
    cbn [rbind]. rewrite Ht. reflexivity.
  - unfold saved_meta. rewrite !setdefault_get.
    split; destruct (dict_get _ _); simpl; discriminate.
Qed.

(** X23. An empty schema can be saved but not loaded: [save] writes it, and
    [load] then raises [ValueError]. *)
Theorem empty_schema_saves_but_does_not_load
    name schema prompt meta store target store' :
  save json_dumps now_stamp now_iso name schema prompt meta store
  = (Ok target, store') ->
  json_loads (universal_newlines (json_dumps false schema)) = inr schema ->
  truthy schema = false ->
  is_complete name (on_disk store') = Ok true
  /\ exists msg,
       load json_loads str_of_path name (on_disk store')
       = Ok (inl (ValueError msg)).
Proof.
  intros H Hs Ht. apply save_success in H as (-> & T & _).
  destruct (read_saved _ _ _ _ _ _ T) as (F1 & F2 & R1 & R2 & R3).
  split; [unfold is_complete, path; now rewrite F1, F2|].
  unfold load, path. rewrite F1, F2. cbn [negb rbind].
  rewrite !load_json_safe_value, R1, Hs. unfold and_then. cbn [rbind].
  rewrite Ht. cbn [negb]. eauto.
Qed.



(** X26. Saving a pairing leaves every other pairing as it was, provided its
    directory is neither the target nor the backup name: it exists, is
    complete and loads as before. *)
Theorem save_leaves_other_pairings
    name schema prompt meta store target store' other :
  save json_dumps now_stamp now_iso name schema prompt meta store
  = (Ok target, store') ->
  path other <> target ->
  path other <> backup_name_of now_stamp target ->
  load json_loads str_of_path other (on_disk store')
  = load json_loads str_of_path other (on_disk store)
  /\ is_complete other (on_disk store') = is_complete other (on_disk store)
  /\ exists_ other (on_disk store') = exists_ other (on_disk store).
Proof.
  intros H Ht Hb. apply save_success in H as (_ & _ & O).
  apply load_ext. apply on_disk_ext. now apply O.
Qed.

Lemma contains_app needle a b : contains needle (a ++ needle ++ b) = true.
Proof.
  induction a as [|x a IH].
  - apply startswith_contains. unfold startswith. cbn [String.append].
    induction needle as [|c n IHn]; [now destruct b|].
    cbn [String.append String.prefix].
    destruct (ascii_dec c c); [exact IHn|contradiction].
  - cbn [String.append].
    change (contains needle (String x (a ++ needle ++ b)))
      with (if String.prefix needle (String x (a ++ needle ++ b)) then true
            else contains needle (a ++ needle ++ b)).
    rewrite IH. now destruct (String.prefix _ _).
Qed.

(** One turn of [list_all]: nothing is yielded for a name that is not
    shown, and an entry of that name for one that is, when the run goes
    on. *)
Lemma list_all_step name listing d :
  (shown d name = false /\
   (fst (list_all json_loads (name :: listing) d) = []
    /\ snd (list_all json_loads (name :: listing) d) <> inr Returned
    \/ list_all json_loads (name :: listing) d = list_all json_loads listing d))
  \/ (shown d name = true /\
      (fst (list_all json_loads (name :: listing) d) = []
       /\ snd (list_all json_loads (name :: listing) d) <> inr Returned
       \/ exists entry,
            dict_get "name" entry = Some (JStr name)
            /\ list_all json_loads (name :: listing) d
               = (entry :: fst (list_all json_loads listing d),
                  snd (list_all json_loads listing d)))).
Proof.
  cbn [list_all]. unfold shown.
  destruct (is_dir name d) as [[|]|c msg|].
  - destruct (contains "_backup_" name); cbn [negb]; [left; auto|].
    right. split; [reflexivity|].
    destruct (and_then _ _) as [[e|entry]|c msg|] eqn:E;
      try (left; split; [reflexivity|discriminate]).
    right. exists entry. split; [|reflexivity].
    unfold and_then in E.
    destruct (load_json_safe _ _ _ _) as [[e|meta]|c msg|]; try discriminate.
    cbn [rbind] in E.
    destruct (get_default _ _ meta) as [v|c msg|]; try discriminate.
    cbn [rbind] in E.
    destruct (slice40 v) as [desc|c msg|]; try discriminate. cbn [rbind] in E.
    destruct (file_exists name "schema.json" d) as [a|c msg|]; try discriminate.
    cbn [rbind] in E.
    destruct (file_exists name "prompt.txt" d) as [b|c msg|]; try discriminate.
    cbn [rbind] in E. injection E as <-. reflexivity.
  - left. auto.
  - left. split; [reflexivity|]. left. split; [reflexivity|discriminate].
  - left. split; [reflexivity|]. left. split; [reflexivity|discriminate].
Qed.

(** X27. [list_all] yields, in the order of the listing, entries for
    directories whose names do not hold [_backup_], and when it ends
    normally one entry for each of them: a backup that [save] has made
    is never listed, nor is a pairing whose own directory name holds
    [_backup_], such as the one saved under the name [db backup plan]. *)
Theorem list_all_hides_backups listing d :
  (forall y, In y (fst (list_all json_loads listing d)) ->
     exists name,
       dict_get "name" y = Some (JStr name)
       /\ In name listing /\ shown d name = true
       /\ forall stamp target, name <> backup_name_of stamp target)
  /\ (snd (list_all json_loads listing d) = inr Returned ->
      names_of (fst (list_all json_loads listing d))
      = map JStr (filter (shown d) listing))
  /\ shown d (path "db backup plan") = false.
Proof.
  split; [|split].
  - induction listing as [|name listing IH]; [simpl; tauto|].
    intros y Hy.
    assert (Hrest : In y (fst (list_all json_loads listing d)) ->
              exists n0,
                dict_get "name" y = Some (JStr n0)
                /\ In n0 (name :: listing) /\ shown d n0 = true
                /\ forall stamp target, n0 <> backup_name_of stamp target).
    { intros Hin. destruct (IH y Hin) as (n0 & H1 & H2 & H3).
      exists n0. split; [exact H1|]. split; [now right|exact H3]. }
    destruct (list_all_step name listing d)
      as [[Hs [[E _]|E]]|[Hs [[E _]|(entry & Hn & E)]]];
      try (rewrite E in Hy; try contradiction; now apply Hrest).
    rewrite E in Hy. destruct Hy as [<-|Hy]; [|now apply Hrest].
    exists name. split; [exact Hn|]. split; [now left|]. split; [exact Hs|].
    intros stamp target ->. unfold shown in Hs.
    destruct (is_dir _ d) as [[|]| |]; try discriminate.
    unfold backup_name_of in Hs. now rewrite contains_app in Hs.
  - induction listing as [|name listing IH]; [reflexivity|].
    cbn [filter].
    destruct (list_all_step name listing d)
      as [[Hs [[_ E]|E]]|[Hs [[_ E]|(entry & Hn & E)]]]; rewrite Hs;
      try (intros Hr; now rewrite Hr in E).
    + rewrite E. exact IH.
    + rewrite E. cbn [fst snd]. intros Hr. unfold names_of in *. cbn [map].
      rewrite (IH Hr). unfold get_or_none. now rewrite Hn.
  - unfold shown. destruct (is_dir _ d) as [[|]| |]; reflexivity.
Qed.

(** X28. [resolve_pairing_path] looks for a pairing of a plain name, one that
    holds no path separator and does not end in [.json] or [.txt], under
    the constant [PAIRINGS_DIR], in the directory that [save] chose for
    the name.  So a pairing saved by a repository created without a
    [base_dir], or with [PAIRINGS_DIR] for it, is found again by its
    name: the resolved paths are those of the schema and prompt files
    that [save] wrote; with another [base_dir] they are not.  Any other
    name is taken for a path of its own and is not looked up among the
    pairings. *)
Theorem saved_pairing_is_found_by_name
    base_dir name schema prompt meta store target store' :
  save json_dumps now_stamp now_iso name schema prompt meta store
  = (Ok target, store') ->
  (is_path_like name = false ->
   UtilsIO.resolve_pairing_path name "schema"
   = UtilsIO.Joined [PAIRINGS_DIR; target; "schema.json"]
   /\ UtilsIO.resolve_pairing_path name "prompt"
      = UtilsIO.Joined [PAIRINGS_DIR; target; "prompt.txt"]
   /\ file_exists target "schema.json" (on_disk store') = Ok true
   /\ file_exists target "prompt.txt" (on_disk store') = Ok true
   /\ (init base_dir = PAIRINGS_DIR ->
       UtilsIO.resolve_pairing_path name "schema"
       = written_at base_dir target "schema.json"
       /\ UtilsIO.resolve_pairing_path name "prompt"
          = written_at base_dir target "prompt.txt")
   /\ (init base_dir <> PAIRINGS_DIR ->
       UtilsIO.resolve_pairing_path name "schema"
       <> written_at base_dir target "schema.json"
       /\ UtilsIO.resolve_pairing_path name "prompt"
          <> written_at base_dir target "prompt.txt"))
  /\ (is_path_like name = true ->
      forall ext, UtilsIO.resolve_pairing_path name ext = UtilsIO.Direct name).
Proof.
  intros H. apply save_success in H as (-> & T & _).
  destruct (read_saved _ _ _ _ _ _ T) as (F1 & F2 & _).
  unfold UtilsIO.resolve_pairing_path, is_path_like, written_at.
  destruct (contains "/" name || contains "\" name
            || UtilsIO.endswith name ".json" || UtilsIO.endswith name ".txt").
  - split; [discriminate|reflexivity].
  - split; [|discriminate]. intros _. cbn [String.eqb Ascii.eqb Bool.eqb orb app].
    repeat split; try assumption.
    + now rewrite H.
    + now rewrite H.
    + intros E. injection E as E. congruence.
    + intros E. injection E as E. congruence.
Qed.
End StoreFacts.

Lemma saved_pairing_is_found_by_name_witness :
  let store' :=
    snd (PairingRepository.save tiny_dumps "20260101_120000" "2026-01-01T12:00:00"
           "Invoices 2026" string_schema "Extract the fields." None (fun _ => None)) in
  (is_path_like "Invoices 2026" = false ->
   UtilsIO.resolve_pairing_path "Invoices 2026" "schema"
   = UtilsIO.Joined ["pairings"; "invoices_2026"; "schema.json"]
   /\ UtilsIO.resolve_pairing_path "Invoices 2026" "prompt"
      = UtilsIO.Joined ["pairings"; "invoices_2026"; "prompt.txt"]
   /\ PairingRepository.file_exists "invoices_2026" "schema.json"
        (PairingRepository.on_disk store') = Ok true
   /\ PairingRepository.file_exists "invoices_2026" "prompt.txt"
        (PairingRepository.on_disk store') = Ok true
   /\ (PairingRepository.init (Some "elsewhere") = "pairings" ->
       UtilsIO.resolve_pairing_path "Invoices 2026" "schema"
       = written_at (Some "elsewhere") "invoices_2026" "schema.json"
       /\ UtilsIO.resolve_pairing_path "Invoices 2026" "prompt"
          = written_at (Some "elsewhere") "invoices_2026" "prompt.txt")
   /\ (PairingRepository.init (Some "elsewhere") <> "pairings" ->
       UtilsIO.resolve_pairing_path "Invoices 2026" "schema"
       <> written_at (Some "elsewhere") "invoices_2026" "schema.json"
       /\ UtilsIO.resolve_pairing_path "Invoices 2026" "prompt"
          <> written_at (Some "elsewhere") "invoices_2026" "prompt.txt"))
  /\ (is_path_like "Invoices 2026" = true ->
      forall ext,
        UtilsIO.resolve_pairing_path "Invoices 2026" ext
        = UtilsIO.Direct "Invoices 2026").
Proof.
  intros store'.
  apply (saved_pairing_is_found_by_name tiny_dumps "20260101_120000"
           "2026-01-01T12:00:00" (Some "elsewhere") "Invoices 2026" string_schema
           "Extract the fields." None (fun _ => None) "invoices_2026" store').
  reflexivity.
Defined.

Lemma save_then_load_witness :
  let store' :=
    snd (PairingRepository.save tiny_dumps "20260101_120000" "2026-01-01T12:00:00"
           "invoices" string_schema windows_prompt None (fun _ => None)) in
  PairingRepository.exists_ "invoices" (PairingRepository.on_disk store') = Ok true
  /\ PairingRepository.is_complete "invoices" (PairingRepository.on_disk store')
     = Ok true
  /\ PairingRepository.load tiny_loads tiny_path "invoices"
       (PairingRepository.on_disk store')
     = Ok (inr [("schema", string_schema);
                ("prompt", JStr unix_prompt);
                ("meta",
                 JObj (saved_meta "invoices" "2026-01-01T12:00:00" None))])
  /\ (no_carriage_return windows_prompt = true ->
      PairingRepository.universal_newlines windows_prompt = windows_prompt)
  /\ dict_get "name" (saved_meta "invoices" "2026-01-01T12:00:00" None) <> None
  /\ dict_get "created" (saved_meta "invoices" "2026-01-01T12:00:00" None) <> None.
Proof.
  intros store'.
  apply (save_then_load tiny_dumps tiny_loads tiny_path "20260101_120000"
           "2026-01-01T12:00:00" "invoices" string_schema windows_prompt
           None (fun _ => None) "invoices" store');
    reflexivity.
Defined.

Lemma empty_schema_saves_but_does_not_load_witness :
  let store' :=
    snd (PairingRepository.save tiny_dumps "20260101_120000" "2026-01-01T12:00:00"
           "invoices" (JObj []) "Extract the fields." None (fun _ => None)) in
  PairingRepository.is_complete "invoices" (PairingRepository.on_disk store')
  = Ok true
  /\ exists msg,
       PairingRepository.load tiny_loads tiny_path "invoices"
         (PairingRepository.on_disk store')
       = Ok (inl (PairingRepository.ValueError msg)).
Proof.
  intros store'.
  apply (empty_schema_saves_but_does_not_load tiny_dumps tiny_loads tiny_path
           "20260101_120000" "2026-01-01T12:00:00" "invoices" (JObj [])
           "Extract the fields." None (fun _ => None) "invoices" store');
    reflexivity.
Defined.

Lemma save_leaves_other_pairings_witness :
  let store' :=
    snd (PairingRepository.save tiny_dumps "20260101_120000" "2026-01-01T12:00:00"
           "invoices" string_schema "Extract the fields." None example_store) in
  PairingRepository.load tiny_loads tiny_path "My Pairing"
    (PairingRepository.on_disk store')
  = PairingRepository.load tiny_loads tiny_path "My Pairing"
      (PairingRepository.on_disk example_store)
  /\ PairingRepository.is_complete "My Pairing" (PairingRepository.on_disk store')
     = PairingRepository.is_complete "My Pairing"
         (PairingRepository.on_disk example_store)
  /\ PairingRepository.exists_ "My Pairing" (PairingRepository.on_disk store')
     = PairingRepository.exists_ "My Pairing"
         (PairingRepository.on_disk example_store).
Proof.
  intros store'.
  apply (save_leaves_other_pairings tiny_dumps tiny_loads tiny_path
           "20260101_120000" "2026-01-01T12:00:00" "invoices" string_schema
           "Extract the fields." None example_store "invoices" store' "My Pairing");
    [reflexivity|discriminate|discriminate].
Defined.

(** On a damaged pairing [load] lets the [OSError] of the prompt escape,
    and [list_all] the [UnicodeDecodeError] of the metadata. *)
Lemma damaged_pairing_examples :
  PairingRepository.load tiny_loads tiny_path "invoices" damaged_disk
  = Raise OSError "Is a directory"
  /\ PairingRepository.list_all tiny_loads ["invoices"] damaged_disk
     = ([], inl (PairingRepository.UnicodeDecodeError "invalid start byte")).
Proof. split; reflexivity. Qed.

(* ===================================================================== *)
(** ** What normalisation leaves alone *)
(* ===================================================================== *)

Lemma descend_from_empty path d :
  descend (JObj []) path = Some (JObj d) -> path = [] /\ d = [].
Proof.
  destruct path as [|s path]; cbn [descend].
  - intros H. now injection H.
  - destruct s; simpl; try discriminate.
    destruct (is_combinator key); discriminate.
Qed.

(** What [_norm] makes of any node: its property keys renamed in place,
    the other keywords untouched. *)
Lemma norm_node_keeps fuel d y :
  produces (_norm fuel) (JObj d) y ->
  exists o,
    y = JObj o
    /\ dict_keys (properties_of o)
       = distinct_in_order (map renamed (dict_keys (properties_of d)))
    /\ forall k, existsb (String.eqb k) handled_keys = false ->
                 dict_get k o = dict_get k d.
Proof.
  intros (rm & rm' & H).
  apply norm_node_Ok in H as (f & o & _ & -> & Hn).
  exists o. split; [reflexivity|].
  apply (norm_dict_lookups _ (norm_leaf f)) in Hn
    as (o' & E & _ & Lp & _ & _ & _ & _ & _ & Lo).
  injection E as <-. split; [|exact Lo].
  unfold properties_of.
  destruct (dict_get "properties" d) as [[| | | | |ps]|]; try (now rewrite Lp).
  destruct Lp as (ps' & ra & rb & Hp & ->).
  apply norm_props_keys in Hp. exact Hp.
Qed.

Lemma fix_node_keeps fuel o y :
  _fix_required fuel (JObj o) = Ok y ->
  exists o',
    y = JObj o'
    /\ dict_keys (properties_of o') = dict_keys (properties_of o)
    /\ forall k, existsb (String.eqb k) handled_keys = false ->
                 dict_get k o' = dict_get k o.
Proof.
  intros H. apply fix_node_Ok in H as (f & o' & _ & -> & Hn).
  exists o'. split; [reflexivity|].
  split; [eapply fix_dict_property_keys; exact Hn|].
  apply fix_dict_lookups in Hn as (o2 & E & _ & _ & _ & _ & Lo).
  injection E as <-. intros k Hk. apply Lo.
  simpl in Hk |- *.
  destruct (String.eqb k "properties"), (String.eqb k "items"),
    (String.eqb k "required"); try discriminate; reflexivity.
Qed.

(** X29. Normalisation renames property keys and rewrites [required], and
    nothing else: at every node of a schema with distinct keys, reached
    along a path on which no property step leaves a node with colliding
    property names, the node found at the same place of the normalised
    schema has the renamed forms of the same property keys, in the same
    order, each once, and the same value under every keyword other than
    [properties], [items], [required], [anyOf], [oneOf], [allOf] and
    [$defs]. *)
Theorem normalize_keeps_the_other_keywords
    schema normalized rename_map path d :
  wf_json schema = true ->
  clear_path schema path = true ->
  descend schema path = Some (JObj d) ->
  normalize_schema_for_backend schema = Ok (normalized, rename_map) ->
  exists d',
    descend normalized (map rename_step path) = Some (JObj d')
    /\ dict_keys (properties_of d')
       = distinct_in_order (map renamed (dict_keys (properties_of d)))
    /\ forall k, existsb (String.eqb k) handled_keys = false ->
                 dict_get k d' = dict_get k d.
Proof.
  intros Hwf Hclear Hpath Hnorm.
  unfold normalize_schema_for_backend in Hnorm.
  destruct schema as [| | | | |[|e d0]];
    try (destruct path; cbn [descend child_at] in Hpath; discriminate).
  - injection Hnorm as <- <-.
    apply descend_from_empty in Hpath as [-> ->]. exists []. auto.
  - destruct (_norm _ _ []) as [[n1 rm1]| |] eqn:En; try discriminate.
    destruct (_fix_required _ n1) as [n2| |] eqn:Ef; try discriminate.
    simpl in Hnorm. injection Hnorm as <- <-.
    destruct (norm_descend _ _ _ _ _ _ _ En Hwf Hclear Hpath)
      as (y1 & Hy1 & f1 & Hp).
    destruct (norm_node_keeps _ _ _ Hp) as (o1 & -> & Hk1 & Ho1).
    destruct (fix_descend _ _ _ _ _ Ef Hy1) as (y & Hy & Hrel).
    destruct Hrel as [->|(f2 & Hf2)].
    + exists o1. auto.
    + destruct (fix_node_keeps _ _ _ Hf2) as (o2 & -> & Hk2 & Ho2).
      exists o2. split; [exact Hy|]. split; [now rewrite Hk2|].
      intros k Hk. now rewrite Ho2, Ho1.
Qed.

Lemma normalize_keeps_the_other_keywords_witness :
  exists d',
    descend scenario_normalized [in_property "_prop_required"] = Some (JObj d')
    /\ dict_keys (properties_of d')
       = distinct_in_order (map renamed (dict_keys (properties_of [("type", JStr "string")])))
    /\ forall k, existsb (String.eqb k) handled_keys = false ->
                 dict_get k d' = dict_get k [("type", JStr "string")].
Proof.
  apply (normalize_keeps_the_other_keywords scenario_schema scenario_normalized
           [("_prop_required", "required")] [in_property "required"]
           [("type", JStr "string")]);
    reflexivity.
Defined.

(* ===================================================================== *)
(** ** What normalisation raises *)
(* ===================================================================== *)

Section OnlyM.
Variable self : json -> M json.
Hypothesis self_only : forall x rm, attribute_error_only (self x rm).

Lemma only_bind {A B} (c : M A) (k : A -> M B) rm :
  attribute_error_only (c rm) ->
  (forall a r1, attribute_error_only (k a r1)) ->
  attribute_error_only (bind c k rm).
Proof.
  intros Hc Hk. unfold bind. destruct (c rm) as [[a r1]| |]; [apply Hk|exact Hc|exact Logic.I].
Qed.

Lemma only_mapM {A B} (f : A -> M B) l :
  (forall x r, attribute_error_only (f x r)) ->
  forall rm, attribute_error_only (mapM f l rm).
Proof.
  intros Hf. induction l as [|x l IH]; intros rm; simpl; [exact Logic.I|].
  apply only_bind; [apply Hf|]. intros y r1.
  apply only_bind; [apply IH|]. intros; exact Logic.I.
Qed.

Lemma only_norm_if_dict x rm : attribute_error_only (norm_if_dict self x rm).
Proof. unfold norm_if_dict. destruct (is_dict x); [apply self_only|exact Logic.I]. Qed.

Lemma only_norm_props props :
  forall acc rm, attribute_error_only (norm_props self props acc rm).
Proof.
  induction props as [|[k v] props IH]; intros acc rm; simpl; [exact Logic.I|].
  destruct (reserved k).
  - apply only_bind; [exact Logic.I|]. intros [] r1.
    apply only_bind; [apply self_only|]. intros; apply IH.
  - apply only_bind; [apply self_only|]. intros; apply IH.
Qed.

Lemma only_norm_defs defs :
  forall acc rm, attribute_error_only (norm_defs self defs acc rm).
Proof.
  induction defs as [|[k v] defs IH]; intros acc rm; simpl; [exact Logic.I|].
  apply only_bind; [apply only_norm_if_dict|]. intros; apply IH.
Qed.

Lemma only_keys_of {B} x (k : list json -> M B) rm :
  (forall ks r, attribute_error_only (k ks r)) ->
  attribute_error_only (bind (keys_of x) k rm).
Proof.
  intros Hk. apply only_bind; [|exact Hk]. destruct x; simpl; trivial.
Qed.

Lemma only_step_properties d rm : attribute_error_only (step_properties self d rm).
Proof.
  unfold step_properties. destruct (get_or_none "properties" d); try exact Logic.I.
  apply only_bind; [apply only_norm_props|]. intros; exact Logic.I.
Qed.

Lemma only_step_items d rm : attribute_error_only (step_items self d rm).
Proof.
  unfold step_items. destruct (get_or_none "items" d); try exact Logic.I.
  - apply only_bind; [apply only_mapM; intros; apply only_norm_if_dict|].
    intros; exact Logic.I.
  - apply only_bind; [apply self_only|]. intros; exact Logic.I.
Qed.

Lemma only_step_required d rm : attribute_error_only (step_required d rm).
Proof.
  unfold step_required.
  assert (Hk : forall x, attribute_error_only
             ((if truthy x
               then bind (keys_of x)
                      (fun ks => ret (dict_set "required" (JArr ks) d))
               else ret (dict_set "required" (JArr []) d)) rm)).
  { intros x. destruct (truthy x); [|exact Logic.I].
    apply only_keys_of. intros; exact Logic.I. }
  destruct (get_or_none "required" d) as [|[|]| | |l|].
  - destruct (get_or_none "properties" d) as [| | | | |[|]]; exact Logic.I.
  - simpl. apply only_keys_of. intros; exact Logic.I.
  - exact Logic.I.
  - simpl. apply Hk.
  - simpl. apply Hk.
  - destruct (is_str_list (JArr l)); [exact Logic.I|apply Hk].
  - exact Logic.I.
Qed.

Lemma only_step_combinator key d rm :
  attribute_error_only (step_combinator self key d rm).
Proof.
  unfold step_combinator. destruct (dict_get key d) as [[]|]; try exact Logic.I.
  apply only_bind; [apply only_mapM; intros; apply only_norm_if_dict|].
  intros; exact Logic.I.
Qed.

Lemma only_step_defs d rm : attribute_error_only (step_defs self d rm).
Proof.
  unfold step_defs. destruct (dict_get "$defs" d) as [[]|]; try exact Logic.I.
  apply only_bind; [apply only_norm_defs|]. intros; exact Logic.I.
Qed.

Lemma only_norm_dict d rm : attribute_error_only (norm_dict self d rm).
Proof.
  unfold norm_dict.
  apply only_bind; [apply only_step_properties|]. intros o1 r1.
  apply only_bind; [apply only_step_items|]. intros o2 r2.
  apply only_bind; [apply only_step_required|]. intros o3 r3.
  apply only_bind; [apply only_step_combinator|]. intros o4 r4.
  apply only_bind; [apply only_step_combinator|]. intros o5 r5.
  apply only_bind; [apply only_step_combinator|]. intros o6 r6.
  apply only_bind; [apply only_step_defs|]. intros; exact Logic.I.
Qed.
End OnlyM.

Lemma only_norm fuel : forall x rm, attribute_error_only (_norm fuel x rm).
Proof.
  induction fuel as [|fuel IH]; intros x rm; destruct x; try exact Logic.I.
  simpl. now apply only_norm_dict.
Qed.

Lemma only_rbind {A B} (c : Res A) (k : A -> Res B) :
  attribute_error_only c ->
  (forall a, c = Ok a -> attribute_error_only (k a)) ->
  attribute_error_only (rbind c k).
Proof.
  intros Hc Hk. destruct c as [a| |]; simpl; [now apply Hk|exact Hc|exact Logic.I].
Qed.

Lemma fix_entries_of_strings req :
  forallb is_str req = true -> exists req', rmapM fix_entry req = Ok req'.
Proof.
  induction req as [|r req IH]; simpl; [eauto|].
  intros H. apply andb_true_iff in H as [Hr Hreq].
  destruct r; try discriminate. destruct (IH Hreq) as (req' & ->).
  simpl. destruct (reserved s); simpl; eauto.
Qed.

Section OnlyFix.
Variable self : json -> Res json.

Lemma only_fix_values props :
  (forall v, In v (dict_values props) -> attribute_error_only (self v)) ->
  attribute_error_only (fix_values self props).
Proof.
  induction props as [|[k v] props IH]; intros Hv; simpl; [exact Logic.I|].
  apply only_rbind; [apply Hv; now left|]. intros v' _.
  apply only_rbind; [apply IH; intros; apply Hv; now right|].
  intros; exact Logic.I.
Qed.

Lemma only_fix_dict d :
  normal_required d ->
  (forall y, In y (children d) -> attribute_error_only (self y)) ->
  attribute_error_only (fix_dict self d).
Proof.
  intros Hreq Hch. unfold fix_dict.
  apply only_rbind.
  { unfold fix_own_required.
    destruct (get_or_none "properties" d); try exact Logic.I.
    unfold normal_required in Hreq.
    destruct (get_or_none "required" d) as [| | | |req|]; try exact Logic.I.
    simpl in Hreq. destruct (fix_entries_of_strings _ Hreq) as (req' & ->).
    exact Logic.I. }
  intros o1 H1. apply fix_own_required_rewrites in H1.
  apply only_rbind.
  { unfold fix_properties, get_or_none.
    rewrite (rewrites_other _ _ _ "properties" H1 eq_refl).
    destruct (dict_get "properties" d) as [p|] eqn:Ep; [|exact Logic.I].
    destruct (truthy p); [|exact Logic.I].
    destruct p; try reflexivity.
    apply only_rbind; [|intros; exact Logic.I].
    apply only_fix_values. intros v Hv. apply Hch.
    eapply children_intro_property; eassumption. }
  intros o2 H2. apply fix_properties_rewrites in H2.
  apply only_rbind; [|intros; exact Logic.I].
  unfold fix_items.
  rewrite (rewrites_other _ _ _ "items" H2 eq_refl),
    (rewrites_other _ _ _ "items" H1 eq_refl).
  destruct (dict_get "items" d) as [[| | | | |it]|] eqn:Ei; try exact Logic.I.
  apply only_rbind; [|intros; exact Logic.I].
  apply Hch. now apply children_intro_items.
Qed.
End OnlyFix.

Lemma only_fix fuel :
  forall n, all_nodes normal_node n -> attribute_error_only (_fix_required fuel n).
Proof.
  induction fuel as [|fuel IH]; intros n Hn; destruct n as [| | | | |d];
    try exact Logic.I.
  rewrite fix_node. apply all_nodes_node_inv in Hn as [[Hreq _] Hc].
  apply only_fix_dict; [exact Hreq|]. intros y Hy. apply IH. now apply Hc.
Qed.

(** X30. On a schema nested no deeper than the interpreter's recursion
    limit leaves room for (a hundred levels of mappings and sequences),
    [normalize_schema_for_backend] comes to an end, and the only
    exception it raises is [AttributeError], which it raises only for a
    schema some node of which has a [properties] that is no mapping. *)
Theorem normalize_raises_only_attribute_error schema :
  within_recursion_limit schema = true ->
  match normalize_schema_for_backend schema with
  | Ok _ => True
  | Raise c _ => c = AttributeError /\ every_node properties_is_map schema = false
  | OutOfFuel => False
  end.
Proof.
  intros _.
  pose proof (normalize_runs false schema (fun H => False_ind _ (diff_false_true H)))
    as Hruns.
  pose proof (normalize_runs true schema) as Hstrict.
  assert (Honly : attribute_error_only (normalize_schema_for_backend schema)).
  { unfold normalize_schema_for_backend.
    destruct schema as [| | | | |[|e d]]; try exact Logic.I.
    pose proof (only_norm (json_depth (JObj (e :: d))) (JObj (e :: d)) []) as Hn.
    destruct (_norm _ _ []) as [[n rm]| |] eqn:En; [|exact Hn|exact Logic.I].
    apply only_rbind; [|intros; exact Logic.I].
    apply only_fix. eapply norm_normal; exact En. }
  destruct (normalize_schema_for_backend schema) as [r|c msg|];
    [exact Logic.I| |exact Hruns].
  split; [exact Honly|].
  destruct (every_node properties_is_map schema); [|reflexivity].
  specialize (Hstrict (fun _ => eq_refl)). simpl in Hstrict. discriminate.
Qed.

Lemma normalize_raises_only_attribute_error_witness :
  exists msg,
    normalize_schema_for_backend schema_with_listed_properties
    = Raise AttributeError msg
    /\ every_node properties_is_map schema_with_listed_properties = false.
Proof.
  pose proof (normalize_raises_only_attribute_error schema_with_listed_properties
                eq_refl) as H.
  destruct (normalize_schema_for_backend schema_with_listed_properties)
    as [r|c msg|] eqn:E; [vm_compute in E; discriminate| |contradiction].
  destruct H as [-> H]. exists msg. split; [reflexivity|exact H].
Defined.
